(* ===== verification/_CoqProject ===== *)
-Q . S2P
Prelude.v
CxxPath.v
CxxTime.v
CxxStream.v
Element.v
ExtFs.v
Node.v
Tree.v
TreeInv.v
TreeOps.v
TreeCopy.v
TreeIO.v
TreeLoad.v
TreeHash.v
TreeSymlink.v
Diff.v
DiffSpec.v
Diff3Spec.v
FileSystem.v
FsSpec.v
MetaFiles.v
MetaSpec.v
TreeFs.v
FsData.v
Status.v
Threads.v
ScanSpec.v
TreeApi.v
SyncSpec.v
SyncOps.v
SyncCopy.v
Backup.v
ThreadsSpec.v
BackupSpec.v
BackupRun.v
Scrub.v
ScrubSpec.v
QuickSpec.v
RepairSpec.v
Commands.v
CommandsSpec.v
CommandsRun.v
BackupCommand.v
QuickBackup.v
RepairCommand.v
TouchUp.v
Dated.v
DatedFiles.v
Console.v
BackupTalk.v
ScrubTalk.v
CommandsTalk.v
TalkSpec.v
TalkCommands.v
Dialogue.v
Announce.v
Verdict.v
Samples.v
ThmFormat.v
ThmTree.v
ThmDiff.v
ThmFs.v
ThmThreads.v
ThmSync.v
ThmBackup.v
ThmScrub.v
ThmCommands.v
ThmConsole.v
