(* ===== verification/Prelude.v ===== *)
(** * DirectoryDiffMerge: a verified model of the ddm backup tool

    ddm keeps metadata of directory trees (type, permissions, owner, time, size,
    SHA1 and link target of every file), stores it in text files, compares two
    or three trees, and uses the comparison to scrub a backup (find and repair
    damaged files) and to bring a backup up to date.

    ** The program and its model

    - [FilesystemElement], [CompareOpt] (src/core.h, src/core.cpp): one file.
      [Element.v]; its record has the fields of the class, [readFrom] and
      [writeTo] are the metadata line, [compare], [elem_eqb], [elem_ltb] the
      comparisons. [CxxPath.v], [CxxTime.v] and [CxxStream.v] model what these
      use of the standard library: [std::filesystem::path] as a string, calendar
      time, formatted streams.
    - [DirectoryNode] (src/core.h, src/core.cpp): an element and the content of a
      directory. [Node.v]; a node has the identity of the C++ object, because
      the tree is also reached through pointers.
    - [DirectoryTree] (src/core.h, src/core.cpp): the nodes, an index from paths to
      pointers, the directory it is bound to. [Tree.v] has the operations in
      memory, as methods that pass the tree on and may throw, fail an assertion
      or follow a dangling pointer; [TreeIO.v] the metadata files; [TreeFs.v] the
      operations that also read or change the filesystem, on the filesystem of
      [FileSystem.v]; [MetaFiles.v] opens, writes and renames files by name.
    - [diff2], [diff3] (src/core.cpp): [Diff.v], with the reference definitions
      that the theorems compare them with.
    - src/extfs.h, src/extfs.cpp: [ExtFs.v], mode bits and the caches of owner
      names; the two calls that change a file are in [FileSystem.v]. [Status.v] has
      [ext_file_status] and the constructor of an element that uses it, and shows
      that the filesystem model, with types and names, is what they see.
    - the two threads of [scanSourceTargetDir] (src/backup.cpp): [Threads.v]. A
      thread is the scan as a program that asks for owner names; a lookup is a
      sequence of steps between taking and releasing the mutex of src/extfs.cpp,
      on caches and a buffer that both threads share ([thread_step]), and the
      steps of the threads interleave ([step]).
    - backup (src/backup.cpp): [Backup.v] has [backupImpl] on a desk with the
      backup tree, an optional metadata tree, the files and the standard input,
      the scan of both directories and the backup without metadata files.
    - scrub (src/backup.cpp): [Scrub.v] has the tree manager and its destructor,
      the repair of one entry, and the loop of [scrubImpl] over the differences.
    - src/main.cpp, and the functions of src/backup.cpp that it calls:
      [Commands.v], from the command line, parsed by Boost, to the exit code, the
      output and the files that are left.
    - the dialogue with the user (src/color.h, and the texts written to the standard
      output in src/backup.cpp): [Console.v] adds a log to the methods, with every
      text that is written and every answer that is read, in their order.
      [BackupTalk.v], [ScrubTalk.v] and [CommandsTalk.v] have the functions of
      [Backup.v], [Scrub.v] and [Commands.v] once more, under their names with _io,
      as they talk.

    ** What is proved

    [TreeInv.v] defines the invariant of a tree ([tree_inv]: paths follow the
    nesting, identities and paths are unique, the index has exactly the nodes)
    and the abstract view of a tree, a finite map from paths to elements
    ([model]). Every operation is proved to refine an operation on that map:
    [TreeOps.v] (modification, removal), [TreeCopy.v] (copies between trees),
    [TreeHash.v] (missing hashes), [TreeSymlink.v] (the operation that does not
    keep the index), [TreeIO.v] and [TreeLoad.v] (writing, reading, round trip),
    [DiffSpec.v] and [Diff3Spec.v] (the diffs against their references),
    [FsSpec.v] and [ScanSpec.v] (scanning a directory yields its picture).
    [TreeApi.v] puts them together: a tree built by any sequence of operations, on
    the tree or on tree and filesystem, failed ones included, but without those that
    add a symlink and on files that the program wrote, has the invariant, is sorted
    and holds well-typed elements. [ThreadsSpec.v] has the invariant of the two threads,
    their progress and a bound on their steps, and shows that every interleaving
    gives the trees of two scans done one after the other.
    [FsData.v] shows for any tree and any files that no operation changes the
    content of a file that exists, by classes that are closed under sequencing,
    loops and handlers. [SyncSpec.v] defines when a tree depicts the directory it is bound to
    ([bound]) and, with [SyncOps.v] and [SyncCopy.v], shows that the operations
    which change both keep it so.

    [BackupSpec.v] and [BackupRun.v] show that a backup settles one difference
    after the other without disturbing the rest. [ScrubSpec.v] shows that a scrub
    without --fixup ends, because every further round starts with fewer paths in
    disagreement, and what its result says. [RepairSpec.v] shows that a scrub with
    --fixup, where source directory and metadata agree, does to the backup
    directory what a backup without metadata would do, path by path, until it
    agrees as well. [MetaSpec.v] describes what writing and renaming files leaves
    alone and which trees survive a metadata file, [CommandsSpec.v] what the
    commands return, [CommandsRun.v] puts loading, scanning, scrubbing and saving
    together, [BackupCommand.v] the scrub, the backup and the saving of a backup
    with metadata files, [RepairCommand.v] a repair with a source directory, and
    [TouchUp.v] one without, which restores attributes. [QuickSpec.v] and
    [QuickBackup.v] do this for a backup that does not hash all files, and show
    where the hashes that it saves come from. The class [Attribute]
    of [TreeOps.v] is the interface of the three operations that change metadata:
    the theorems on tree, directory and backup are proved against it once.

    [TalkSpec.v] and [TalkCommands.v] show that a function with its messages does
    what the silent one does ([tells]); the texts contain elements, and printing one
    fails on a time beyond the calendar, so [Dated.v] and [DatedFiles.v] show that
    no operation brings such a time into a tree. [Dialogue.v] is the protocol of
    questions and answers (class [Polite]), [Announce.v] shows that a file is only
    deleted after its path was written (class [Announces]), and [Verdict.v] what
    the last messages say.

    The properties are in [ThmDiff.v], [ThmTree.v], [ThmFormat.v], [ThmFs.v],
    [ThmThreads.v], [ThmSync.v], [ThmBackup.v], [ThmScrub.v], [ThmCommands.v] and
    [ThmConsole.v], with instances on the trees of [Samples.v]: what the diffs report and when they are empty;
    copying, removing and modifying entries with every error case; what metadata
    files and lines keep and what they lose; scanning; owner names; threads; trees and
    directories that change together; the state in which a backup and a scrub
    leave directory, metadata files and standard input; exit codes; messages. Some of them
    show defects: a link added without an index entry, and the scrub that fails
    on it; assertions of [diff3] and [scrubImpl] that do not hold when hashes are
    missing; permission bits and directories that a metadata file drops; a scrub
    that accepts damaged content, and one that leaves a difference it reports as
    repaired; a change of owner that is recorded in the tree but not made, or that
    clears permission bits; a question that is repeated forever.

    ** Choices

    - Assertions are enabled in the build (-UNDEBUG), so a failed assertion is an
      outcome of its own, [AssertFailed]; an exception is [Throw]; what a method
      changed before it throws stays changed.
    - Sizes, times and link counts are unbounded integers; sizes are checked against
      the range of [off_t] when they are read. Where the code narrows a longer integer
      to [int], the model does ([to_int]): the sizes that sysconf gives for the
      buffers of the user database and the number of entries that remove_all removed. Permission bits are handled with
      [Z.land], [Z.ldiff] and [Z.lor].
    - What the system allows is a part of the filesystem ([Rights]): whether the
      program may change owners, and which names of users and groups are known. A
      change of owner to another name throws, and a successful one clears the set-uid
      and set-gid bits as lchown does ([chown_mode]).
    - Theorems on whole commands are about files that are [storable]: their metadata
      fits on a line of a metadata file, and they have none of the set-uid, set-gid
      and sticky bits, which a line does not keep.
    - The order in which hash sets and directories are listed, the hash function,
      the current directory, the system calls of [Status.v], the user database and
      the parser of Boost are parameters; the class [BoostParser] says what is
      relied on of the last.
    - Recursion on something other than the structure of its argument takes fuel:
      the diffs use the number of nodes of the first tree, scanning the depth of
      the filesystem, the ignore list the length of the text. A scrub takes the
      number of rounds as an argument; more rounds than there are paths in
      disagreement are enough without --fixup, and with it where source directory
      and metadata agree. [OutOfFuel] is an outcome that the
      theorems exclude.
    - A question that the standard input never answers is the outcome [Hangs]; an
      exception in the destructor of the tree manager is [Terminated].

    ** Not modelled

    What goes to the standard error: usage, warnings (a tree keeps the list of its
    own) and the message of an exception that ends the program. The
    libraries that the program calls: Boost, and the SHA1 of Crypto++, of which the
    sources have only the includes (src/cryptopp.h). Paths have no
    links in their directory part, and the directories given to the program are
    not links themselves; access permissions are not checked, but for the right to
    change owners. Names of a file with several hard links are files of their own
    with the same link count: a change through one name is not seen through another. *)

From stdpp Require Export base gmap strings list sorting.
From Stdlib Require Export Ascii.
From Stdlib Require Import DecimalString DecimalN.

(** ** Outcomes of C++ code

    A call either returns, throws an exception, fails an [assert] (the build
    passes -UNDEBUG, so assertions stay enabled and abort the program), or
    dereferences a pointer that does not designate a node of the tree. It may
    also wait forever for an answer that the standard input does not have
    ([Hangs]), or be ended because an exception leaves a destructor
    ([Terminated]). [OutOfFuel] is no behaviour of the program: it marks a model recursion
    that was given too little fuel; the theorems show it is never reached. *)

Inductive error :=
  | Throw (what : string)
  | AssertFailed (where_ : string)
  | Dangling
  | Hangs
  | Terminated (what : string)
  | OutOfFuel.

Inductive outcome (A : Type) :=
  | Ok (a : A)
  | Err (e : error).
Arguments Ok {A} a.
Arguments Err {A} e.

#[global] Instance error_eq_dec : EqDecision error.
Proof. solve_decision. Defined.

#[global] Instance outcome_eq_dec `{EqDecision A} : EqDecision (outcome A).
Proof. solve_decision. Defined.

#[global] Instance outcome_ret : MRet outcome := fun A a => Ok a.
#[global] Instance outcome_bind : MBind outcome := fun A B k m =>
  match m with Ok a => k a | Err e => Err e end.

Lemma bind_ok {A B} (m : outcome A) (k : A -> outcome B) b :
  m ≫= k = Ok b -> exists a, m = Ok a /\ k a = Ok b.
Proof. destruct m as [a|e]; [by exists a|done]. Qed.

(** [assert(b)] *)
Definition cassert (b : bool) (where_ : string) : outcome unit :=
  if b then Ok tt else Err (AssertFailed where_).

Definition from_option_err {A} (e : error) (o : option A) : outcome A :=
  match o with Some a => Ok a | None => Err e end.

(** A method that mutates an object of type [S] and may throw: whatever it did
    to the object before the exception stays done. *)
Definition method (S A : Type) : Type := S -> outcome A * S.

#[global] Instance method_ret S : MRet (method S) := fun A a s => (Ok a, s).
#[global] Instance method_bind S : MBind (method S) := fun A B k m s =>
  match m s with
  | (Ok a, s') => k a s'
  | (Err e, s') => (Err e, s')
  end.

Definition get_state {S} : method S S := fun s => (Ok s, s).
Definition put_state {S} (s : S) : method S unit := fun _ => (Ok tt, s).
Definition lift_outcome {S A} (m : outcome A) : method S A := fun s => (m, s).

(** conversion of a longer integer to [int] *)
Definition to_int (z : Z) : Z := ((z + 2 ^ 31) mod 2 ^ 32 - 2 ^ 31)%Z.

Lemma to_int_small z : (- 2 ^ 31 <= z < 2 ^ 31)%Z -> to_int z = z.
Proof. intros H. unfold to_int. rewrite Z.mod_small; lia. Qed.

(** ** Loops over a list *)

Section for_each.
Context {A St : Type} (body : A -> St -> outcome St).

(** [for(auto& x : l) body], the body threading a state *)
Fixpoint for_each (l : list A) (s : St) : outcome St :=
  match l with
  | [] => Ok s
  | x :: l' => s' ← body x s; for_each l' s'
  end.

Lemma for_each_app l1 l2 s :
  for_each (l1 ++ l2) s = (s' ← for_each l1 s; for_each l2 s').
Proof.
  revert s; induction l1 as [|x l1 IH]; intros s; simpl; [done|].
  destruct (body x s); simpl; auto.
Qed.

Lemma for_each_cons x l s :
  for_each (x :: l) s = (s' ← body x s; for_each l s').
Proof. done. Qed.
End for_each.

Section run_each.
Context {S A : Type} (body : A -> method S unit).

(** [for(auto& x : l) body], the body a method *)
Fixpoint run_each (l : list A) : method S unit :=
  match l with
  | [] => mret tt
  | x :: l' => _ ← body x; run_each l'
  end.
End run_each.

Section omap_all.
Context {A B : Type} (f : A -> outcome B).

Fixpoint omap_all (l : list A) : outcome (list B) :=
  match l with
  | [] => Ok []
  | x :: l' => y ← f x; ys ← omap_all l'; Ok (y :: ys)
  end.

Lemma omap_all_ok g l :
  Forall (fun x => f x = Ok (g x)) l -> omap_all l = Ok (g <$> l).
Proof. induction 1 as [|x l Hx _ IH]; simpl; [done|]. by rewrite Hx, IH. Qed.
End omap_all.

Section mutate_each.
Context {A : Type} (f : A -> outcome unit * A).

(** [for(auto& x : l) x.f()]: an exception leaves the elements before it
    mutated and those after it untouched *)
Fixpoint mutate_each (l : list A) : outcome unit * list A :=
  match l with
  | [] => (Ok tt, [])
  | x :: l' =>
      match f x with
      | (Ok _, x') => let '(r, l'') := mutate_each l' in (r, x' :: l'')
      | (Err e, x') => (Err e, x' :: l')
      end
  end.
End mutate_each.

(** ** Stable sort: [std::list::sort] with a boolean "less than" *)

Section stable_sort.
Context {A : Type} (lt : A -> A -> bool).

Fixpoint sort_insert (x : A) (l : list A) : list A :=
  match l with
  | [] => [x]
  | y :: l' => if lt y x then y :: sort_insert x l' else x :: y :: l'
  end.

Definition list_sort (l : list A) : list A := foldr sort_insert [] l.

(** no element is less than one that precedes it *)
Definition in_order (x y : A) : Prop := lt y x = false.

Lemma sort_insert_perm x l : sort_insert x l ≡ₚ x :: l.
Proof.
  induction l as [|y l IH]; simpl; [done|].
  destruct (lt y x); [|done]. rewrite IH. apply Permutation_swap.
Qed.

Lemma list_sort_perm l : list_sort l ≡ₚ l.
Proof.
  induction l as [|x l IH]; simpl; [done|].
  by rewrite sort_insert_perm, IH.
Qed.

(** Sorting a list that is already in order changes nothing. *)
Lemma list_sort_id l : StronglySorted in_order l -> list_sort l = l.
Proof.
  induction 1 as [|x l Hl IH Hx]; simpl; [done|]. rewrite IH.
  destruct Hx as [|y l Hy _]; simpl; [done|]. by rewrite Hy.
Qed.

Context (lt_asym : forall x y, lt x y = true -> lt y x = false)
        (lt_ntrans : forall x y z, lt y x = false -> lt z y = false -> lt z x = false).

Lemma sort_insert_sorted x l :
  StronglySorted in_order l -> StronglySorted in_order (sort_insert x l).
Proof using lt_asym lt_ntrans.
  induction 1 as [|y l Hl IH Hy]; simpl; [by repeat constructor|].
  destruct (lt y x) eqn:Hyx.
  - constructor; [done|]. rewrite sort_insert_perm. constructor; [by apply lt_asym in Hyx|done].
  - constructor; [by constructor|]. constructor; [done|].
    eapply Forall_impl; [exact Hy|]. intros z Hz. by eapply lt_ntrans.
Qed.

Lemma list_sort_sorted l : StronglySorted in_order (list_sort l).
Proof using lt_asym lt_ntrans.
  induction l as [|x l IH]; simpl; [constructor|]. by apply sort_insert_sorted.
Qed.
End stable_sort.

Lemma sort_insert_fmap {A B} (ltA : A -> A -> bool) (ltB : B -> B -> bool) (f : A -> B) x l :
  (forall y z, ltB (f y) (f z) = ltA y z) ->
  f <$> sort_insert ltA x l = sort_insert ltB (f x) (f <$> l).
Proof.
  intros Hf. induction l as [|y l IH]; simpl; [done|].
  rewrite Hf. destruct (ltA y x); [|done]. by rewrite fmap_cons, IH.
Qed.

Lemma list_sort_fmap {A B} (ltA : A -> A -> bool) (ltB : B -> B -> bool) (f : A -> B) l :
  (forall y z, ltB (f y) (f z) = ltA y z) ->
  f <$> list_sort ltA l = list_sort ltB (f <$> l).
Proof.
  intros Hf. induction l as [|x l IH]; simpl; [done|].
  unfold list_sort in *. by rewrite (sort_insert_fmap ltA ltB), IH.
Qed.

(** ** Generic lemmas on lists and maps *)

(** [l.empty()] *)
Definition is_nil {A} (l : list A) : bool := match l with [] => true | _ => false end.

Lemma NoDup_fmap_inj_elem {A B} (f : A -> B) (l : list A) x y :
  NoDup (f <$> l) -> x ∈ l -> y ∈ l -> f x = f y -> x = y.
Proof.
  induction l as [|z l IH]; [set_solver|].
  rewrite fmap_cons, NoDup_cons. intros [Hz Hl] Hx Hy E.
  apply elem_of_cons in Hx as [->|Hx], Hy as [->|Hy]; [done| | |by eauto].
  - destruct Hz. rewrite E. by apply list_elem_of_fmap_2.
  - destruct Hz. rewrite <-E. by apply list_elem_of_fmap_2.
Qed.

Lemma forallb_Forall' {A} (f : A -> bool) l :
  forallb f l = true <-> Forall (fun x => f x = true) l.
Proof.
  induction l as [|x l IH]; simpl; [done|].
  rewrite andb_true_iff, Forall_cons. by rewrite IH.
Qed.

(** removing several keys *)
Definition delete_all {V} (l : list string) (m : gmap string V) : gmap string V :=
  foldr delete m l.

Lemma lookup_delete_all {V} l (m : gmap string V) k :
  delete_all l m !! k = if decide (k ∈ l) then None else m !! k.
Proof.
  induction l as [|x l IH]; simpl; [done|]. rewrite lookup_delete, IH.
  repeat case_decide; set_solver.
Qed.

Lemma delete_all_cons {V} x l (m : gmap string V) :
  delete_all (x :: l) m = delete x (delete_all l m).
Proof. done. Qed.

(** the map that is left when the first part of an association list goes *)
Lemma list_to_map_delete_all {V} (E L : list (string * V)) :
  NoDup (E ++ L).*1 ->
  (list_to_map L : gmap string V) = delete_all E.*1 (list_to_map (E ++ L)).
Proof.
  rewrite fmap_app. intros (_ & Hd & _)%NoDup_app. apply map_eq; intros k.
  rewrite lookup_delete_all, list_to_map_app, lookup_union. case_decide as Hk.
  - apply not_elem_of_list_to_map. by apply Hd.
  - rewrite (proj1 (not_elem_of_list_to_map E k) Hk). by destruct (list_to_map L !! k).
Qed.

Lemma list_to_map_perm {V} (l k : list (string * V)) :
  NoDup l.*1 -> l ≡ₚ k -> (list_to_map l : gmap string V) = list_to_map k.
Proof. intros. by apply list_to_map_proper. Qed.

(** ** Strings *)

Lemma app_cons_str c s t : String c s +:+ t = String c (s +:+ t).
Proof. done. Qed.

Lemma app_nil_l_str s : "" +:+ s = s.
Proof. done. Qed.

Lemma app_nil_r_str s : s +:+ "" = s.
Proof. induction s as [|c s IH]; [done|]. by rewrite app_cons_str, IH. Qed.

Lemma app_assoc_str s t u : (s +:+ t) +:+ u = s +:+ (t +:+ u).
Proof. induction s as [|c s IH]; [done|]. by rewrite !app_cons_str, IH. Qed.

Lemma app_inj_r_str s t u : s +:+ t = s +:+ u -> t = u.
Proof. induction s as [|c s IH]; [done|]. rewrite !app_cons_str. intros [=]. auto. Qed.

Lemma list_ascii_app s t : String.list_ascii_of_string (s +:+ t) = String.list_ascii_of_string s ++ String.list_ascii_of_string t.
Proof. induction s as [|c s IH]; [done|]. rewrite app_cons_str. cbn. by rewrite IH. Qed.

Lemma length_app_str s t : String.length (s +:+ t) = String.length s + String.length t.
Proof. induction s as [|c s IH]; [done|]. rewrite app_cons_str; simpl. by rewrite IH. Qed.

Create Rewrite HintDb strs.
#[export] Hint Rewrite app_cons_str app_nil_l_str app_nil_r_str app_assoc_str : strs.

(** all characters of a string satisfy a test *)
Fixpoint str_all (f : ascii -> bool) (s : string) : bool :=
  match s with
  | "" => true
  | String c s' => f c && str_all f s'
  end.

Lemma str_all_app f s t : str_all f (s +:+ t) = str_all f s && str_all f t.
Proof.
  induction s as [|c s IH]; [done|]. rewrite app_cons_str; simpl.
  by rewrite IH, andb_assoc.
Qed.

Lemma str_all_impl f g s :
  (forall c, f c = true -> g c = true) -> str_all f s = true -> str_all g s = true.
Proof.
  intros H. induction s as [|c s IH]; simpl; [done|].
  rewrite !andb_true_iff. naive_solver.
Qed.

Definition str_empty (s : string) : bool :=
  match s with "" => true | _ => false end.

Lemma str_empty_true s : str_empty s = true <-> s = "".
Proof. by destruct s. Qed.

Lemma str_empty_false s : str_empty s = false <-> s <> "".
Proof. by destruct s. Qed.

Definition str_eqb (s t : string) : bool := bool_decide (s = t).

(** [std::to_string] and [operator<<] on integers *)
Definition N_to_string (n : N) : string := NilZero.string_of_uint (N.to_uint n).
Definition Z_to_string (z : Z) : string :=
  if (z <? 0)%Z then "-" +:+ N_to_string (Z.to_N (- z)) else N_to_string (Z.to_N z).

(** ** Proof automation *)

(** Case analysis on the outermost [match]/[if] of an equation that is known
    to produce [Ok]. *)
Ltac inv_ok :=
  repeat match goal with
  | H : mbind _ ?m = Ok _ |- _ =>
      let E := fresh "Hok" in destruct m eqn:E; simpl in H; [|discriminate H]
  | H : (if ?b then _ else _) = Ok _ |- _ =>
      let E := fresh "Hb" in destruct b eqn:E; try discriminate H
  | H : Ok _ = Ok _ |- _ => injection H as H; subst
  | H : Err _ = Ok _ |- _ => discriminate H
  end.

Ltac split_andb :=
  repeat match goal with
  | H : (_ && _) = true |- _ => apply andb_true_iff in H as [? ?]
  | |- (_ && _) = true => apply andb_true_iff; split
  end.
