(* ===== verification/CxxPath.v ===== *)
(** * std::filesystem::path on POSIX

    ddm is built with OPTIMIZE_MEMORY (see src/CMakeLists.txt), so the relative
    path and the symlink target of an element are stored as strings and turned
    into [std::filesystem::path] only to decompose or compare them. A path is
    therefore a string here, and this file models what src/core.cpp and
    src/backup.cpp use of the class: [filename], [parent_path], [operator/] and
    the component-wise [operator<]/[operator==]. The last part characterises
    them on the relative paths that occur in a directory tree: those whose
    components are all non-empty. *)

From S2P Require Import Prelude.

Abbreviation path := string.

Definition sep : ascii := "/"%char.
Definition is_sep (c : ascii) : bool := bool_decide (c = sep).

(** ** Decomposition *)

(** split at every separator; the result is never empty *)
Fixpoint split_sep (s : string) : list string :=
  match s with
  | "" => [""]
  | String c s' =>
      if is_sep c then "" :: split_sep s'
      else match split_sep s' with
           | [] => [String c ""]
           | n :: l => String c n :: l
           end
  end.

(** the part before the last separator, and the part after it *)
Fixpoint split_last (s : string) : option (string * string) :=
  match s with
  | "" => None
  | String c s' =>
      match split_last s' with
      | Some (d, f) => Some (String c d, f)
      | None => if is_sep c then Some ("", s') else None
      end
  end.

Fixpoint rtrim_sep (s : string) : string :=
  match s with
  | "" => ""
  | String c s' =>
      match rtrim_sep s' with
      | "" => if is_sep c then "" else String c ""
      | t => String c t
      end
  end.

Fixpoint ltrim_sep (s : string) : string :=
  match s with
  | "" => ""
  | String c s' => if is_sep c then ltrim_sep s' else s
  end.

Definition has_root_directory (p : path) : bool :=
  match p with String c _ => is_sep c | "" => false end.

(** [path::filename] *)
Definition filename (p : path) : path :=
  match split_last p with None => p | Some (_, f) => f end.

(** [path::parent_path]: a path made only of separators is its own parent *)
Definition parent_path (p : path) : path :=
  match split_last p with
  | None => ""
  | Some (d, _) =>
      match rtrim_sep d with
      | "" => if str_all is_sep p then p else "/"
      | t => t
      end
  end.

(** [path::operator/] *)
Definition path_append (p q : path) : path :=
  if has_root_directory q then q
  else if str_empty (filename p) then p +:+ q
  else p +:+ String sep q.

Declare Scope path_scope.
Infix "//" := path_append (at level 40, left associativity) : path_scope.
Open Scope path_scope.

(** the elements the path iterates over, after the root directory: empty
    components vanish, except one after a trailing separator *)
Definition relative_elems (p : path) : list string :=
  match ltrim_sep p with
  | "" => []
  | r => let l := split_sep r in
         filter (fun n => n <> "") (take (pred (length l)) l) ++ drop (pred (length l)) l
  end.

(** [path::compare]: a path without root directory comes first, then the
    elements are compared in lexicographic order, as byte strings *)
Fixpoint elems_compare (l k : list string) : comparison :=
  match l, k with
  | [], [] => Eq
  | [], _ :: _ => Lt
  | _ :: _, [] => Gt
  | a :: l', b :: k' =>
      match String.compare a b with
      | Eq => elems_compare l' k'
      | c => c
      end
  end.

Definition path_compare (p q : path) : comparison :=
  match has_root_directory p, has_root_directory q with
  | false, true => Lt
  | true, false => Gt
  | _, _ => elems_compare (relative_elems p) (relative_elems q)
  end.

Definition path_ltb (p q : path) : bool :=
  match path_compare p q with Lt => true | _ => false end.
Definition path_eqb (p q : path) : bool :=
  match path_compare p q with Eq => true | _ => false end.

(** ** Well-formed relative paths *)

Definition good_name (n : string) : bool :=
  negb (str_empty n) && str_all (fun c => negb (is_sep c)) n.

Definition good_path (p : path) : bool := forallb good_name (split_sep p).

(** the directory part of a tree entry: the empty path of the top directory,
    or a well-formed path *)
Definition good_dir (p : path) : bool := str_empty p || good_path p.

Fixpoint join_sep (l : list string) : string :=
  match l with
  | [] => ""
  | [n] => n
  | n :: l' => n +:+ String sep (join_sep l')
  end.

(** components of a directory: none for the top directory *)
Definition comps (p : path) : list string :=
  match p with "" => [] | _ => split_sep p end.

Lemma split_sep_nonnil s : split_sep s <> [].
Proof. destruct s as [|c s]; simpl; [done|]. destruct (is_sep c), (split_sep s); done. Qed.

Lemma is_sep_true c : is_sep c = true <-> c = sep.
Proof. unfold is_sep. by rewrite bool_decide_eq_true. Qed.

Lemma join_split s : join_sep (split_sep s) = s.
Proof.
  induction s as [|c s IH]; simpl; [done|].
  pose proof (split_sep_nonnil s). destruct (is_sep c) eqn:Hc.
  - apply is_sep_true in Hc as ->. simpl. destruct (split_sep s); [done|].
    by rewrite app_nil_l_str, IH.
  - destruct (split_sep s) as [|n l]; [done|]. rewrite <-IH. by destruct l.
Qed.

Lemma split_sep_inj s t : split_sep s = split_sep t -> s = t.
Proof. intros E. by rewrite <-(join_split s), E, join_split. Qed.

Lemma split_sep_noslash n :
  str_all (fun c => negb (is_sep c)) n = true -> split_sep n = [n].
Proof.
  induction n as [|c n IH]; simpl; [done|].
  rewrite andb_true_iff, negb_true_iff. intros [-> Hn]. by rewrite (IH Hn).
Qed.

Lemma split_sep_app_sep s t :
  split_sep (s +:+ String sep t) = split_sep s ++ split_sep t.
Proof.
  induction s as [|c s IH]; [done|]. rewrite app_cons_str; simpl. rewrite IH.
  destruct (is_sep c); [done|].
  pose proof (split_sep_nonnil s). by destruct (split_sep s).
Qed.

Lemma good_name_spec n :
  good_name n = true <-> n <> "" /\ str_all (fun c => negb (is_sep c)) n = true.
Proof. unfold good_name. rewrite andb_true_iff, negb_true_iff, str_empty_false. done. Qed.

Lemma good_name_split n : good_name n = true -> split_sep n = [n].
Proof. rewrite good_name_spec. intros [_ ?]. by apply split_sep_noslash. Qed.

Lemma good_path_nonempty p : good_path p = true -> p <> "".
Proof. by intros H ->. Qed.

Lemma good_path_comps p : good_path p = true -> comps p = split_sep p.
Proof. intros H. destruct p; [done|]. done. Qed.

Lemma good_name_path n : good_name n = true -> good_path n = true.
Proof. intros H. unfold good_path. rewrite good_name_split by done. simpl. by rewrite H. Qed.

Lemma comps_inj p q : comps p = comps q -> p = q.
Proof.
  destruct p as [|c p], q as [|c' q]; [done| | |apply split_sep_inj]; cbn [comps]; intros E;
    by destruct (split_sep_nonnil _ (eq_sym E)) || by destruct (split_sep_nonnil _ E).
Qed.

(** *** Decomposing an appended path *)

Lemma split_last_noslash n :
  str_all (fun c => negb (is_sep c)) n = true -> split_last n = None.
Proof.
  induction n as [|c n IH]; simpl; [done|].
  rewrite andb_true_iff, negb_true_iff. intros [-> Hn]. by rewrite (IH Hn).
Qed.

Lemma split_last_app d n :
  str_all (fun c => negb (is_sep c)) n = true ->
  split_last (d +:+ String sep n) = Some (d, n).
Proof.
  intros Hn. induction d as [|c d IH].
  - rewrite app_nil_l_str. simpl. by rewrite split_last_noslash.
  - rewrite app_cons_str; simpl. by rewrite IH.
Qed.

Lemma good_path_rev_ind (P : path -> Prop) :
  (forall n, good_name n = true -> P n) ->
  (forall d n, good_path d = true -> good_name n = true -> P d -> P (d +:+ String sep n)) ->
  forall p, good_path p = true -> P p.
Proof.
  intros Hone Hsnoc p. unfold good_path.
  rewrite <-(join_split p) at 2. pose proof (split_sep_nonnil p) as Hne.
  revert Hne. generalize (split_sep p) as l. clear p.
  induction l as [|n l IH] using rev_ind; [done|]. intros _ Hl.
  rewrite forallb_app in Hl. simpl in Hl. split_andb.
  destruct (decide (l = [])) as [->|Hl']; [by apply Hone|].
  assert (Hj : forall l, l <> [] -> join_sep (l ++ [n]) = join_sep l +:+ String sep n).
  { clear. intros l. induction l as [|a [|b l] IH]; [done|done|].
    intros _. change ((a :: b :: l) ++ [n]) with (a :: (b :: l) ++ [n]).
    change (join_sep (a :: (b :: l) ++ [n])) with (a +:+ String sep (join_sep ((b :: l) ++ [n]))).
    rewrite IH by done. change (join_sep (a :: b :: l)) with (a +:+ String sep (join_sep (b :: l))).
    by rewrite app_assoc_str, app_cons_str. }
  rewrite Hj by done. apply Hsnoc; [|done|by auto].
  assert (Hs : split_sep (join_sep l) = l).
  { clear IH Hj. assert (Hall : forallb good_name l = true) by done.
    clear -Hl' Hall. induction l as [|a [|b l] IH]; [done| |].
    - simpl in *. split_andb. by apply good_name_split.
    - change (join_sep (a :: b :: l)) with (a +:+ String sep (join_sep (b :: l))).
      rewrite split_sep_app_sep, IH; [|done|by simpl in *; split_andb].
      simpl in Hall. split_andb. by rewrite good_name_split. }
  unfold good_path. by rewrite Hs.
Qed.

Lemma good_path_root p : good_path p = true -> has_root_directory p = false.
Proof.
  destruct p as [|c p]; [done|]. unfold good_path; simpl.
  by destruct (is_sep c).
Qed.

Lemma good_name_root n : good_name n = true -> has_root_directory n = false.
Proof. intros; by apply good_path_root, good_name_path. Qed.

Lemma rtrim_app s n : n <> "" -> rtrim_sep n = n -> rtrim_sep (s +:+ n) = s +:+ n.
Proof.
  intros Hn Hr. induction s as [|c s IH]; [done|].
  rewrite app_cons_str; simpl. rewrite IH. by destruct s, n.
Qed.

Lemma rtrim_name n : good_name n = true -> rtrim_sep n = n.
Proof.
  rewrite good_name_spec. intros [_ Hn]. induction n as [|c n IH]; simpl in *; [done|].
  split_andb. rewrite IH by done. apply negb_true_iff in H. rewrite H. by destruct n.
Qed.

Lemma rtrim_good p : good_path p = true -> rtrim_sep p = p.
Proof.
  revert p; apply good_path_rev_ind; [intros n Hn; by apply rtrim_name|intros d n Hd Hn _].
  replace (d +:+ String sep n) with ((d +:+ "/") +:+ n)
    by (by rewrite app_assoc_str).
  pose proof Hn as [? _]%good_name_spec. apply rtrim_app; [done|by apply rtrim_name].
Qed.

(** The laws that relate [operator/], [filename] and [parent_path] on the
    paths of a tree. *)

Lemma path_append_top n : good_name n = true -> "" // n = n.
Proof. intros H. unfold path_append. by rewrite good_name_root. Qed.

Lemma filename_name n : good_name n = true -> filename n = n.
Proof.
  rewrite good_name_spec. intros [_ H]. unfold filename. by rewrite split_last_noslash.
Qed.

Lemma filename_snoc d n : good_name n = true -> filename (d +:+ String sep n) = n.
Proof.
  rewrite good_name_spec. intros [_ H]. unfold filename. by rewrite split_last_app.
Qed.

Lemma filename_good p : good_path p = true -> good_name (filename p) = true.
Proof.
  revert p; apply good_path_rev_ind; [intros n Hn|intros d n Hd Hn _].
  - by rewrite filename_name.
  - by rewrite filename_snoc.
Qed.

Lemma path_append_good d n :
  good_path d = true -> good_name n = true -> d // n = d +:+ String sep n.
Proof.
  intros Hd Hn. unfold path_append. rewrite good_name_root by done.
  apply filename_good, good_name_spec in Hd as [Hf%str_empty_false _]. by rewrite Hf.
Qed.

Lemma filename_append d n :
  good_dir d = true -> good_name n = true -> filename (d // n) = n.
Proof.
  unfold good_dir. rewrite orb_true_iff, str_empty_true. intros [->|Hd] Hn.
  - by rewrite path_append_top, filename_name.
  - by rewrite path_append_good, filename_snoc.
Qed.

Lemma parent_append d n :
  good_dir d = true -> good_name n = true -> parent_path (d // n) = d.
Proof.
  unfold good_dir. rewrite orb_true_iff, str_empty_true. intros [->|Hd] Hn;
    pose proof Hn as [Hn0 Hns]%good_name_spec.
  - rewrite path_append_top by done. unfold parent_path. by rewrite split_last_noslash.
  - rewrite path_append_good by done. unfold parent_path. rewrite split_last_app by done.
    rewrite rtrim_good by done. by destruct d.
Qed.

Lemma comps_append d n :
  good_dir d = true -> good_name n = true -> comps (d // n) = comps d ++ [n].
Proof.
  unfold good_dir. rewrite orb_true_iff, str_empty_true. intros [->|Hd] Hn.
  - rewrite path_append_top, (good_path_comps n), good_name_split; by auto using good_name_path.
  - rewrite path_append_good by done.
    assert (Hsp : split_sep (d +:+ String sep n) = split_sep d ++ [n])
      by (by rewrite split_sep_app_sep, (good_name_split n)).
    rewrite (good_path_comps d), <-Hsp by done. destruct d; [done|]. done.
Qed.

Lemma good_append d n :
  good_dir d = true -> good_name n = true -> good_path (d // n) = true.
Proof.
  unfold good_dir. rewrite orb_true_iff, str_empty_true. intros [->|Hd] Hn.
  - rewrite path_append_top; auto using good_name_path.
  - rewrite path_append_good by done. unfold good_path in *.
    rewrite split_sep_app_sep, forallb_app, Hd, good_name_split by done. simpl. by rewrite Hn.
Qed.

Lemma good_parent p : good_path p = true -> good_dir (parent_path p) = true.
Proof.
  revert p; apply good_path_rev_ind; [intros n Hn|intros d n Hd Hn _].
  - rewrite <-(path_append_top n), parent_append; done.
  - rewrite <-path_append_good, parent_append by (done || by unfold good_dir; rewrite Hd, orb_true_r).
    unfold good_dir. by rewrite Hd, orb_true_r.
Qed.

Lemma parent_filename p : good_path p = true -> parent_path p // filename p = p.
Proof.
  revert p; apply good_path_rev_ind; [intros n Hn|intros d n Hd Hn _].
  - rewrite <-(path_append_top n) at 1 2 by done.
    by rewrite parent_append, filename_append, path_append_top.
  - assert (good_dir d = true) by (by unfold good_dir; rewrite Hd, orb_true_r).
    rewrite <-path_append_good by done. by rewrite parent_append, filename_append.
Qed.

Lemma append_inj d n m :
  good_dir d = true -> good_name n = true -> good_name m = true -> d // n = d // m -> n = m.
Proof. intros ??? E. by rewrite <-(filename_append d n), E, filename_append. Qed.

Lemma good_path_dir p : good_path p = true -> good_dir p = true.
Proof. intros H. unfold good_dir. by rewrite H, orb_true_r. Qed.

#[export] Hint Resolve good_path_dir good_append good_parent filename_good good_name_path : core.
#[export] Hint Rewrite filename_append parent_append comps_append using (solve [auto]) : strs.

(** *** Comparison *)

Lemma relative_elems_good p : good_path p = true -> relative_elems p = split_sep p.
Proof.
  intros Hp. pose proof (good_path_root p Hp) as Hr. unfold relative_elems.
  assert (ltrim_sep p = p) as -> by (destruct p; simpl in *; by rewrite ?Hr).
  destruct p as [|c p]; [done|]. set (l := split_sep (String c p)). fold l.
  assert (Hl : Forall (fun n => n <> "") l).
  { eapply Forall_impl; [apply forallb_Forall', Hp|]. by intros n [? _]%good_name_spec. }
  assert (Hf : forall k : list string, Forall (fun n => n <> "") k -> filter (fun n => n <> "") k = k).
  { clear. induction 1 as [|x k Hx _ IH]; [done|]. rewrite filter_cons_True by done. by rewrite IH. }
  rewrite Hf by (by apply Forall_take). by rewrite take_drop.
Qed.

Lemma ascii_compare_trans c a b d :
  Ascii.compare a b = c -> Ascii.compare b d = c -> Ascii.compare a d = c.
Proof.
  unfold Ascii.compare. destruct c.
  - rewrite !N.compare_eq_iff. congruence.
  - rewrite !N.compare_lt_iff. lia.
  - rewrite !N.compare_gt_iff. lia.
Qed.

(** A three-way comparison that is antisymmetric, and transitive on each of
    its three results: a total preorder. *)
Record preorder_compare {A} (cmp : A -> A -> comparison) : Prop := {
  pc_antisym : forall x y, cmp y x = CompOpp (cmp x y);
  pc_trans : forall c x y z, cmp x y = c -> cmp y z = c -> cmp x z = c;
  pc_eq_l : forall x y z, cmp x y = Eq -> cmp x z = cmp y z;
}.

Lemma string_compare_eq_l x y z :
  String.compare x y = Eq -> String.compare x z = String.compare y z.
Proof. by intros ->%String.compare_eq_iff. Qed.

Lemma string_compare_trans c x y z :
  String.compare x y = c -> String.compare y z = c -> String.compare x z = c.
Proof.
  revert y z. induction x as [|a x IH]; intros [|b y] [|d z]; simpl; try congruence.
  intros H1 H2.
  destruct (Ascii.compare a b) eqn:Eab, (Ascii.compare b d) eqn:Ebd; subst; try congruence;
    first [ rewrite (ascii_compare_trans _ _ _ _ Eab Ebd); eauto
          | apply Ascii.compare_eq_iff in Eab; subst; rewrite Ebd; done
          | apply Ascii.compare_eq_iff in Ebd; subst; rewrite Eab; done ].
Qed.

Lemma string_compare_preorder : preorder_compare String.compare.
Proof.
  split; [|exact string_compare_trans|exact string_compare_eq_l].
  intros x y. apply String.compare_antisym.
Qed.

Lemma string_compare_refl s : String.compare s s = Eq.
Proof.
  pose proof (String.compare_antisym s s) as H. by destruct (String.compare s s).
Qed.

Lemma elems_compare_eq l k : elems_compare l k = Eq <-> l = k.
Proof.
  revert k; induction l as [|a l IH]; intros [|b k]; simpl; try done.
  destruct (String.compare a b) eqn:E.
  - apply String.compare_eq_iff in E as ->. rewrite IH. naive_solver.
  - split; [done|]. intros [= -> ->]. by rewrite string_compare_refl in E.
  - split; [done|]. intros [= -> ->]. by rewrite string_compare_refl in E.
Qed.

Lemma elems_compare_preorder : preorder_compare elems_compare.
Proof.
  split.
  - intros l; induction l as [|a l IH]; intros [|b k]; simpl; try done.
    rewrite (pc_antisym _ string_compare_preorder a b).
    destruct (String.compare a b); simpl; auto.
  - intros c l; induction l as [|a l IH]; intros [|b k] [|d m]; simpl; try congruence.
    intros H1 H2.
    destruct (String.compare a b) eqn:Eab, (String.compare b d) eqn:Ebd; subst; try congruence;
      first [ rewrite (string_compare_trans _ _ _ _ Eab Ebd); eauto
            | apply String.compare_eq_iff in Eab; subst; rewrite Ebd; done
            | apply String.compare_eq_iff in Ebd; subst; rewrite Eab; done ].
  - by intros x y z ->%elems_compare_eq.
Qed.

Lemma path_compare_preorder : preorder_compare path_compare.
Proof.
  destruct elems_compare_preorder as [Ha Ht He]. unfold path_compare. split.
  - intros x y. destruct (has_root_directory x), (has_root_directory y); auto.
  - intros c x y z.
    destruct (has_root_directory x), (has_root_directory y), (has_root_directory z);
      try congruence; eauto.
  - intros x y z.
    destruct (has_root_directory x), (has_root_directory y), (has_root_directory z);
      try congruence; eauto.
Qed.

Lemma path_compare_good p q :
  good_path p = true -> good_path q = true -> path_compare p q = Eq -> p = q.
Proof.
  intros Hp Hq. unfold path_compare. rewrite !good_path_root by done.
  rewrite elems_compare_eq, !relative_elems_good by done. apply split_sep_inj.
Qed.

Lemma path_compare_refl p : path_compare p p = Eq.
Proof. unfold path_compare. destruct (has_root_directory p); by apply elems_compare_eq. Qed.

Lemma path_eqb_refl p : path_eqb p p = true.
Proof. unfold path_eqb. by rewrite path_compare_refl. Qed.

Lemma path_eqb_dir p q : good_dir p = true -> good_dir q = true -> path_eqb p q = true -> p = q.
Proof.
  unfold good_dir, path_eqb. intros Hp Hq.
  destruct (path_compare p q) eqn:E; [|done|done]. intros _.
  apply orb_true_iff in Hp as [->%str_empty_true|Hp], Hq as [->%str_empty_true|Hq];
    [done| | |by apply path_compare_good]; exfalso; revert E; unfold path_compare;
    [rewrite (good_path_root _ Hq)|rewrite (good_path_root _ Hp)];
    cbn [has_root_directory]; rewrite elems_compare_eq;
    change (relative_elems "") with (@nil string); rewrite relative_elems_good by done;
    intros E; [symmetry in E|]; by apply split_sep_nonnil in E.
Qed.

Lemma path_ltb_asym p q : path_ltb p q = true -> path_ltb q p = false.
Proof.
  unfold path_ltb. rewrite (pc_antisym _ path_compare_preorder p q).
  by destruct (path_compare p q).
Qed.

Lemma path_ltb_ntrans p q r :
  path_ltb q p = false -> path_ltb r q = false -> path_ltb r p = false.
Proof.
  unfold path_ltb. destruct path_compare_preorder as [Ha Ht He]. intros H1 H2.
  destruct (path_compare q p) eqn:E1; [| done |].
  - rewrite (Ha p r), <-(He _ _ r E1), <-(Ha q r). by destruct (path_compare r q).
  - destruct (path_compare r q) eqn:E2; [|done|].
    + by rewrite (He _ _ p E2), E1.
    + by rewrite (Ht _ _ _ _ E2 E1).
Qed.

(** *** Moving a path from one directory to another *)

Lemma split_join l : l <> [] -> forallb good_name l = true -> split_sep (join_sep l) = l.
Proof.
  induction l as [|n [|m l] IH]; [done| |]; intros _ H; cbn [forallb] in H; split_andb.
  - by apply good_name_split.
  - change (join_sep (n :: m :: l)) with (n +:+ String sep (join_sep (m :: l))).
    rewrite split_sep_app_sep, good_name_split, IH by (done || by cbn [forallb]; split_andb). done.
Qed.

Lemma comps_join l : forallb good_name l = true -> comps (join_sep l) = l.
Proof.
  intros H. destruct (decide (l = [])) as [->|Hne]; [done|].
  pose proof (split_join l Hne H) as E. rewrite good_path_comps; [done|].
  unfold good_path. by rewrite E.
Qed.

Lemma good_comps p : good_dir p = true -> forallb good_name (comps p) = true.
Proof.
  unfold good_dir. rewrite orb_true_iff, str_empty_true. intros [->|H]; [done|].
  by rewrite good_path_comps.
Qed.

Lemma comps_nil p : comps p = [] -> p = "".
Proof. intros H. by apply comps_inj. Qed.

(** the path of an entry below [from] after its subtree moved below [to] *)
Definition reloc (from to p : path) : path :=
  join_sep (comps to ++ drop (length (comps from)) (comps p)).

Lemma forallb_drop {A} (f : A -> bool) n l : forallb f l = true -> forallb f (drop n l) = true.
Proof.
  revert n; induction l as [|x l IH]; intros [|n]; simpl; auto.
  intros H. split_andb. auto.
Qed.

Lemma comps_reloc from to p :
  good_dir to = true -> good_path p = true ->
  comps (reloc from to p) = comps to ++ drop (length (comps from)) (comps p).
Proof.
  intros Ht Hp. apply comps_join. rewrite forallb_app, good_comps by done.
  by apply forallb_drop, good_comps, good_path_dir.
Qed.

Lemma reloc_same d p : good_path p = true -> comps d `prefix_of` comps p -> reloc d d p = p.
Proof.
  intros Hp [k Hk]. apply comps_inj. unfold reloc. rewrite Hk, drop_app_length, <-Hk.
  by apply comps_join, good_comps, good_path_dir.
Qed.

Lemma reloc_inj from to p q :
  good_dir to = true -> good_path p = true -> good_path q = true ->
  comps from `prefix_of` comps p -> comps from `prefix_of` comps q ->
  reloc from to p = reloc from to q -> p = q.
Proof.
  intros Ht Hp Hq [k Ek] [k' Ek'] E. apply comps_inj.
  apply (f_equal comps) in E. rewrite !comps_reloc in E by done.
  rewrite Ek, Ek', !drop_app_length in E. apply app_inv_head in E. congruence.
Qed.

Lemma reloc_top from to n :
  good_dir from = true -> good_dir to = true -> good_name n = true ->
  reloc from to (from // n) = to // n.
Proof.
  intros Hf Ht Hn. apply comps_inj. rewrite comps_reloc, !comps_append by auto.
  by rewrite drop_app_length.
Qed.

Lemma reloc_deeper from to n p :
  good_dir from = true -> good_dir to = true -> good_name n = true -> good_path p = true ->
  comps (from // n) `prefix_of` comps p ->
  reloc (from // n) (to // n) p = reloc from to p.
Proof.
  intros Hf Ht Hn Hp [k Hk]. rewrite comps_append in Hk by done. apply comps_inj.
  rewrite !comps_reloc, !comps_append, Hk by auto.
  rewrite drop_app_length, <-!app_assoc, drop_app_length. done.
Qed.

Lemma good_reloc from to p :
  good_dir to = true -> good_path p = true -> length (comps from) < length (comps p) ->
  good_path (reloc from to p) = true.
Proof.
  intros Ht Hp Hl. pose proof (comps_reloc from to p Ht Hp) as E.
  assert (Hne : comps (reloc from to p) <> []).
  { rewrite E. intros [_ Hd]%app_eq_nil. apply (f_equal length) in Hd. rewrite length_drop in Hd.
    simpl in Hd. lia. }
  assert (Hg : forallb good_name (comps (reloc from to p)) = true).
  { rewrite E, forallb_app, good_comps by done. by apply forallb_drop, good_comps, good_path_dir. }
  unfold good_path. by destruct (reloc from to p).
Qed.
