(* ===== verification/CxxTime.v ===== *)
(** * Calendar time: gmtime_r and timegm

    [FilesystemElement::writeTo] breaks the modification time down with
    [gmtime_r], and [FilesystemElement::readFrom] rebuilds it with [timegm]. Both
    convert between seconds since 1970-01-01 00:00:00 UTC and the proleptic
    Gregorian calendar, without leap seconds. The conversion counts days in
    eras of 400 years that start on March 1st. *)

From S2P Require Import Prelude.
From Stdlib Require Import ZArith Lia.
Local Open Scope Z_scope.

#[local] Ltac Zify.zify_post_hook ::= Z.to_euclidean_division_equations.

Record tm := Tm {
  tm_year : Z; (** the calendar year; the C field holds it minus 1900 *)
  tm_mon : Z;  (** 1 to 12; the C field holds it minus 1 *)
  tm_mday : Z;
  tm_hour : Z;
  tm_min : Z;
  tm_sec : Z }.

Definition days_per_era : Z := 146097.

(** days from 1970-01-01 to the given date *)
Definition days_from_civil (y m d : Z) : Z :=
  let y := if m <=? 2 then y - 1 else y in
  let era := y / 400 in
  let yoe := y mod 400 in
  let doy := (153 * (if m <=? 2 then m + 9 else m - 3) + 2) / 5 + d - 1 in
  let doe := yoe * 365 + yoe / 4 - yoe / 100 + doy in
  era * days_per_era + doe - 719468.

(** the date that is [z] days after 1970-01-01 *)
Definition civil_from_days (z : Z) : Z * Z * Z :=
  let z := z + 719468 in
  let era := z / days_per_era in
  let doe := z mod days_per_era in
  let yoe := (doe - doe / 1460 + doe / 36524 - doe / 146096) / 365 in
  let doy := doe - (365 * yoe + yoe / 4 - yoe / 100) in
  let mp := (5 * doy + 2) / 153 in
  let d := doy - (153 * mp + 2) / 5 + 1 in
  let m := if mp <? 10 then mp + 3 else mp - 9 in
  let y := yoe + era * 400 in
  (if m <=? 2 then y + 1 else y, m, d).

(** [timegm]: days and hours beyond the month or the day carry over *)
Definition timegm (t : tm) : Z :=
  days_from_civil (tm_year t) (tm_mon t) (tm_mday t) * 86400
  + tm_hour t * 3600 + tm_min t * 60 + tm_sec t.

Definition break_down (mt : Z) : tm :=
  let '(y, m, d) := civil_from_days (mt / 86400) in
  let s := mt mod 86400 in
  Tm y m d (s / 3600) (s / 60 mod 60) (s mod 60).

(** [gmtime_r] fails when the year does not fit the [int] of [struct tm] *)
Definition gmtime_r (mt : Z) : option tm :=
  let t := break_down mt in
  if (- 2 ^ 31 <=? tm_year t - 1900) && (tm_year t - 1900 <? 2 ^ 31) then Some t else None.

(** ** Correctness *)

Lemma year_of_era_bounds doe :
  0 <= doe < 146097 ->
  let yoe := (doe - doe / 1460 + doe / 36524 - doe / 146096) / 365 in
  0 <= yoe < 400 /\ 0 <= doe - (365 * yoe + yoe / 4 - yoe / 100) <= 365.
Proof. intros H. cbv zeta. split; lia. Qed.

Lemma month_day_bounds doy :
  0 <= doy <= 365 ->
  let mp := (5 * doy + 2) / 153 in
  0 <= mp <= 11 /\ 1 <= doy - (153 * mp + 2) / 5 + 1 <= 31.
Proof. intros H. cbv zeta. split; lia. Qed.

Lemma civil_bounds z y m d :
  civil_from_days z = (y, m, d) -> 1 <= m <= 12 /\ 1 <= d <= 31.
Proof.
  unfold civil_from_days, days_per_era.
  set (doe := (z + 719468) mod 146097).
  destruct (year_of_era_bounds doe ltac:(lia)) as [_ Hdoy].
  set (yoe := (doe - doe / 1460 + doe / 36524 - doe / 146096) / 365) in *.
  set (doy := doe - (365 * yoe + yoe / 4 - yoe / 100)) in *.
  destruct (month_day_bounds doy Hdoy) as [Hmp Hd].
  set (mp := (5 * doy + 2) / 153) in *.
  intros [= _ <- <-]. split; [|done]. destruct (mp <? 10) eqn:E; lia.
Qed.

Lemma days_civil_roundtrip z y m d :
  civil_from_days z = (y, m, d) -> days_from_civil y m d = z.
Proof.
  unfold civil_from_days, days_per_era.
  pose proof (Z.div_mod (z + 719468) 146097 ltac:(lia)) as Hz.
  set (doe := (z + 719468) mod 146097) in *. set (era := (z + 719468) / 146097) in *.
  destruct (year_of_era_bounds doe ltac:(lia)) as [Hyoe Hdoy].
  set (yoe := (doe - doe / 1460 + doe / 36524 - doe / 146096) / 365) in *.
  set (doy := doe - (365 * yoe + yoe / 4 - yoe / 100)) in *.
  destruct (month_day_bounds doy Hdoy) as [Hmp Hd].
  set (mp := (5 * doy + 2) / 153) in *.
  set (m' := if mp <? 10 then mp + 3 else mp - 9).
  intros [= <- <- <-]. unfold days_from_civil.
  assert (Hy : (if m' <=? 2 then (if m' <=? 2 then yoe + era * 400 + 1 else yoe + era * 400) - 1
               else if m' <=? 2 then yoe + era * 400 + 1 else yoe + era * 400)
               = yoe + era * 400) by (destruct (m' <=? 2); lia).
  rewrite Hy. rewrite Z.div_add, Z.div_small, Z_mod_plus_full, Z.mod_small by lia.
  assert (Hm : (if m' <=? 2 then m' + 9 else m' - 3) = mp)
    by (subst m'; destruct (mp <? 10) eqn:E1; destruct (_ <=? 2) eqn:E2; lia).
  rewrite Hm. unfold days_per_era. lia.
Qed.

(** [timegm] inverts the break-down of any time into calendar fields. *)
Lemma timegm_break_down mt : timegm (break_down mt) = mt.
Proof.
  unfold timegm, break_down.
  destruct (civil_from_days (mt / 86400)) as [[y m] d] eqn:E. simpl.
  rewrite (days_civil_roundtrip _ _ _ _ E). lia.
Qed.

(** the fields lie in the ranges that [std::get_time] accepts *)
Definition tm_in_range (t : tm) : Prop :=
  1 <= tm_mon t <= 12 /\ 1 <= tm_mday t <= 31 /\ 0 <= tm_hour t <= 23 /\
  0 <= tm_min t <= 59 /\ 0 <= tm_sec t <= 59.

Lemma break_down_in_range mt : tm_in_range (break_down mt).
Proof.
  unfold tm_in_range, break_down.
  destruct (civil_from_days (mt / 86400)) as [[y m] d] eqn:E.
  apply civil_bounds in E. simpl. lia.
Qed.

(** times whose year has four digits, the ones the metadata format can hold *)
Definition four_digit_year (mt : Z) : bool :=
  (1000 <=? tm_year (break_down mt)) && (tm_year (break_down mt) <=? 9999).

Lemma gmtime_four_digits mt :
  four_digit_year mt = true -> gmtime_r mt = Some (break_down mt).
Proof.
  unfold four_digit_year, gmtime_r. intros H.
  cbv zeta. rewrite (proj2 (andb_true_iff _ _)); [done|]. split; lia.
Qed.
