(* ===== verification/CxxStream.v ===== *)
(** * Formatted stream input and output

    What src/core.cpp uses of [std::istringstream] and [std::ostream], in the C
    locale. A stream is the text that is left to read; an extractor returns the
    extracted value and the rest, or [None] when it sets the failbit, after
    which every caller throws. *)

From S2P Require Import Prelude CxxTime.
From Stdlib Require Import ZArith Lia DecimalString DecimalN DecimalFacts.
Local Open Scope Z_scope.

#[local] Ltac Zify.zify_post_hook ::= Z.to_euclidean_division_equations.

(** ** Extractors *)

Fixpoint skip_ws (s : string) : string :=
  match s with
  | String c s' => if Ascii.is_space c then skip_ws s' else s
  | "" => ""
  end.

Fixpoint span (f : ascii -> bool) (s : string) : string * string :=
  match s with
  | "" => ("", "")
  | String c s' => if f c then let '(a, b) := span f s' in (String c a, b) else ("", s)
  end.

Definition not_space (c : ascii) : bool := negb (Ascii.is_space c).
Definition is_digit (c : ascii) : bool :=
  match Ascii.is_nat c with Some _ => true | None => false end.

(** [in >> string] *)
Definition read_token (s : string) : option (string * string) :=
  match span not_space (skip_ws s) with
  | ("", _) => None
  | (t, r) => Some (t, r)
  end.

(** [in >> off_t]: an optional sign and decimal digits; out of the range of a
    signed 64-bit integer the extraction fails *)
Definition read_off_t (s : string) : option (Z * string) :=
  let '(sign, s1) := match skip_ws s with
                     | String "-" r => (-1, r)
                     | String "+" r => (1, r)
                     | r => (1, r)
                     end in
  let '(ds, r) := span is_digit s1 in
  match ds, NilEmpty.uint_of_string ds with
  | String _ _, Some u =>
      let v := sign * Z.of_N (N.of_uint u) in
      if (- 2 ^ 63 <=? v) && (v <? 2 ^ 63) then Some (v, r) else None
  | _, _ => None
  end.

(** [in.read(buf, n)] *)
Fixpoint read_chars (n : nat) (s : string) : option (string * string) :=
  match n, s with
  | O, _ => Some ("", s)
  | S n', String c s' => '(t, r) ← read_chars n' s'; Some (String c t, r)
  | S _, "" => None
  end.

(** exactly [n] digits, most significant first *)
Fixpoint read_digits (n : nat) (acc : Z) (s : string) : option (Z * string) :=
  match n, s with
  | O, _ => Some (acc, s)
  | S n', String c s' =>
      d ← Ascii.is_nat c; read_digits n' (10 * acc + Z.of_nat d) s'
  | S _, "" => None
  end.

(** one numeric field of [std::get_time] *)
Definition read_field (n : nat) (lo hi : Z) (s : string) : option (Z * string) :=
  '(v, r) ← read_digits n 0 s;
  if (lo <=? v) && (v <=? hi) then Some (v, r) else None.

Definition read_char (c : ascii) (s : string) : option string :=
  match s with
  | String d r => if bool_decide (c = d) then Some r else None
  | "" => None
  end.

(** [in >> get_time(&t, format)] for the format of year-month-day, blanks,
    hours:minutes:seconds *)
Definition read_time (s : string) : option (tm * string) :=
  '(y, s) ← read_field 4 0 9999 (skip_ws s);
  s ← read_char "-" s;
  '(mo, s) ← read_field 2 1 12 s;
  s ← read_char "-" s;
  '(d, s) ← read_field 2 1 31 s;
  '(h, s) ← read_field 2 0 23 (skip_ws s);
  s ← read_char ":" s;
  '(mi, s) ← read_field 2 0 59 s;
  s ← read_char ":" s;
  '(sec, s) ← read_field 2 0 60 s;
  Some (Tm y mo d h mi sec, s).

Definition dquote : ascii := "034"%char.
Definition backslash : ascii := "092"%char.

Fixpoint unquote (s : string) : option (string * string) :=
  match s with
  | "" => None
  | String c r =>
      if bool_decide (c = backslash) then
        match r with
        | "" => None
        | String d r' => '(t, rest) ← unquote r'; Some (String d t, rest)
        end
      else if bool_decide (c = dquote) then Some ("", r)
      else '(t, rest) ← unquote r; Some (String c t, rest)
  end.

(** [in >> path] and [in >> quoted(string)] *)
Definition read_path (s : string) : option (string * string) :=
  match skip_ws s with
  | String c r => if bool_decide (c = dquote) then unquote r else read_token s
  | "" => None
  end.

(** ** Output *)

Definition digit (d : Z) : ascii := ascii_of_N (Z.to_N (48 + d)).
Definition put2 (z : Z) : string := String (digit (z / 10)) (String (digit (z mod 10)) "").

(** the year: at least four digits *)
Definition put_year (y : Z) : string :=
  if (0 <=? y) && (y <=? 9999) then put2 (y / 100) +:+ put2 (y mod 100) else Z_to_string y.

(** [put_time(&t, format)]: the date, a blank, the time and the UTC offset *)
Definition put_time (t : tm) : string :=
  put_year (tm_year t) +:+ "-" +:+ put2 (tm_mon t) +:+ "-" +:+ put2 (tm_mday t) +:+ " " +:+
  put2 (tm_hour t) +:+ ":" +:+ put2 (tm_min t) +:+ ":" +:+ put2 (tm_sec t) +:+ " +0000".

Fixpoint escape (s : string) : string :=
  match s with
  | "" => ""
  | String c s' =>
      if bool_decide (c = backslash) || bool_decide (c = dquote)
      then String backslash (String c (escape s'))
      else String c (escape s')
  end.

(** [out << path] and [out << quoted(string)] *)
Definition put_path (s : string) : string :=
  String dquote (escape s +:+ String dquote "").

(** ** Reading back what was written *)

(** a non-empty run of characters other than blanks *)
Definition is_token (s : string) : bool := negb (str_empty s) && str_all not_space s.

Lemma span_app f s c r :
  str_all f s = true -> f c = false -> span f (s +:+ String c r) = (s, String c r).
Proof.
  intros Hs Hc. induction s as [|a s IH].
  - rewrite app_nil_l_str. simpl. by rewrite Hc.
  - simpl in Hs. split_andb. rewrite app_cons_str. simpl. by rewrite H, IH.
Qed.

Lemma skip_ws_token c s : Ascii.is_space c = false -> skip_ws (String c s) = String c s.
Proof. simpl. by intros ->. Qed.

Lemma read_token_app t r : is_token t = true -> read_token (t +:+ " " +:+ r) = Some (t, " " +:+ r).
Proof.
  unfold is_token. intros H. split_andb. apply negb_true_iff, str_empty_false in H.
  unfold read_token. destruct t as [|c t]; [done|].
  rewrite app_cons_str, skip_ws_token, <-app_cons_str.
  - change (" " +:+ r) with (String " " r). by rewrite span_app.
  - simpl in H0. split_andb. by apply negb_true_iff.
Qed.

Lemma read_token_space s : read_token (" " +:+ s) = read_token s.
Proof. done. Qed.

Lemma unquote_escape s r : unquote (escape s +:+ String dquote r) = Some (s, r).
Proof.
  induction s as [|c s IH]; [done|]. cbn [escape].
  destruct (bool_decide (c = backslash)) eqn:E1; cbn [orb].
  - rewrite !app_cons_str. cbn [unquote]. by rewrite IH.
  - destruct (bool_decide (c = dquote)) eqn:E2; rewrite !app_cons_str; cbn [unquote].
    + by rewrite IH.
    + by rewrite E1, E2, IH.
Qed.

Lemma read_put_path s r : read_path (" " +:+ put_path s +:+ r) = Some (s, r).
Proof.
  unfold read_path, put_path. rewrite !app_cons_str, app_nil_l_str, app_assoc_str.
  cbn [skip_ws Ascii.is_space]. apply unquote_escape.
Qed.

(** *** Decimal numbers *)

Lemma digit_nat d : 0 <= d <= 9 -> Ascii.is_nat (digit d) = Some (Z.to_nat d).
Proof.
  intros H.
  assert (d = 0 \/ d = 1 \/ d = 2 \/ d = 3 \/ d = 4 \/ d = 5 \/ d = 6 \/ d = 7 \/ d = 8 \/ d = 9)
    as Hd by lia.
  by repeat destruct Hd as [->|Hd]; subst.
Qed.

Lemma read_digit n acc d r :
  0 <= d <= 9 -> read_digits (S n) acc (String (digit d) r) = read_digits n (10 * acc + d) r.
Proof. intros H. simpl. rewrite digit_nat by done. simpl. by rewrite Z2Nat.id by lia. Qed.

Lemma read_field_ok n lo hi s v r :
  read_digits n 0 s = Some (v, r) -> lo <= v <= hi -> read_field n lo hi s = Some (v, r).
Proof.
  intros H Hv. unfold read_field. rewrite H. cbn [mbind option_bind].
  by rewrite (proj2 (andb_true_iff _ _)) by (split; lia).
Qed.

Lemma read_put2 z lo hi r :
  0 <= z <= 99 -> lo <= z <= hi -> read_field 2 lo hi (put2 z +:+ r) = Some (z, r).
Proof.
  intros Hz Hlo. apply read_field_ok; [|done]. unfold put2.
  rewrite !app_cons_str, app_nil_l_str, !read_digit by lia. cbn [read_digits].
  do 2 f_equal. lia.
Qed.

Lemma read_put_year y r :
  0 <= y <= 9999 -> read_field 4 0 9999 (put_year y +:+ r) = Some (y, r).
Proof.
  intros Hy. apply read_field_ok; [|done]. unfold put_year.
  rewrite (proj2 (andb_true_iff _ _)) by (split; lia). unfold put2.
  rewrite app_assoc_str, !app_cons_str, !app_nil_l_str, !read_digit by lia. cbn [read_digits].
  do 2 f_equal. lia.
Qed.

Lemma skip_ws_put2 z r : 0 <= z <= 99 -> skip_ws (put2 z +:+ r) = put2 z +:+ r.
Proof.
  intros Hz. unfold put2. rewrite app_cons_str. apply skip_ws_token.
  assert (0 <= z / 10 <= 9) as H by lia. apply digit_nat in H.
  by destruct (digit (z / 10)) as [[] [] [] [] [] [] [] []].
Qed.

Lemma read_put_time mt r :
  four_digit_year mt = true ->
  read_time (" " +:+ put_time (break_down mt) +:+ r) = Some (break_down mt, " +0000" +:+ r).
Proof.
  unfold four_digit_year. intros Hy. split_andb.
  pose proof (break_down_in_range mt) as (Hmo & Hd & Hh & Hmi & Hs).
  destruct (break_down mt) as [y mo d h mi s]. cbn [tm_year tm_mon tm_mday tm_hour tm_min tm_sec] in *.
  unfold read_time, put_time. cbn [tm_year tm_mon tm_mday tm_hour tm_min tm_sec].
  assert (Hsk : forall x, skip_ws (" " +:+ put_year y +:+ x) = put_year y +:+ x).
  { intros x. unfold put_year. rewrite (proj2 (andb_true_iff _ _)) by (split; lia).
    rewrite app_cons_str, app_nil_l_str, app_assoc_str. cbn [skip_ws Ascii.is_space].
    apply skip_ws_put2. lia. }
  rewrite !app_assoc_str, Hsk, read_put_year by lia. cbn [mbind option_bind].
  change ("-" +:+ ?x) with (String "-" x). cbn [read_char].
  rewrite !app_cons_str, !app_nil_l_str. cbn [read_char].
  rewrite !bool_decide_true by done. cbn [mbind option_bind].
  rewrite read_put2 by lia. cbn [mbind option_bind read_char].
  rewrite !bool_decide_true by done. cbn [mbind option_bind].
  rewrite read_put2 by lia. cbn [mbind option_bind skip_ws Ascii.is_space].
  rewrite skip_ws_put2, read_put2 by lia. cbn [mbind option_bind read_char].
  rewrite !bool_decide_true by done. cbn [mbind option_bind].
  rewrite read_put2 by lia. cbn [mbind option_bind read_char].
  rewrite !bool_decide_true by done. cbn [mbind option_bind].
  by rewrite read_put2 by lia.
Qed.

Lemma string_of_uint_digits u : str_all is_digit (NilEmpty.string_of_uint u) = true.
Proof. by induction u. Qed.

Lemma N_to_string_spec n :
  NilEmpty.uint_of_string (N_to_string n) = Some (N.to_uint n) /\
  str_all is_digit (N_to_string n) = true /\ N_to_string n <> "".
Proof.
  assert (Hu : N.to_uint n <> Decimal.Nil).
  { rewrite <-(Unsigned.of_to n), Unsigned.to_of. unfold Decimal.unorm.
    by destruct (Decimal.nzhead _). }
  assert (E : N_to_string n = NilEmpty.string_of_uint (N.to_uint n))
    by (unfold N_to_string, NilZero.string_of_uint; by destruct (N.to_uint n)).
  rewrite E. split; [apply NilEmpty.usu|]. split; [apply string_of_uint_digits|].
  by destruct (N.to_uint n).
Qed.

Lemma read_unsigned n r :
  exists ds, span is_digit (N_to_string n +:+ " " +:+ r) = (ds, " " +:+ r) /\
    ds <> "" /\ NilEmpty.uint_of_string ds = Some (N.to_uint n).
Proof.
  destruct (N_to_string_spec n) as (H1 & H2 & H3).
  exists (N_to_string n). split; [|done]. rewrite app_cons_str. by apply span_app.
Qed.

(** Reading back a number in the range of [off_t]. *)
Lemma read_put_off_t z r :
  - 2 ^ 63 <= z < 2 ^ 63 ->
  read_off_t (" " +:+ Z_to_string z +:+ " " +:+ r) = Some (z, " " +:+ r).
Proof.
  intros Hz. unfold read_off_t, Z_to_string.
  assert (Hfin : forall sign n s, sign * Z.of_N n = z -> s = N_to_string n +:+ " " +:+ r ->
    (let '(ds, r0) := span is_digit s in
     match ds, NilEmpty.uint_of_string ds with
     | String _ _, Some u =>
         let v := sign * Z.of_N (N.of_uint u) in
         if (- 2 ^ 63 <=? v) && (v <? 2 ^ 63) then Some (v, r0) else None
     | _, _ => None
     end) = Some (z, " " +:+ r)).
  { intros sign n s Hs ->. destruct (read_unsigned n r) as (ds & -> & Hne & Hu).
    destruct ds; [done|]. rewrite Hu. cbv zeta. rewrite Unsigned.of_to, Hs.
    by rewrite (proj2 (andb_true_iff _ _)) by (split; lia). }
  destruct (z <? 0) eqn:Hneg.
  - rewrite !app_cons_str, !app_nil_l_str. cbn [skip_ws Ascii.is_space].
    apply (Hfin _ (Z.to_N (- z))); [|done]. lia.
  - rewrite app_cons_str, app_nil_l_str. cbn [skip_ws Ascii.is_space].
    destruct (N_to_string_spec (Z.to_N z)) as (_ & Hd & Hne).
    destruct (N_to_string (Z.to_N z)) as [|c t] eqn:E; [done|].
    assert (Hc : is_digit c = true) by (simpl in Hd; by split_andb).
    rewrite app_cons_str.
    assert (Hc' : skip_ws (String c (t +:+ " " +:+ r)) = String c (t +:+ " " +:+ r))
      by (apply skip_ws_token; by destruct c as [[] [] [] [] [] [] [] []]).
    rewrite Hc'. transitivity (let '(ds, r0) := span is_digit (String c (t +:+ " " +:+ r)) in
      match ds, NilEmpty.uint_of_string ds with
      | String _ _, Some u =>
         let v := 1 * Z.of_N (N.of_uint u) in
         if (- 2 ^ 63 <=? v) && (v <? 2 ^ 63) then Some (v, r0) else None
      | _, _ => None
      end); [by destruct c as [[] [] [] [] [] [] [] []]|].
    apply (Hfin _ (Z.to_N z)); [lia|]. by rewrite E.
Qed.

Lemma read_chars_app t r : read_chars (String.length t) (t +:+ r) = Some (t, r).
Proof. induction t as [|c t IH]; [done|]. rewrite app_cons_str. simpl. by rewrite IH. Qed.
