(* ===== verification/Element.v ===== *)
(** * FilesystemElement and CompareOpt (src/core.h, src/core.cpp)

    The metadata of one file, directory or symlink, the options that select
    which metadata a comparison looks at, the comparison operators, and the
    one-line textual format of metadata files. *)

From S2P Require Import Prelude CxxPath CxxTime CxxStream.
From Stdlib Require Import ZArith Lia.
Local Open Scope Z_scope.

(** ** Data *)

(** [std::filesystem::file_type] *)
Inductive file_type :=
  | ft_none | not_found | regular | directory | symlink_ | block | character | fifo | socket
  | unknown.

#[global] Instance file_type_eq_dec : EqDecision file_type.
Proof. solve_decision. Defined.

Inductive ScanOpt := ComputeHash | OmitHash.

(** The fields of the C++ class. [per] is the value of [std::filesystem::perms],
    [mt] a [time_t], [sz] an [off_t]; [rp] and [symlink] are paths stored as
    strings. *)
Record FilesystemElement := mkElem {
  ty : file_type;
  per : Z;
  us : string;
  gs : string;
  mt : Z;
  sz : Z;
  fileHash : string;
  rp : path;
  symlink : path;
  hardLinkCnt : Z }.

#[global] Instance FilesystemElement_eq_dec : EqDecision FilesystemElement.
Proof. solve_decision. Defined.

Definition isDirectory (e : FilesystemElement) : bool := bool_decide (ty e = directory).

(** the setters, and the constructor that copies an element to another path *)
Definition setPermissions (p : Z) (e : FilesystemElement) : FilesystemElement :=
  mkElem (ty e) p (us e) (gs e) (mt e) (sz e) (fileHash e) (rp e) (symlink e) (hardLinkCnt e).
Definition setUser (u : string) (e : FilesystemElement) : FilesystemElement :=
  mkElem (ty e) (per e) u (gs e) (mt e) (sz e) (fileHash e) (rp e) (symlink e) (hardLinkCnt e).
Definition setGroup (g : string) (e : FilesystemElement) : FilesystemElement :=
  mkElem (ty e) (per e) (us e) g (mt e) (sz e) (fileHash e) (rp e) (symlink e) (hardLinkCnt e).
Definition setMtime (t : Z) (e : FilesystemElement) : FilesystemElement :=
  mkElem (ty e) (per e) (us e) (gs e) t (sz e) (fileHash e) (rp e) (symlink e) (hardLinkCnt e).
Definition withPath (p : path) (e : FilesystemElement) : FilesystemElement :=
  mkElem (ty e) (per e) (us e) (gs e) (mt e) (sz e) (fileHash e) p (symlink e) (hardLinkCnt e).
Definition setHash (h : string) (e : FilesystemElement) : FilesystemElement :=
  mkElem (ty e) (per e) (us e) (gs e) (mt e) (sz e) h (rp e) (symlink e) (hardLinkCnt e).

Definition typeAsString (e : FilesystemElement) : string :=
  match ty e with
  | regular => "file"
  | directory => "directory"
  | symlink_ => "symbolic link"
  | _ => "unknown file type"
  end.

(** [computeHashIfNeeded]; the SHA1 of a file is that of the crypto library *)
Definition computeHashIfNeeded (hashFile : path -> outcome string) (top : path)
    (e : FilesystemElement) : outcome FilesystemElement :=
  if negb (bool_decide (ty e = regular)) || negb (str_empty (fileHash e)) then Ok e
  else h ← hashFile (top // rp e); Ok (setHash h e).

(** ** Comparison *)

(** [operator<]: directories first, then by path *)
Definition elem_ltb (a b : FilesystemElement) : bool :=
  if Bool.eqb (isDirectory a) (isDirectory b) then path_ltb (rp a) (rp b)
  else isDirectory a && negb (isDirectory b).

(** [operator==]: a missing hash matches any hash *)
Definition elem_eqb (a b : FilesystemElement) : bool :=
  bool_decide (ty a = ty b) && bool_decide (per a = per b) &&
  bool_decide (us a = us b) && bool_decide (gs a = gs b) &&
  bool_decide (mt a = mt b) && bool_decide (sz a = sz b) &&
  bool_decide (rp a = rp b) && bool_decide (symlink a = symlink b) &&
  (str_empty (fileHash a) || str_empty (fileHash b) || bool_decide (fileHash a = fileHash b)).

Record CompareOpt := mkOpt {
  o_perm : bool;
  o_owner : bool;
  o_mtime : bool;
  o_size : bool;
  o_hash : bool;
  o_symlink : bool }.

(** the default constructor *)
Definition all_opts : CompareOpt := mkOpt true true true true true true.

(** [compare]: the early returns in the order of the source *)
Definition compare (a b : FilesystemElement) (opt : CompareOpt) : bool :=
  if negb (bool_decide (ty a = ty b)) || negb (bool_decide (rp a = rp b)) then false
  else if o_perm opt && negb (bool_decide (per a = per b)) then false
  else if o_owner opt &&
          (negb (bool_decide (us a = us b)) || negb (bool_decide (gs a = gs b))) then false
  else if o_mtime opt && negb (bool_decide (mt a = mt b)) then false
  else if o_size opt && negb (bool_decide (sz a = sz b)) then false
  else if o_hash opt && negb (bool_decide (fileHash a = fileHash b)) &&
          negb (str_empty (fileHash a)) && negb (str_empty (fileHash b)) then false
  else if o_symlink opt && negb (bool_decide (symlink a = symlink b)) then false
  else true.

(** *** The constructor of CompareOpt from an ignore list *)

Fixpoint replace_comma (s : string) : string :=
  match s with
  | "" => ""
  | String c s' => String (if bool_decide (c = ","%char) then " "%char else c) (replace_comma s')
  end.

Definition ignore_word (w : string) (o : CompareOpt) : outcome CompareOpt :=
  let '(mkOpt p ow m s h l) := o in
  if str_eqb w "perm" then Ok (mkOpt false ow m s h l)
  else if str_eqb w "owner" then Ok (mkOpt p false m s h l)
  else if str_eqb w "mtime" then Ok (mkOpt p ow false s h l)
  else if str_eqb w "size" then Ok (mkOpt p ow m false h l)
  else if str_eqb w "hash" then Ok (mkOpt p ow m s false l)
  else if str_eqb w "symlink" then Ok (mkOpt p ow m s h false)
  else if str_eqb w "all" then Ok (mkOpt false false false false false false)
  else Err (Throw ("Ignore option " +:+ w +:+ " not valid")).

(** [while(ss>>line)]; every turn consumes a character, so the length of the
    text is enough fuel *)
Fixpoint ignore_words (fuel : nat) (s : string) (o : CompareOpt) : outcome CompareOpt :=
  match fuel with
  | O => Err OutOfFuel
  | S fuel' =>
      match read_token s with
      | None => Ok o
      | Some (w, s') => o' ← ignore_word w o; ignore_words fuel' s' o'
      end
  end.

Definition CompareOpt_of_string (ignoreString : string) : outcome CompareOpt :=
  let s := replace_comma ignoreString in
  ignore_words (S (String.length s)) s all_opts.

(** ** The metadata line *)

Definition type_char (t : file_type) : ascii :=
  match t with
  | regular => "-"
  | directory => "d"
  | symlink_ => "l"
  | _ => "?"
  end%char.

Definition perm_char (pe mask : Z) (c : ascii) : ascii :=
  if Z.land pe mask =? 0 then "-"%char else c.

Definition perm_string (pe : Z) : string :=
  String (perm_char pe 256 "r") (String (perm_char pe 128 "w") (String (perm_char pe 64 "x")
  (String (perm_char pe 32 "r") (String (perm_char pe 16 "w") (String (perm_char pe 8 "x")
  (String (perm_char pe 4 "r") (String (perm_char pe 2 "w") (String (perm_char pe 1 "x") "")))))))).

(** the fields that depend on the type, each followed by a blank *)
Definition type_fields (e : FilesystemElement) : string :=
  match ty e with
  | regular =>
      if str_empty (fileHash e) then Z_to_string (sz e) +:+ " * "
      else Z_to_string (sz e) +:+ " " +:+ fileHash e +:+ " "
  | symlink_ => put_path (symlink e) +:+ " "
  | _ => ""
  end.

Definition line_of (e : FilesystemElement) (t : tm) : string :=
  String (type_char (ty e)) (perm_string (per e)) +:+ " " +:+ us e +:+ " " +:+ gs e +:+ " " +:+
  put_time t +:+ " " +:+ type_fields e +:+ put_path (rp e).

(** [FilesystemElement::writeTo] *)
Definition writeTo (e : FilesystemElement) : outcome string :=
  match gmtime_r (mt e) with
  | None => Err (AssertFailed "writeTo: ret==&t")
  | Some t => Ok (line_of e t)
  end.

Definition read_fail (metadataFileName : string) (lineNo : Z) (metadataLine m : string) : error :=
  Throw (metadataFileName +:+ (if str_empty metadataFileName then "" else ": ") +:+ m +:+
         (if 0 <? lineNo then " at line " +:+ Z_to_string lineNo else "") +:+
         ", wrong line is '" +:+ metadataLine +:+ "'").

(** one of the three characters of a permission triple: the bit, or an error *)
Definition perm_bit (c expected : ascii) (bit pe : Z) : option Z :=
  if bool_decide (c = expected) then Some (Z.lor pe bit)
  else if bool_decide (c = "-"%char) then Some pe
  else None.

(** the loop over the three triples that follow the type character *)
Fixpoint read_perms (n : nat) (s : string) (pe : Z) : option Z :=
  match n, s with
  | O, _ => Some pe
  | S n', String r (String w (String x s')) =>
      let pe := Z.shiftl pe 3 in
      pe ← perm_bit r "r" 4 pe;
      pe ← perm_bit w "w" 2 pe;
      pe ← perm_bit x "x" 1 pe;
      read_perms n' s' pe
  | S _, _ => None
  end.

Definition read_type (c : ascii) : option file_type :=
  match c with
  | "-" => Some regular
  | "d" => Some directory
  | "l" => Some symlink_
  | "?" => Some unknown
  | _ => None
  end%char.

(** size and hash of a regular file, target of a symlink: [(sz, fileHash,
    symlink)] and the rest of the line *)
Definition read_type_fields (fail : string -> error) (t : file_type) (s : string)
    : outcome ((Z * string * path) * string) :=
  match t with
  | regular =>
      '(z, s) ← from_option_err (fail "Error reading size") (read_off_t s);
      '(h, s) ← from_option_err (fail "Error reading hash") (read_token s);
      if str_eqb h "*" then Ok ((z, "", ""), s)
      else if bool_decide (String.length h = 40%nat) then Ok ((z, h, ""), s)
      else Err (fail "Error reading hash")
  | symlink_ =>
      '(l, s) ← from_option_err (fail "Error reading symlink target") (read_path s);
      Ok ((0, "", l), s)
  | _ => Ok ((0, "", ""), s)
  end.

(** [FilesystemElement::readFrom] *)
Definition readFrom (metadataLine metadataFileName : string) (lineNo : Z)
    : outcome FilesystemElement :=
  let fail := read_fail metadataFileName lineNo metadataLine in
  '(permStr, s) ← from_option_err (fail "Error reading permission string")
                    (read_token metadataLine);
  match permStr with
  | String c perms =>
      if negb (bool_decide (String.length permStr = 10%nat))
      then Err (fail "Error reading permission string")
      else
        t ← from_option_err (fail "Unrecognized file type") (read_type c);
        pe ← from_option_err (fail "Permissions not correct") (read_perms 3 perms 0);
        '(u, s) ← from_option_err (fail "Error reading user/group") (read_token s);
        '(g, s) ← from_option_err (fail "Error reading user/group") (read_token s);
        '(time, s) ← from_option_err (fail "Error reading mtime") (read_time s);
        let mtime := timegm time in
        if mtime =? -1 then Err (fail "Error reading mtime")
        else
          '(tz, s) ← from_option_err (fail "Error reading mtime") (read_chars 6 s);
          if negb (str_eqb tz " +0000") then Err (fail "Error reading mtime")
          else
            '((z, h, l), s) ← read_type_fields fail t s;
            '(p, s) ← from_option_err (fail "Error reading path") (read_path s);
            if negb (str_empty s) then Err (fail "Extra characters at end of line")
            else Ok (mkElem t pe u g mtime z h p l 1)
  | "" => Err (fail "Error reading permission string")
  end.

(** ** Round trip of the metadata line *)

(** What a line keeps of an element: nine permission bits, one of four types,
    the fields of that type, and a hard link count of one. *)
Definition read_back_type (t : file_type) : file_type :=
  match t with regular => regular | directory => directory | symlink_ => symlink_ | _ => unknown end.

Definition as_read (e : FilesystemElement) : FilesystemElement :=
  let t := read_back_type (ty e) in
  mkElem t (Z.land (per e) 511) (us e) (gs e) (mt e)
    (if bool_decide (t = regular) then sz e else 0)
    (if bool_decide (t = regular) then fileHash e else "")
    (rp e)
    (if bool_decide (t = symlink_) then symlink e else "") 1.

(** What the line can express: user and group without blanks, a time that is
    not -1 and whose year has four digits, a size that fits [off_t], and a hash
    that is omitted or has 40 characters. The path is arbitrary. *)
Definition line_wf (e : FilesystemElement) : bool :=
  is_token (us e) && is_token (gs e) && four_digit_year (mt e) && negb (mt e =? -1) &&
  match ty e with
  | regular => (- 2 ^ 63 <=? sz e) && (sz e <? 2 ^ 63) &&
      (str_empty (fileHash e) ||
       is_token (fileHash e) && bool_decide (String.length (fileHash e) = 40%nat))
  | _ => true
  end.

Lemma perm_char_low pe mask c :
  Z.land 511 mask = mask -> perm_char pe mask c = perm_char (Z.land pe 511) mask c.
Proof. intros H. unfold perm_char. by rewrite <-Z.land_assoc, H. Qed.

Lemma perm_string_low pe : perm_string pe = perm_string (Z.land pe 511).
Proof. unfold perm_string. by rewrite <-!(perm_char_low pe). Qed.

Definition perm_check (q : Z) : bool :=
  bool_decide (read_perms 3 (perm_string q) 0 = Some q) &&
  str_all not_space (perm_string q) && bool_decide (String.length (perm_string q) = 9%nat).

Lemma perm_check_all : forallb perm_check (seqZ 0 512) = true.
Proof. vm_compute. reflexivity. Qed.

Lemma perm_string_spec pe :
  read_perms 3 (perm_string pe) 0 = Some (Z.land pe 511) /\
  str_all not_space (perm_string pe) = true /\ String.length (perm_string pe) = 9%nat.
Proof.
  rewrite perm_string_low. set (q := Z.land pe 511).
  assert (Hq : 0 <= q < 512).
  { subst q. change 511 with (Z.ones 9). rewrite Z.land_ones by lia.
    apply (Z.mod_pos_bound pe (2 ^ 9)). lia. }
  assert (perm_check q = true) as H.
  { pose proof perm_check_all as Hall. apply forallb_Forall' in Hall.
    rewrite Forall_forall in Hall. apply Hall. apply elem_of_seqZ. lia. }
  unfold perm_check in H. split_andb.
  by split_and!; [eapply bool_decide_eq_true_1| |eapply bool_decide_eq_true_1].
Qed.

Lemma read_type_char t : read_type (type_char t) = Some (read_back_type t).
Proof. by destruct t. Qed.

Lemma read_token_blank t r :
  is_token t = true -> read_token (" " +:+ t +:+ " " +:+ r) = Some (t, " " +:+ r).
Proof. intros H. rewrite read_token_space. by apply read_token_app. Qed.

(** the type-dependent part of the line, up to the path *)
Lemma read_type_fields_back fail e :
  line_wf e = true ->
  exists s, read_type_fields fail (read_back_type (ty e)) (" " +:+ type_fields e +:+ put_path (rp e))
    = Ok ((sz (as_read e), fileHash (as_read e), symlink (as_read e)), s) /\
    read_path s = Some (rp e, "").
Proof.
  unfold line_wf, type_fields. intros H. split_andb.
  assert (Hp : read_path (" " +:+ put_path (rp e)) = Some (rp e, ""))
    by (rewrite <-(app_nil_r_str (put_path _)); apply read_put_path).
  destruct e as [t pe u g m z h p l hl]; simpl in *.
  destruct t; simpl; try (exists (" " +:+ put_path p); by rewrite app_nil_l_str).
  - (* regular *) split_andb. exists (" " +:+ put_path p). split; [|done].
    destruct (str_empty h) eqn:Hh; simpl in *.
    + apply str_empty_true in Hh as ->. rewrite app_assoc_str.
      change (" * " +:+ put_path p) with (" " +:+ "* " +:+ put_path p).
      rewrite read_put_off_t by lia. cbn [from_option_err mbind outcome_bind].
      change (" " +:+ "* " +:+ put_path p) with (" " +:+ "*" +:+ " " +:+ put_path p).
      by rewrite read_token_blank.
    + split_andb. rewrite !app_assoc_str, read_put_off_t by lia. cbn [from_option_err mbind outcome_bind].
      rewrite read_token_blank by done. cbn [from_option_err mbind outcome_bind].
      unfold str_eqb. rewrite bool_decide_false by (intros ->; done).
      by rewrite bool_decide_true by (by eapply bool_decide_eq_true_1).
  - (* symlink *) exists (" " +:+ put_path p). split; [|done].
    rewrite app_assoc_str, read_put_path. done.
Qed.

(** Reading the line that [writeTo] produced gives the element back, up to what
    the format does not keep. *)
Lemma write_read e :
  line_wf e = true ->
  exists l, writeTo e = Ok l /\
    forall file n, readFrom l file n = Ok (as_read e).
Proof.
  intros Hwf. pose proof Hwf as H. unfold line_wf in H. split_andb.
  exists (line_of e (break_down (mt e))). split; [unfold writeTo; by rewrite gmtime_four_digits|].
  intros file n. unfold readFrom.
  set (fail := read_fail file n _). unfold line_of.
  destruct (perm_string_spec (per e)) as (Hp1 & Hp2 & Hp3).
  set (ps := String (type_char (ty e)) (perm_string (per e))).
  assert (is_token ps = true).
  { unfold is_token, ps. cbn [str_empty str_all negb andb]. rewrite Hp2. by destruct (ty e). }
  rewrite read_token_app by done. cbn [from_option_err mbind outcome_bind].
  unfold ps at 1. rewrite bool_decide_true by (unfold ps; cbn [String.length]; by rewrite Hp3).
  cbn [negb].
  rewrite read_type_char, Hp1. cbn [from_option_err mbind outcome_bind].
  rewrite read_token_blank by done. cbn [from_option_err mbind outcome_bind].
  rewrite read_token_blank by done. cbn [from_option_err mbind outcome_bind].
  rewrite read_put_time by done. cbn [from_option_err mbind outcome_bind].
  rewrite timegm_break_down. apply negb_true_iff in H1. rewrite H1.
  change 6%nat with (String.length " +0000"). rewrite read_chars_app.
  cbn [from_option_err mbind outcome_bind]. unfold str_eqb. rewrite bool_decide_true by done.
  cbn [negb]. destruct (read_type_fields_back fail e Hwf) as (s & -> & Hs).
  cbn [mbind outcome_bind]. rewrite Hs. done.
Qed.

(** ** Properties of the comparisons *)

Lemma elem_ltb_asym a b : elem_ltb a b = true -> elem_ltb b a = false.
Proof.
  unfold elem_ltb. destruct (isDirectory a), (isDirectory b); simpl; auto using path_ltb_asym.
Qed.

Lemma elem_ltb_ntrans a b c :
  elem_ltb b a = false -> elem_ltb c b = false -> elem_ltb c a = false.
Proof.
  unfold elem_ltb.
  destruct (isDirectory a), (isDirectory b), (isDirectory c); simpl; try done;
    eauto using path_ltb_ntrans.
Qed.

(** in a sorted list nothing after a non-directory is a directory *)
Lemma in_order_directories a b :
  in_order elem_ltb a b -> isDirectory a = false -> isDirectory b = false.
Proof. unfold in_order, elem_ltb. by destruct (isDirectory a), (isDirectory b). Qed.

Definition hashes_agree (a b : FilesystemElement) : bool :=
  str_empty (fileHash a) || str_empty (fileHash b) || bool_decide (fileHash a = fileHash b).

Lemma if_false_true (b x : bool) : (if b then false else x) = true <-> b = false /\ x = true.
Proof. destruct b; naive_solver. Qed.

Lemma enabled_test (o : bool) P `{Decision P} :
  o && negb (bool_decide P) = false <-> (o = true -> P).
Proof. destruct o; case_bool_decide; naive_solver. Qed.

Lemma enabled_owner (o : bool) P Q `{Decision P, Decision Q} :
  o && (negb (bool_decide P) || negb (bool_decide Q)) = false <-> (o = true -> P /\ Q).
Proof. destruct o; repeat case_bool_decide; naive_solver. Qed.

Lemma enabled_hash (o : bool) a b :
  o && negb (bool_decide (fileHash a = fileHash b)) &&
  negb (str_empty (fileHash a)) && negb (str_empty (fileHash b)) = false <->
  (o = true -> hashes_agree a b = true).
Proof.
  unfold hashes_agree.
  destruct o, (str_empty (fileHash a)), (str_empty (fileHash b)); case_bool_decide; naive_solver.
Qed.

(** [compare] as a conjunction of the enabled tests *)
Lemma compare_spec a b o :
  compare a b o = true <->
  ty a = ty b /\ rp a = rp b /\
  (o_perm o = true -> per a = per b) /\
  (o_owner o = true -> us a = us b /\ gs a = gs b) /\
  (o_mtime o = true -> mt a = mt b) /\
  (o_size o = true -> sz a = sz b) /\
  (o_hash o = true -> hashes_agree a b = true) /\
  (o_symlink o = true -> symlink a = symlink b).
Proof.
  unfold compare. rewrite !if_false_true, !enabled_test, !orb_false_iff, !negb_false_iff,
    !bool_decide_eq_true, enabled_owner, enabled_hash. tauto.
Qed.

Lemma elem_eqb_spec a b :
  elem_eqb a b = true <->
  ty a = ty b /\ per a = per b /\ us a = us b /\ gs a = gs b /\ mt a = mt b /\ sz a = sz b /\
  rp a = rp b /\ symlink a = symlink b /\ hashes_agree a b = true.
Proof.
  unfold elem_eqb, hashes_agree. rewrite !andb_true_iff, !bool_decide_eq_true. tauto.
Qed.

(** [compare] with the default options is [operator==]. *)
Lemma compare_all_opts a b : compare a b all_opts = elem_eqb a b.
Proof.
  apply eq_true_iff_eq. rewrite compare_spec, elem_eqb_spec. simpl. naive_solver.
Qed.

Lemma hashes_agree_refl a : hashes_agree a a = true.
Proof. unfold hashes_agree. rewrite bool_decide_true by done. by rewrite orb_true_r. Qed.

Lemma hashes_agree_sym a b : hashes_agree a b = hashes_agree b a.
Proof.
  unfold hashes_agree. rewrite (orb_comm (str_empty (fileHash a))). f_equal.
  apply bool_decide_ext. naive_solver.
Qed.

(** Agreement is not transitive through a missing hash. *)
Lemma hashes_agree_trans a b c :
  fileHash b <> "" -> hashes_agree a b = true -> hashes_agree b c = true ->
  hashes_agree a c = true.
Proof.
  unfold hashes_agree. intros Hb%str_empty_false. rewrite Hb. simpl.
  rewrite orb_false_r, !orb_true_iff, !bool_decide_eq_true. intros [Ha|Ha] [Hc|Hc]; auto.
  right. congruence.
Qed.

Lemma compare_refl a o : compare a a o = true.
Proof. apply compare_spec. naive_solver eauto using hashes_agree_refl. Qed.

Lemma compare_sym a b o : compare a b o = compare b a o.
Proof.
  apply eq_true_iff_eq. rewrite !compare_spec, (hashes_agree_sym a b). naive_solver.
Qed.

Lemma compare_trans a b c o :
  o_hash o = false \/ fileHash b <> "" \/ fileHash a = "" ->
  compare a b o = true -> compare b c o = true -> compare a c o = true.
Proof.
  rewrite !compare_spec. intros Hh Hab Hbc.
  destruct Hab as (?&?&?&?&?&?&?&?), Hbc as (?&?&?&?&?&?&?&?).
  split_and!; [congruence|congruence|intros Ho..];
    repeat match goal with H : o_perm o = true -> _ |- _ => specialize (H Ho)
      | H : o_owner o = true -> _ |- _ => specialize (H Ho) as [? ?]
      | H : o_mtime o = true -> _ |- _ => specialize (H Ho)
      | H : o_size o = true -> _ |- _ => specialize (H Ho)
      | H : o_hash o = true -> _ |- _ => specialize (H Ho)
      | H : o_symlink o = true -> _ |- _ => specialize (H Ho) end;
    [congruence|split; congruence|congruence|congruence| |congruence].
  destruct Hh as [|[Hh|Hh]]; [congruence| |unfold hashes_agree; by rewrite Hh].
  eapply hashes_agree_trans; eauto.
Qed.

(** every test disabled in [o] may only accept more pairs *)
Definition opt_le (o o' : CompareOpt) : Prop :=
  (o_perm o = true -> o_perm o' = true) /\ (o_owner o = true -> o_owner o' = true) /\
  (o_mtime o = true -> o_mtime o' = true) /\ (o_size o = true -> o_size o' = true) /\
  (o_hash o = true -> o_hash o' = true) /\ (o_symlink o = true -> o_symlink o' = true).

Lemma compare_mono a b o o' :
  opt_le o o' -> compare a b o' = true -> compare a b o = true.
Proof. unfold opt_le. rewrite !compare_spec. naive_solver. Qed.

(** *** The ignore list *)

Lemma span_length f s a b : span f s = (a, b) -> String.length s = (String.length a + String.length b)%nat.
Proof.
  revert a b; induction s as [|c s IH]; intros a b; simpl; [by intros [= <- <-]|].
  destruct (f c); [|by intros [= <- <-]].
  destruct (span f s) as [a' b'] eqn:E. intros [= <- <-]. simpl. by rewrite (IH _ _ eq_refl).
Qed.

Lemma skip_ws_length s : (String.length (skip_ws s) <= String.length s)%nat.
Proof. induction s as [|c s IH]; simpl; [done|]. destruct (Ascii.is_space c); simpl; lia. Qed.

Lemma read_token_length s t r :
  read_token s = Some (t, r) -> (String.length r < String.length s)%nat.
Proof.
  unfold read_token. destruct (span not_space (skip_ws s)) as [a b] eqn:E.
  apply span_length in E. pose proof (skip_ws_length s).
  destruct a; [done|]. intros [= <- <-]. simpl in E. lia.
Qed.

(** the blank-separated words of a text *)
Fixpoint words (fuel : nat) (s : string) : list string :=
  match fuel with
  | O => []
  | S fuel' => match read_token s with
               | None => []
               | Some (w, s') => w :: words fuel' s'
               end
  end.

Definition ignore_list (s : string) : list string :=
  words (String.length s) (replace_comma s).

Lemma ignore_words_fold fuel s o :
  (String.length s < fuel)%nat ->
  ignore_words fuel s o = for_each ignore_word (words (String.length s) s) o.
Proof.
  assert (Hw : forall m n s, (String.length s <= m)%nat -> (String.length s <= n)%nat ->
    words m s = words n s).
  { induction m as [|m IH]; intros n s' Hm Hn.
    - destruct n; [done|]. by destruct s'; [|simpl in *; lia].
    - destruct n as [|n]; [by destruct s'; [|simpl in *; lia]|]. simpl.
      destruct (read_token s') as [[w r]|] eqn:E; [|done].
      apply read_token_length in E. f_equal. apply IH; lia. }
  revert s o; induction fuel as [|fuel IH]; intros s o H; [lia|]. simpl.
  destruct (String.length s) as [|n] eqn:Hn; simpl.
  - by destruct s.
  - destruct (read_token s) as [[w r]|] eqn:E; [|done]. simpl.
    apply read_token_length in E. destruct (ignore_word w o); [|done]. simpl.
    rewrite IH by lia. f_equal. apply Hw; lia.
Qed.

Lemma replace_comma_length s : String.length (replace_comma s) = String.length s.
Proof. induction s; simpl; by auto. Qed.

(** the constructor handles the words of the list one after the other *)
Lemma CompareOpt_of_list s :
  CompareOpt_of_string s = for_each ignore_word (ignore_list s) all_opts.
Proof.
  unfold CompareOpt_of_string, ignore_list. cbv zeta. rewrite ignore_words_fold by lia.
  by rewrite replace_comma_length.
Qed.

Definition known_ignore (w : string) : bool :=
  bool_decide (w ∈ ["perm"; "owner"; "mtime"; "size"; "hash"; "symlink"; "all"]).

Definition keeps (l : list string) (w : string) : bool :=
  negb (bool_decide (w ∈ l)) && negb (bool_decide ("all" ∈ l)).

Lemma ignore_words_flags l o :
  Forall (fun w => known_ignore w = true) l ->
  for_each ignore_word l o =
  Ok (mkOpt (o_perm o && keeps l "perm") (o_owner o && keeps l "owner")
            (o_mtime o && keeps l "mtime") (o_size o && keeps l "size")
            (o_hash o && keeps l "hash") (o_symlink o && keeps l "symlink")).
Proof.
  intros Hl. revert o. induction Hl as [|w l Hw _ IH]; intros o.
  - destruct o. unfold keeps. simpl. by rewrite !andb_true_r.
  - assert (Hk : forall x, keeps (w :: l) x =
      negb (bool_decide (w = x)) && negb (bool_decide (w = "all")) && keeps l x).
    { intros x. unfold keeps. rewrite <-!negb_orb. f_equal.
      repeat case_bool_decide; set_solver. }
    rewrite !Hk. unfold known_ignore in Hw. apply bool_decide_eq_true in Hw.
    destruct o as [p ow m s h ln]; simpl.
    repeat (apply elem_of_cons in Hw as [->|Hw]); [..|by apply elem_of_nil in Hw];
      unfold str_eqb; repeat first [rewrite bool_decide_true by reflexivity | rewrite bool_decide_false by discriminate];
      cbn; rewrite IH; cbn; rewrite ?andb_false_r; done.
Qed.

Lemma ignore_words_bad l o :
  Exists (fun w => known_ignore w = false) l ->
  exists w, w ∈ l /\ for_each ignore_word l o = Err (Throw ("Ignore option " +:+ w +:+ " not valid")).
Proof.
  revert o; induction l as [|w l IH]; intros o; [by inversion 1|].
  intros H. destruct (known_ignore w) eqn:Hw.
  - assert (exists o', ignore_word w o = Ok o') as [o' E].
    { unfold known_ignore in Hw. apply bool_decide_eq_true in Hw. destruct o.
      repeat (apply elem_of_cons in Hw as [->|Hw]); [eexists; reflexivity..|by apply elem_of_nil in Hw]. }
    apply Exists_cons in H as [H|H]; [congruence|].
    destruct (IH o' H) as (w' & Hin & E'). exists w'. split; [set_solver|]. simpl. by rewrite E.
  - exists w. split; [set_solver|]. unfold known_ignore in Hw. apply bool_decide_eq_false in Hw.
    simpl. unfold ignore_word, str_eqb. destruct o.
    rewrite !bool_decide_false by (intros ->; set_solver). done.
Qed.
