(* ===== verification/ExtFs.v ===== *)
(** * Extended file status and owners (src/extfs.h, src/extfs.cpp)

    The mode bits of [struct stat], and the translation between numeric owners
    and their names through caches in front of the user database. Each lookup
    holds the mutex from its first to its last statement, so a lookup is one
    step on the caches. The database calls are parameters. *)

From S2P Require Import Prelude CxxPath CxxTime CxxStream Element.

(** ** Mode bits *)

Definition typeLut : list file_type :=
  [unknown; fifo; character; unknown; directory; unknown; block; unknown;
   regular; unknown; symlink_; unknown; socket; unknown; unknown; unknown].

(** [ext_file_status::type] *)
Definition mode_type (st_mode : Z) : file_type :=
  nth (Z.to_nat (Z.land (Z.shiftr st_mode 12) 15)) typeLut unknown.

(** [ext_file_status::permissions] *)
Definition mode_permissions (st_mode : Z) : Z := Z.land st_mode 4095.

(** the code that [sys/stat.h] gives to each type of file in the bits [S_IFMT] of the
    mode: [S_IFIFO], [S_IFCHR], [S_IFDIR], [S_IFBLK], [S_IFREG], [S_IFLNK], [S_IFSOCK] *)
Definition S_IFMT : Z := 61440.
Definition type_code (t : file_type) : option Z :=
  match t with
  | fifo => Some 4096
  | character => Some 8192
  | directory => Some 16384
  | block => Some 24576
  | regular => Some 32768
  | symlink_ => Some 40960
  | socket => Some 49152
  | _ => None
  end%Z.

(** the type bits of a mode, as a number below 16 *)
Lemma type_bits mode :
  exists k, (0 <= k < 16)%Z /\ Z.land (Z.shiftr mode 12) 15 = k /\ Z.land mode S_IFMT = (k * 4096)%Z.
Proof.
  exists (Z.land (Z.shiftr mode 12) 15). split; [|split; [done|]].
  - change 15%Z with (Z.ones 4). rewrite Z.land_ones by lia. apply Z.mod_pos_bound. lia.
  - change 4096%Z with (2 ^ 12)%Z. rewrite <-Z.shiftl_mul_pow2 by lia. apply Z.bits_inj'. intros n Hn.
    unfold S_IFMT. change 61440%Z with (Z.shiftl 15 12). rewrite Z.land_spec, !Z.shiftl_spec, Z.land_spec by done.
    destruct (decide (n < 12)%Z) as [Hlt|Hge].
    + rewrite !(Z.testbit_neg_r _ (n - 12)) by lia. by rewrite !andb_false_r.
    + rewrite Z.shiftr_spec by lia. by replace (n - 12 + 12)%Z with n by lia.
Qed.

Lemma mode_type_code mode t c : type_code t = Some c -> mode_type mode = t <-> Z.land mode S_IFMT = c.
Proof.
  intros Ht. destruct (type_bits mode) as (k & Hk & E & ->). unfold mode_type. rewrite E. clear E.
  assert (k = 0 \/ k = 1 \/ k = 2 \/ k = 3 \/ k = 4 \/ k = 5 \/ k = 6 \/ k = 7 \/ k = 8 \/ k = 9 \/ k = 10 \/ k = 11 \/
    k = 12 \/ k = 13 \/ k = 14 \/ k = 15)%Z as Hcases by lia.
  repeat destruct Hcases as [->|Hcases]; subst; destruct t; cbn in Ht; try done; injection Ht as <-; split; vm_compute; done.
Qed.

Lemma mode_parts t c perm :
  type_code t = Some c -> (0 <= perm < 4096)%Z ->
  Z.land (Z.lor c perm) S_IFMT = c /\ mode_permissions (Z.lor c perm) = perm.
Proof.
  intros Ht Hp. assert (Hc : Z.land c S_IFMT = c /\ Z.land c 4095 = 0%Z) by (destruct t; cbn in Ht; try done; by injection Ht as <-).
  assert (Hl : Z.land perm 4095 = perm).
  { change 4095%Z with (Z.ones 12). rewrite Z.land_ones by lia. apply Z.mod_small. lia. }
  unfold mode_permissions. rewrite !Z.land_lor_distr_l. destruct Hc as [-> ->]. rewrite Hl. split; [|by rewrite Z.lor_0_l].
  rewrite <-Hl, <-Z.land_assoc. change (Z.land 4095 S_IFMT) with 0%Z. by rewrite Z.land_0_r, Z.lor_0_r.
Qed.

(** ** Owner names *)

(** result of a call such as [getpwuid_r]: an error number, a null pointer, or
    the entry *)
Inductive db_result (A : Type) := DbFailed | DbNotFound | DbFound (a : A).
Arguments DbFailed {A}.
Arguments DbNotFound {A}.
Arguments DbFound {A} a.

(** the two maps kept for users, and likewise for groups *)
Record OwnerCache := mkCache { byId : gmap N string; byName : gmap string N }.

(** [map::insert]: an existing entry stays *)
Definition map_insert {K V} `{Countable K} (k : K) (v : V) (m : gmap K V) : gmap K V :=
  match m !! k with Some _ => m | None => <[k := v]> m end.

Section owners.
(** what the lookups of users and of groups have in common: the messages and
    the calls of the database *)
Context (by_id_failed by_name_failed : string) (not_found : string -> string).
Context (getId : N -> db_result string) (getName : string -> db_result N).

Definition lookup_by_id (id : N) : method OwnerCache string := fun c =>
  match byId c !! id with
  | Some n => (Ok n, c)
  | None =>
      match getId id with
      | DbFailed => (Err (Throw by_id_failed), c)
      | DbFound n => (Ok n, mkCache (<[id := n]> (byId c)) (map_insert n id (byName c)))
      | DbNotFound =>
          let n := N_to_string id in
          (Ok n, mkCache (<[id := n]> (byId c)) (map_insert n id (byName c)))
      end
  end.

Definition lookup_by_name (name : string) : method OwnerCache N := fun c =>
  match byName c !! name with
  | Some id => (Ok id, c)
  | None =>
      match getName name with
      | DbFailed => (Err (Throw by_name_failed), c)
      | DbFound id => (Ok id, mkCache (map_insert id name (byId c)) (<[name := id]> (byName c)))
      | DbNotFound => (Err (Throw (not_found name)), c)
      end
  end.
End owners.

Definition ext_lookup_user_uid : (N -> db_result string) -> N -> method OwnerCache string :=
  lookup_by_id "ext_lookup_user(uid_t uid): getpwuid_r failed".
Definition ext_lookup_user_name : (string -> db_result N) -> string -> method OwnerCache N :=
  lookup_by_name "ext_lookup_user(const string& user): getpwnam_r failed"
    (fun user => "ext_lookup_user(const string& user): user " +:+ user +:+ " not found in the system").
Definition ext_lookup_group_gid : (N -> db_result string) -> N -> method OwnerCache string :=
  lookup_by_id "ext_lookup_group(gid_t gid): getgrgid_r failed".
Definition ext_lookup_group_name : (string -> db_result N) -> string -> method OwnerCache N :=
  lookup_by_name "ext_lookup_group(const string& group): getgrnam_r failed"
    (fun group => "ext_lookup_group(const string& group): group " +:+ group +:+ " not found in the system").

Definition empty_cache : OwnerCache := mkCache ∅ ∅.

(** ** The caches *)

Lemma N_to_string_inj n m : N_to_string n = N_to_string m -> n = m.
Proof.
  intros E. destruct (N_to_string_spec n) as (Hn & _), (N_to_string_spec m) as (Hm & _).
  rewrite E, Hm in Hn. injection Hn as Hn. by apply (DecimalN.Unsigned.to_uint_inj).
Qed.

(** the database is a bijection between the identifiers and the names it knows,
    does not fail, and no name is the decimal form of an identifier it does not
    know *)
Record db_bijective (getId : N -> db_result string) (getName : string -> db_result N) : Prop := {
  db_iff : forall id n, getId id = DbFound n <-> getName n = DbFound id;
  db_no_id_failure : forall id, getId id <> DbFailed;
  db_no_name_failure : forall n, getName n <> DbFailed;
  db_no_decimal : forall id id', getId id = DbNotFound -> getName (N_to_string id) <> DbFound id' }.

Section caches.
Context (getId : N -> db_result string) (getName : string -> db_result N).
Context (Hdb : db_bijective getId getName).

(** the name that a numeric owner gets *)
Definition owner_name (id : N) : string :=
  match getId id with DbFound n => n | _ => N_to_string id end.

Lemma owner_name_inj id id' : owner_name id = owner_name id' -> id = id'.
Proof using Hdb.
  unfold owner_name. destruct Hdb as [Hiff Hf _ Hdec].
  destruct (getId id) as [| |n] eqn:E, (getId id') as [| |n'] eqn:E';
    try (by destruct (Hf id)); try (by destruct (Hf id')).
  - apply N_to_string_inj.
  - intros <-. apply Hiff in E'. by destruct (Hdec _ _ E E').
  - intros ->. apply Hiff in E. by destruct (Hdec _ _ E' E).
  - intros ->. apply Hiff in E, E'. congruence.
Qed.

(** both maps hold pairs of an owner and its name, and the same pairs *)
Definition cache_ok (c : OwnerCache) : Prop :=
  forall id n, (byId c !! id = Some n <-> byName c !! n = Some id) /\
               (byId c !! id = Some n -> n = owner_name id).

Lemma cache_ok_empty : cache_ok empty_cache.
Proof. intros id n. cbn. by rewrite !lookup_empty. Qed.

Lemma cache_ok_insert c id :
  cache_ok c -> byId c !! id = None ->
  cache_ok (mkCache (<[id := owner_name id]> (byId c)) (<[owner_name id := id]> (byName c))) /\
  byName c !! owner_name id = None.
Proof using Hdb.
  intros Hc Hid.
  assert (Hn : byName c !! owner_name id = None).
  { destruct (byName c !! owner_name id) as [id'|] eqn:E; [|done].
    pose proof E as E'. apply (proj1 (Hc id' (owner_name id))) in E'.
    pose proof (proj2 (Hc id' (owner_name id)) E') as Heq%owner_name_inj. congruence. }
  split; [|done]. intros id' n. cbn [byId byName].
  destruct (decide (id = id')) as [<-|Hne].
  - rewrite lookup_insert_eq. split.
    + split; [intros [= <-]; by rewrite lookup_insert_eq|].
      destruct (decide (n = owner_name id)) as [->|Hnn]; [done|].
      rewrite lookup_insert_ne by done. intros H%(proj1 (Hc id n)). congruence.
    + by intros [= <-].
  - rewrite (lookup_insert_ne (byId c)) by done. split; [|by apply Hc].
    destruct (decide (n = owner_name id)) as [->|Hnn].
    + rewrite lookup_insert_eq. split; [|by intros [= ->]].
      intros H%(proj2 (Hc id' _))%owner_name_inj. done.
    + rewrite lookup_insert_ne by done. by apply Hc.
Qed.

(** a numeric owner gets its name, from the cache or from the database *)
Lemma lookup_by_id_ok msg c id :
  cache_ok c ->
  exists c', lookup_by_id msg getId id c = (Ok (owner_name id), c') /\ cache_ok c' /\
    byId c' !! id = Some (owner_name id) /\ byId c ⊆ byId c'.
Proof using Hdb.
  intros Hc. unfold lookup_by_id. destruct (byId c !! id) as [n|] eqn:E.
  - pose proof (proj2 (Hc id n) E) as ->. by exists c.
  - destruct (cache_ok_insert c id Hc E) as [Hc' Hn].
    exists (mkCache (<[id := owner_name id]> (byId c)) (<[owner_name id := id]> (byName c))).
    split; [|split_and!; [done|apply lookup_insert_eq|by apply insert_subseteq]].
    unfold map_insert. unfold owner_name in *. destruct (getId id) as [| |n] eqn:En.
    + by destruct (db_no_id_failure _ _ Hdb id).
    + by rewrite Hn.
    + by rewrite Hn.
Qed.

(** a name that a lookup translates *)
Definition name_known (c : OwnerCache) (n : string) : Prop := exists id, byName c !! n = Some id \/ getName n = DbFound id.

(** the name of a known owner gives the owner back *)
Lemma lookup_by_name_ok msg nf c id :
  cache_ok c -> byId c !! id = Some (owner_name id) \/ (exists n, getId id = DbFound n) ->
  exists c', lookup_by_name msg nf getName (owner_name id) c = (Ok id, c') /\ cache_ok c' /\
    byId c ⊆ byId c'.
Proof using Hdb.
  intros Hc Hknown. unfold lookup_by_name.
  destruct (byName c !! owner_name id) as [id'|] eqn:E.
  { pose proof E as E'. apply (proj1 (Hc id' _)) in E'. apply (proj2 (Hc id' _)) in E' as Eq%owner_name_inj.
    subst. by exists c. }
  destruct Hknown as [Hknown|[n Hn]].
  { apply (proj1 (Hc id _)) in Hknown. congruence. }
  assert (Hon : owner_name id = n) by (unfold owner_name; by rewrite Hn).
  assert (Hid : byId c !! id = None).
  { destruct (byId c !! id) as [n'|] eqn:E'; [|done].
    pose proof (proj2 (Hc id n') E') as ->. apply (proj1 (Hc id _)) in E'. congruence. }
  destruct (cache_ok_insert c id Hc Hid) as [Hc' _].
  pose proof (proj1 (db_iff _ _ Hdb id n) Hn) as Hg. rewrite Hon, Hg.
  unfold map_insert. rewrite Hid. eexists. split; [done|]. rewrite <-Hon.
  split; [done|]. cbn [byId]. by apply insert_subseteq.
Qed.

(** a name is translated to the owner that has it, or the lookup throws; the names
    that are known stay the same *)
Lemma lookup_by_name_cases msg nf c n :
  cache_ok c ->
  (name_known c n /\ exists id c', n = owner_name id /\ lookup_by_name msg nf getName n c = (Ok id, c') /\ cache_ok c' /\
     forall n', name_known c' n' <-> name_known c n') \/
  (~ name_known c n /\ lookup_by_name msg nf getName n c = (Err (Throw (nf n)), c)).
Proof using Hdb.
  intros Hc. unfold name_known. destruct (byName c !! n) as [id|] eqn:E.
  - left. split; [by exists id; left|]. exists id, c. unfold lookup_by_name. rewrite E. split; [|done].
    by apply Hc, Hc.
  - destruct (getName n) as [| |id] eqn:En.
    + by destruct (db_no_name_failure _ _ Hdb n).
    + right. split; [intros (id & [H|H]); congruence|]. unfold lookup_by_name. by rewrite E, En.
    + left. split; [by exists id; right|]. pose proof (proj2 (db_iff _ _ Hdb id n) En) as Hid.
      assert (Hon : owner_name id = n) by (unfold owner_name; by rewrite Hid).
      destruct (lookup_by_name_ok msg nf c id Hc) as (c' & El & Hc' & Hsub); [by right; exists n|].
      rewrite Hon in El. exists id, c'. split; [done|]. split; [done|]. split; [done|]. intros n'.
      revert El. unfold lookup_by_name. rewrite E, En. intros [= <-]. cbn [byName].
      destruct (decide (n = n')) as [<-|Hne]; [|by rewrite lookup_insert_ne].
      rewrite lookup_insert_eq. split; intros _; eauto.
Qed.
End caches.
