(* ===== verification/Node.v ===== *)
(** * DirectoryNode (src/core.h, src/core.cpp)

    A node of the in-memory tree: an element and, for a directory, the list of
    the nodes it contains. The C++ tree is also reached through pointers (the
    index of [DirectoryTree] and the references that its methods return), so a
    node carries the identity of the object, [nid]. Nodes live in [std::list]s,
    whose sorting and moving keeps the identity of their elements; copying a
    node makes a new object, with the next free identity. *)

From S2P Require Import Prelude CxxPath CxxTime CxxStream Element.

Inductive DirectoryNode :=
  mkNode { nid : nat; elem : FilesystemElement; content : list DirectoryNode }.

Section node_ind.
Context (P : DirectoryNode -> Prop).
Context (H : forall i e c, Forall P c -> P (mkNode i e c)).

Fixpoint node_ind' (n : DirectoryNode) : P n :=
  match n with
  | mkNode i e c =>
      H i e c ((fix go (l : list DirectoryNode) : Forall P l :=
                  match l with
                  | [] => Forall_nil_2 P
                  | m :: l' => Forall_cons_2 P m l' (node_ind' m) (go l')
                  end) c)
  end.
End node_ind.

(** ** Operations *)

Definition node_ltb (a b : DirectoryNode) : bool := elem_ltb (elem a) (elem b).

Definition sortContent (n : DirectoryNode) : DirectoryNode :=
  mkNode (nid n) (elem n) (list_sort node_ltb (content n)).

Definition pushContent (n m : DirectoryNode) : DirectoryNode :=
  mkNode (nid n) (elem n) (content n ++ [m]).

Definition setDirectoryContent (c : list DirectoryNode) (n : DirectoryNode)
    : outcome DirectoryNode :=
  _ ← cassert (isDirectory (elem n)) "setDirectoryContent: elem.isDirectory()";
  Ok (mkNode (nid n) (elem n) c).

Definition removeFromDirectoryContent (toRemove n : DirectoryNode) : DirectoryNode :=
  mkNode (nid n) (elem n)
    (List.filter (fun e => negb (elem_eqb (elem e) (elem toRemove))) (content n)).

(** [recursiveAdd(dst, src)]: appends a copy of [src] to [dst]; returns the new
    state of [dst], the identity of the copy and the next free identity *)
Fixpoint recursiveAdd (src dst : DirectoryNode) (next : nat)
    : outcome (DirectoryNode * nat * nat) :=
  match src with
  | mkNode _ se sc =>
      _ ← cassert (isDirectory (elem dst)) "recursiveAdd: dst.elem.isDirectory()";
      let name := filename (rp se) in
      _ ← cassert (negb (str_empty name)) "recursiveAdd: name.empty()==false";
      let newNode := mkNode next (withPath (rp (elem dst) // name) se) [] in
      '(newNode, next') ←
        for_each (fun n '(d, k) => '(d', _, k') ← recursiveAdd n d k; Ok (d', k'))
          sc (newNode, S next);
      Ok (pushContent dst (sortContent newNode), next, next')
  end.

Definition addToDirectoryContent (toAdd this : DirectoryNode) (next : nat)
    : outcome (DirectoryNode * nat * nat) :=
  let newName := rp (elem this) // filename (rp (elem toAdd)) in
  _ ← for_each (fun n _ => cassert (negb (path_eqb (rp (elem n)) newName))
                             "addToDirectoryContent: n.elem.relativePath()!=newName")
        (content this) tt;
  '(this', result, next') ← recursiveAdd toAdd this next;
  Ok (sortContent this', result, next').

(** the setters, on the element of a node *)
Definition updElem (f : FilesystemElement -> FilesystemElement) (n : DirectoryNode) : DirectoryNode :=
  mkNode (nid n) (f (elem n)) (content n).
Definition node_setPermissions (perm : Z) : DirectoryNode -> DirectoryNode :=
  updElem (setPermissions perm).
Definition node_setOwner (user group : string) : DirectoryNode -> DirectoryNode :=
  updElem (fun e => setGroup group (setUser user e)).
Definition node_setMtime (mtime : Z) : DirectoryNode -> DirectoryNode :=
  updElem (setMtime mtime).

(** [computeMissingHashes]: stops at the first hash that fails, keeping the
    hashes computed before it *)
Fixpoint node_computeMissingHashes (hashFile : path -> outcome string) (top : path)
    (n : DirectoryNode) : outcome unit * DirectoryNode :=
  match n with
  | mkNode i e c =>
      match computeHashIfNeeded hashFile top e with
      | Err x => (Err x, n)
      | Ok e' =>
          let '(r, c') := mutate_each (node_computeMissingHashes hashFile top) c in
          (r, mkNode i e' c')
      end
  end.

(** ** The objects of a forest, and access through their identity *)

(** all objects in preorder, with their elements *)
Fixpoint entries (n : DirectoryNode) : list (nat * FilesystemElement) :=
  match n with
  | mkNode i e c => (i, e) :: flat_map entries c
  end.
Definition forest (l : list DirectoryNode) : list (nat * FilesystemElement) := flat_map entries l.

Definition ids (l : list DirectoryNode) : list nat := (forest l).*1.
Definition paths (l : list DirectoryNode) : list path := rp <$> (forest l).*2.

(** [*pointer]: the node with the given identity *)
Fixpoint find_node (i : nat) (n : DirectoryNode) : option DirectoryNode :=
  match n with
  | mkNode j e c =>
      if bool_decide (i = j) then Some n
      else (fix go (l : list DirectoryNode) : option DirectoryNode :=
              match l with
              | [] => None
              | m :: l' => match find_node i m with Some r => Some r | None => go l' end
              end) c
  end.

Fixpoint find_in (i : nat) (l : list DirectoryNode) : option DirectoryNode :=
  match l with
  | [] => None
  | m :: l' => match find_node i m with Some r => Some r | None => find_in i l' end
  end.

(** mutation of the node with the given identity *)
Fixpoint update_node (i : nat) (f : DirectoryNode -> DirectoryNode) (n : DirectoryNode)
    : DirectoryNode :=
  match n with
  | mkNode j e c =>
      if bool_decide (i = j) then f n else mkNode j e (map (update_node i f) c)
  end.
Definition update_in (i : nat) (f : DirectoryNode -> DirectoryNode) (l : list DirectoryNode)
    : list DirectoryNode := map (update_node i f) l.

(** ** Induction and equations on forests *)

Lemma forest_ind (Q : list DirectoryNode -> Prop) :
  Q [] -> (forall i e c l, Q c -> Q l -> Q (mkNode i e c :: l)) -> forall l, Q l.
Proof.
  intros Hnil Hcons.
  assert (Hn : forall n, forall l, Q l -> Q (n :: l)).
  { induction n as [i e c IH] using node_ind'. intros l Hl. apply Hcons; [|done].
    clear Hl. induction IH as [|m c Hm _ IHc]; auto. }
  induction l as [|n l IH]; auto.
Qed.

Lemma forest_cons i e c l : forest (mkNode i e c :: l) = (i, e) :: forest c ++ forest l.
Proof. done. Qed.

Lemma forest_node n l : forest (n :: l) = entries n ++ forest l.
Proof. done. Qed.

Lemma forest_app l k : forest (l ++ k) = forest l ++ forest k.
Proof. apply flat_map_app. Qed.

Lemma entries_forest n : entries n = (nid n, elem n) :: forest (content n).
Proof. by destruct n. Qed.

Lemma ids_app l k : ids (l ++ k) = ids l ++ ids k.
Proof. unfold ids. by rewrite forest_app, fmap_app. Qed.

Lemma ids_cons i e c l : ids (mkNode i e c :: l) = i :: ids c ++ ids l.
Proof. unfold ids. by rewrite forest_cons, fmap_cons, fmap_app. Qed.

Lemma paths_cons i e c l : paths (mkNode i e c :: l) = rp e :: paths c ++ paths l.
Proof. unfold paths. by rewrite forest_cons, fmap_cons, fmap_app, fmap_cons, fmap_app. Qed.

#[global] Instance forest_perm : Proper ((≡ₚ) ==> (≡ₚ)) forest.
Proof. intros l k H. unfold forest. induction H; simpl; [done|by f_equiv| |by etrans].
  rewrite !app_assoc. f_equiv. apply Permutation_app_comm. Qed.

Lemma find_in_cons i j e c l :
  find_in i (mkNode j e c :: l) =
  if bool_decide (i = j) then Some (mkNode j e c)
  else match find_in i c with Some r => Some r | None => find_in i l end.
Proof.
  cbn [find_in find_node]. case_bool_decide; [done|].
  set (go := fix go (l : list DirectoryNode) : option DirectoryNode := _).
  assert (forall k, go k = find_in i k) as ->; [|done].
  induction k as [|m k IH]; simpl; [done|]. by rewrite IH.
Qed.

Lemma update_in_cons i f j e c l :
  update_in i f (mkNode j e c :: l) =
  (if bool_decide (i = j) then f (mkNode j e c) else mkNode j e (update_in i f c))
    :: update_in i f l.
Proof. done. Qed.

Lemma update_in_app i f l k : update_in i f (l ++ k) = update_in i f l ++ update_in i f k.
Proof. apply map_app. Qed.

Lemma find_in_None i l : find_in i l = None <-> i ∉ ids l.
Proof.
  induction l as [|j e c l IHc IHl] using forest_ind; [set_solver|].
  rewrite find_in_cons, ids_cons. case_bool_decide; [set_solver|].
  destruct (find_in i c); [set_solver|]. set_solver.
Qed.

Lemma find_in_nid i l n : find_in i l = Some n -> nid n = i.
Proof.
  induction l as [|j e c l IHc IHl] using forest_ind; [done|].
  rewrite find_in_cons. case_bool_decide; [by intros [= <-]|].
  destruct (find_in i c); naive_solver.
Qed.

Lemma update_in_id i f l : i ∉ ids l -> update_in i f l = l.
Proof.
  induction l as [|j e c l IHc IHl] using forest_ind; [done|].
  rewrite ids_cons, update_in_cons. intros H.
  rewrite bool_decide_false by set_solver. rewrite IHc, IHl; set_solver.
Qed.

(** Mutating one object leaves all others, in the same places. *)
Lemma update_in_frame i l n :
  NoDup (ids l) -> find_in i l = Some n ->
  exists rest, forest l ≡ₚ entries n ++ rest /\
    forall f, forest (update_in i f l) ≡ₚ entries (f n) ++ rest.
Proof.
  induction l as [|j e c l IHc IHl] using forest_ind; [done|].
  rewrite ids_cons, find_in_cons, NoDup_cons, NoDup_app. intros (Hj & Hc & Hcl & Hl).
  case_bool_decide as Hij.
  - intros [= <-]. exists (forest l). split; [done|]. intros f. subst j.
    rewrite update_in_cons, bool_decide_true, update_in_id by set_solver. done.
  - destruct (find_in i c) as [r|] eqn:Ec.
    + intros [= ->]. destruct (IHc Hc eq_refl) as (rest & E & Hf).
      exists ((j, e) :: rest ++ forest l). rewrite forest_cons. split.
      * rewrite E. solve_Permutation.
      * intros f. rewrite update_in_cons, bool_decide_false by done.
        rewrite (update_in_id i f l), forest_cons, Hf; [solve_Permutation|].
        assert (i ∈ ids c); [|set_solver].
        destruct (decide (i ∈ ids c)) as [|Hn%find_in_None]; congruence.
    + intros E. destruct (IHl Hl E) as (rest & El & Hf).
      exists ((j, e) :: forest c ++ rest). rewrite forest_cons. split.
      * rewrite El. solve_Permutation.
      * intros f. rewrite update_in_cons, bool_decide_false by done.
        rewrite (update_in_id i f c), forest_cons, Hf by (by apply find_in_None). solve_Permutation.
Qed.

Lemma find_in_elem i e l :
  NoDup (ids l) -> (i, e) ∈ forest l -> exists c, find_in i l = Some (mkNode i e c).
Proof.
  induction l as [|j e' c l IHc IHl] using forest_ind; [set_solver|].
  rewrite ids_cons, find_in_cons, NoDup_cons, NoDup_app, forest_cons. intros (Hj & Hc & Hcl & Hl) Hin.
  assert (Hids : forall k, (i, e) ∈ forest k -> i ∈ ids k)
    by (intros k Hk; apply (list_elem_of_fmap_2 fst) in Hk; done).
  apply elem_of_cons in Hin as [[= -> ->]|[Hin|Hin]%elem_of_app].
  - rewrite bool_decide_true by done. eauto.
  - rewrite bool_decide_false by set_solver. destruct (IHc Hc Hin) as [r ->]. eauto.
  - pose proof (Hids _ Hin). rewrite bool_decide_false by set_solver.
    rewrite (proj2 (find_in_None i c)) by set_solver. eauto.
Qed.

Lemma find_in_entries i l n : find_in i l = Some n -> entries n ⊆ forest l.
Proof.
  induction l as [|j e c l IHc IHl] using forest_ind; [done|].
  rewrite find_in_cons, forest_cons. case_bool_decide.
  - intros [= <-]. rewrite entries_forest. set_solver.
  - destruct (find_in i c); [intros [= ->]; set_solver|set_solver].
Qed.
