(* ===== verification/Tree.v ===== *)
(** * DirectoryTree: the in-memory operations (src/core.h, src/core.cpp)

    The tree of a directory, with an index from relative paths to pointers to
    the nodes of the tree. Methods are state-passing functions on the tree: what
    a method changed before it throws stays changed. Warnings go to a log in
    the tree, in place of the callback. *)

From S2P Require Import Prelude CxxPath CxxTime CxxStream Element Node.

Record DirectoryTree := mkTree {
  topContent : list DirectoryNode;
  index : gmap string nat;   (** path to the identity of the node *)
  topPath : option path;     (** only if built from a directory *)
  opt : ScanOpt;
  next : nat;                (** first identity not used in this tree *)
  warnings : list string }.

(** a default constructed tree *)
Definition emptyTree : DirectoryTree := mkTree [] ∅ None ComputeHash 0 [].

Abbreviation tree_method := (method DirectoryTree).

Definition set_top (c : list DirectoryNode) : tree_method unit := fun t =>
  (Ok tt, mkTree c (index t) (topPath t) (opt t) (next t) (warnings t)).
Definition set_index (ix : gmap string nat) : tree_method unit := fun t =>
  (Ok tt, mkTree (topContent t) ix (topPath t) (opt t) (next t) (warnings t)).
Definition set_topPath (p : option path) : tree_method unit := fun t =>
  (Ok tt, mkTree (topContent t) (index t) p (opt t) (next t) (warnings t)).
Definition set_next (n : nat) : tree_method unit := fun t =>
  (Ok tt, mkTree (topContent t) (index t) (topPath t) (opt t) n (warnings t)).
Definition warn (w : string) : tree_method unit := fun t =>
  (Ok tt, mkTree (topContent t) (index t) (topPath t) (opt t) (next t) (warnings t ++ [w])).

(** [*pointer] *)
Definition deref (i : nat) : tree_method DirectoryNode := fun t =>
  (from_option_err Dangling (find_in i (topContent t)), t).

(** mutation through a pointer *)
Definition mutate (i : nat) (f : DirectoryNode -> DirectoryNode) : tree_method unit := fun t =>
  match find_in i (topContent t) with
  | None => (Err Dangling, t)
  | Some _ => set_top (update_in i f (topContent t)) t
  end.

Definition clear : tree_method unit := fun t =>
  (Ok tt, mkTree [] ∅ None (opt t) (next t) (warnings t)).

(** ** Queries *)

Definition searchNode_fail (p : path) (where_ : string) : error :=
  Throw ("DirectoryTree::searchNode could not find the path " +:+ p +:+
         (if str_empty where_ then "" else ". Called from " +:+ where_)).

(** [searchNode]: a pointer to the node *)
Definition searchNode (p : path) (where_ : string) : tree_method nat := fun t =>
  (from_option_err (searchNode_fail p where_) (index t !! p), t).

Definition search (p : path) (t : DirectoryTree) : outcome (option FilesystemElement) :=
  match index t !! p with
  | None => Ok None
  | Some i => match find_in i (topContent t) with
              | Some n => Ok (Some (elem n))
              | None => Err Dangling
              end
  end.

Definition checkTopPath (where_ : string) : tree_method unit := fun t =>
  match topPath t with
  | Some _ => (Ok tt, t)
  | None => (Err (Throw (where_ +:+ ": DirectoryTree not constructed from filesystem")), t)
  end.

(** [bindToTopPath]; [absolute] is that of the standard library and depends on
    the current directory *)
Definition bindToTopPath (absolute : path -> path) (p : path) : tree_method unit :=
  set_topPath (Some (absolute p)).

(** ** The index *)

Definition index_insert (p : path) (i : nat) (where_ : string) (ix : gmap string nat)
    : outcome (gmap string nat) :=
  match ix !! p with
  | None => Ok (<[p := i]> ix)
  | Some _ => Err (AssertFailed where_)
  end.

(** adds the subtree starting from [node], including [node] itself *)
Fixpoint recursiveAddToIndex (node : DirectoryNode) (ix : gmap string nat)
    : outcome (gmap string nat) :=
  match node with
  | mkNode i e c =>
      ix ← index_insert (rp e) i "recursiveAddToIndex: inserted.second" ix;
      for_each (fun n ix =>
        if isDirectory (elem n) then recursiveAddToIndex n ix
        else index_insert (rp (elem n)) (nid n) "recursiveAddToIndex: inserted.second" ix) c ix
  end.

(** removes the subtree starting from [node], but not [node] itself *)
Fixpoint recursiveRemoveFromIndex (node : DirectoryNode) (ix : gmap string nat)
    : outcome (gmap string nat) :=
  match node with
  | mkNode _ _ c =>
      for_each (fun n ix =>
        ix ← (if isDirectory (elem n) then recursiveRemoveFromIndex n ix else Ok ix);
        match ix !! rp (elem n) with
        | Some _ => Ok (delete (rp (elem n)) ix)
        | None => Err (AssertFailed "recursiveRemoveFromIndex: cnt==1")
        end) c ix
  end.

(** ** Removal *)

Definition removeFromTree (relativePath : path) : tree_method unit :=
  i ← searchNode relativePath "removeFromTree";
  node ← deref i;
  _ ← (if isDirectory (elem node) then
         t ← get_state;
         ix ← lift_outcome (recursiveRemoveFromIndex node (index t));
         set_index ix
       else mret tt);
  let parent := parent_path relativePath in
  _ ← (if negb (str_empty parent) then
         j ← searchNode parent "";
         mutate j (removeFromDirectoryContent node)
       else
         t ← get_state;
         set_top (List.filter (fun e => negb (elem_eqb (elem e) (elem node))) (topContent t)));
  t ← get_state;
  set_index (delete relativePath (index t)).

(** ** Copying *)

(** the part of [treeCopy] that builds a node for the top directory *)
Definition copyToTop (src : DirectoryNode) (name : path) (next : nat)
    : outcome (DirectoryNode * nat) :=
  let newNode := mkNode next (withPath name (elem src)) [] in
  for_each (fun n '(d, k) => '(d', _, k') ← addToDirectoryContent n d k; Ok (d', k'))
    (content src) (newNode, S next).

(** [treeCopy]: the source node, read from another tree, and the pointer to its
    copy in this tree *)
Definition treeCopy (srcTree : DirectoryTree) (relativeSrcPath relativeDstPath : path)
    : tree_method (DirectoryNode * nat) :=
  s ← lift_outcome (from_option_err (searchNode_fail relativeSrcPath "treeCopy: can't find src")
                      (index srcTree !! relativeSrcPath));
  src ← lift_outcome (from_option_err Dangling (find_in s (topContent srcTree)));
  if negb (str_empty relativeDstPath) then
    d ← searchNode relativeDstPath "treeCopy: can't find dst";
    dst ← deref d;
    if negb (isDirectory (elem dst)) then
      lift_outcome (Err (Throw ("treeCopy: dst not a directory: " +:+ relativeDstPath)))
    else
      t ← get_state;
      '(dst', newNode, k) ← lift_outcome (addToDirectoryContent src dst (next t));
      _ ← set_next k;
      _ ← mutate d (fun _ => dst');
      n ← deref newNode;
      t ← get_state;
      ix ← lift_outcome (recursiveAddToIndex n (index t));
      _ ← set_index ix;
      mret (src, newNode)
  else
    let name := filename (rp (elem src)) in
    _ ← lift_outcome (cassert (negb (str_empty name)) "treeCopy: name.empty()==false");
    t ← get_state;
    _ ← lift_outcome (for_each (fun n _ => cassert (negb (path_eqb (rp (elem n)) name))
                                 "treeCopy: n.getElement().relativePath()!=name")
                       (topContent t) tt);
    '(newNode, k) ← lift_outcome (copyToTop src name (next t));
    _ ← set_next k;
    _ ← set_top (list_sort node_ltb (topContent t ++ [newNode]));
    ix ← lift_outcome (recursiveAddToIndex newNode (index t));
    _ ← set_index ix;
    mret (src, nid newNode).

Definition copyFromTree (srcTree : DirectoryTree) (relativeSrcPath relativeDstPath : path)
    : tree_method unit :=
  _ ← treeCopy srcTree relativeSrcPath relativeDstPath; mret tt.

(** ** Symlinks and metadata *)

Definition addSymlinkToTree (link : FilesystemElement) : tree_method unit :=
  _ ← lift_outcome (cassert (bool_decide (ty link = symlink_)) "addSymlinkToTree: type()==symlink");
  let parentPath := parent_path (rp link) in
  t ← get_state;
  if str_empty parentPath then
    _ ← set_next (S (next t));
    set_top (list_sort node_ltb (topContent t ++ [mkNode (next t) link []]))
  else
    j ← searchNode parentPath "addSymlinkToTree: missing parent";
    parent ← deref j;
    '(parent', _, k) ← lift_outcome (addToDirectoryContent (mkNode 0 link []) parent (next t));
    _ ← set_next k;
    mutate j (fun _ => parent').

Definition modifyPermissionsInTree (relativePath : path) (perm : Z) : tree_method unit :=
  i ← searchNode relativePath "modifyPermissionsInTree";
  mutate i (node_setPermissions perm).

Definition modifyOwnerInTree (relativePath : path) (user group : string) : tree_method unit :=
  i ← searchNode relativePath "modifyOwnerInTree";
  mutate i (node_setOwner user group).

Definition modifyMtimeInTree (relativePath : path) (mtime : Z) : tree_method unit :=
  i ← searchNode relativePath "modifyMtimeInTree";
  mutate i (node_setMtime mtime).

Definition hashAllMissing (hashFile : path -> outcome string) : tree_method unit := fun t =>
  match topPath t with
  | None => (Err (Throw "bad_optional_access"), t)
  | Some top =>
      let '(r, c) := mutate_each (node_computeMissingHashes hashFile top) (topContent t) in
      (r, mkTree c (index t) (topPath t) (opt t) (next t) (warnings t))
  end.

Definition computeMissingHashes (hashFile : path -> outcome string) : tree_method unit :=
  _ ← checkTopPath "computeMissingHashes"; hashAllMissing hashFile.
