(* ===== verification/TreeInv.v ===== *)
(** * The invariant of DirectoryTree

    What holds of a tree between two operations: entries sit below the
    directory their path names, only directories have content, paths and object
    identities are unique, and the index maps every path to its node and
    nothing else. The lemmas relate the forest to the abstract view of a tree,
    a finite map from paths to elements. *)

From S2P Require Import Prelude CxxPath CxxTime CxxStream Element Node Tree.

(** ** Well-formed forests *)

(** [n] is a well-formed child of the directory [par] *)
Fixpoint node_wf (par : path) (n : DirectoryNode) : bool :=
  match n with
  | mkNode _ e c =>
      good_name (filename (rp e)) && bool_decide (rp e = par // filename (rp e)) &&
      (isDirectory e || is_nil c) && forallb (node_wf (rp e)) c
  end.
Definition forest_wf (par : path) (l : list DirectoryNode) : bool := forallb (node_wf par) l.

(** ** Sorted content *)

Definition sorted (l : list DirectoryNode) : Prop := StronglySorted (in_order node_ltb) l.

#[global] Instance in_order_dec {A} (lt : A -> A -> bool) x y : Decision (in_order lt x y).
Proof. unfold in_order. apply _. Defined.

#[global] Instance sorted_dec l : Decision (sorted l).
Proof. unfold sorted. apply _. Defined.

Fixpoint sorted_below (n : DirectoryNode) : bool :=
  match n with
  | mkNode _ _ c => bool_decide (sorted c) && forallb sorted_below c
  end.

(** every list of the forest is in order *)
Definition forest_sorted (l : list DirectoryNode) : Prop :=
  sorted l /\ forallb sorted_below l = true.

(** ** The invariant *)

Definition path_id (x : nat * FilesystemElement) : path * nat := (rp x.2, x.1).
Definition path_elem (x : nat * FilesystemElement) : path * FilesystemElement := (rp x.2, x.2).

Definition path_index (l : list DirectoryNode) : gmap path nat :=
  list_to_map (path_id <$> forest l).

Definition tree_inv (t : DirectoryTree) : Prop :=
  forest_wf "" (topContent t) = true /\
  NoDup (ids (topContent t)) /\
  Forall (fun i => i < next t) (ids (topContent t)) /\
  NoDup (paths (topContent t)) /\
  index t = path_index (topContent t).

Definition tree_sorted (t : DirectoryTree) : Prop := forest_sorted (topContent t).

#[global] Instance tree_inv_dec t : Decision (tree_inv t).
Proof. unfold tree_inv. apply _. Defined.
#[global] Instance tree_sorted_dec t : Decision (tree_sorted t).
Proof. unfold tree_sorted, forest_sorted. apply _. Defined.

(** the abstract view of a tree *)
Definition model_of (l : list DirectoryNode) : gmap path FilesystemElement :=
  list_to_map (path_elem <$> forest l).
Definition model (t : DirectoryTree) : gmap path FilesystemElement := model_of (topContent t).

(** ** Equations *)

Lemma forest_wf_cons par i e c l :
  forest_wf par (mkNode i e c :: l) = true <->
  good_name (filename (rp e)) = true /\ rp e = par // filename (rp e) /\
  (isDirectory e = true \/ c = []) /\ forest_wf (rp e) c = true /\ forest_wf par l = true.
Proof.
  unfold forest_wf. cbn [forallb node_wf].
  rewrite !andb_true_iff, orb_true_iff, bool_decide_eq_true.
  assert (is_nil c = true <-> c = []) as -> by (by destruct c). tauto.
Qed.

Lemma forest_wf_app par l k :
  forest_wf par (l ++ k) = true <-> forest_wf par l = true /\ forest_wf par k = true.
Proof. unfold forest_wf. by rewrite forallb_app, andb_true_iff. Qed.

Lemma forest_wf_node par n : node_wf par n = true <-> forest_wf par [n] = true.
Proof. unfold forest_wf. simpl. by rewrite andb_true_r. Qed.

Lemma forest_wf_elem par l n : forest_wf par l = true -> n ∈ l -> node_wf par n = true.
Proof. intros H Hn. apply forallb_Forall' in H. rewrite Forall_forall in H. auto. Qed.

#[global] Instance forest_wf_perm par : Proper ((≡ₚ) ==> iff) (fun l => forest_wf par l = true).
Proof. intros l k H. unfold forest_wf. by rewrite !forallb_Forall', H. Qed.

#[global] Instance ids_perm : Proper ((≡ₚ) ==> (≡ₚ)) ids.
Proof. intros l k H. unfold ids. by rewrite H. Qed.
#[global] Instance paths_perm : Proper ((≡ₚ) ==> (≡ₚ)) paths.
Proof. intros l k H. unfold paths. by rewrite H. Qed.

(** the path of a well-formed node extends that of its directory by one name *)
Lemma node_wf_comps par n :
  good_dir par = true -> node_wf par n = true ->
  good_path (rp (elem n)) = true /\ parent_path (rp (elem n)) = par /\
  exists name, comps (rp (elem n)) = comps par ++ [name].
Proof.
  intros Hpar. destruct n as [i e c]. rewrite forest_wf_node, forest_wf_cons; simpl.
  intros (Hn & He & _). rewrite He. split; [auto|]. split; [by apply parent_append|].
  exists (filename (rp e)). by apply comps_append.
Qed.

Lemma node_wf_good par n :
  good_dir par = true -> node_wf par n = true -> good_path (rp (elem n)) = true.
Proof. intros ? H. by apply node_wf_comps in H as [? _]. Qed.

(** every entry lies below one of the nodes of the list *)
Lemma forest_wf_prefix par l i e :
  good_dir par = true -> forest_wf par l = true -> (i, e) ∈ forest l ->
  good_path (rp e) = true /\
  exists m name, m ∈ l /\ comps (rp (elem m)) = comps par ++ [name] /\
    comps (rp (elem m)) `prefix_of` comps (rp e) /\ rp (elem m) ∈ paths l.
Proof.
  revert par. induction l as [|j e0 c l IHc IHl] using forest_ind; intros par Hpar; [set_solver|].
  intros Hwf Hin. pose proof Hwf as (Hn & He & _ & Hc & Hl)%forest_wf_cons.
  assert (Hg : good_path (rp e0) = true) by (rewrite He; auto).
  assert (Hcomps : comps (rp e0) = comps par ++ [filename (rp e0)])
    by (rewrite He at 1; by apply comps_append).
  rewrite forest_cons in Hin. rewrite paths_cons.
  apply elem_of_cons in Hin as [[= -> ->]|[Hin|Hin]%elem_of_app].
  - split; [done|]. exists (mkNode j e0 c), (filename (rp e0)). set_solver.
  - destruct (IHc (rp e0)) as (Hge & m & name & Hm & Hcm & Hpre & _); [auto|done|done|].
    split; [done|]. exists (mkNode j e0 c), (filename (rp e0)). simpl.
    split_and!; [set_solver|done| |set_solver].
    etrans; [|exact Hpre]. rewrite Hcm. by eexists.
  - destruct (IHl par) as (Hge & m & name & Hm & Hcm & Hpre & Hmp); [done..|].
    split; [done|]. exists m, name. split_and!; [by apply elem_of_cons; right|done|done|].
    apply elem_of_cons; right. apply elem_of_app; by right.
Qed.

Lemma forest_wf_below par l i e :
  good_dir par = true -> forest_wf par l = true -> (i, e) ∈ forest l ->
  comps par `prefix_of` comps (rp e) /\ length (comps par) < length (comps (rp e)).
Proof.
  intros Hp Hwf Hin. destruct (forest_wf_prefix _ _ _ _ Hp Hwf Hin) as (_ & m & name & _ & Hm & Hpre & _).
  rewrite Hm in Hpre. split.
  - etrans; [|exact Hpre]. by eexists.
  - apply prefix_length in Hpre. rewrite length_app in Hpre. simpl in Hpre. lia.
Qed.

Lemma prefix_same_length {A} (l1 l2 k : list A) :
  l1 `prefix_of` k -> l2 `prefix_of` k -> length l1 = length l2 -> l1 = l2.
Proof.
  intros [k1 ->] [k2 E] Hl. by apply app_inj_1 in E as [-> _].
Qed.

(** [p] is [q] or one of its ancestors *)
Definition within (p q : path) : Prop := comps p `prefix_of` comps q.
#[global] Instance within_dec p q : Decision (within p q).
Proof. unfold within. apply _. Defined.

(** two siblings above the same entry are the same path *)
Lemma siblings_same par l1 l2 m1 m2 q :
  good_dir par = true -> forest_wf par l1 = true -> forest_wf par l2 = true ->
  m1 ∈ l1 -> m2 ∈ l2 ->
  comps (rp (elem m1)) `prefix_of` q -> comps (rp (elem m2)) `prefix_of` q ->
  rp (elem m1) = rp (elem m2).
Proof.
  intros Hp H1 H2 Hm1 Hm2 Hq1 Hq2.
  destruct (node_wf_comps par m1) as (_ & _ & n1 & E1); [done|by apply (forest_wf_elem _ l1)|].
  destruct (node_wf_comps par m2) as (_ & _ & n2 & E2); [done|by apply (forest_wf_elem _ l2)|].
  apply comps_inj. eapply prefix_same_length; [done..|]. rewrite E1, E2, !length_app. done.
Qed.

(** The entries at or below a path are those of its node. *)
(** nothing is below both the first node and a later sibling *)
Lemma head_apart par n l m q :
  good_dir par = true -> forest_wf par [n] = true -> forest_wf par l = true -> rp (elem n) ∉ paths l ->
  m ∈ l -> rp (elem m) ∈ paths l -> comps (rp (elem n)) `prefix_of` q -> comps (rp (elem m)) `prefix_of` q -> False.
Proof.
  intros Hpar Hn Hl Hnin Hm Hmp Hq1 Hq2.
  pose proof (siblings_same par [n] l n m q Hpar Hn Hl ltac:(set_solver) Hm Hq1 Hq2) as E. rewrite E in Hnin. done.
Qed.

Lemma entries_within par l i n j e :
  good_dir par = true -> forest_wf par l = true -> NoDup (ids l) -> NoDup (paths l) ->
  find_in i l = Some n -> (j, e) ∈ forest l -> within (rp (elem n)) (rp e) ->
  (j, e) ∈ entries n.
Proof.
  revert par. unfold within.
  induction l as [|k e0 c l IHc IHl] using forest_ind; intros par Hpar Hwf Hids Hpaths Hf Hin Hpre;
    [set_solver|].
  pose proof Hwf as (Hn & He & _ & Hc & Hl)%forest_wf_cons.
  assert (Hg : good_dir (rp e0) = true) by (rewrite He; auto).
  assert (Hhead : forest_wf par [mkNode k e0 c] = true)
    by (by apply forest_wf_node, (forest_wf_elem _ _ _ Hwf), elem_of_cons; left).
  rewrite ids_cons, NoDup_cons, NoDup_app in Hids.
  rewrite paths_cons, NoDup_cons, NoDup_app in Hpaths.
  destruct Hids as (_ & Hidc & _ & Hidl), Hpaths as (Hpe & Hpc & _ & Hpl).
  assert (Hnol : rp e0 ∉ paths l) by set_solver.
  pose proof (fun m q => head_apart par (mkNode k e0 c) l m q Hpar Hhead Hl Hnol) as Hno.
  rewrite find_in_cons in Hf. rewrite forest_cons in Hin.
  case_bool_decide as Hik; [injection Hf as <-|destruct (find_in i c) as [r|] eqn:Ec].
  - (* found at the head *)
    rewrite entries_forest. simpl in *.
    apply elem_of_cons in Hin as [Hin|[Hin|Hin]%elem_of_app]; [set_solver..|].
    destruct (forest_wf_prefix _ _ _ _ Hpar Hl Hin) as (_ & m & ? & Hm & _ & Hpm & Hmp).
    destruct (Hno m _ Hm Hmp Hpre Hpm).
  - (* found below the head *)
    injection Hf as ->.
    assert (Hnin : (nid n, elem n) ∈ forest c)
      by (apply (find_in_entries _ _ _ Ec); rewrite entries_forest; set_solver).
    pose proof (forest_wf_below _ _ _ _ Hg Hc Hnin) as [Hbelow Hlt].
    apply elem_of_cons in Hin as [[= -> ->]|[Hin|Hin]%elem_of_app].
    + apply prefix_length in Hpre. lia.
    + by eapply (IHc (rp e0)).
    + destruct (forest_wf_prefix _ _ _ _ Hpar Hl Hin) as (_ & m & ? & Hm & _ & Hpm & Hmp).
      destruct (Hno m (comps (rp e)) Hm Hmp); [by etrans|done].
  - (* found in a later sibling *)
    assert (Hnin : (nid n, elem n) ∈ forest l)
      by (apply (find_in_entries _ _ _ Hf); rewrite entries_forest; set_solver).
    destruct (forest_wf_prefix _ _ _ _ Hpar Hl Hnin) as (_ & m & ? & Hm & _ & Hpm & Hmp).
    assert (comps (rp (elem m)) `prefix_of` comps (rp e)) by (by etrans).
    apply elem_of_cons in Hin as [[= -> ->]|[Hin|Hin]%elem_of_app].
    + by destruct (Hno m (comps (rp e0)) Hm Hmp).
    + pose proof (forest_wf_below _ _ _ _ Hg Hc Hin) as [Hbelow _].
      by destruct (Hno m (comps (rp e)) Hm Hmp).
    + by eapply (IHl par).
Qed.

(** ** The index and the abstract map *)

Lemma fst_path_id l : (path_id <$> l).*1 = rp <$> l.*2.
Proof. rewrite <-!list_fmap_compose. done. Qed.
Lemma fst_path_elem l : (path_elem <$> l).*1 = rp <$> l.*2.
Proof. rewrite <-!list_fmap_compose. done. Qed.

Lemma path_index_lookup l p i :
  NoDup (paths l) -> path_index l !! p = Some i <-> exists e, (i, e) ∈ forest l /\ rp e = p.
Proof.
  intros Hnd. unfold path_index. rewrite <-elem_of_list_to_map by (by rewrite fst_path_id).
  rewrite list_elem_of_fmap. unfold path_id. split.
  - intros ([j e] & [= -> ->] & H). eauto.
  - intros (e & H & <-). exists (i, e). done.
Qed.

Lemma model_of_lookup l p e :
  NoDup (paths l) -> model_of l !! p = Some e <-> exists i, (i, e) ∈ forest l /\ rp e = p.
Proof.
  intros Hnd. unfold model_of. rewrite <-elem_of_list_to_map by (by rewrite fst_path_elem).
  rewrite list_elem_of_fmap. unfold path_elem. split.
  - intros ([j e'] & [= -> ->] & H). eauto.
  - intros (i & H & <-). exists (i, e). done.
Qed.

Lemma path_index_None l p : path_index l !! p = None <-> p ∉ paths l.
Proof. unfold path_index. rewrite <-not_elem_of_list_to_map, fst_path_id. done. Qed.
Lemma model_of_None l p : model_of l !! p = None <-> p ∉ paths l.
Proof. unfold model_of. rewrite <-not_elem_of_list_to_map, fst_path_elem. done. Qed.

Lemma path_index_cons i e c l :
  path_index (mkNode i e c :: l) = <[rp e := i]> (path_index c ∪ path_index l).
Proof.
  unfold path_index. rewrite forest_cons, fmap_cons, fmap_app, <-list_to_map_app. done.
Qed.

(** the invariant, in the form the operations use *)
Section tree_inv.
Context (t : DirectoryTree) (Ht : tree_inv t).

Lemma inv_lookup p i :
  index t !! p = Some i ->
  exists e c, find_in i (topContent t) = Some (mkNode i e c) /\ rp e = p /\
    model t !! p = Some e.
Proof using Ht.
  destruct Ht as (Hwf & Hids & _ & Hpaths & ->). rewrite path_index_lookup by done.
  intros (e & Hin & <-). destruct (find_in_elem _ _ _ Hids Hin) as [c Hc].
  exists e, c. split_and!; [done..|]. apply model_of_lookup; eauto.
Qed.

Lemma inv_lookup_None p : index t !! p = None <-> model t !! p = None.
Proof using Ht.
  destruct Ht as (Hwf & Hids & _ & Hpaths & ->). unfold model.
  by rewrite path_index_None, model_of_None.
Qed.

Lemma inv_model p e :
  model t !! p = Some e ->
  exists i c, index t !! p = Some i /\ find_in i (topContent t) = Some (mkNode i e c) /\ rp e = p.
Proof using Ht.
  intros Hm. destruct (index t !! p) as [i|] eqn:Hi.
  - destruct (inv_lookup p i Hi) as (e' & c & Hf & Hp & Hm'). naive_solver.
  - apply inv_lookup_None in Hi. congruence.
Qed.

(** a pointer of the index designates the only node with that path *)
Lemma inv_unique p i j n :
  index t !! p = Some i -> find_in j (topContent t) = Some n -> rp (elem n) = p -> i = j.
Proof using Ht.
  destruct Ht as (Hwf & Hids & _ & Hpaths & ->). rewrite path_index_lookup by done.
  intros (e & Hin & <-) Hf He.
  assert (Hn : (j, elem n) ∈ forest (topContent t)).
  { apply (find_in_entries _ _ _ Hf). rewrite entries_forest.
    pose proof (find_in_nid _ _ _ Hf). set_solver. }
  assert (Hp : NoDup ((fun x => rp x.2) <$> forest (topContent t))).
  { unfold paths in Hpaths. by rewrite <-list_fmap_compose in Hpaths. }
  by pose proof (NoDup_fmap_inj_elem _ _ _ _ Hp Hin Hn (eq_sym He)) as [= -> _].
Qed.

Lemma inv_good_path p : is_Some (model t !! p) -> good_path p = true.
Proof using Ht.
  destruct Ht as (Hwf & Hids & _ & Hpaths & _). intros [e (i & Hin & <-)%model_of_lookup]; [|done].
  by destruct (forest_wf_prefix "" _ _ _ eq_refl Hwf Hin) as [? _].
Qed.

(** [search] reads the abstract map. *)
Lemma search_model p : search p t = Ok (model t !! p).
Proof using Ht.
  unfold search. destruct (index t !! p) as [i|] eqn:Hi.
  - destruct (inv_lookup p i Hi) as (e & c & -> & _ & ->). done.
  - apply inv_lookup_None in Hi. by rewrite Hi.
Qed.
End tree_inv.

(** ** The directory that contains a node *)

Lemma find_in_ids i l n : find_in i l = Some n -> i ∈ ids l.
Proof.
  intros H. destruct (decide (i ∈ ids l)) as [|Hn%find_in_None]; [done|congruence].
Qed.

Lemma find_parent par l i n :
  good_dir par = true -> forest_wf par l = true -> NoDup (ids l) -> find_in i l = Some n ->
  (n ∈ l /\ parent_path (rp (elem n)) = par) \/
  (exists j m, find_in j l = Some m /\ n ∈ content m /\
     rp (elem m) = parent_path (rp (elem n)) /\ good_path (rp (elem m)) = true /\
     isDirectory (elem m) = true).
Proof.
  revert par. induction l as [|k e c l IHc IHl] using forest_ind; intros par Hpar Hwf Hids; [done|].
  pose proof Hwf as (Hn & He & Hdir & Hc & Hl)%forest_wf_cons.
  rewrite ids_cons, NoDup_cons, NoDup_app in Hids. destruct Hids as (Hk & Hidc & Hdisj & Hidl).
  rewrite find_in_cons. case_bool_decide as Hik.
  { intros [= <-]. left. split; [by apply elem_of_cons; left|]. simpl. rewrite He.
    by apply parent_append. }
  assert (Hg : good_path (rp e) = true) by (rewrite He; auto).
  destruct (find_in i c) as [r|] eqn:Ec.
  - intros [= ->]. right.
    destruct (IHc (rp e)) as [[Hin Hp]|(j & m & Hf & Hrest)]; [auto|done|done|done| |].
    + exists k, (mkNode k e c). rewrite find_in_cons, bool_decide_true by done. cbn [elem content].
      split_and!; [done|done|done|done|].
      destruct Hdir as [| ->]; [done|by apply not_elem_of_nil in Hin].
    + exists j, m. split; [|done]. pose proof (find_in_ids _ _ _ Hf).
      rewrite find_in_cons, bool_decide_false by (intros ->; apply Hk, elem_of_app; by left).
      by rewrite Hf.
  - intros Hf. destruct (IHl par) as [[Hin Hp]|(j & m & Hfm & Hrest)]; [done..| |].
    + left. split; [by apply elem_of_cons; right|done].
    + right. exists j, m. split; [|done]. pose proof (find_in_ids _ _ _ Hfm) as Hj.
      rewrite find_in_cons, bool_decide_false by (intros ->; apply Hk, elem_of_app; by right).
      rewrite (proj2 (find_in_None j c)); [done|]. intros Hjc. by apply (Hdisj j).
Qed.

(** ** Mutating one node *)

Lemma update_in_wf par l i n f :
  forest_wf par l = true -> NoDup (ids l) -> find_in i l = Some n ->
  (forall q, node_wf q n = true -> node_wf q (f n) = true) ->
  forest_wf par (update_in i f l) = true.
Proof.
  intros Hwf Hids Hf Hn. revert par Hwf.
  induction l as [|k e c l IHc IHl] using forest_ind; intros par Hwf; [done|].
  pose proof Hwf as (Hna & He & Hdir & Hc & Hl)%forest_wf_cons.
  rewrite ids_cons, NoDup_cons, NoDup_app in Hids. destruct Hids as (Hk & Hidc & Hdisj & Hidl).
  rewrite find_in_cons in Hf. rewrite update_in_cons. case_bool_decide as Hik.
  - injection Hf as <-. subst k. rewrite update_in_id by (intros ?; apply Hk, elem_of_app; by right).
    change (f ?x :: l) with ([f x] ++ l).
    apply (forest_wf_app par [f (mkNode i e c)] l). split; [|done].
    apply forest_wf_node, Hn. by apply (forest_wf_elem _ _ _ Hwf), elem_of_cons; left.
  - destruct (find_in i c) as [r|] eqn:Ec.
    + injection Hf as ->. apply forest_wf_cons. split_and!; [done|done| |by apply IHc|].
      * destruct Hdir as [|Hnil]; [by left|by rewrite Hnil in Ec].
      * rewrite update_in_id; [done|]. intros Hi. apply (Hdisj i); [|done]. by eapply find_in_ids.
    + rewrite (update_in_id _ _ c) by (by apply find_in_None).
      apply forest_wf_cons. split_and!; auto.
Qed.

(** elements that sort alike *)
Definition same_key (n m : DirectoryNode) : Prop :=
  isDirectory (elem n) = isDirectory (elem m) /\ rp (elem n) = rp (elem m).

Lemma node_ltb_key a a' b b' : same_key a a' -> same_key b b' -> node_ltb a b = node_ltb a' b'.
Proof. intros [H1 H2] [H3 H4]. unfold node_ltb, elem_ltb. by rewrite H1, H2, H3, H4. Qed.

Lemma sorted_map_key g l :
  (forall x, x ∈ l -> same_key (g x) x) -> sorted l -> sorted (map g l).
Proof.
  unfold sorted. intros Hg. induction 1 as [|x l Hl IH Hx]; simpl; [constructor|].
  constructor; [apply IH; intros y Hy; apply Hg; by apply elem_of_cons; right|].
  apply Forall_forall. intros y (z & -> & Hz)%list_elem_of_fmap.
  rewrite Forall_forall in Hx. unfold in_order.
  rewrite (node_ltb_key _ z _ x); [by apply Hx|..]; apply Hg; apply elem_of_cons; auto.
Qed.

Lemma forest_sorted_cons i e c l :
  forest_sorted (mkNode i e c :: l) ->
  forest_sorted c /\ forest_sorted l.
Proof.
  intros [Hs Hb]. cbn [forallb sorted_below] in Hb. split_andb.
  apply StronglySorted_inv in Hs as [Hs _].
  split; split; [by eapply bool_decide_eq_true_1|done..].
Qed.

Lemma update_in_sorted l i n f :
  NoDup (ids l) -> find_in i l = Some n -> same_key (f n) n -> sorted_below (f n) = true ->
  forest_sorted l -> forest_sorted (update_in i f l).
Proof.
  intros Hids Hf Hkey Hfs.
  (* sortedness of the list itself *)
  assert (Hlist : forall l, NoDup (ids l) -> (find_in i l = Some n \/ i ∉ ids l) -> sorted l ->
    sorted (update_in i f l)).
  { clear l Hids Hf. intros l Hids Hf. apply sorted_map_key. intros [k e c] Hx.
    cbn [update_node]. case_bool_decide as Hik; [|done]. subst k.
    apply list_elem_of_split in Hx as (l1 & l2 & ->).
    rewrite ids_app, ids_cons in Hids. apply NoDup_app in Hids as (_ & Hd & _).
    destruct Hf as [Hf|Hni]; [|destruct Hni; rewrite ids_app, ids_cons; apply elem_of_app;
      right; by apply elem_of_cons; left].
    assert (find_in i (l1 ++ mkNode i e c :: l2) = Some (mkNode i e c)) as E.
    { clear Hf. induction l1 as [|m l1 IH]; [by rewrite app_nil_l, find_in_cons, bool_decide_true|].
      simpl. destruct (find_node i m) as [r|] eqn:Em.
      - exfalso. assert (Hi : i ∈ ids [m]) by (eapply (find_in_ids i [m] r); simpl; by rewrite Em).
        apply (Hd i); [|by apply elem_of_cons; left].
        change (m :: l1) with ([m] ++ l1). rewrite ids_app. apply elem_of_app. by left.
      - apply IH. intros x Hx. apply Hd. change (m :: l1) with ([m] ++ l1). rewrite ids_app.
        apply elem_of_app. by right. }
    rewrite E in Hf. by injection Hf as ->. }
  induction l as [|k e c l IHc IHl] using forest_ind; [done|]. intros Hs.
  split; [apply Hlist; [done|by left|by destruct Hs]|].
  pose proof (forest_sorted_cons _ _ _ _ Hs) as [Hsc Hsl].
  pose proof Hids as Hids'.
  rewrite ids_cons, NoDup_cons, NoDup_app in Hids. destruct Hids as (Hk & Hidc & Hdisj & Hidl).
  rewrite find_in_cons in Hf. rewrite update_in_cons. cbn [forallb]. apply andb_true_iff.
  case_bool_decide as Hik.
  - injection Hf as <-. subst k. split; [done|].
    rewrite update_in_id by (intros ?; apply Hk, elem_of_app; by right). by destruct Hsl.
  - destruct (find_in i c) as [r|] eqn:Ec.
    + injection Hf as ->. destruct (IHc Hidc eq_refl Hsc) as [H1 H2]. split.
      * cbn [sorted_below]. apply andb_true_iff. split; [by apply bool_decide_eq_true_2|done].
      * rewrite update_in_id; [by destruct Hsl|]. intros Hi. apply (Hdisj i); [|done]. by eapply find_in_ids.
    + rewrite (update_in_id _ _ c) by (by apply find_in_None). split.
      * destruct Hs as [_ Hb]. cbn [forallb sorted_below] in *. by split_andb.
      * by destruct (IHl Hidl Hf Hsl).
Qed.

Lemma find_in_sorted_below i l n :
  forallb sorted_below l = true -> find_in i l = Some n -> sorted_below n = true.
Proof.
  induction l as [|k e c l IHc IHl] using forest_ind; [done|].
  rewrite find_in_cons. cbn [forallb sorted_below]. intros Hb Hf. split_andb.
  case_bool_decide; [injection Hf as <-; cbn [sorted_below]; by split_andb|].
  destruct (find_in i c); [injection Hf as ->|]; auto.
Qed.

Lemma find_in_wf i par l n :
  good_dir par = true -> forest_wf par l = true -> find_in i l = Some n ->
  exists q, good_dir q = true /\ node_wf q n = true.
Proof.
  revert par. induction l as [|k e c l IHc IHl] using forest_ind; intros par Hpar Hwf; [done|].
  pose proof Hwf as (Hna & He & Hdir & Hc & Hl)%forest_wf_cons.
  rewrite find_in_cons. case_bool_decide.
  - intros [= <-]. exists par. split; [done|].
    by apply (forest_wf_elem _ _ _ Hwf), elem_of_cons; left.
  - destruct (find_in i c); [intros [= ->]; apply (IHc (rp e)); [rewrite He; auto|done|done]|].
    by apply (IHl par).
Qed.
