(* ===== verification/TreeOps.v ===== *)
(** * Correctness of the in-memory operations of DirectoryTree

    Each operation preserves the invariant of the tree and refines the
    corresponding operation on the abstract map from paths to elements. *)

From S2P Require Import Prelude CxxPath CxxTime CxxStream Element Node Tree TreeInv.

(** ** Changing the metadata of an entry *)

(** a change of metadata that keeps path and type *)
Definition keeps_place (f : FilesystemElement -> FilesystemElement) : Prop :=
  forall e, rp (f e) = rp e /\ ty (f e) = ty e.

Lemma keeps_place_dir f e : keeps_place f -> isDirectory (f e) = isDirectory e.
Proof. intros H. unfold isDirectory. by rewrite (proj2 (H e)). Qed.

(** what an operation on the map of entries leaves alone *)
Definition same_fields (t t' : DirectoryTree) : Prop :=
  topPath t' = topPath t /\ opt t' = opt t /\ warnings t' = warnings t.

Lemma mutate_elem_spec t p i f :
  tree_inv t -> index t !! p = Some i -> keeps_place f ->
  exists t', mutate i (updElem f) t = (Ok tt, t') /\ tree_inv t' /\
    model t' = alter f p (model t) /\ (tree_sorted t -> tree_sorted t') /\ same_fields t t'.
Proof.
  intros Ht Hi Hf. destruct (inv_lookup t Ht p i Hi) as (e & c & Hfind & He & Hm).
  unfold mutate. rewrite Hfind. cbn [set_top]. eexists. split; [done|].
  destruct Ht as (Hwf & Hids & Hnext & Hpaths & Hix).
  destruct (update_in_frame _ _ _ Hids Hfind) as (rest & Hold & Hnew).
  specialize (Hnew (updElem f)). cbn [entries updElem nid elem content] in Hold, Hnew.
  set (l' := update_in i (updElem f) (topContent t)) in *.
  assert (Eids : ids l' ≡ₚ ids (topContent t)).
  { unfold ids. rewrite Hold, Hnew. done. }
  assert (Epaths : paths l' ≡ₚ paths (topContent t)).
  { unfold paths. rewrite Hold, Hnew. simpl. by rewrite (proj1 (Hf e)). }
  assert (Hpaths' : NoDup (paths l')) by (by rewrite Epaths).
  split; [|split; [|split; [|done]]].
  - unfold tree_inv. cbn [topContent index next]. rewrite Eids. split_and!; [|done|done|done|].
    + eapply update_in_wf; [done..|]. intros q. cbn [updElem node_wf nid elem content].
      rewrite (proj1 (Hf e)), keeps_place_dir by done. done.
    + rewrite Hix. apply list_to_map_perm; [by rewrite fst_path_id|].
      rewrite Hold, Hnew. simpl. unfold path_id at 1 3. simpl. by rewrite (proj1 (Hf e)).
  - unfold model at 1, model_of. cbn [topContent].
    apply map_eq; intros k. rewrite lookup_alter.
    assert (Hl' : list_to_map (path_elem <$> forest l') =
                  <[p := f e]> (list_to_map (path_elem <$> forest c ++ rest)) :> gmap path _).
    { rewrite (list_to_map_perm _ (path_elem <$> ((i, f e) :: forest c ++ rest)));
        [|by rewrite fst_path_elem|by rewrite Hnew].
      rewrite fmap_cons. unfold path_elem at 1. simpl. by rewrite (proj1 (Hf e)), He. }
    assert (Hl : model t = <[p := e]> (list_to_map (path_elem <$> forest c ++ rest))).
    { unfold model, model_of.
      rewrite (list_to_map_perm _ (path_elem <$> ((i, e) :: forest c ++ rest)));
        [|by rewrite fst_path_elem|by rewrite Hold].
      rewrite fmap_cons. unfold path_elem at 1. simpl. by rewrite He. }
    rewrite Hl', Hl, !lookup_insert. case_decide; subst; by rewrite ?decide_True, ?decide_False.
  - intros Hs. unfold tree_sorted. cbn [topContent]. eapply update_in_sorted; [done|done| | |done].
    + split; cbn [elem updElem]; [by apply keeps_place_dir|apply Hf].
    + apply (find_in_sorted_below _ _ _ (proj2 Hs)) in Hfind. done.
Qed.

(** What the three operations that change metadata promise to those who use them:
    they look the path up and change the element of its node, without moving it
    and in the same way for elements that compare equal. *)
Class Attribute (op : path -> tree_method unit) (where_ : string)
    (f : FilesystemElement -> FilesystemElement) : Prop := {
  attr_op p t : op p t =
    match index t !! p with
    | None => (Err (searchNode_fail p where_), t)
    | Some i => mutate i (updElem f) t
    end;
  attr_place : keeps_place f;
  attr_hash e : ty (f e) = ty e /\ fileHash (f e) = fileHash e;
  attr_compare e e' : compare e e' all_opts = true -> compare (f e) (f e') all_opts = true }.

Ltac solve_attribute :=
  split; [intros p t; unfold searchNode, mbind, method_bind; by destruct (index t !! p)
         |done
         |done
         |intros e e'; rewrite !compare_spec; cbn; unfold hashes_agree; naive_solver].

#[global] Instance permissions_attribute perm :
  Attribute (fun p => modifyPermissionsInTree p perm) "modifyPermissionsInTree" (setPermissions perm).
Proof. unfold modifyPermissionsInTree. solve_attribute. Qed.
#[global] Instance owner_attribute u g :
  Attribute (fun p => modifyOwnerInTree p u g) "modifyOwnerInTree" (fun e => setGroup g (setUser u e)).
Proof. unfold modifyOwnerInTree. solve_attribute. Qed.
#[global] Instance mtime_attribute m :
  Attribute (fun p => modifyMtimeInTree p m) "modifyMtimeInTree" (setMtime m).
Proof. unfold modifyMtimeInTree. solve_attribute. Qed.

(** Such an operation alters one entry of the map, or throws and changes
    nothing when the path is not in the tree. *)
Lemma attribute_spec op where_ f `{!Attribute op where_ f} t p :
  tree_inv t ->
  match model t !! p with
  | None => op p t = (Err (searchNode_fail p where_), t)
  | Some _ => exists t', op p t = (Ok tt, t') /\ tree_inv t' /\ model t' = alter f p (model t) /\
      (tree_sorted t -> tree_sorted t') /\ same_fields t t'
  end.
Proof.
  intros Ht. rewrite attr_op. destruct (model t !! p) as [e|] eqn:Hm.
  - destruct (inv_model t Ht p e Hm) as (i & c & Hi & _). rewrite Hi.
    apply (mutate_elem_spec t p i f); [done|done|apply attr_place].
  - apply inv_lookup_None in Hm; [|done]. by rewrite Hm.
Qed.

(** ** Removal *)

Definition remove_child (n : DirectoryNode) (ix : gmap string nat) : outcome (gmap string nat) :=
  ix ← (if isDirectory (elem n) then recursiveRemoveFromIndex n ix else Ok ix);
  match ix !! rp (elem n) with
  | Some _ => Ok (delete (rp (elem n)) ix)
  | None => Err (AssertFailed "recursiveRemoveFromIndex: cnt==1")
  end.

Lemma recursiveRemoveFromIndex_eq i e c ix :
  recursiveRemoveFromIndex (mkNode i e c) ix = for_each remove_child c ix.
Proof. done. Qed.

(** No assertion fails, and exactly the paths of the subtree go. *)
Lemma remove_index_forest par c ix :
  forest_wf par c = true -> NoDup (paths c) -> (forall p, p ∈ paths c -> is_Some (ix !! p)) ->
  for_each remove_child c ix = Ok (delete_all (paths c) ix).
Proof.
  revert par ix. induction c as [|i e c l IHc IHl] using forest_ind; intros par ix; [done|].
  rewrite forest_wf_cons, paths_cons, NoDup_cons, NoDup_app, not_elem_of_app.
  intros (_ & _ & Hdir & Hwc & Hwl) ([Hec Hel] & Hc & Hcl & Hl) Hix.
  setoid_rewrite elem_of_cons in Hix. setoid_rewrite elem_of_app in Hix.
  assert (Hrec : (if isDirectory e then recursiveRemoveFromIndex (mkNode i e c) ix else Ok ix) =
    Ok (delete_all (paths c) ix)).
  { destruct (isDirectory e).
    - rewrite recursiveRemoveFromIndex_eq. apply (IHc (rp e)); auto.
    - by destruct Hdir as [| ->]. }
  assert (Hhead : remove_child (mkNode i e c) ix = Ok (delete (rp e) (delete_all (paths c) ix))).
  { unfold remove_child. cbn [elem]. rewrite Hrec. cbn [mbind outcome_bind].
    rewrite lookup_delete_all, decide_False by done.
    by destruct (Hix (rp e)) as [v ->]; [left|]. }
  rewrite for_each_cons, Hhead. cbn [mbind outcome_bind].
  rewrite (IHl par); [|done..|].
  - f_equal. apply map_eq; intros k.
    rewrite !lookup_delete_all, lookup_delete, lookup_delete_all. clear -k.
    repeat case_decide; set_solver.
  - intros p Hp. rewrite lookup_delete_ne by (intros E; by rewrite E in Hel).
    rewrite lookup_delete_all, decide_False by (intros ?; by apply (Hcl p)). auto.
Qed.

Lemma elem_eqb_other a b : rp a <> rp b -> elem_eqb a b = false.
Proof.
  intros H. destruct (elem_eqb a b) eqn:E; [|done].
  by apply elem_eqb_spec in E as (_ & _ & _ & _ & _ & _ & E & _).
Qed.

Lemma elem_eqb_refl a : elem_eqb a a = true.
Proof. apply elem_eqb_spec. by split_and!; auto using hashes_agree_refl. Qed.

Lemma elem_in_paths n l : n ∈ l -> rp (elem n) ∈ paths l.
Proof.
  intros (l1 & l2 & ->)%list_elem_of_split. unfold paths.
  rewrite forest_app, forest_node, entries_forest, !fmap_app. apply elem_of_app. right.
  apply elem_of_cons. by left.
Qed.

Lemma filter_other n l :
  rp (elem n) ∉ paths l ->
  List.filter (fun e => negb (elem_eqb (elem e) (elem n))) l = l.
Proof.
  induction l as [|[i e c] l IH]; [done|].
  rewrite paths_cons, not_elem_of_cons, not_elem_of_app. intros (Hne & _ & Hl).
  cbn [List.filter elem]. rewrite elem_eqb_other by done. cbn [negb]. by rewrite IH.
Qed.

(** [remove_if] drops one node, with all that is below it. *)
Lemma filter_out n l :
  NoDup (paths l) -> n ∈ l ->
  forest l ≡ₚ entries n ++ forest (List.filter (fun e => negb (elem_eqb (elem e) (elem n))) l).
Proof.
  induction l as [|[i e c] l IH]; [by intros _ ?%not_elem_of_nil|].
  rewrite paths_cons, NoDup_cons, NoDup_app, not_elem_of_app.
  intros ([Hec Hel] & Hc & Hcl & Hl) Hin. cbn [List.filter elem].
  apply elem_of_cons in Hin as [->|Hin].
  - cbn [elem]. rewrite elem_eqb_refl. cbn [negb].
    by rewrite (filter_other (mkNode i e c)) by done.
  - pose proof (elem_in_paths _ _ Hin) as Hn.
    rewrite elem_eqb_other by (intros E; by rewrite E in Hel). cbn [negb].
    rewrite !forest_cons, (IH Hl Hin). solve_Permutation.
Qed.

Lemma sorted_filter f l : sorted l -> sorted (List.filter f l).
Proof.
  unfold sorted. induction 1 as [|x l Hl IH Hx]; simpl; [constructor|].
  destruct (f x); [|done]. constructor; [done|].
  apply Forall_forall. intros y Hy. apply list_elem_of_In, filter_In in Hy as [Hy _].
  rewrite Forall_forall in Hx. by apply Hx, list_elem_of_In.
Qed.

Lemma forallb_filter {A} (g f : A -> bool) l :
  forallb g l = true -> forallb g (List.filter f l) = true.
Proof.
  rewrite !forallb_forall. intros H x [Hx _]%filter_In. auto.
Qed.

(** the paths of the subtree of a node *)
Lemma entries_paths n : rp <$> (entries n).*2 = rp (elem n) :: paths (content n).
Proof. by rewrite entries_forest. Qed.

(** the entries that are not at or below [p] *)
Definition prune (p : path) (m : gmap path FilesystemElement) : gmap path FilesystemElement :=
  filter (fun '(k, _) => ~ within p k) m.

Lemma prune_lookup p m q : prune p m !! q = if decide (within p q) then None else m !! q.
Proof.
  unfold prune. rewrite map_lookup_filter. destruct (m !! q); cbn; [|by case_decide].
  case_decide; [by rewrite option_guard_False by auto|by rewrite option_guard_True].
Qed.

Lemma subtree_removed t i n l' :
  tree_inv t -> find_in i (topContent t) = Some n ->
  forest (topContent t) ≡ₚ entries n ++ forest l' -> forest_wf "" l' = true ->
  let t' := mkTree l' (delete (rp (elem n)) (delete_all (paths (content n)) (index t)))
              (topPath t) (opt t) (next t) (warnings t) in
  tree_inv t' /\ model t' = prune (rp (elem n)) (model t).
Proof.
  intros Ht Hf Hperm Hwf' t'. destruct Ht as (Hwf & Hids & Hnext & Hpaths & Hix).
  assert (Hids' : NoDup (ids l') /\ Forall (fun i => i < next t) (ids l')).
  { unfold ids in Hids, Hnext. rewrite Hperm, fmap_app in Hids, Hnext.
    apply NoDup_app in Hids as (_ & _ & ?). apply Forall_app in Hnext as [_ ?]. done. }
  assert (Hpaths' : NoDup (paths l')).
  { unfold paths in Hpaths. rewrite Hperm, !fmap_app in Hpaths. by apply NoDup_app in Hpaths as (_ & _ & ?). }
  assert (Hpp : NoDup ((path_id <$> (entries n ++ forest l')).*1)).
  { rewrite fst_path_id. unfold paths in Hpaths. by rewrite Hperm in Hpaths. }
  split.
  - split_and!; [done|apply Hids'|apply Hids'|done|]. unfold t'. cbn [index topContent].
    rewrite fmap_app in Hpp. unfold path_index.
    rewrite (list_to_map_delete_all _ _ Hpp), <-fmap_app, fst_path_id, entries_paths, delete_all_cons.
    do 2 f_equal. rewrite Hix. apply list_to_map_perm; [by rewrite fst_path_id|by rewrite Hperm].
  - unfold t', model, model_of. cbn [topContent].
    assert (Hpe : NoDup ((path_elem <$> entries n) ++ (path_elem <$> forest l')).*1)
      by (rewrite <-fmap_app, fst_path_elem; by rewrite fst_path_id in Hpp).
    rewrite (list_to_map_delete_all _ _ Hpe), <-fmap_app, fst_path_elem.
    rewrite (list_to_map_perm _ (path_elem <$> forest (topContent t)))
      by (rewrite ?fst_path_elem; by rewrite ?Hperm, <-?fst_path_id).
    change (list_to_map (path_elem <$> forest (topContent t))) with (model_of (topContent t)).
    apply map_eq; intros k. rewrite lookup_delete_all. unfold prune. rewrite map_lookup_filter.
    case_decide as Hk.
    + destruct (model_of (topContent t) !! k); [|done]. simpl. rewrite option_guard_False; [done|].
      intros Hw. apply Hw. rewrite entries_paths in Hk. unfold within.
      apply elem_of_cons in Hk as [->|Hk]; [done|].
      destruct (find_in_wf i "" (topContent t) n eq_refl Hwf Hf) as (q & Hq & Hn).
      pose proof (node_wf_good _ _ Hq Hn) as Hg.
      apply list_elem_of_fmap in Hk as (e & -> & Hk). apply list_elem_of_fmap in Hk as ([x y] & -> & Hk).
      eapply forest_wf_below; [by auto| |done]. destruct n as [a b c].
      by apply forest_wf_node, forest_wf_cons in Hn as (_ & _ & _ & ? & _).
    + destruct (model_of (topContent t) !! k) as [e|] eqn:Hm; [|done]. simpl.
      rewrite option_guard_True; [done|]. intros Hw. apply Hk.
      apply model_of_lookup in Hm as (j & Hin & <-); [|done].
      apply list_elem_of_fmap. exists e. split; [done|]. apply list_elem_of_fmap.
      exists (j, e). split; [done|]. by eapply (entries_within "" (topContent t) i).
Qed.

Lemma removeFromDirectoryContent_wf n q m :
  node_wf q m = true -> node_wf q (removeFromDirectoryContent n m) = true.
Proof.
  destruct m as [i e c]. rewrite !forest_wf_node. unfold removeFromDirectoryContent.
  cbn [nid elem content]. rewrite !forest_wf_cons. intros (H1 & H2 & H3 & H4 & H5).
  split_and!; [done|done| |by apply forallb_filter|done]. destruct H3 as [| ->]; [by left|by right].
Qed.

(** [removeFromTree] removes an entry and everything below it. *)
Section removal.
Context (t : DirectoryTree) (Ht : tree_inv t) (i : nat) (e : FilesystemElement) (c : list DirectoryNode).
Context (Hi : index t !! rp e = Some i) (Hf : find_in i (topContent t) = Some (mkNode i e c)).

Abbreviation n := (mkNode i e c).
(** the tree without the index entries below the node *)
Abbreviation unindexed :=
  (mkTree (topContent t) (delete_all (paths c) (index t)) (topPath t) (opt t) (next t) (warnings t)).

Lemma removal_frame : exists rest, forest (topContent t) ≡ₚ entries n ++ rest.
Proof using Ht Hf. destruct Ht as (_ & Hids & _). destruct (update_in_frame _ _ _ Hids Hf) as (rest & ? & _). eauto. Qed.

Lemma removal_index :
  (if isDirectory e then recursiveRemoveFromIndex n (index t) else Ok (index t)) = Ok (delete_all (paths c) (index t)).
Proof using Ht Hf.
  pose proof Ht as (Hwf & _ & _ & Hpaths & Hix). destruct removal_frame as [rest Hrest].
  assert (Hpc : NoDup (rp e :: paths c)).
  { unfold paths in Hpaths. rewrite Hrest, !fmap_app in Hpaths.
    apply NoDup_app in Hpaths as [Hpaths _]. by rewrite entries_paths in Hpaths. }
  destruct (find_in_wf i "" (topContent t) _ eq_refl Hwf Hf) as (q & Hq & Hn).
  apply forest_wf_node, forest_wf_cons in Hn as (_ & _ & Hdir & Hwc & _).
  destruct (isDirectory e); [|by destruct Hdir as [| ->]].
  rewrite recursiveRemoveFromIndex_eq. apply (remove_index_forest (rp e)); [done|by inversion Hpc|].
  intros q' Hq'. rewrite Hix. destruct (path_index (topContent t) !! q') eqn:E; [by eexists|].
  apply path_index_None in E. destruct E. unfold paths. rewrite Hrest, !fmap_app.
  apply elem_of_app; left. rewrite entries_paths. by apply elem_of_cons; right.
Qed.

(** the first half of the operation *)
Lemma removal_start :
  removeFromTree (rp e) t =
  ((_ ← (if negb (str_empty (parent_path (rp e))) then
           j ← searchNode (parent_path (rp e)) "";
           mutate j (removeFromDirectoryContent n)
         else
           t ← get_state;
           set_top (List.filter (fun x => negb (elem_eqb (elem x) (elem n))) (topContent t)));
    t ← get_state;
    set_index (delete (rp e) (index t))) : tree_method unit) unindexed.
Proof using Ht Hi Hf.
  assert (Hstep : (if isDirectory (elem n) then
         t ← get_state;
         ix ← lift_outcome (recursiveRemoveFromIndex n (index t));
         set_index ix
       else mret tt) t = (Ok tt, unindexed)).
  { pose proof removal_index as Hidx. cbn [elem]. unfold mbind, method_bind, get_state, lift_outcome, set_index.
    destruct (isDirectory e).
    - by rewrite Hidx.
    - injection Hidx as Hidx. rewrite <-Hidx. by destruct t. }
  unfold removeFromTree. unfold mbind at 1, method_bind at 1, searchNode at 1. rewrite Hi.
  cbn [from_option_err]. unfold mbind at 1, method_bind at 1, deref. rewrite Hf.
  cbn [from_option_err]. unfold mbind at 1, method_bind at 1. by rewrite Hstep.
Qed.

(** the tree in which the node is gone from the content *)
Lemma removal_end l' :
  forest (topContent t) ≡ₚ entries n ++ forest l' -> forest_wf "" l' = true -> (tree_sorted t -> forest_sorted l') ->
  let t' := mkTree l' (delete (rp e) (delete_all (paths c) (index t))) (topPath t) (opt t) (next t) (warnings t) in
  tree_inv t' /\ model t' = prune (rp e) (model t) /\ (tree_sorted t -> tree_sorted t') /\ same_fields t t'.
Proof using Ht Hf. intros Hperm Hwf' Hs. by pose proof (subtree_removed t i n l' Ht Hf Hperm Hwf') as [H1 H2]. Qed.

(** the directory of the node is still in the index *)
Lemma removal_parent j m :
  find_in j (topContent t) = Some m -> rp (elem m) = parent_path (rp e) ->
  delete_all (paths c) (index t) !! parent_path (rp e) = Some j.
Proof using Ht Hf.
  intros Hfm Hmp. pose proof Ht as (Hwf & _ & _ & _ & Hix). rewrite lookup_delete_all, decide_False.
  - destruct (index t !! parent_path (rp e)) as [j'|] eqn:Ej; [by rewrite (inv_unique t Ht _ _ _ _ Ej Hfm Hmp)|].
    rewrite Hix in Ej. apply path_index_None in Ej. destruct Ej. rewrite <-Hmp.
    assert (Hm' : (nid m, elem m) ∈ forest (topContent t))
      by (apply (find_in_entries _ _ _ Hfm); rewrite entries_forest; by apply elem_of_cons; left).
    unfold paths. apply list_elem_of_fmap. exists (elem m). split; [done|].
    apply list_elem_of_fmap. by exists (nid m, elem m).
  - intros Hk. destruct (find_in_wf i "" (topContent t) n eq_refl Hwf Hf) as (q & Hq & Hn).
    pose proof (node_wf_comps _ _ Hq Hn) as (Hg & Hpq & name & Hcomps).
    apply forest_wf_node, forest_wf_cons in Hn as (_ & _ & _ & Hwc & _).
    apply list_elem_of_fmap in Hk as (x & Hx & Hk). apply list_elem_of_fmap in Hk as ([y x'] & -> & Hk).
    cbn [fst snd elem] in *.
    pose proof (forest_wf_below _ _ _ _ (good_path_dir _ Hg) Hwc Hk) as [_ Hlt].
    rewrite <-Hx, Hpq, Hcomps, length_app in Hlt. simpl in Hlt. lia.
Qed.

(** the content of the directory of the node, without it *)
Lemma removal_content j m :
  find_in j (topContent t) = Some m -> n ∈ content m ->
  let l' := update_in j (removeFromDirectoryContent n) (topContent t) in
  forest (topContent t) ≡ₚ entries n ++ forest l' /\ forest_wf "" l' = true /\ (tree_sorted t -> forest_sorted l').
Proof using Ht.
  intros Hfm Hin. pose proof Ht as (Hwf & Hids & _ & Hpaths & _).
  destruct (update_in_frame _ _ _ Hids Hfm) as (rest' & Hr1 & Hr2).
  assert (Hpm : NoDup (paths (content m))).
  { unfold paths in Hpaths. rewrite Hr1, !fmap_app in Hpaths.
    apply NoDup_app in Hpaths as [Hpaths _]. rewrite entries_paths in Hpaths. by inversion Hpaths. }
  split; [|split].
  - rewrite Hr1, Hr2, !entries_forest. unfold removeFromDirectoryContent. cbn [nid elem content].
    rewrite (filter_out n (content m)) by done. rewrite entries_forest. solve_Permutation.
  - eapply update_in_wf; [done..|]. intros q. apply removeFromDirectoryContent_wf.
  - intros Hs. eapply update_in_sorted; [done|done|done| |done].
    pose proof (find_in_sorted_below _ _ _ (proj2 Hs) Hfm) as Hb. destruct m as [a b d].
    unfold removeFromDirectoryContent. cbn [sorted_below nid elem content] in *. split_andb.
    + apply bool_decide_eq_true_2, sorted_filter. by eapply bool_decide_eq_true_1.
    + by apply forallb_filter.
Qed.
End removal.

Lemma removeFromTree_spec t p :
  tree_inv t ->
  match model t !! p with
  | None => removeFromTree p t = (Err (searchNode_fail p "removeFromTree"), t)
  | Some _ => exists t', removeFromTree p t = (Ok tt, t') /\ tree_inv t' /\
      model t' = prune p (model t) /\ (tree_sorted t -> tree_sorted t') /\ same_fields t t'
  end.
Proof.
  intros Ht. destruct (model t !! p) as [e|] eqn:Hm; cycle 1.
  { apply inv_lookup_None in Hm; [|done].
    unfold removeFromTree, searchNode, mbind, method_bind. by rewrite Hm. }
  destruct (inv_model t Ht p e Hm) as (i & c & Hi & Hf & <-). pose proof Ht as (Hwf & Hids & _).
  rewrite (removal_start t Ht i e c Hi Hf).
  destruct (find_parent "" _ _ _ eq_refl Hwf Hids Hf) as [[Hin Hpar]|(j & m & Hfm & Hin & Hmp & Hmg & Hmd)]; cbn [elem] in *.
  - (* an entry of the top directory *)
    rewrite Hpar. cbn [str_empty negb]. unfold mbind, method_bind, get_state, set_top, set_index.
    cbn [topContent index topPath opt next warnings]. eexists. split; [reflexivity|].
    apply (removal_end t Ht i e c Hf); [apply (filter_out (mkNode i e c)); [by apply Ht|done]|by apply forallb_filter|].
    intros [Hs Hb]. split; [by apply sorted_filter|by apply forallb_filter].
  - (* an entry of the directory m *)
    assert (str_empty (parent_path (rp e)) = false) as ->.
    { rewrite <-Hmp. apply str_empty_false. by apply good_path_nonempty. }
    cbn [negb]. unfold mbind, method_bind, searchNode, mutate, get_state, set_top, set_index.
    cbn [topContent index topPath opt next warnings]. rewrite (removal_parent t Ht i e c Hf j m Hfm Hmp).
    cbn [from_option_err]. rewrite Hfm. eexists. split; [reflexivity|]. cbn [topContent index topPath opt next warnings].
    destruct (removal_content t Ht i e c j m Hfm Hin) as (? & ? & ?). by apply (removal_end t Ht i e c Hf).
Qed.
