(* ===== verification/TreeCopy.v ===== *)
(** * Correctness of copying between trees

    [recursiveAdd], [addToDirectoryContent] and [treeCopy]: the copy of a
    subtree is a well-formed, sorted subtree of new objects with the same
    elements, whose paths moved to the destination directory. *)

From S2P Require Import Prelude CxxPath CxxTime CxxStream Element Node Tree TreeInv TreeOps.

(** ** What a copy is *)

Definition moved (from to : path) (e : FilesystemElement) : FilesystemElement :=
  withPath (reloc from to (rp e)) e.

(** [cs] is a copy of the forest [sc] of the directory [from], placed in the
    directory [to], whose objects have the identities from [k] on *)
Definition copy_forest (from to : path) (k : nat) (sc cs : list DirectoryNode) : Prop :=
  forest_wf to cs = true /\ forallb sorted_below cs = true /\
  ids cs ≡ₚ seq k (length (forest sc)) /\
  (forest cs).*2 ≡ₚ moved from to <$> (forest sc).*2.

Definition node_size (n : DirectoryNode) : nat := length (entries n).

Lemma forest_length_cons n l : length (forest (n :: l)) = node_size n + length (forest l).
Proof. unfold node_size. by rewrite forest_node, length_app. Qed.

Lemma copy_forest_app from to k sc1 sc2 cs1 cs2 :
  copy_forest from to k sc1 cs1 -> copy_forest from to (k + length (forest sc1)) sc2 cs2 ->
  copy_forest from to k (sc1 ++ sc2) (cs1 ++ cs2).
Proof.
  intros (W1 & S1 & I1 & E1) (W2 & S2 & I2 & E2). unfold copy_forest.
  rewrite forest_wf_app, forallb_app, S1, S2, ids_app, !forest_app, length_app, seq_app, !fmap_app.
  by rewrite I1, I2, E1, E2.
Qed.

Lemma copy_forest_perm from to k sc cs cs' :
  cs ≡ₚ cs' -> copy_forest from to k sc cs -> copy_forest from to k sc cs'.
Proof.
  intros H (W & Sb & I & E). split_and!.
  - by apply (forest_wf_perm to _ _ H).
  - rewrite forallb_Forall' in *. by rewrite <-H.
  - etrans; [|exact I]. apply ids_perm. by symmetry.
  - etrans; [|exact E]. apply fmap_Permutation, forest_perm. by symmetry.
Qed.

(** the loop over the content of the source appends a copy of each child *)
Lemma add_all_spec (step : DirectoryNode -> DirectoryNode * nat -> outcome (DirectoryNode * nat))
    from to sc :
  (forall n i e c k, n ∈ sc -> rp e = to -> isDirectory e = true ->
     exists n', step n (mkNode i e c, k) = Ok (mkNode i e (c ++ [n']), k + node_size n) /\
       copy_forest from to k [n] [n']) ->
  forall i e c k, rp e = to -> isDirectory e = true ->
    exists cs, for_each step sc (mkNode i e c, k) = Ok (mkNode i e (c ++ cs), k + length (forest sc)) /\
      copy_forest from to k sc cs.
Proof.
  induction sc as [|n sc IH]; intros Hstep i e c k He Hd.
  - exists []. simpl. rewrite app_nil_r, Nat.add_0_r. split; [done|]. by repeat split.
  - destruct (Hstep n i e c k) as (n' & E & Hn); [by apply elem_of_cons; left|done..|].
    destruct (IH) with (i := i) (e := e) (c := c ++ [n']) (k := k + node_size n) as (cs & Ecs & Hcs);
      [|done..|].
    { intros m ? ? ? ? Hm. apply Hstep. by apply elem_of_cons; right. }
    exists (n' :: cs). rewrite for_each_cons, E. cbn [mbind outcome_bind]. rewrite Ecs.
    rewrite <-app_assoc, forest_length_cons, Nat.add_assoc. split; [done|].
    change (n' :: cs) with ([n'] ++ cs). change (n :: sc) with ([n] ++ sc).
    apply copy_forest_app; [done|]. by rewrite forest_length_cons, Nat.add_0_r.
Qed.

(** ** recursiveAdd *)

Lemma withPath_dir p e : isDirectory (withPath p e) = isDirectory e.
Proof. done. Qed.

Lemma sort_sorted l : sorted (list_sort node_ltb l).
Proof.
  apply list_sort_sorted; unfold node_ltb.
  - intros x y. apply elem_ltb_asym.
  - intros x y z. apply elem_ltb_ntrans.
Qed.

(** a new node above the copy of the content of [mkNode j se sc] *)
Lemma copy_node_above from to k j se sc cs cs' :
  good_dir from = true -> good_dir to = true -> node_wf from (mkNode j se sc) = true ->
  copy_forest (rp se) (to // filename (rp se)) (S k) sc cs -> cs' ≡ₚ cs -> sorted cs' ->
  copy_forest from to k [mkNode j se sc] [mkNode k (withPath (to // filename (rp se)) se) cs'].
Proof.
  intros Hfrom Hto Hn Hcs Hperm Hsort.
  apply (copy_forest_perm _ _ _ _ _ cs') in Hcs; [|by symmetry].
  pose proof (node_wf_comps _ _ Hfrom Hn) as (Hg & _).
  apply forest_wf_node, forest_wf_cons in Hn as (Hname & Hpath & Hdir & Hwc & _).
  destruct Hcs as (W & Sb & I & E). cbn [elem] in Hg.
  unfold copy_forest. rewrite ids_cons, !forest_cons. change (ids []) with (@nil nat).
  change (forest []) with (@nil (nat * FilesystemElement)). rewrite !app_nil_r.
  split_and!.
  - apply forest_wf_cons. cbn [rp withPath]. rewrite filename_append by done.
    split_and!; [done|done| |done|done].
    destruct Hdir as [Hdir| ->]; [by left|right].
    destruct cs' as [|[a b d] cs']; [done|]. apply Permutation_length in E. done.
  - cbn [forallb sorted_below]. rewrite Sb, bool_decide_eq_true_2 by done. done.
  - cbn [length seq]. by rewrite I.
  - assert (Htop : moved from to se = withPath (to // filename (rp se)) se).
    { unfold moved. f_equal. rewrite Hpath at 1. by apply reloc_top. }
    cbn [fmap list_fmap]. rewrite E. cbn [fst snd]. rewrite Htop. f_equiv.
    apply Permutation_refl', list_fmap_ext. intros pos x Hx. unfold moved. f_equal.
    apply list_elem_of_lookup_2, list_elem_of_fmap in Hx as ([y x'] & Ex & Hin).
    cbn [snd] in Ex. subst x'.
    destruct (forest_wf_prefix _ _ _ _ (good_path_dir _ Hg) Hwc Hin) as [Hgx _].
    pose proof (forest_wf_below _ _ _ _ (good_path_dir _ Hg) Hwc Hin) as [Hpre _].
    rewrite Hpath in Hpre. rewrite Hpath at 1. by apply reloc_deeper.
Qed.

(** No assertion of [recursiveAdd] fails on a well-formed source, and it
    appends one copy. *)
Lemma recursiveAdd_spec src : forall from i e c k,
  good_dir from = true -> node_wf from src = true ->
  isDirectory e = true -> good_path (rp e) = true ->
  exists n', recursiveAdd src (mkNode i e c) k = Ok (mkNode i e (c ++ [n']), k, k + node_size src) /\
    copy_forest from (rp e) k [src] [n'] /\ nid n' = k /\
    rp (elem n') = rp e // filename (rp (elem src)).
Proof.
  induction src as [j se sc IH] using node_ind'. intros from i e c k Hfrom Hwf Hd Hg.
  pose proof Hwf as (Hname & Hpath & Hdir & Hwc & _)%forest_wf_node%forest_wf_cons.
  set (new := withPath (rp e // filename (rp se)) se).
  assert (Hloop : exists cs, for_each
      (fun n '(d, k) => '(d', _, k') ← recursiveAdd n d k; Ok (d', k')) sc (mkNode k new [], S k) =
      Ok (mkNode k new ([] ++ cs), S k + length (forest sc)) /\
      copy_forest (rp se) (rp new) (S k) sc cs).
  { destruct (isDirectory se) eqn:Hse.
    - apply (add_all_spec _ (rp se) (rp new)); [|done|done].
      intros n i' e' c' k' Hn He' Hd'. rewrite Forall_forall in IH.
      destruct (IH n Hn (rp se) i' e' c' k') as (n' & En & Hcopy & _);
        [rewrite Hpath; auto|by eapply forest_wf_elem|done|rewrite He'; simpl; auto|].
      exists n'. rewrite En, <-He'. done.
    - destruct Hdir as [| ->]; [done|]. exists []. simpl. rewrite Nat.add_0_r. split; [done|].
      by repeat split. }
  destruct Hloop as (cs & Eloop & Hcs).
  exists (sortContent (mkNode k new cs)). cbn [recursiveAdd]. unfold cassert. cbn [elem].
  rewrite Hd. cbn [mbind outcome_bind].
  pose proof Hname as [Hne%str_empty_false _]%good_name_spec. rewrite Hne. cbn [negb mbind outcome_bind].
  fold new. rewrite Eloop. cbn [mbind outcome_bind app]. unfold pushContent. cbn [nid elem content].
  split_and!; [|apply (copy_node_above from (rp e) k j se sc cs);
    auto using good_path_dir, list_sort_perm, sort_sorted|done|done].
  do 2 f_equal. unfold node_size. rewrite entries_forest. simpl. lia.
Qed.

(** ** addToDirectoryContent *)

Lemma for_each_assert {A} (f : A -> bool) w (l : list A) :
  for_each (fun n _ => cassert (f n) w) l tt =
  if forallb f l then Ok tt else Err (AssertFailed w).
Proof.
  induction l as [|x l IH]; simpl; [done|]. unfold cassert at 1.
  destruct (f x); simpl; [done|done].
Qed.

Lemma addToDirectoryContent_spec src from i e c k :
  good_dir from = true -> node_wf from src = true ->
  isDirectory e = true -> good_path (rp e) = true -> forest_wf (rp e) c = true ->
  rp e // filename (rp (elem src)) ∉ (fun n => rp (elem n)) <$> c ->
  exists n' c', addToDirectoryContent src (mkNode i e c) k = Ok (mkNode i e c', k, k + node_size src) /\
    c' ≡ₚ c ++ [n'] /\ sorted c' /\ copy_forest from (rp e) k [src] [n'] /\ nid n' = k /\
    rp (elem n') = rp e // filename (rp (elem src)).
Proof.
  intros Hfrom Hwf Hd Hg Hc Hnew.
  destruct (recursiveAdd_spec src from i e c k) as (n' & E & Hcopy & Hid & Hrp); [done..|].
  exists n', (list_sort node_ltb (c ++ [n'])). unfold addToDirectoryContent.
  cbn [elem content]. rewrite for_each_assert.
  assert (Hall : forallb (fun n => negb (path_eqb (rp (elem n)) (rp e // filename (rp (elem src))))) c = true).
  { apply forallb_forall. intros n Hn%list_elem_of_In. apply negb_true_iff.
    destruct (path_eqb _ _) eqn:Hp; [|done]. exfalso. apply Hnew, list_elem_of_fmap. exists n.
    split; [|done]. symmetry. destruct src as [? se ?].
    apply forest_wf_node, forest_wf_cons in Hwf as (Hname & _). cbn [elem] in *.
    apply path_eqb_dir; [|auto|done]. apply good_path_dir. eapply node_wf_good; [|by eapply forest_wf_elem].
    auto. }
  rewrite Hall. cbn [mbind outcome_bind]. rewrite E. cbn [mbind outcome_bind].
  split_and!; auto using list_sort_perm, sort_sorted.
Qed.

(** ** Adding a subtree to the index *)

Definition add_child (n : DirectoryNode) (ix : gmap string nat) : outcome (gmap string nat) :=
  if isDirectory (elem n) then recursiveAddToIndex n ix
  else index_insert (rp (elem n)) (nid n) "recursiveAddToIndex: inserted.second" ix.

Lemma recursiveAddToIndex_eq i e c ix :
  recursiveAddToIndex (mkNode i e c) ix =
  (ix ← index_insert (rp e) i "recursiveAddToIndex: inserted.second" ix; for_each add_child c ix).
Proof. done. Qed.

Lemma index_insert_new p i w ix : ix !! p = None -> index_insert p i w ix = Ok (<[p := i]> ix).
Proof. intros H. unfold index_insert. by rewrite H. Qed.

Lemma add_index_forest par c ix :
  forest_wf par c = true -> NoDup (paths c) -> (forall p, p ∈ paths c -> ix !! p = None) ->
  for_each add_child c ix = Ok (path_index c ∪ ix).
Proof.
  revert par ix. induction c as [|i e c l IHc IHl] using forest_ind; intros par ix.
  - intros _ _ _. simpl. f_equal. unfold path_index. simpl. by rewrite (left_id_L ∅ (∪)).
  - rewrite forest_wf_cons, paths_cons, NoDup_cons, NoDup_app, not_elem_of_app.
    intros (_ & _ & Hdir & Hwc & Hwl) ([Hec Hel] & Hc & Hcl & Hl) Hix.
    setoid_rewrite elem_of_cons in Hix. setoid_rewrite elem_of_app in Hix.
    assert (Hhead : add_child (mkNode i e c) ix = Ok (path_index c ∪ <[rp e := i]> ix)).
    { unfold add_child. cbn [elem nid]. rewrite recursiveAddToIndex_eq, index_insert_new by auto.
      destruct (isDirectory e).
      - cbn [mbind outcome_bind]. apply (IHc (rp e)); [done..|].
        intros p Hp. rewrite lookup_insert_ne by (intros E; by rewrite E in Hec). auto.
      - destruct Hdir as [| ->]; [done|]. unfold path_index. simpl. by rewrite (left_id_L ∅ (∪)). }
    rewrite for_each_cons, Hhead. cbn [mbind outcome_bind]. rewrite (IHl par); [|done..|].
    + f_equal. rewrite path_index_cons. apply map_eq; intros q.
      rewrite !lookup_union, !lookup_insert, lookup_union.
      case_decide as Hq.
      2: { destruct (decide (q ∈ paths c)) as [Hqc|Hqc].
           - rewrite (proj2 (path_index_None l q)) by auto.
             by destruct (path_index c !! q), (ix !! q).
           - rewrite (proj2 (path_index_None c q)) by done.
             by destruct (path_index l !! q), (ix !! q). }
      subst q. rewrite (proj2 (path_index_None c _) Hec), (proj2 (path_index_None l _) Hel).
      by destruct (ix !! rp e).
    + intros p Hp. rewrite lookup_union, lookup_insert_ne by (intros E; by rewrite E in Hel).
      rewrite (proj2 (path_index_None c p)) by (intros ?; by apply (Hcl p)).
      by rewrite Hix by auto.
Qed.

Lemma bind_ok_id {A} (m : outcome A) : (x ← m; Ok x) = m.
Proof. by destruct m. Qed.

Lemma addToIndex_node par n ix :
  forest_wf par [n] = true -> NoDup (paths [n]) -> (forall p, p ∈ paths [n] -> ix !! p = None) ->
  recursiveAddToIndex n ix = Ok (path_index [n] ∪ ix).
Proof.
  intros Hwf Hnd Hix. rewrite <-(add_index_forest par [n] ix Hwf Hnd Hix).
  cbn [for_each]. rewrite bind_ok_id. unfold add_child. destruct n as [i e c]. cbn [elem nid].
  apply forest_wf_cons in Hwf as (_ & _ & [-> | ->] & _); [done|].
  rewrite recursiveAddToIndex_eq. cbn [for_each]. rewrite bind_ok_id. by destruct (isDirectory e).
Qed.

(** ** Reaching a new object *)

Lemma find_in_content l d m n :
  NoDup (ids l) -> find_in d l = Some m -> n ∈ content m -> find_in (nid n) l = Some n.
Proof.
  intros Hids Hf Hn.
  assert (Hmem : forall k, NoDup (ids k) -> n ∈ k -> find_in (nid n) k = Some n).
  { clear. intros k Hk Hn. apply list_elem_of_split in Hn as (l1 & l2 & ->).
    rewrite ids_app in Hk. apply NoDup_app in Hk as (_ & Hd & _).
    induction l1 as [|x l1 IH]; destruct n as [i e c]; cbn [nid app] in *.
    - by rewrite find_in_cons, bool_decide_true.
    - cbn [find_in].
      destruct (find_node i x) as [r|] eqn:Ex; [exfalso|apply IH].
      + apply (Hd i); [|rewrite ids_cons; by apply elem_of_cons; left].
        change (x :: l1) with ([x] ++ l1). rewrite ids_app. apply elem_of_app. left.
        apply (find_in_ids i [x] r). cbn [find_in]. by rewrite Ex.
      + intros y Hy. apply Hd. change (x :: l1) with ([x] ++ l1). rewrite ids_app.
        apply elem_of_app. by right. }
  assert (Hin : forall k, n ∈ k -> nid n ∈ ids k).
  { clear. intros k (l1 & l2 & ->)%list_elem_of_split. destruct n as [i e c].
    rewrite ids_app, ids_cons. apply elem_of_app; right. by apply elem_of_cons; left. }
  revert Hf. induction l as [|k e c l IHc IHl] using forest_ind; [done|].
  rewrite ids_cons, NoDup_cons, NoDup_app in Hids. destruct Hids as (Hk & Hidc & Hdisj & Hidl).
  rewrite !find_in_cons. case_bool_decide as Hdk.
  - intros [= <-]. cbn [content] in Hn. rewrite bool_decide_false.
    + by rewrite (Hmem c).
    + intros E. apply Hk, elem_of_app. left. rewrite <-E. auto.
  - assert (Hnk : forall k', find_in (nid n) k' = Some n -> nid n ∈ ids k') by
      (intros k' ?; by eapply find_in_ids).
    destruct (find_in d c) as [r|] eqn:Ec; intros Hf.
    + injection Hf as ->. specialize (IHc Hidc eq_refl). rewrite bool_decide_false.
      * by rewrite IHc.
      * intros E. apply Hk, elem_of_app. left. rewrite <-E. auto.
    + specialize (IHl Hidl Hf). rewrite bool_decide_false.
      * rewrite (proj2 (find_in_None (nid n) c)); [done|]. intros Hc. apply (Hdisj _ Hc). auto.
      * intros E. apply Hk, elem_of_app. right. rewrite <-E. auto.
Qed.

Lemma find_in_update d l m f :
  find_in d l = Some m -> nid (f m) = d -> find_in d (update_in d f l) = Some (f m).
Proof.
  intros Hf Hd. revert Hf. induction l as [|k e c l IHc IHl] using forest_ind; [done|].
  rewrite find_in_cons, update_in_cons. case_bool_decide as Hdk.
  - intros [= <-]. destruct (f (mkNode k e c)) as [k' e' c'] eqn:E. cbn [nid] in Hd.
    by rewrite find_in_cons, bool_decide_true.
  - rewrite find_in_cons, bool_decide_false by done.
    destruct (find_in d c) as [r|] eqn:Ec.
    + intros [= ->]. by rewrite IHc.
    + intros Hf. rewrite (update_in_id d f c), Ec by (by apply find_in_None). auto.
Qed.

(** ** Ancestors *)

(** every directory above an entry of the forest is in the forest *)
Lemma ancestors_present par l i e p :
  good_dir par = true -> forest_wf par l = true -> (i, e) ∈ forest l ->
  comps p `prefix_of` comps (rp e) -> length (comps par) < length (comps p) -> p ∈ paths l.
Proof.
  revert par. induction l as [|k e0 c l IHc IHl] using forest_ind; intros par Hpar Hwf Hin Hpre Hlen;
    [by apply not_elem_of_nil in Hin|].
  pose proof Hwf as (Hn & He & _ & Hc & Hl)%forest_wf_cons.
  assert (Hcomps : comps (rp e0) = comps par ++ [filename (rp e0)])
    by (rewrite He at 1; by apply comps_append).
  assert (Hg : good_dir (rp e0) = true) by (rewrite He; auto).
  assert (Hsame : comps (rp e0) `prefix_of` comps (rp e) -> length (comps p) = length (comps (rp e0)) ->
    p = rp e0).
  { intros Hp0 El. apply comps_inj. by eapply prefix_same_length. }
  rewrite forest_cons in Hin. rewrite paths_cons.
  apply elem_of_cons in Hin as [[= -> ->]|[Hin|Hin]%elem_of_app].
  - apply elem_of_cons. left. apply Hsame; [done|]. apply prefix_length in Hpre.
    rewrite Hcomps, length_app in *. simpl in *. lia.
  - pose proof (forest_wf_below _ _ _ _ Hg Hc Hin) as [Hb _].
    destruct (decide (length (comps p) = length (comps (rp e0)))) as [El|Hne].
    + apply elem_of_cons. left. auto.
    + apply elem_of_cons. right. apply elem_of_app. left. eapply (IHc (rp e0)); [done..|].
      rewrite Hcomps, length_app in *. simpl in *. lia.
  - apply elem_of_cons. right. apply elem_of_app. right. by eapply (IHl par).
Qed.

Lemma model_ancestor t p q :
  tree_inv t -> is_Some (model t !! q) -> within p q -> p <> "" -> is_Some (model t !! p).
Proof.
  intros (Hwf & _ & _ & Hpaths & _) [e (i & Hin & <-)%model_of_lookup] Hw Hp; [|done].
  destruct (model t !! p) eqn:Hm; [by eexists|]. apply model_of_None in Hm. destruct Hm.
  eapply (ancestors_present ""); [done..|]. simpl. destruct (comps p) eqn:E; [|simpl; lia].
  by apply comps_nil in E.
Qed.

(** ** The abstract copy *)

(** the entries at or below [p] *)
Definition subtree (p : path) (m : gmap path FilesystemElement) : gmap path FilesystemElement :=
  filter (fun '(k, _) => within p k) m.

(** the entries at or below [p], moved from the directory [from] to [to] *)
Definition graft (from to p : path) (m : gmap path FilesystemElement)
    : gmap path FilesystemElement :=
  list_to_map ((fun '(q, e) => (reloc from to q, moved from to e)) <$> map_to_list (subtree p m)).

Lemma entries_single n : forest [n] = entries n.
Proof. unfold forest. simpl. by rewrite app_nil_r. Qed.

Lemma paths_single n : paths [n] = rp <$> (entries n).*2.
Proof. unfold paths. by rewrite entries_single. Qed.

(** what the copy of a subtree has at a path *)
Lemma graft_lookup from to p m q q' r :
  good_dir to = true -> (forall k e, m !! k = Some e -> good_path k = true /\ rp e = k) ->
  comps from `prefix_of` comps p -> good_path p = true ->
  comps q = comps p ++ r -> comps q' = comps (reloc from to p) ++ r ->
  graft from to p m !! q' = withPath q' <$> m !! q.
Proof.
  intros Hto Hm [x Hx] Hp Hq Hq'.
  assert (Hmoved : forall k r', good_path k = true -> comps k = comps p ++ r' ->
    comps (reloc from to k) = comps (reloc from to p) ++ r').
  { intros k r' Hk Hr'. rewrite !comps_reloc, Hr', Hx by done.
    by rewrite <-!app_assoc, !drop_app_length. }
  assert (Hkey : forall k e, (k, e) ∈ map_to_list (subtree p m) ->
    m !! k = Some e /\ good_path k = true /\ rp e = k /\ (reloc from to k = q' -> k = q) /\ within p k).
  { intros k e [Hk [r' Hw]]%elem_of_map_to_list%map_lookup_filter_Some. destruct (Hm k e Hk) as [Hg Hrp].
    split_and!; [done..| |by exists r']. intros <-. apply comps_inj. rewrite Hq, Hw.
    rewrite (Hmoved k r' Hg Hw) in Hq'. by apply app_inv_head in Hq' as ->. }
  unfold graft. destruct (m !! q) as [e|] eqn:Hmq; cbn.
  - destruct (Hm q e Hmq) as [Hg Hrp]. assert (Eq : reloc from to q = q').
    { apply comps_inj. by rewrite Hq', (Hmoved q r). }
    apply elem_of_list_to_map_1'.
    + intros e' ([k f] & [= Ek ->] & Hk)%list_elem_of_fmap. destruct (Hkey k f Hk) as (Hmk & _ & Hf & Hkq & _).
      rewrite (Hkq (eq_sym Ek)) in *. rewrite Hmq in Hmk. injection Hmk as <-.
      unfold moved. by rewrite Hf, Eq.
    + apply list_elem_of_fmap. exists (q, e). split; [unfold moved; by rewrite Hrp, Eq|].
      apply elem_of_map_to_list, map_lookup_filter_Some. split; [done|]. by exists r.
  - apply not_elem_of_list_to_map_1. intros ([k f] & Ek & Hk)%list_elem_of_fmap.
    cbn in Ek. apply list_elem_of_fmap in Hk as ([k' f'] & [= -> ->] & Hk).
    destruct (Hkey k' f' Hk) as (Hmk & _ & _ & Hkq & _). rewrite (Hkq (eq_sym Ek)) in Hmk. congruence.
Qed.

Lemma graft_outside from to p m q' :
  good_dir to = true -> (forall k e, m !! k = Some e -> good_path k = true /\ rp e = k) ->
  comps from `prefix_of` comps p -> good_path p = true ->
  ~ within (reloc from to p) q' -> graft from to p m !! q' = None.
Proof.
  intros Hto Hm [x Hx] Hp Hw. apply not_elem_of_list_to_map_1. intros ([k f] & Ek & Hk)%list_elem_of_fmap.
  apply list_elem_of_fmap in Hk as ([k' e] & [= -> ->] & [Hk [r Hr]]%elem_of_map_to_list%map_lookup_filter_Some).
  cbn in Ek. subst q'. apply Hw. destruct (Hm k' e Hk) as [Hg _]. exists r.
  rewrite !comps_reloc, Hr, Hx by done. by rewrite <-!app_assoc, !drop_app_length.
Qed.

(** the subtree of a node, as a map *)
Lemma model_of_node t i n :
  tree_inv t -> find_in i (topContent t) = Some n ->
  NoDup (paths [n]) /\ model_of [n] = subtree (rp (elem n)) (model t).
Proof.
  intros (Hwf & Hids & Hnext & Hpaths & Hix) Hf.
  destruct (update_in_frame _ _ _ Hids Hf) as (rest & Hrest & _).
  assert (Hn : NoDup (paths [n])).
  { rewrite paths_single. unfold paths in Hpaths. rewrite Hrest, !fmap_app in Hpaths.
    by apply NoDup_app in Hpaths as [? _]. }
  split; [done|]. apply map_eq; intros k. unfold subtree.
  destruct (find_in_wf i "" _ _ eq_refl Hwf Hf) as (q & Hq & Hwn).
  assert (Hbelow : forall j e, (j, e) ∈ entries n -> within (rp (elem n)) (rp e)).
  { intros j e Hin. pose proof (node_wf_good _ _ Hq Hwn) as Hg. destruct n as [a b c].
    rewrite entries_forest in Hin. cbn [nid elem content] in *. unfold within.
    apply elem_of_cons in Hin as [[= -> ->]|Hin]; [done|].
    apply forest_wf_node, forest_wf_cons in Hwn as (_ & _ & _ & Hwc & _).
    eapply forest_wf_below; [|done|done]. auto. }
  apply option_eq; intros e. rewrite map_lookup_filter_Some.
  rewrite model_of_lookup, entries_single by done. unfold model. rewrite model_of_lookup by done. split.
  - intros (j & Hin & <-). split; [exists j; split; [by apply (find_in_entries _ _ _ Hf)|done]|eauto].
  - intros [(j & Hin & <-) Hw]. exists j. split; [|done]. by eapply (entries_within "" _ i).
Qed.

Lemma graft_same q p m :
  good_dir q = true -> (forall k e, m !! k = Some e -> good_path k = true /\ rp e = k) ->
  comps q `prefix_of` comps p -> graft q q p m = subtree p m.
Proof.
  intros Hq Hm Hpre. unfold graft. rewrite <-(list_to_map_to_list (subtree p m)) at 2. f_equal.
  rewrite <-list_fmap_id. apply list_fmap_ext. intros i [k e] Hk.
  apply list_elem_of_lookup_2, elem_of_map_to_list, map_lookup_filter_Some in Hk as [Hk Hw].
  destruct (Hm _ _ Hk) as [Hg He]. unfold moved. rewrite He, reloc_same; [|done|by etrans].
  unfold withPath, id. f_equal. rewrite <-He. by destruct e.
Qed.

(** a forest of new nodes, added to the objects of a tree and to its index *)
Lemma forest_added t ns l' k w :
  tree_inv t -> forest l' ≡ₚ forest ns ++ forest (topContent t) -> forest_wf "" l' = true ->
  ids ns ≡ₚ seq (next t) k -> NoDup (paths ns) ->
  (forall p, p ∈ paths ns -> model t !! p = None) ->
  let t' := mkTree l' (path_index ns ∪ index t) (topPath t) (opt t) (next t + k) w in
  tree_inv t' /\ model t' = model_of ns ∪ model t.
Proof.
  intros (Hwf & Hids & Hnext & Hpaths & Hix) Hperm Hwf' Hnew Hnd Hfresh t'.
  assert (Hpaths' : NoDup (paths l')).
  { unfold paths. rewrite Hperm, !fmap_app. apply NoDup_app. split_and!; [done| |done].
    intros p Hp Hp'. by apply Hfresh, model_of_None in Hp. }
  assert (Hk : forall B (f : nat * FilesystemElement -> path * B),
    (forall x, (f x).1 = rp x.2) ->
    (list_to_map (f <$> forest l') : gmap path B) =
    list_to_map (f <$> forest ns) ∪ list_to_map (f <$> forest (topContent t))).
  { intros B f Hf1. rewrite <-list_to_map_app, <-fmap_app.
    apply list_to_map_perm; [|by rewrite Hperm].
    assert ((f <$> forest l').*1 = paths l') as ->; [|done].
    unfold paths. rewrite <-!list_fmap_compose. apply list_fmap_ext.
    intros; apply Hf1. }
  assert (Hids' : ids l' ≡ₚ seq (next t) k ++ ids (topContent t)).
  { unfold ids in *. by rewrite Hperm, fmap_app, Hnew. }
  split.
  - unfold t'. split_and!; cbn [topContent next index]; [done| | |done|].
    + rewrite Hids'. apply NoDup_app. split_and!; [apply NoDup_seq| |done].
      intros i Hi%elem_of_seq Hi'. rewrite Forall_forall in Hnext. apply Hnext in Hi'. lia.
    + rewrite Hids'. apply Forall_app. split.
      * apply Forall_forall. intros i Hi%elem_of_seq. lia.
      * eapply Forall_impl; [exact Hnext|]. intros; simpl in *; lia.
    + rewrite Hix. symmetry. by apply (Hk nat path_id).
  - by apply (Hk FilesystemElement path_elem).
Qed.

(** ** copyToTop *)

(** adding children one by one, each time sorting the content *)
Lemma add_children_spec from i e sc :
  good_dir from = true -> isDirectory e = true -> good_path (rp e) = true ->
  forest_wf from sc = true -> NoDup ((fun n => rp (elem n)) <$> sc) ->
  forall c k, forest_wf (rp e) c = true -> sorted c ->
  (forall n, n ∈ sc -> rp e // filename (rp (elem n)) ∉ (fun n => rp (elem n)) <$> c) ->
  exists c' cs,
    for_each (fun n '(d, k) => '(d', _, k') ← addToDirectoryContent n d k; Ok (d', k')) sc
      (mkNode i e c, k) = Ok (mkNode i e c', k + length (forest sc)) /\
    c' ≡ₚ c ++ cs /\ sorted c' /\ copy_forest from (rp e) k sc cs.
Proof.
  intros Hfrom Hd Hg. induction sc as [|n sc IH]; intros Hwf Hnd c k Hc Hs Hfresh.
  { exists c, []. simpl. rewrite app_nil_r, Nat.add_0_r. split_and!; [done..|]. by repeat split. }
  change (n :: sc) with ([n] ++ sc) in Hwf. apply forest_wf_app in Hwf as [Hn Hsc].
  apply forest_wf_node in Hn. rewrite fmap_cons in Hnd. apply NoDup_cons in Hnd as [Hnsc Hnd].
  destruct (addToDirectoryContent_spec n from i e c k) as (n' & c1 & E & Hperm & Hs1 & Hcopy & _ & Hrp);
    [done..|apply Hfresh; by apply elem_of_cons; left|].
  destruct (IH Hsc Hnd c1 (k + node_size n)) as (c' & cs & E' & Hperm' & Hs' & Hcopy').
  - apply (forest_wf_perm _ _ _ Hperm), forest_wf_app. split; [done|]. by destruct Hcopy.
  - done.
  - intros m Hm. rewrite Hperm, fmap_app, not_elem_of_app. split.
    + apply Hfresh. by apply elem_of_cons; right.
    + cbn [fmap list_fmap]. rewrite Hrp, list_elem_of_singleton. intros Heq.
      pose proof (forest_wf_elem _ _ _ Hsc Hm) as Hwm. destruct n as [? en ?], m as [? em ?].
      apply forest_wf_node, forest_wf_cons in Hwm as (Hgm & Hpm & _).
      apply forest_wf_node, forest_wf_cons in Hn as (Hgn & Hpn & _). cbn [elem] in *.
      apply append_inj in Heq; [|by auto..]. apply Hnsc, list_elem_of_fmap.
      eexists. split; [|exact Hm]. cbn [elem]. by rewrite Hpm, Hpn, Heq.
  - exists c', (n' :: cs). rewrite for_each_cons, E. cbn [mbind outcome_bind]. rewrite E'.
    split_and!; [by rewrite forest_length_cons, Nat.add_assoc| |done|].
    + rewrite Hperm', Hperm, <-app_assoc. done.
    + change (n' :: cs) with ([n'] ++ cs). change (n :: sc) with ([n] ++ sc).
      apply copy_forest_app; [done|]. by rewrite forest_length_cons, Nat.add_0_r.
Qed.

Lemma copyToTop_spec from src k :
  good_dir from = true -> node_wf from src = true ->
  NoDup ((fun n => rp (elem n)) <$> content src) ->
  exists n', copyToTop src (filename (rp (elem src))) k = Ok (n', k + node_size src) /\
    copy_forest from "" k [src] [n'] /\ nid n' = k /\ rp (elem n') = filename (rp (elem src)).
Proof.
  intros Hfrom Hwf Hnd. destruct src as [j se sc]. cbn [content elem] in *.
  pose proof (node_wf_good _ _ Hfrom Hwf) as Hg. cbn [elem] in Hg.
  pose proof Hwf as (Hname & Hpath & Hdir & Hwc & _)%forest_wf_node%forest_wf_cons.
  set (new := withPath (filename (rp se)) se).
  assert (Hloop : exists c' cs, copyToTop (mkNode j se sc) (filename (rp se)) k =
      Ok (mkNode k new c', S k + length (forest sc)) /\ c' ≡ₚ cs /\ sorted c' /\
      copy_forest (rp se) (rp new) (S k) sc cs).
  { unfold copyToTop. cbn [content elem]. fold new. destruct (isDirectory se) eqn:Hse.
    - destruct (add_children_spec (rp se) k new sc) with (c := @nil DirectoryNode) (k := S k)
        as (c' & cs & E & Hperm & Hs & Hcopy); [by auto|done|simpl; auto|done|done|done|constructor| |].
      + intros n _ Hn. by apply not_elem_of_nil in Hn.
      + exists c', cs. rewrite E. done.
    - destruct Hdir as [| ->]; [done|]. exists [], []. simpl. rewrite Nat.add_0_r.
      split_and!; [done|done|constructor|]. by repeat split. }
  destruct Hloop as (c' & cs & E & Hperm & Hs & Hcopy). exists (mkNode k new c'). rewrite E.
  split_and!; [| |done|done].
  - do 2 f_equal. unfold node_size. rewrite entries_forest. simpl. lia.
  - pose proof (copy_node_above from "" k j se sc cs c') as Habove.
    rewrite path_append_top in Habove by done. by apply Habove.
Qed.

(** ** treeCopy *)

(** a copy made from a node of the tree [s] *)
Lemma copy_model s i src from to k n' :
  tree_inv s -> find_in i (topContent s) = Some src ->
  good_dir from = true -> good_dir to = true -> node_wf from src = true ->
  copy_forest from to k [src] [n'] ->
  NoDup (paths [n']) /\ model_of [n'] = graft from to (rp (elem src)) (model s) /\
  (forall p, p ∈ paths [n'] -> within (to // filename (rp (elem src))) p).
Proof.
  intros Hs Hf Hfrom Hto Hwf (_ & _ & _ & Hel).
  destruct (model_of_node s i src Hs Hf) as [Hnd Hsub].
  assert (Hgood : forall e, e ∈ (forest [src]).*2 ->
    good_path (rp e) = true /\ comps (rp (elem src)) `prefix_of` comps (rp e)).
  { intros e ([j e'] & -> & Hin)%list_elem_of_fmap. apply forest_wf_node in Hwf.
    destruct (forest_wf_prefix _ _ _ _ Hfrom Hwf Hin) as (? & m & ? & Hm & _ & Hpre & _).
    apply list_elem_of_singleton in Hm as ->. done. }
  destruct (node_wf_comps _ _ Hfrom Hwf) as (Hg & _ & name & Hcomps).
  assert (Hpaths : paths [n'] ≡ₚ reloc from to <$> paths [src]).
  { unfold paths. rewrite Hel, <-!list_fmap_compose. done. }
  assert (Hinfrom : forall q, q ∈ paths [src] -> good_path q = true /\ comps from `prefix_of` comps q).
  { intros q (e & -> & He)%list_elem_of_fmap. destruct (Hgood e He) as [? Hpre]. split; [done|].
    etrans; [|exact Hpre]. rewrite Hcomps. by eexists. }
  assert (Hnd' : NoDup (paths [n'])).
  { rewrite Hpaths. apply NoDup_fmap_2_strong; [|done]. intros p q Hp Hq E.
    destruct (Hinfrom p Hp), (Hinfrom q Hq). by eapply reloc_inj. }
  split_and!; [done| |].
  - unfold model_of at 1, graft. rewrite <-Hsub. apply list_to_map_perm; [by rewrite fst_path_elem|].
    assert (path_elem <$> forest [n'] = (fun e => (rp e, e)) <$> (forest [n']).*2) as ->
      by (by rewrite <-list_fmap_compose).
    rewrite Hel. unfold model_of. rewrite map_to_list_to_map by (by rewrite fst_path_elem).
    rewrite <-!list_fmap_compose. done.
  - intros p Hp. rewrite Hpaths in Hp. apply list_elem_of_fmap in Hp as (q & -> & Hq).
    apply list_elem_of_fmap in Hq as (e & -> & He). destruct (Hgood e He) as [Hge [r Hr]].
    destruct src as [? se ?]. apply forest_wf_node, forest_wf_cons in Hwf as (Hname & Hpath & _).
    cbn [elem] in *. unfold within. rewrite comps_reloc, comps_append by done.
    assert (Hse : comps (rp se) = comps from ++ [filename (rp se)])
      by (rewrite Hpath at 1; by apply comps_append).
    rewrite Hr, Hse, <-app_assoc, drop_app_length. exists r. by rewrite <-app_assoc.
Qed.

(** the conditions under which a copy succeeds: the source exists, the
    destination is the top directory or an existing directory, and it has no
    entry of that name yet *)
Definition can_copy (s t : DirectoryTree) (sp dp : path) : Prop :=
  is_Some (model s !! sp) /\
  (dp = "" \/ exists de, model t !! dp = Some de /\ isDirectory de = true) /\
  model t !! (dp // filename sp) = None.

Definition copied (s t t' : DirectoryTree) (sp dp : path) : Prop :=
  tree_inv t' /\ model t' = graft (parent_path sp) dp sp (model s) ∪ model t /\
  (tree_sorted t -> tree_sorted t') /\ same_fields t t'.

(** the children of a node have distinct paths *)
Lemma children_nodup l : NoDup (paths l) -> NoDup ((fun n => rp (elem n)) <$> l).
Proof.
  induction l as [|[i e c] l IH]; [constructor|]. rewrite paths_cons, fmap_cons.
  intros ([_ Hl]%not_elem_of_app & (_ & _ & Hnd)%NoDup_app)%NoDup_cons.
  apply NoDup_cons. split; [|by apply IH]. intros (m & Em & Hm)%list_elem_of_fmap. apply Hl.
  cbn [elem] in Em. rewrite Em. by apply elem_in_paths.
Qed.

(** the state after a copy, from the new content of the tree *)
Lemma copied_intro s t sp dp i src n' l' :
  tree_inv s -> tree_inv t -> find_in i (topContent s) = Some src -> rp (elem src) = sp ->
  good_dir dp = true -> node_wf (parent_path sp) src = true -> good_path sp = true ->
  model t !! (dp // filename sp) = None ->
  copy_forest (parent_path sp) dp (next t) [src] [n'] ->
  forest l' ≡ₚ entries n' ++ forest (topContent t) -> forest_wf "" l' = true ->
  (tree_sorted t -> forest_sorted l') ->
  recursiveAddToIndex n' (index t) = Ok (path_index [n'] ∪ index t) /\
  copied s t (mkTree l' (path_index [n'] ∪ index t) (topPath t) (opt t)
                (next t + node_size src) (warnings t)) sp dp.
Proof.
  intros Hs Ht Hf Hsp Hdp Hwf Hg Hnone Hcopy Hperm Hwf' Hsorted.
  destruct (copy_model s i src (parent_path sp) dp (next t) n') as (Hnd & Hmod & Hwithin);
    [done|done|auto|done|done|done|]. rewrite Hsp in *.
  assert (Hfresh : forall p, p ∈ paths [n'] -> model t !! p = None).
  { intros p Hp. destruct (model t !! p) eqn:E; [exfalso|done].
    destruct (model_ancestor t (dp // filename sp) p Ht) as [? ?];
      [by eexists|by apply Hwithin|by apply good_path_nonempty; auto|congruence]. }
  assert (Hids : ids [n'] ≡ₚ seq (next t) (node_size src)).
  { destruct Hcopy as (_ & _ & Hids & _). by rewrite entries_single in Hids. }
  rewrite <-entries_single in Hperm.
  destruct (forest_added t [n'] l' (node_size src) (warnings t) Ht Hperm Hwf' Hids Hnd Hfresh)
    as [Hinv Hm].
  split; [|split_and!; [done|by rewrite Hm, Hmod|done|done]].
  destruct Hcopy as (Hwn & _). eapply addToIndex_node; [done..|].
  intros p Hp. apply inv_lookup_None; auto.
Qed.

(** the index finds a node that was put in *)
Lemma indexed_node n ix : (path_index [n] ∪ ix) !! rp (elem n) = Some (nid n).
Proof.
  apply lookup_union_Some_l. unfold path_index. rewrite entries_single, entries_forest. cbn.
  by rewrite lookup_insert_eq.
Qed.

(** the source node that [treeCopy] reads *)
Lemma copy_source s sp :
  tree_inv s -> is_Some (model s !! sp) ->
  exists i src, index s !! sp = Some i /\ find_in i (topContent s) = Some src /\
    rp (elem src) = sp /\ good_path sp = true /\ node_wf (parent_path sp) src = true /\
    NoDup ((fun n => rp (elem n)) <$> content src).
Proof.
  intros Hs [e He]. pose proof (inv_good_path s Hs sp (ex_intro _ e He)) as Hg.
  destruct (inv_model s Hs sp e He) as (i & c & Hi & Hf & Hp).
  exists i, (mkNode i e c). cbn [elem content].
  pose proof Hs as (Hwf & Hids & _ & Hpaths & _).
  destruct (find_in_wf i "" _ _ eq_refl Hwf Hf) as (q & Hq & Hn).
  destruct (node_wf_comps _ _ Hq Hn) as (_ & Hpar & _). cbn [elem] in Hpar. rewrite Hp in Hpar.
  split_and!; [done..|by rewrite Hpar|].
  destruct (update_in_frame _ _ _ Hids Hf) as (rest & Hrest & _).
  apply children_nodup. unfold paths in Hpaths. rewrite Hrest, !fmap_app in Hpaths.
  apply NoDup_app in Hpaths as [Hpaths _]. rewrite entries_paths in Hpaths. by inversion Hpaths.
Qed.

(** a node of the tree that has a given path is in the map *)
Lemma model_of_child t d m n :
  tree_inv t -> find_in d (topContent t) = Some m -> n ∈ content m ->
  is_Some (model t !! rp (elem n)).
Proof.
  intros (_ & Hids & _ & Hpaths & _) Hf Hn. exists (elem n). apply model_of_lookup; [done|].
  exists (nid n). split; [|done]. apply (find_in_entries _ _ _ (find_in_content _ _ _ _ Hids Hf Hn)).
  rewrite entries_forest. by apply elem_of_cons; left.
Qed.

(** a directory whose content grew by a sorted node stays sorted *)
Lemma grown_sorted l d de dc c' n' :
  NoDup (ids l) -> forest_sorted l -> find_in d l = Some (mkNode d de dc) -> c' ≡ₚ dc ++ [n'] ->
  sorted c' -> sorted_below n' = true -> forest_sorted (update_in d (fun _ => mkNode d de c') l).
Proof.
  intros Hids Hs Hf Hperm Hsc Hsb. eapply update_in_sorted; [done|done|done| |done]. cbn [sorted_below].
  apply andb_true_iff. split; [by apply bool_decide_eq_true_2|].
  apply (find_in_sorted_below _ _ _ (proj2 Hs)) in Hf. cbn [sorted_below] in Hf. split_andb.
  rewrite forallb_Forall' in *. rewrite Hperm. apply Forall_app. by split; [|constructor].
Qed.

Lemma treeCopy_into_dir s t sp dp d de dc i src :
  tree_inv s -> tree_inv t ->
  index s !! sp = Some i -> find_in i (topContent s) = Some src ->
  rp (elem src) = sp -> good_path sp = true -> node_wf (parent_path sp) src = true ->
  index t !! dp = Some d -> find_in d (topContent t) = Some (mkNode d de dc) -> rp de = dp ->
  good_path dp = true -> isDirectory de = true -> model t !! (dp // filename sp) = None ->
  exists t', treeCopy s sp dp t = (Ok (src, next t), t') /\ copied s t t' sp dp /\
    index t' !! (dp // filename sp) = Some (next t).
Proof.
  intros Hs Ht Hi Hf Hsp Hg Hwf Hd Hfd Hdp Hgd Hdir Hnone.
  pose proof Ht as (Hwt & Hids & _ & _ & _).
  destruct (find_in_wf d "" _ _ eq_refl Hwt Hfd) as (q & Hq & Hn).
  assert (Hwc : forest_wf (rp de) dc = true)
    by (by apply forest_wf_node, forest_wf_cons in Hn as (_ & _ & _ & ? & _)).
  destruct (addToDirectoryContent_spec src (parent_path sp) d de dc (next t))
    as (n' & c' & E & Hperm & Hsc & Hcopy & Hid & Hrp);
    [auto|done|done|by rewrite Hdp|done| |].
  { intros (m & Em & Hm)%list_elem_of_fmap. rewrite Hdp, Hsp in Em.
    destruct (model_of_child t d _ m Ht Hfd Hm) as [x Hx]. by rewrite <-Em, Hnone in Hx. }
  rewrite Hdp, Hsp in Hrp.
  set (dst' := mkNode d de c'). set (l' := update_in d (fun _ => dst') (topContent t)).
  destruct (update_in_frame _ _ _ Hids Hfd) as (rest & Hold & Hnew).
  assert (Hl' : forest l' ≡ₚ entries n' ++ forest (topContent t)).
  { unfold l'. rewrite (Hnew (fun _ => dst')), Hold, (entries_forest dst'),
      (entries_forest (mkNode d de dc)). cbn [nid elem content dst'].
    rewrite Hperm, forest_app, entries_single. solve_Permutation. }
  assert (Hwc' : forest_wf (rp de) c' = true).
  { apply (forest_wf_perm _ _ _ Hperm), forest_wf_app. split; [done|]. by destruct Hcopy. }
  assert (Hwl' : forest_wf "" l' = true).
  { eapply update_in_wf; [done..|]. intros p. unfold dst'. rewrite !forest_wf_node, !forest_wf_cons.
    intros (? & ? & ? & ? & ?). split_and!; [done..|by left|done|done]. }
  rewrite Hdp in Hcopy.
  destruct (copied_intro s t sp dp i src n' l') as [Hadd Hcopied]; try done; [auto| |].
  { intros Hs'. apply (grown_sorted _ d de dc c' n'); try done. destruct Hcopy as (_ & Hsb & _).
    cbn [forallb] in Hsb. by rewrite andb_true_r in Hsb. }
  eexists. split; [|split; [exact Hcopied|cbn [index]; rewrite <-Hrp, <-Hid; apply indexed_node]].
  pose proof Hcopied as ((_ & Hids' & _) & _).
  cbn [topContent] in Hids'.
  assert (Hfn : find_in (next t) l' = Some n').
  { rewrite <-Hid. eapply (find_in_content l' d dst' n' Hids').
    - by apply (find_in_update d _ (mkNode d de dc)).
    - cbn [content dst']. rewrite Hperm. apply elem_of_app. right. by apply list_elem_of_singleton. }
  unfold treeCopy, mbind, method_bind, lift_outcome, searchNode, deref, get_state, set_next, mutate,
    set_top, set_index. rewrite Hi. cbn [from_option_err]. rewrite Hf. cbn [from_option_err].
  pose proof (good_path_nonempty _ Hgd) as Hne%str_empty_false. rewrite Hne. cbn [negb].
  rewrite Hd. cbn [from_option_err]. rewrite Hfd. cbn [from_option_err elem]. rewrite Hdir. cbn [negb].
  rewrite E. cbn [topContent]. rewrite Hfd. cbn [topContent index topPath opt next warnings].
  fold dst' l'. rewrite Hfn. cbn [from_option_err]. rewrite Hadd. done.
Qed.

Lemma treeCopy_into_top s t sp i src :
  tree_inv s -> tree_inv t ->
  index s !! sp = Some i -> find_in i (topContent s) = Some src ->
  rp (elem src) = sp -> good_path sp = true -> node_wf (parent_path sp) src = true ->
  NoDup ((fun n => rp (elem n)) <$> content src) -> model t !! ("" // filename sp) = None ->
  exists t', treeCopy s sp "" t = (Ok (src, next t), t') /\ copied s t t' sp "" /\
    index t' !! ("" // filename sp) = Some (next t).
Proof.
  intros Hs Ht Hi Hf Hsp Hg Hwf Hnd Hnone. pose proof Ht as (Hwt & Hids & _ & Hpaths & _).
  pose proof (filename_good _ Hg) as Hname.
  destruct (copyToTop_spec (parent_path sp) src (next t)) as (n' & E & Hcopy & Hid & Hrp); [auto|done|done|].
  set (l' := list_sort node_ltb (topContent t ++ [n'])).
  assert (Hperm : l' ≡ₚ topContent t ++ [n']) by apply list_sort_perm.
  assert (Hl' : forest l' ≡ₚ entries n' ++ forest (topContent t)).
  { rewrite Hperm, forest_app, entries_single. apply Permutation_app_comm. }
  assert (Hwl' : forest_wf "" l' = true).
  { apply (forest_wf_perm _ _ _ Hperm), forest_wf_app. split; [done|]. by destruct Hcopy. }
  destruct (copied_intro s t sp "" i src n' l') as [Hadd Hcopied]; try done.
  { intros [Hs1 Hs2]. split; [apply sort_sorted|]. rewrite forallb_Forall' in *. rewrite Hperm.
    apply Forall_app. split; [done|]. destruct Hcopy as (_ & Hsb & _). by rewrite forallb_Forall' in Hsb. }
  eexists. split; [|split; [exact Hcopied|]]; cycle 1.
  { cbn [index]. rewrite path_append_top by done. rewrite Hsp in Hrp. rewrite <-Hrp, <-Hid. apply indexed_node. }
  unfold treeCopy, mbind, method_bind, lift_outcome, get_state, set_next, set_top, set_index.
  rewrite Hi. cbn [from_option_err]. rewrite Hf. cbn [from_option_err str_empty negb].
  rewrite Hsp. pose proof Hname as [Hne%str_empty_false _]%good_name_spec. rewrite Hne.
  cbn [negb cassert]. rewrite for_each_assert.
  assert (Hall : forallb (fun n => negb (path_eqb (rp (elem n)) (filename sp))) (topContent t) = true).
  { apply forallb_forall. intros n Hn%list_elem_of_In. apply negb_true_iff.
    destruct (path_eqb _ _) eqn:Hp; [|done]. exfalso.
    assert (rp (elem n) = filename sp) as En.
    { apply path_eqb_dir; [|by auto|done]. apply good_path_dir.
      eapply (node_wf_good ""); [done|]. exact (forest_wf_elem _ _ _ Hwt Hn). }
    rewrite path_append_top in Hnone by done. apply model_of_None in Hnone. apply Hnone.
    rewrite <-En. by apply elem_in_paths. }
  rewrite Hall. rewrite Hsp in E. rewrite E. cbn [topContent index topPath opt next warnings].
  rewrite Hadd, Hid. done.
Qed.

(** A copy that can be made is made: the entries at or below the source path
    appear below the destination directory, and nothing else changes. *)
Lemma treeCopy_spec s t sp dp :
  tree_inv s -> tree_inv t -> can_copy s t sp dp ->
  exists i src t', treeCopy s sp dp t = (Ok (src, next t), t') /\ copied s t t' sp dp /\
    index t' !! (dp // filename sp) = Some (next t) /\
    find_in i (topContent s) = Some src /\ rp (elem src) = sp.
Proof.
  intros Hs Ht (Hsrc & Hdst & Hnone).
  destruct (copy_source s sp Hs Hsrc) as (i & src & Hi & Hf & Hsp & Hg & Hwf & Hnd). exists i, src.
  cut (exists t', treeCopy s sp dp t = (Ok (src, next t), t') /\ copied s t t' sp dp /\
    index t' !! (dp // filename sp) = Some (next t)); [naive_solver|].
  destruct Hdst as [->|(de & Hm & Hdir)].
  - by apply (treeCopy_into_top s t sp i).
  - pose proof (inv_good_path t Ht dp (ex_intro _ de Hm)) as Hgd.
    destruct (inv_model t Ht dp de Hm) as (d & dc & Hd & Hfd & Hdp).
    by apply (treeCopy_into_dir s t sp dp d de dc i).
Qed.

Lemma copyFromTree_spec s t sp dp :
  tree_inv s -> tree_inv t -> can_copy s t sp dp ->
  exists t', copyFromTree s sp dp t = (Ok tt, t') /\ copied s t t' sp dp.
Proof.
  intros Hs Ht H. destruct (treeCopy_spec s t sp dp Hs Ht H) as (i & src & t' & E & Hc & _).
  exists t'. split; [|done]. unfold copyFromTree, mbind, method_bind. by rewrite E.
Qed.

(** ** Copies that cannot be made *)

Lemma treeCopy_no_source s t sp dp :
  tree_inv s -> model s !! sp = None ->
  treeCopy s sp dp t = (Err (searchNode_fail sp "treeCopy: can't find src"), t).
Proof.
  intros Hs Hm. apply inv_lookup_None in Hm; [|done].
  unfold treeCopy, mbind, method_bind, lift_outcome. by rewrite Hm.
Qed.

Lemma treeCopy_no_destination s t sp dp :
  tree_inv s -> tree_inv t -> is_Some (model s !! sp) -> dp <> "" -> model t !! dp = None ->
  treeCopy s sp dp t = (Err (searchNode_fail dp "treeCopy: can't find dst"), t).
Proof.
  intros Hs Ht Hsp Hdp%str_empty_false Hm. apply inv_lookup_None in Hm; [|done].
  destruct (copy_source s sp Hs Hsp) as (i & src & Hi & Hf & _).
  unfold treeCopy, mbind, method_bind, lift_outcome, searchNode.
  rewrite Hi. cbn [from_option_err]. rewrite Hf. cbn [from_option_err]. rewrite Hdp. cbn [negb].
  by rewrite Hm.
Qed.

Lemma treeCopy_not_directory s t sp dp de :
  tree_inv s -> tree_inv t -> is_Some (model s !! sp) -> model t !! dp = Some de ->
  isDirectory de = false ->
  treeCopy s sp dp t = (Err (Throw ("treeCopy: dst not a directory: " +:+ dp)), t).
Proof.
  intros Hs Ht Hsp Hm Hd. destruct (copy_source s sp Hs Hsp) as (i & src & Hi & Hf & _).
  pose proof (inv_good_path t Ht dp (ex_intro _ de Hm)) as Hg%good_path_nonempty%str_empty_false.
  destruct (inv_model t Ht dp de Hm) as (j & c & Hj & Hfj & _).
  unfold treeCopy, mbind, method_bind, lift_outcome, searchNode, deref.
  rewrite Hi. cbn [from_option_err]. rewrite Hf. cbn [from_option_err]. rewrite Hg. cbn [negb].
  rewrite Hj. cbn [from_option_err]. rewrite Hfj. cbn [from_option_err elem]. by rewrite Hd.
Qed.

Lemma occupied_name l p n where_ :
  n ∈ l -> rp (elem n) = p ->
  for_each (fun n _ => cassert (negb (path_eqb (rp (elem n)) p)) where_) l tt
    = Err (AssertFailed where_).
Proof.
  intros Hn Hp. rewrite for_each_assert.
  assert (forallb (fun n => negb (path_eqb (rp (elem n)) p)) l = false) as ->; [|done].
  apply not_true_iff_false. intros H. apply forallb_Forall' in H. rewrite Forall_forall in H.
  specialize (H n Hn). cbn beta in H. by rewrite Hp, path_eqb_refl in H.
Qed.

(** the destination already has an entry with that name *)
Lemma treeCopy_occupied s t sp dp :
  tree_inv s -> tree_inv t -> is_Some (model s !! sp) ->
  (dp = "" \/ exists de, model t !! dp = Some de /\ isDirectory de = true) ->
  is_Some (model t !! (dp // filename sp)) ->
  exists where_, treeCopy s sp dp t = (Err (AssertFailed where_), t).
Proof.
  intros Hs Ht Hsp Hdst [e He].
  destruct (copy_source s sp Hs Hsp) as (i & src & Hi & Hf & Hrp & Hg & _).
  destruct (inv_model t Ht _ _ He) as (j & c & Hj & Hfj & Ep).
  pose proof Ht as (Hwf & Hids & _).
  assert (Hpar : good_dir dp = true /\ parent_path (dp // filename sp) = dp).
  { assert (good_dir dp = true) by (destruct Hdst as [->|(de & Hde & _)]; [done|];
      apply good_path_dir, (inv_good_path t Ht); by eexists).
    split; [done|]. apply parent_append; auto. }
  destruct Hpar as [Hgd Hpar].
  unfold treeCopy, mbind, method_bind, lift_outcome, searchNode, deref, get_state.
  rewrite Hi. cbn [from_option_err]. rewrite Hf. cbn [from_option_err].
  destruct (find_parent "" _ _ _ eq_refl Hwf Hids Hfj) as [[Hin Hp]|(k & m & Hfm & Hin & Hm & Hgm & Hd)];
    cbn [elem] in *; rewrite Ep, Hpar in *.
  - subst dp. cbn [str_empty negb]. rewrite Hrp. pose proof (filename_good _ Hg) as Hname.
    pose proof Hname as [Hne%str_empty_false _]%good_name_spec. rewrite Hne. cbn [negb cassert].
    rewrite path_append_top in Ep by done.
    rewrite (occupied_name _ (filename sp) _ _ Hin Ep). eauto.
  - destruct Hdst as [->|(de & Hde & Hdd)]; [rewrite Hm in Hgm; by apply good_path_nonempty in Hgm|].
    rewrite Hm in Hgm. apply good_path_nonempty, str_empty_false in Hgm. rewrite Hgm. cbn [negb].
    destruct (inv_model t Ht dp de Hde) as (d & dc & Hd' & Hfd & Hdp).
    pose proof (inv_unique t Ht dp d k m Hd' Hfm Hm) as <-. rewrite Hd'. cbn [from_option_err].
    rewrite Hfm. cbn [from_option_err]. rewrite Hd. cbn [negb].
    unfold addToDirectoryContent. rewrite Hrp, Hm.
    rewrite (occupied_name _ _ _ _ Hin Ep). cbn [mbind outcome_bind]. eauto.
Qed.

(** ** A copy to the same place *)

(** Copying an entry to the place it has in the source tree. *)
Lemma copied_same_place s t t' sp :
  tree_inv s -> good_path sp = true -> copied s t t' sp (parent_path sp) ->
  model t' = subtree sp (model s) ∪ model t.
Proof.
  intros Hs Hg (_ & Hm & _). rewrite Hm, graft_same; [done|by auto| |].
  - intros k e Hk. split; [apply (inv_good_path s Hs); by eexists|].
    by destruct (inv_model s Hs k e Hk) as (_ & _ & _ & _ & ?).
  - rewrite <-(parent_filename sp Hg) at 2. rewrite comps_append by auto. by apply prefix_app_r.
Qed.

(** a copy that cannot be made leaves the tree as it was *)
Lemma copyFromTree_fails s t sp dp :
  tree_inv s -> tree_inv t -> ~ can_copy s t sp dp ->
  exists err, copyFromTree s sp dp t = (Err err, t) /\ err <> Dangling /\ err <> OutOfFuel.
Proof.
  intros Hs Ht Hno. unfold copyFromTree, mbind, method_bind.
  destruct (model s !! sp) as [e|] eqn:Hsp; cycle 1.
  { rewrite (treeCopy_no_source s t sp dp Hs Hsp). eauto. }
  assert (His : is_Some (model s !! sp)) by eauto.
  assert (Hcase : (dp <> "" /\ model t !! dp = None) \/
    (exists de, model t !! dp = Some de /\ isDirectory de = false) \/
    (dp = "" \/ exists de, model t !! dp = Some de /\ isDirectory de = true)).
  { destruct (decide (dp = "")) as [->|Hd]; [by right; right; left|].
    destruct (model t !! dp) as [de|]; [|by left]. destruct (isDirectory de) eqn:Hde; eauto 6. }
  destruct Hcase as [[Hd Hm]|[(de & Hm & Hd)|Hd]].
  - rewrite (treeCopy_no_destination s t sp dp Hs Ht His Hd Hm). eauto.
  - rewrite (treeCopy_not_directory s t sp dp de Hs Ht His Hm Hd). eauto.
  - destruct (model t !! (dp // filename sp)) eqn:Hocc; [|by destruct Hno].
    destruct (treeCopy_occupied s t sp dp Hs Ht His Hd) as [w ->]; eauto.
Qed.
