(* ===== verification/TreeIO.v ===== *)
(** * DirectoryTree: metadata files (src/core.cpp)

    Reading a tree from the text of a metadata file and writing it. The text
    lists the content of each directory as a group of lines; groups are
    separated by blank lines, the content of a directory comes after the group
    that names the directory. *)

From S2P Require Import Prelude CxxPath CxxTime CxxStream Element Node Tree TreeInv TreeOps TreeCopy.

Local Open Scope Z_scope.

Definition newline : ascii := "010"%char.

(** the lines that repeated calls of [getline] return *)
Fixpoint getlines (s : string) : list string :=
  match s with
  | "" => []
  | String c s' =>
      if bool_decide (c = newline) then "" :: getlines s'
      else match getlines s' with
           | [] => [String c ""]
           | l :: ls => String c l :: ls
           end
  end.

(** ** Reading *)

Definition throw {A} (e : error) : tree_method A := lift_outcome (Err e).

Definition group_fail (metadataFileName : string) (lineNo : Z) (m : string) : error :=
  Throw (metadataFileName +:+ (if str_empty metadataFileName then "" else ": ") +:+ m +:+
         " before line " +:+ Z_to_string lineNo).

Definition unsupported_warning (e : FilesystemElement) : string :=
  "Warning: " +:+ rp e +:+ " unsupported file type".

(** the loop of [add] over the nodes of the group *)
Fixpoint add_index (fail : string -> error) (p : path) (nodes : list DirectoryNode)
    : tree_method unit :=
  match nodes with
  | [] => mret tt
  | n :: rest =>
      let e := elem n in
      if negb (path_eqb p (parent_path (rp e))) then throw (fail "different paths grouped")
      else
        t ← get_state;
        match index t !! rp e with
        | Some _ => throw (fail "index insert failed (duplicate?)")
        | None =>
            _ ← set_index (<[rp e := nid n]> (index t));
            _ ← (if bool_decide (ty e = unknown) then warn (unsupported_warning e) else mret tt);
            add_index fail p rest
        end
  end.

(** the closure [add]: a group of nodes becomes the content of the directory
    that contains them *)
Definition add (fail : string -> error) (nodes : list DirectoryNode) : tree_method unit :=
  match nodes with
  | [] => mret tt
  | n :: _ =>
      let p := parent_path (rp (elem n)) in
      _ ← add_index fail p nodes;
      t ← get_state;
      if is_nil (topContent t) then
        if negb (str_empty p) then throw (fail "file does not start with top level directory")
        else set_top nodes
      else
        match index t !! p with
        | None => throw (fail "directory content not preceded by index insert")
        | Some i =>
            d ← deref i;
            if negb (is_nil (content d)) then throw (fail "duplicate noncontiguous directory content")
            else
              d' ← lift_outcome (setDirectoryContent nodes d);
              mutate i (fun _ => d')
        end
  end.

Fixpoint read_lines (file : string) (lines : list string) (lineNo : Z) (nodes : list DirectoryNode)
    : tree_method unit :=
  match lines with
  | [] => add (group_fail file lineNo) nodes
  | line :: rest =>
      let lineNo := lineNo + 1 in
      if str_empty line then
        _ ← add (group_fail file lineNo) nodes;
        read_lines file rest lineNo []
      else
        e ← lift_outcome (readFrom line file lineNo);
        t ← get_state;
        _ ← set_next (S (next t));
        read_lines file rest lineNo (nodes ++ [mkNode (next t) e []])
  end.

(** [DirectoryTree::readFrom] on a stream with the given text *)
Definition tree_readFrom (text metadataFileName : string) : tree_method unit :=
  _ ← clear;
  read_lines metadataFileName (getlines text) 0 [].

(** [DirectoryTree::readFrom] on a file; [read_file] is the text of the files
    that can be opened *)
Definition tree_readFrom_file (read_file : path -> option string) (metadataFile : path)
    : tree_method unit :=
  _ ← clear;
  text ← lift_outcome (from_option_err (Throw ("file not found: " +:+ metadataFile))
                        (read_file metadataFile));
  tree_readFrom text metadataFile.

(** ** Writing *)

Section write_level.
Context (write_content : DirectoryNode -> bool -> outcome (string * bool)).

Fixpoint write_lines (nodes : list DirectoryNode) : outcome string :=
  match nodes with
  | [] => Ok ""
  | n :: rest => l ← writeTo (elem n); ls ← write_lines rest; Ok (l +:+ String newline ls)
  end.

(** the second loop of [recursiveWrite], which stops at the first element that
    is not a directory *)
Fixpoint write_dirs (nodes : list DirectoryNode) (printBreak : bool) : outcome (string * bool) :=
  match nodes with
  | [] => Ok ("", printBreak)
  | n :: rest =>
      if isDirectory (elem n) then
        '(s, b) ← write_content n printBreak;
        '(s', b') ← write_dirs rest b;
        Ok (s +:+ s', b')
      else Ok ("", printBreak)
  end.

Definition write_level (nodes : list DirectoryNode) (printBreak : bool)
    : outcome (string * bool) :=
  ls ← write_lines nodes;
  '(s, b) ← write_dirs nodes (negb (is_nil nodes));
  Ok ((if printBreak then String newline "" else "") +:+ ls +:+ s, b).
End write_level.

(** [recursiveWrite] on the content of a node *)
Fixpoint write_content (n : DirectoryNode) (printBreak : bool) : outcome (string * bool) :=
  match n with
  | mkNode _ _ c => write_level write_content c printBreak
  end.

(** [recursiveWrite]: the text and the new value of [printBreak] *)
Definition recursiveWrite (nodes : list DirectoryNode) (printBreak : bool)
    : outcome (string * bool) :=
  write_level write_content nodes printBreak.

(** [DirectoryTree::writeTo] *)
Definition tree_writeTo (t : DirectoryTree) : outcome string :=
  '(s, _) ← recursiveWrite (topContent t) false; Ok s.

(** [DirectoryTree::writeTo] on a file: the text the file gets *)
Definition tree_writeTo_file (can_open : path -> bool) (metadataFile : path) (t : DirectoryTree)
    : outcome string :=
  if can_open metadataFile then tree_writeTo t
  else Err (Throw ("could not open for writing: " +:+ metadataFile)).

(** ** Lines of a text *)

Definition not_newline (c : ascii) : bool := negb (bool_decide (c = newline)).
(** a string without line breaks *)
Definition one_line (s : string) : bool := str_all not_newline s.

Lemma getlines_app l s : one_line l = true -> getlines (l +:+ String newline s) = l :: getlines s.
Proof.
  unfold one_line. induction l as [|c l IH]; intros H; [done|]. simpl in H. split_andb.
  rewrite app_cons_str. cbn [getlines]. rewrite bool_decide_false.
  - by rewrite IH.
  - intros ->. discriminate.
Qed.

(** blank lines and lines of elements, as they come in a metadata file *)
Definition line_text (ev : option FilesystemElement) : string :=
  match ev with Some e => line_of e (break_down (mt e)) | None => "" end.
Definition text_of (evs : list (option FilesystemElement)) : string :=
  foldr (fun ev s => line_text ev +:+ String newline s) "" evs.

Lemma text_of_app l k : text_of (l ++ k) = text_of l +:+ text_of k.
Proof.
  induction l as [|ev l IH]; [done|]. simpl. rewrite IH. autorewrite with strs. done.
Qed.

Lemma getlines_text evs :
  Forall (fun ev => one_line (line_text ev) = true) evs ->
  getlines (text_of evs) = line_text <$> evs.
Proof. induction 1 as [|ev evs H _ IH]; [done|]. simpl. by rewrite getlines_app, IH. Qed.

(** ** Lines of elements have no line break *)

Lemma not_space_newline c : not_space c = true -> not_newline c = true.
Proof. by destruct c as [[] [] [] [] [] [] [] []]. Qed.

Lemma token_one_line s : is_token s = true -> one_line s = true.
Proof. unfold is_token. intros H. split_andb. by eapply str_all_impl; [apply not_space_newline|]. Qed.

Lemma one_line_app s t : one_line (s +:+ t) = one_line s && one_line t.
Proof. apply str_all_app. Qed.

Lemma digit_one_line d : 0 <= d <= 9 -> not_newline (digit d) = true.
Proof. intros H%digit_nat. by destruct (digit d) as [[] [] [] [] [] [] [] []]. Qed.

#[local] Ltac Zify.zify_post_hook ::= Z.to_euclidean_division_equations.

Lemma put2_one_line z : 0 <= z <= 99 -> one_line (put2 z) = true.
Proof.
  intros H. unfold put2, one_line. cbn [str_all]. rewrite !digit_one_line; [done|lia..].
Qed.

Lemma put_time_one_line t :
  four_digit_year t = true -> one_line (put_time (break_down t)) = true.
Proof.
  unfold four_digit_year. intros Hy. split_andb.
  pose proof (break_down_in_range t) as (Hmo & Hd & Hh & Hmi & Hs).
  unfold put_time, put_year. rewrite (proj2 (andb_true_iff _ _)) by (split; lia).
  rewrite !one_line_app, !put2_one_line by lia. done.
Qed.

Lemma Z_to_string_one_line z : one_line (Z_to_string z) = true.
Proof.
  assert (Hd : forall n, one_line (N_to_string n) = true).
  { intros n. destruct (N_to_string_spec n) as (_ & H & _). eapply str_all_impl; [|exact H].
    intros c. by destruct c as [[] [] [] [] [] [] [] []]. }
  unfold Z_to_string. case_match; [rewrite one_line_app|]; by rewrite Hd.
Qed.

Lemma put_path_one_line s : one_line s = true -> one_line (put_path s) = true.
Proof.
  intros H. unfold put_path. change (one_line (String ?c ?x)) with (not_newline c && one_line x).
  rewrite one_line_app. apply andb_true_iff; split; [done|]. apply andb_true_iff; split; [|done].
  unfold one_line in *. induction s as [|c s IH]; [done|]. simpl in H. split_andb.
  cbn [escape]. case_match; cbn [str_all]; rewrite IH by done; [|by rewrite H].
  by rewrite H.
Qed.

Lemma perm_string_one_line pe : one_line (perm_string pe) = true.
Proof.
  destruct (perm_string_spec pe) as (_ & H & _). by eapply str_all_impl; [apply not_space_newline|].
Qed.

(** what a metadata file can hold: an element whose line can be read back, with
    a path and a link target in one line *)
Definition file_wf (e : FilesystemElement) : bool :=
  line_wf e && one_line (rp e) && one_line (symlink e).

Lemma type_fields_one_line e : file_wf e = true -> one_line (type_fields e) = true.
Proof.
  unfold file_wf, line_wf, type_fields. destruct (ty e); intros H; split_andb; try done.
  - destruct (str_empty (fileHash e)); cbn [orb] in *; split_andb.
    + by rewrite one_line_app, Z_to_string_one_line.
    + by rewrite !one_line_app, Z_to_string_one_line, (token_one_line (fileHash e)).
  - by rewrite one_line_app, put_path_one_line.
Qed.

Lemma line_one_line e : file_wf e = true -> one_line (line_text (Some e)) = true.
Proof.
  intros H. pose proof (type_fields_one_line e H) as Ht.
  unfold file_wf, line_wf in H. split_andb. cbn [line_text]. unfold line_of.
  rewrite app_cons_str. change (one_line (String ?c ?x)) with (not_newline c && one_line x).
  rewrite !one_line_app, Ht, perm_string_one_line, put_time_one_line, put_path_one_line by done.
  rewrite (token_one_line (us e)), (token_one_line (gs e)) by done. by destruct (ty e).
Qed.

Lemma line_not_empty e : str_empty (line_text (Some e)) = false.
Proof. done. Qed.

(** ** The groups of a metadata file *)

(** a pending group, if there is one *)
Definition flush (g : list FilesystemElement) : list (list FilesystemElement) :=
  if is_nil g then [] else [g].

(** the groups that blank lines delimit, the first starting with [pend] *)
Fixpoint groups (pend : list FilesystemElement) (evs : list (option FilesystemElement))
    : list (list FilesystemElement) :=
  match evs with
  | [] => flush pend
  | None :: evs' => flush pend ++ groups [] evs'
  | Some e :: evs' => groups (pend ++ [e]) evs'
  end.

(** the groups of a forest: its own list, then those of the directories *)
Fixpoint node_groups (n : DirectoryNode) : list (list FilesystemElement) :=
  match n with
  | mkNode _ _ c => flush (elem <$> c) ++ flat_map node_groups c
  end.
Definition forest_groups (l : list DirectoryNode) : list (list FilesystemElement) :=
  flush (elem <$> l) ++ flat_map node_groups l.

Lemma node_groups_content n : node_groups n = forest_groups (content n).
Proof. by destruct n. Qed.

Lemma groups_lines es pend rest : groups pend ((Some <$> es) ++ rest) = groups (pend ++ es) rest.
Proof.
  revert pend. induction es as [|e es IH]; intros pend; simpl; [by rewrite app_nil_r|].
  by rewrite IH, <-app_assoc.
Qed.

(** [m], run with [printBreak] telling if a group is open, appends the groups [gs] *)
Definition writes (m : outcome (string * bool)) (pb : bool) (gs : list (list FilesystemElement))
    : Prop :=
  exists evs pb', m = Ok (text_of evs, pb') /\
    Forall (fun ev => match ev with Some e => file_wf e = true | None => True end) evs /\
    forall pend, pb = negb (is_nil pend) -> exists pend' done_,
      pb' = negb (is_nil pend') /\
      (forall rest, groups pend (evs ++ rest) = done_ ++ groups pend' rest) /\
      done_ ++ flush pend' = flush pend ++ gs.

Lemma writes_nil pb : writes (Ok ("", pb)) pb [].
Proof.
  exists [], pb. split; [done|]. split; [constructor|]. intros pend ->. exists pend, [].
  rewrite app_nil_r. done.
Qed.

Lemma writes_app m k pb gs hs :
  writes m pb gs -> (forall b, writes (k b) b hs) ->
  writes ('(s, b) ← m; '(s', b') ← k b; Ok (s +:+ s', b')) pb (gs ++ hs).
Proof.
  intros (evs & b & -> & Hw & Hm) Hk. destruct (Hk b) as (evs' & b' & E & Hw' & Hk').
  exists (evs ++ evs'), b'. cbn [mbind outcome_bind]. rewrite E. cbn [mbind outcome_bind].
  split; [by rewrite text_of_app|]. split; [by apply Forall_app|]. intros pend Hpb.
  destruct (Hm pend Hpb) as (pend1 & d1 & Hb & Hg & Hd).
  destruct (Hk' pend1 Hb) as (pend2 & d2 & Hb' & Hg' & Hd').
  exists pend2, (d1 ++ d2). split; [done|]. split.
  - intros rest. by rewrite <-app_assoc, Hg, Hg', app_assoc.
  - by rewrite <-app_assoc, Hd', app_assoc, Hd, <-app_assoc.
Qed.

Lemma write_lines_ok l :
  Forall (fun n => file_wf (elem n) = true) l ->
  write_lines l = Ok (text_of (Some <$> (elem <$> l))).
Proof.
  induction 1 as [|n l Hn _ IH]; [done|]. cbn [write_lines]. rewrite IH. unfold file_wf in Hn.
  split_andb. unfold writeTo. rewrite gmtime_four_digits; [done|]. unfold line_wf in *. by split_andb.
Qed.

(** what the writer needs of a node: elements that a file can hold, content in
    order and only in directories *)
Fixpoint writable (n : DirectoryNode) : bool :=
  match n with
  | mkNode _ e c => file_wf e && (isDirectory e || is_nil c) && bool_decide (sorted c) && forallb writable c
  end.

Lemma writable_elem n : writable n = true -> file_wf (elem n) = true.
Proof. destruct n as [i e c]. cbn [writable elem]. intros. by split_andb. Qed.

Lemma files_no_groups l :
  forallb writable l = true -> Forall (fun n => isDirectory (elem n) = false) l ->
  flat_map node_groups l = [].
Proof.
  induction l as [|[i e c] l IH]; [done|]. cbn [forallb writable flat_map node_groups elem].
  intros Hw [Hd Hl]%Forall_cons. cbn [elem] in Hd. split_andb. rewrite Hd in *. cbn [orb] in *.
  rewrite IH by done. by destruct c.
Qed.

Lemma write_dirs_writes l :
  sorted l -> forallb writable l = true ->
  Forall (fun n => forall pb, writes (write_content n pb) pb (node_groups n)) l ->
  forall pb, writes (write_dirs write_content l pb) pb (flat_map node_groups l).
Proof.
  intros Hs Hw Hl. induction Hl as [|n l Hn Hl IH]; intros pb; [apply writes_nil|].
  apply StronglySorted_inv in Hs as [Hs Hlt]. cbn [forallb] in Hw. split_andb.
  cbn [write_dirs flat_map]. destruct (isDirectory (elem n)) eqn:Hd.
  - apply writes_app; auto.
  - change (writes (Ok ("", pb)) pb (flat_map node_groups (n :: l))). rewrite (files_no_groups (n :: l)); [apply writes_nil|cbn [forallb]; by split_andb|].
    constructor; [done|]. eapply Forall_impl; [exact Hlt|]. intros m Hm.
    destruct (isDirectory (elem m)) eqn:Hdm; [|done]. unfold in_order, node_ltb, elem_ltb in Hm.
    by rewrite Hd, Hdm in Hm.
Qed.

Lemma write_level_writes l pb :
  forallb writable l = true ->
  (forall pb, writes (write_dirs write_content l pb) pb (flat_map node_groups l)) ->
  writes (write_level write_content l pb) pb (forest_groups l).
Proof.
  intros Hw Hdirs. destruct (Hdirs (negb (is_nil l))) as (evs & b & E & He & Hd).
  assert (Hf : Forall (fun n => file_wf (elem n) = true) l).
  { eapply Forall_impl; [by apply forallb_Forall'|]. intros. by apply writable_elem. }
  exists ((if pb then [None] else []) ++ (Some <$> (elem <$> l)) ++ evs), b.
  unfold write_level. rewrite write_lines_ok by done. cbn [mbind outcome_bind]. rewrite E.
  cbn [mbind outcome_bind]. split; [rewrite !text_of_app; by destruct pb|]. split.
  { rewrite !Forall_app. split_and!; [by destruct pb; repeat constructor| |done].
    rewrite !Forall_fmap. done. }
  intros pend Hpb. destruct (Hd (elem <$> l)) as (pend' & d & Hb & Hg & Hfl); [by destruct l|].
  exists pend', (flush pend ++ d). split; [done|]. split.
  - intros rest. rewrite <-!app_assoc, <-Hg.
    destruct pend as [|x pend], pb; try done; cbn [app groups]; by rewrite groups_lines.
  - by rewrite <-app_assoc, Hfl.
Qed.

Lemma write_content_writes n pb :
  writable n = true -> writes (write_content n pb) pb (node_groups n).
Proof.
  revert pb. induction n as [i e c IH] using node_ind'. intros pb Hw. cbn [writable] in Hw. split_andb.
  rewrite node_groups_content. cbn [content write_content]. apply write_level_writes; [done|].
  apply write_dirs_writes; [by eapply bool_decide_eq_true_1|done|].
  rewrite Forall_forall in *. rewrite forallb_Forall', Forall_forall in *. auto.
Qed.

Lemma recursiveWrite_writes l pb :
  sorted l -> forallb writable l = true -> writes (recursiveWrite l pb) pb (forest_groups l).
Proof.
  intros Hs Hw. apply write_level_writes; [done|]. apply write_dirs_writes; [done..|].
  rewrite Forall_forall. rewrite forallb_Forall', Forall_forall in *. intros.
  apply write_content_writes. auto.
Qed.

(** Writing succeeds, and the lines of the text hold the groups of the forest. *)
Lemma tree_writeTo_groups t :
  sorted (topContent t) -> forallb writable (topContent t) = true ->
  exists evs, tree_writeTo t = Ok (text_of evs) /\ groups [] evs = forest_groups (topContent t) /\
    Forall (fun ev => match ev with Some e => file_wf e = true | None => True end) evs.
Proof.
  intros Hs Hw. destruct (recursiveWrite_writes _ false Hs Hw) as (evs & b & E & He & Hg).
  exists evs. unfold tree_writeTo. rewrite E. split; [done|]. split; [|done].
  destruct (Hg [] eq_refl) as (pend & d & _ & Hr & Hd). specialize (Hr []).
  rewrite app_nil_r in Hr. rewrite Hr. exact Hd.
Qed.
