(* ===== verification/TreeLoad.v ===== *)
(** * Reading back a metadata file (src/core.cpp)

    The reader, seen as a loader of groups of elements, and the round trip: what
    [writeTo] produces, [readFrom] turns into a tree of the same shape. *)

From S2P Require Import Prelude CxxPath CxxTime CxxStream Element Node Tree TreeInv TreeOps TreeCopy TreeIO.

(** ** Loading groups *)

(** new nodes without content, with identities from [k] on *)
Fixpoint alloc (k : nat) (es : list FilesystemElement) : list DirectoryNode :=
  match es with
  | [] => []
  | e :: es' => mkNode k e [] :: alloc (S k) es'
  end.

Definition bump (k : nat) (t : DirectoryTree) : DirectoryTree :=
  mkTree (topContent t) (index t) (topPath t) (opt t) (next t + k) (warnings t).

(** a group is read, then added *)
Definition load_group (fail : string -> error) (es : list FilesystemElement) : tree_method unit :=
  fun t => add fail (alloc (next t) es) (bump (length es) t).

Fixpoint load_groups (fail : string -> error) (gs : list (list FilesystemElement))
    : tree_method unit :=
  match gs with
  | [] => mret tt
  | g :: gs' => _ ← load_group fail g; load_groups fail gs'
  end.

Lemma load_groups_app fail gs hs t t1 :
  load_groups fail gs t = (Ok tt, t1) ->
  load_groups fail (gs ++ hs) t = load_groups fail hs t1.
Proof.
  revert t. induction gs as [|g gs IH]; intros t; simpl; [by intros [= <-]|].
  unfold mbind, method_bind. destruct (load_group fail g t) as [[[]|] t2]; [|done]. apply IH.
Qed.

Lemma load_groups_cons fail g gs t t1 :
  load_group fail g t = (Ok tt, t1) -> load_groups fail (g :: gs) t = load_groups fail gs t1.
Proof. intros E. simpl. unfold mbind, method_bind. by rewrite E. Qed.

Lemma bump_0 t : bump 0 t = t.
Proof. destruct t. unfold bump. simpl. by rewrite Nat.add_0_r. Qed.

Lemma alloc_snoc k es e : alloc k (es ++ [e]) = alloc k es ++ [mkNode (k + length es) e []].
Proof.
  revert k. induction es as [|e' es IH]; intros k; simpl; [by rewrite Nat.add_0_r|].
  rewrite IH. by rewrite Nat.add_succ_comm.
Qed.

(** the message of a failure plays no role when there is none *)
Lemma add_index_ok_any f g p nodes t t' :
  add_index f p nodes t = (Ok tt, t') -> add_index g p nodes t = (Ok tt, t').
Proof.
  revert t. induction nodes as [|n nodes IH]; intros t; [done|].
  cbn [add_index]. destruct (negb _); [done|].
  unfold mbind, method_bind, get_state, set_index. destruct (index t !! _); [done|].
  case_bool_decide; [unfold warn|unfold mret, method_ret]; apply IH.
Qed.

Lemma add_ok_any f g nodes t t' :
  add f nodes t = (Ok tt, t') -> add g nodes t = (Ok tt, t').
Proof.
  unfold add. destruct nodes as [|n nodes]; [done|]. unfold mbind, method_bind, get_state.
  destruct (add_index f _ _ t) as [[[]|] t1] eqn:E; [|done].
  rewrite (add_index_ok_any _ g _ _ _ _ E).
  destruct (is_nil _); [by destruct (negb _)|]. destruct (index t1 !! _); [|done].
  destruct (deref _ t1) as [[d|] t2]; [|done]. by destruct (negb _).
Qed.

(** When the lines parse, the reader loads the groups they form. *)
Lemma read_lines_groups fail file evs pend n t t' :
  Forall (fun ev => match ev with Some e => file_wf e = true | None => True end) evs ->
  load_groups fail (map (map as_read) (groups pend evs)) t = (Ok tt, t') ->
  read_lines file (map line_text evs) n (alloc (next t) (map as_read pend)) (bump (length pend) t)
    = (Ok tt, t').
Proof.
  intros Hev. revert pend n t. induction Hev as [|ev evs He Hev IH]; intros pend n t.
  - cbn [groups map read_lines]. destruct pend as [|e pend].
    + intros [= <-]. by rewrite bump_0.
    + cbn [flush is_nil map load_groups]. unfold mbind, method_bind, load_group.
      destruct (add fail _ _) as [[[]|] t1] eqn:E; [|done]. intros [= <-].
      cbn [length] in E. rewrite length_map in E. by apply (add_ok_any fail).
  - cbn [map read_lines]. destruct ev as [e|].
    + rewrite line_not_empty. unfold file_wf in He. split_andb.
      destruct (write_read e) as (l & El & Hread); [done|].
      unfold writeTo in El. rewrite gmtime_four_digits in El
        by (unfold line_wf in *; by split_andb). injection El as <-.
      cbn [groups line_text]. unfold mbind, method_bind, lift_outcome, get_state, set_next.
      rewrite Hread. intros Hl. specialize (IH (pend ++ [e]) (n + 1)%Z t Hl).
      rewrite map_app, length_app in IH. cbn [map length] in IH.
      rewrite alloc_snoc, length_map, Nat.add_1_r in IH. unfold bump in *.
      cbn [topContent index topPath opt next warnings].
      by rewrite Nat.add_succ_r in IH.
    + cbn [line_text str_empty groups]. rewrite map_app. unfold mbind, method_bind.
      destruct pend as [|e pend].
      * cbn [flush is_nil map app alloc add length]. intros Hl. rewrite bump_0.
        unfold mret, method_ret. specialize (IH [] (n + 1)%Z t Hl). by rewrite bump_0 in IH.
      * cbn [flush is_nil map app load_groups]. unfold mbind, method_bind, load_group.
        destruct (add fail _ _) as [[[]|] t1] eqn:E; [|done]. intros Hl.
        cbn [length] in E. rewrite length_map in E. cbn [length].
        rewrite (add_ok_any fail _ _ _ _ E).
        specialize (IH [] (n + 1)%Z t1 Hl). by rewrite bump_0 in IH.
Qed.

(** ** Adding one group *)

Lemma forest_alloc k es : forest (alloc k es) = zip (seq k (length es)) es.
Proof. revert k. induction es as [|e es IH]; intros k; [done|]. simpl. by rewrite <-IH. Qed.

Lemma ids_alloc k es : ids (alloc k es) = seq k (length es).
Proof. unfold ids. rewrite forest_alloc. apply fst_zip. by rewrite length_seq. Qed.

Lemma paths_alloc k es : paths (alloc k es) = rp <$> es.
Proof. unfold paths. rewrite forest_alloc, snd_zip; [done|]. by rewrite length_seq. Qed.

(** the elements [es] are entries of the directory [p] *)
Definition in_directory (p : path) (es : list FilesystemElement) : Prop :=
  Forall (fun e => good_name (filename (rp e)) = true /\ rp e = p // filename (rp e)) es /\
  NoDup (rp <$> es).

Lemma alloc_wf p k es : in_directory p es -> forest_wf p (alloc k es) = true.
Proof.
  intros [H _]. revert k. induction H as [|e es [Hn Hp] _ IH]; intros k; [done|].
  cbn [alloc]. apply forest_wf_cons. auto.
Qed.

Definition type_warnings (es : list FilesystemElement) : list string :=
  unsupported_warning <$> List.filter (fun e => bool_decide (ty e = unknown)) es.

Lemma type_warnings_cons e es :
  type_warnings (e :: es) =
  (if bool_decide (ty e = unknown) then [unsupported_warning e] else []) ++ type_warnings es.
Proof. unfold type_warnings. simpl. by case_bool_decide. Qed.

Lemma add_index_ok fail p k es t :
  good_dir p = true -> in_directory p es -> (forall e, e ∈ es -> index t !! rp e = None) ->
  add_index fail p (alloc k es) t =
  (Ok tt, mkTree (topContent t) (path_index (alloc k es) ∪ index t) (topPath t) (opt t) (next t)
            (warnings t ++ type_warnings es)).
Proof.
  intros Hp [Hes Hnd]. revert k t. induction Hes as [|e es [Hn He] _ IH]; intros k t Hnew.
  - cbn [alloc add_index type_warnings]. unfold path_index. cbn. rewrite app_nil_r.
    by rewrite (left_id_L ∅ (∪)); destruct t.
  - rewrite fmap_cons, NoDup_cons in Hnd. destruct Hnd as [Hnew' Hnd].
    assert (Hpar : parent_path (rp e) = p) by (rewrite He; by apply parent_append).
    cbn [alloc add_index elem nid]. rewrite Hpar, path_eqb_refl. cbn [negb].
    unfold mbind, method_bind, get_state, set_index. rewrite Hnew by apply list_elem_of_here.
    rewrite type_warnings_cons. cbn [topContent index topPath opt next warnings].
    set (t2 := mkTree (topContent t) (<[rp e := k]> (index t)) (topPath t) (opt t) (next t)
      (warnings t ++ if bool_decide (ty e = unknown) then [unsupported_warning e] else [])).
    assert (Hstep : forall A (r : tree_method A),
      (let '(o, s) := (if bool_decide (ty e = unknown) then warn (unsupported_warning e) else mret tt)
          (mkTree (topContent t) (<[rp e := k]> (index t)) (topPath t) (opt t) (next t) (warnings t)) in
       match o with Ok _ => r s | Err x => (Err x, s) end) = r t2).
    { intros A r. unfold t2. case_bool_decide; unfold warn, mret, method_ret; [done|].
      by rewrite app_nil_r. }
    etransitivity; [|etransitivity; [apply (IH Hnd (S k) t2)|]].
    + rewrite <-Hstep. case_bool_decide; done.
    + intros e' He'. unfold t2. cbn [index]. rewrite lookup_insert_ne.
      * apply Hnew. by apply list_elem_of_further.
      * intros E. apply Hnew'. rewrite E. by apply list_elem_of_fmap_2.
    + unfold t2. cbn [topContent index topPath opt next warnings].
      rewrite <-app_assoc, path_index_cons, <-insert_union_l.
      change (path_index []) with (∅ : gmap path nat).
      rewrite (left_id_L ∅ (∪)), insert_union_r; [done|].
      apply path_index_None. by rewrite paths_alloc.
Qed.

Lemma node_in_index t i n :
  tree_inv t -> find_in i (topContent t) = Some n -> index t !! rp (elem n) = Some i.
Proof.
  intros Ht Hf. destruct (index t !! rp (elem n)) as [j|] eqn:E.
  - f_equal. by apply (inv_unique t Ht _ j i n E).
  - apply inv_lookup_None in E; [|done]. apply model_of_None in E. destruct E.
    apply find_in_entries in Hf. rewrite entries_forest in Hf.
    unfold paths. apply (list_elem_of_fmap_2 rp _ (elem n)), (list_elem_of_fmap_2 snd _ (nid n, elem n)), Hf.
    by apply list_elem_of_here.
Qed.

(** an empty directory of the tree has no entry *)
Lemma empty_dir_no_entry t i e name :
  tree_inv t -> find_in i (topContent t) = Some (mkNode i e []) -> good_path (rp e) = true ->
  good_name name = true -> model t !! (rp e // name) = None.
Proof.
  intros Ht Hf Hg Hn. destruct (model t !! (rp e // name)) as [x|] eqn:Hm; [exfalso|done].
  destruct (inv_model t Ht _ _ Hm) as (j & c & Hj & Hfj & Hx).
  pose proof Ht as (Hwf & Hids & _). 
  destruct (find_parent "" _ _ _ eq_refl Hwf Hids Hfj) as [[_ Hpar]|(j' & m & Hfm & Hin & Hm' & _)];
    cbn [elem] in *; rewrite Hx, parent_append in * by auto.
  - by apply (good_path_nonempty _ Hg).
  - pose proof (node_in_index t i _ Ht Hf) as Hi. cbn [elem] in Hi.
    assert (i = j') as <- by (by apply (inv_unique t Ht (rp e) i j' m)).
    rewrite Hf in Hfm. injection Hfm as <-. cbn [content] in Hin. by apply not_elem_of_nil in Hin.
Qed.

(** what loading keeps of a tree *)
Definition loads (t t' : DirectoryTree) (ws : list string) : Prop :=
  tree_inv t' /\ next t <= next t' /\ topPath t' = topPath t /\ opt t' = opt t /\
  warnings t' = warnings t ++ ws.

Lemma loads_refl t : tree_inv t -> loads t t [].
Proof. intros H. unfold loads. by rewrite app_nil_r. Qed.

Lemma loads_trans t1 t2 t3 w1 w2 : loads t1 t2 w1 -> loads t2 t3 w2 -> loads t1 t3 (w1 ++ w2).
Proof.
  intros (_ & N1 & P1 & O1 & W1) (I2 & N2 & P2 & O2 & W2). unfold loads.
  split_and!; [done|lia|congruence..|]. by rewrite W2, W1, app_assoc.
Qed.

Lemma load_group_top fail es t :
  tree_inv t -> topContent t = [] -> es <> [] -> in_directory "" es ->
  exists t', load_group fail es t = (Ok tt, t') /\ loads t t' (type_warnings es) /\
    topContent t' = alloc (next t) es /\ next t' = next t + length es.
Proof.
  intros Ht Htop Hne Hes. unfold load_group, add.
  destruct es as [|e es]; [done|]. cbn [alloc elem].
  assert (Hpar : parent_path (rp e) = "").
  { destruct Hes as [[[Hn ->] _]%Forall_cons _]. by apply parent_append. }
  rewrite Hpar. unfold mbind, method_bind, get_state.
  change (mkNode (next t) e [] :: alloc (S (next t)) es) with (alloc (next t) (e :: es)).
  assert (Hix : forall p, index t !! p = None).
  { intros p. destruct Ht as (_ & _ & _ & _ & ->). by rewrite Htop. }
  rewrite add_index_ok by (done || (intros; apply Hix)). cbn [topContent bump]. rewrite Htop.
  cbn [is_nil str_empty negb set_top index topPath opt next warnings]. eexists. split; [done|].
  cbn [topContent next]. split; [|done]. unfold loads. cbn [topPath opt next warnings].
  split; [|split_and!; done || (cbn [bump next]; lia)].
  destruct (forest_added t (alloc (next t) (e :: es)) (alloc (next t) (e :: es)) (length (e :: es))
    (warnings t ++ type_warnings (e :: es)) Ht) as [Hinv _]; [|by apply alloc_wf| | | |done].
  - by rewrite Htop, app_nil_r.
  - by rewrite ids_alloc.
  - rewrite paths_alloc. by destruct Hes.
  - intros p _. apply inv_lookup_None; auto.
Qed.

(** the tree with [c] as the content of the node [i] *)
Definition filled (t : DirectoryTree) (i : nat) (e : FilesystemElement) (c : list DirectoryNode)
    : list DirectoryNode := update_in i (fun _ => mkNode i e c) (topContent t).

Lemma load_group_dir fail es t i e :
  tree_inv t -> find_in i (topContent t) = Some (mkNode i e []) -> isDirectory e = true ->
  good_path (rp e) = true -> es <> [] -> in_directory (rp e) es ->
  exists t', load_group fail es t = (Ok tt, t') /\ loads t t' (type_warnings es) /\
    topContent t' = filled t i e (alloc (next t) es) /\ next t' = next t + length es.
Proof.
  intros Ht Hf Hdir Hg Hne Hes. pose proof Ht as (Hwf & Hids & _).
  assert (Hfresh : forall e', e' ∈ es -> model t !! rp e' = None).
  { intros e' He'. destruct Hes as [Hall _]. rewrite Forall_forall in Hall.
    destruct (Hall _ He') as [Hn ->]. by apply (empty_dir_no_entry t i). }
  assert (Hhere : index t !! rp e = Some i) by apply (node_in_index t i _ Ht Hf).
  pose proof (node_in_index t i _ Ht Hf) as Hroot. cbn [elem] in Hroot.
  set (w := warnings t ++ type_warnings es). set (ns := alloc (next t) es).
  destruct (forest_added t ns (filled t i e ns) (length es) w Ht) as [Hinv _].
  - destruct (update_in_frame _ _ _ Hids Hf) as (rest & Hold & Hnew).
    unfold filled. rewrite Hnew, Hold, !entries_forest. cbn [nid elem content]. solve_Permutation.
  - eapply update_in_wf; [done..|]. intros q. rewrite !forest_wf_node, !forest_wf_cons.
    intros (? & ? & _ & _ & ?). split_and!; [done..|by left|by apply alloc_wf|done].
  - unfold ns. by rewrite ids_alloc.
  - unfold ns. rewrite paths_alloc. by destruct Hes.
  - unfold ns. rewrite paths_alloc. intros p (e' & -> & He')%list_elem_of_fmap. auto.
  - assert (Hadd : load_group fail es t =
      (Ok tt, mkTree (filled t i e ns) (path_index ns ∪ index t) (topPath t) (opt t)
                (next t + length es) w)).
    { unfold load_group, add. fold ns. destruct es as [|e1 es]; [done|].
      unfold ns at 1. cbn [alloc elem].
      assert (Hpar : parent_path (rp e1) = rp e).
      { destruct Hes as [[[Hn ->] _]%Forall_cons _]. apply parent_append; auto. }
      rewrite Hpar. unfold mbind, method_bind, get_state, ns.
      change (mkNode (next t) e1 [] :: alloc (S (next t)) es) with (alloc (next t) (e1 :: es)).
      rewrite add_index_ok; [|auto|done|intros; apply (inv_lookup_None t Ht); auto].
      cbn [topContent bump index topPath opt next warnings].
      assert (is_nil (topContent t) = false) as -> by (by destruct (topContent t)).
      assert (Hp : (path_index (alloc (next t) (e1 :: es)) ∪ index t) !! rp e = Some i).
      { rewrite lookup_union, Hhere, (proj2 (path_index_None _ _)); [done|].
        rewrite paths_alloc. intros (e' & Ee & He')%list_elem_of_fmap.
        pose proof (Hfresh _ He') as Hn. rewrite <-Ee in Hn. apply inv_lookup_None in Hn; [|done].
        congruence. }
      rewrite Hp. unfold deref, lift_outcome, setDirectoryContent, mutate, set_top.
      cbn [topContent bump index topPath opt next warnings]. rewrite Hf.
      cbn [from_option_err content is_nil negb elem nid]. rewrite Hdir. cbn [cassert mbind outcome_bind].
      cbn [topContent]. rewrite Hf. done. }
    rewrite Hadd. eexists. split; [done|]. unfold loads.
    cbn [topContent topPath opt next warnings]. split_and!; done || lia.
Qed.

(** ** Filling the directories of a group *)

Lemma update_in_fill l i e c j f :
  j <> i -> j ∉ ids l ->
  update_in j f (update_in i (fun _ => mkNode i e c) l)
    = update_in i (fun _ => mkNode i e (update_in j f c)) l.
Proof.
  intros Hji. induction l as [|k e0 c0 l IHc IHl] using forest_ind; [done|].
  rewrite ids_cons. intros [Hk [Hc Hl]%not_elem_of_app]%not_elem_of_cons.
  rewrite !update_in_cons. case_bool_decide; rewrite update_in_cons, IHl by done.
  - by rewrite bool_decide_false.
  - by rewrite bool_decide_false, IHc.
Qed.

Lemma find_in_fill l i e c j n :
  j <> i -> j ∉ ids l -> NoDup (ids l) -> find_in i l = Some n ->
  find_in j (update_in i (fun _ => mkNode i e c) l) = find_in j c.
Proof.
  intros Hji. induction l as [|k e0 c0 l IHc IHl] using forest_ind; [done|].
  rewrite ids_cons. intros [Hk [Hc Hl]%not_elem_of_app]%not_elem_of_cons.
  intros [Hkc (Hnc & Hcl & Hnl)%NoDup_app]%NoDup_cons. rewrite find_in_cons, update_in_cons.
  case_bool_decide as Hik.
  - intros [= <-]. subst k. rewrite find_in_cons, bool_decide_false by done.
    rewrite (update_in_id i _ l) by (by apply not_elem_of_app in Hkc as [_ ?]).
    rewrite (proj2 (find_in_None j l)) by done. by destruct (find_in j c).
  - rewrite find_in_cons, bool_decide_false by done. destruct (find_in i c0) as [m|] eqn:Ec.
    + intros [= ->]. rewrite IHc by done. apply find_in_ids in Ec.
      rewrite (update_in_id i _ l) by auto. rewrite (proj2 (find_in_None j l)) by done.
      by destruct (find_in j c).
    + intros Hf. rewrite (update_in_id i _ c0) by (by apply find_in_None).
      rewrite (proj2 (find_in_None j c0)) by done. auto.
Qed.

(** mutating a node into itself *)
Lemma update_in_same l i n :
  NoDup (ids l) -> find_in i l = Some n -> update_in i (fun _ => n) l = l.
Proof.
  induction l as [|k e c l IHc IHl] using forest_ind; [done|].
  rewrite ids_cons, find_in_cons, update_in_cons.
  intros [Hkc (Hnc & Hcl & Hnl)%NoDup_app]%NoDup_cons. case_bool_decide as Hik.
  - intros [= <-]. subst k. by rewrite update_in_id by (by apply not_elem_of_app in Hkc as [_ ?]).
  - destruct (find_in i c) as [m|] eqn:Ec.
    + intros [= ->]. rewrite IHc by done. apply find_in_ids in Ec. by rewrite update_in_id by auto.
    + intros Hf. rewrite (update_in_id i _ c) by (by apply find_in_None). by rewrite IHl.
Qed.

(** a place of the tree that holds a list of nodes, reached by identities from [b] on *)
Definition place (b : nat) (K : list DirectoryNode -> list DirectoryNode) : Prop :=
  forall j l, b <= j ->
    find_in j (K l) = find_in j l /\ forall f, update_in j f (K l) = K (update_in j f l).

Lemma place_top : place 0 (fun l => l).
Proof. done. Qed.

Lemma place_filled t i e n :
  tree_inv t -> find_in i (topContent t) = Some n -> place (next t) (filled t i e).
Proof.
  intros (_ & Hids & Hnext & _) Hf j l Hj. rewrite Forall_forall in Hnext.
  assert (j <> i) by (apply find_in_ids, Hnext in Hf; simpl in *; lia).
  assert (j ∉ ids (topContent t)) by (intros Hin%Hnext; simpl in *; lia). unfold filled. split.
  - by eapply find_in_fill.
  - intros f. by apply update_in_fill.
Qed.

(** a node without its identities *)
Fixpoint erase (f : FilesystemElement -> FilesystemElement) (n : DirectoryNode) : DirectoryNode :=
  match n with
  | mkNode _ e c => mkNode 0 (f e) (map (erase f) c)
  end.

Lemma find_in_skip i l k : i ∉ ids l -> find_in i (l ++ k) = find_in i k.
Proof.
  induction l as [|n l IH]; [done|]. change (n :: l) with ([n] ++ l). rewrite ids_app.
  intros [Hn Hl]%not_elem_of_app. apply find_in_None in Hn. cbn [find_in app] in *.
  destruct (find_node i n); [done|]. auto.
Qed.

Definition group_warnings (gs : list (list FilesystemElement)) : list string :=
  flat_map type_warnings gs.

Definition as_read_groups : list (list FilesystemElement) -> list (list FilesystemElement) :=
  map (map as_read).

(** the content of a directory of the written tree *)
Definition dir_content (p : path) (l : list DirectoryNode) : Prop :=
  good_dir p = true /\ forest_wf p l = true /\ NoDup (paths l).

Lemma dir_content_cons p i e c l :
  dir_content p (mkNode i e c :: l) ->
  good_path (rp e) = true /\ (isDirectory e = true \/ c = []) /\ dir_content (rp e) c /\ dir_content p l.
Proof.
  intros (Hp & Hwf & Hnd). rewrite paths_cons in Hnd.
  apply NoDup_cons in Hnd as [_ (Hc & _ & Hl)%NoDup_app].
  pose proof Hwf as (Hn & He & Hd & Hwc & Hwl)%forest_wf_cons.
  assert (good_path (rp e) = true) by (rewrite He; auto). unfold dir_content. auto 10.
Qed.

Lemma isDirectory_as_read e : isDirectory (as_read e) = isDirectory e.
Proof. unfold isDirectory, as_read. cbn [ty]. by destruct (ty e). Qed.

Lemma dir_content_elems p l :
  dir_content p l -> in_directory p (map as_read (map elem l)).
Proof.
  intros (Hp & Hwf & Hnd). split.
  - apply forallb_Forall' in Hwf. apply Forall_map, Forall_map.
    eapply Forall_impl; [exact Hwf|]. intros [i e c] Hn%forest_wf_node%forest_wf_cons. cbn [elem].
    by destruct Hn as (? & ? & _).
  - apply children_nodup in Hnd. rewrite map_map.
    rewrite <-list_fmap_compose. exact Hnd.
Qed.

(** loading the groups of the content of [n] into the node [i], still empty *)
Definition loads_node (n : DirectoryNode) : Prop :=
  forall fail t i p, let e := as_read (elem n) in
  tree_inv t -> find_in i (topContent t) = Some (mkNode i e []) -> dir_content p [n] ->
  exists t' c', load_groups fail (as_read_groups (node_groups n)) t = (Ok tt, t') /\
    loads t t' (group_warnings (as_read_groups (node_groups n))) /\
    topContent t' = filled t i e c' /\ map (erase id) c' = map (erase as_read) (content n) /\
    Forall (fun j => next t <= j) (ids c').

Lemma load_children fail cs : Forall loads_node cs -> forall p b K past k t,
  dir_content p cs -> place b K -> b <= k -> tree_inv t -> k + length cs <= next t ->
  topContent t = K (past ++ alloc k (map as_read (map elem cs))) ->
  Forall (fun j => j < k \/ k + length cs <= j) (ids past) ->
  exists t' cs', load_groups fail (as_read_groups (flat_map node_groups cs)) t = (Ok tt, t') /\
    loads t t' (group_warnings (as_read_groups (flat_map node_groups cs))) /\
    topContent t' = K (past ++ cs') /\ map (erase id) cs' = map (erase as_read) cs /\
    Forall (fun j => k <= j) (ids cs').
Proof.
  induction 1 as [|[i e c] cs Hn _ IH]; intros p b K past k t Hdir HK Hb Ht Hk Htop Hpast.
  { exists t, []. split; [done|]. split; [by apply loads_refl|]. done. }
  cbn [map elem alloc length] in Htop, Hk, Hpast.
  assert (Hkp : k ∉ ids past) by (rewrite Forall_forall in Hpast; intros Hin%Hpast; lia).
  destruct (HK k (past ++ mkNode k (as_read e) [] :: alloc (S k) (map as_read (map elem cs))))
    as [Hfind Hupd]; [done|].
  rewrite find_in_skip, find_in_cons, bool_decide_true in Hfind by done.
  destruct (Hn fail t k p) as (t1 & c1 & E1 & L1 & T1 & S1 & F1).
  { done. } { by rewrite Htop. }
  { destruct Hdir as (? & Hwf & Hnd). split_and!; [done| |].
    - by apply (forest_wf_app p [_] cs) in Hwf as [? _].
    - rewrite paths_cons in Hnd |- *. rewrite app_nil_r. apply NoDup_cons in Hnd as [Hn1 Hn2].
      apply NoDup_app in Hn2 as [? _]. apply NoDup_cons. split; [|done].
      by apply not_elem_of_app in Hn1 as [? _]. }
  apply dir_content_cons in Hdir as (_ & _ & _ & Hdir). cbn [elem content] in *.
  assert (Hrest : k ∉ ids (alloc (S k) (map as_read (map elem cs)))).
  { rewrite ids_alloc. intros Hin%elem_of_seq. lia. }
  unfold filled in T1. rewrite Htop, Hupd, update_in_app, update_in_cons, bool_decide_true in T1 by done.
  rewrite !update_in_id in T1 by done. rewrite cons_middle, app_assoc in T1.
  pose proof L1 as (Ht1 & Hnext & _).
  destruct (IH p b K (past ++ [mkNode k (as_read e) c1]) (S k) t1) as (t' & cs' & E2 & L2 & T2 & S2 & F2);
    [done|done|lia|done|lia|done| |].
  { rewrite ids_app, ids_cons, app_nil_r. apply Forall_app. split.
    - eapply Forall_impl; [exact Hpast|]. intros; simpl in *; lia.
    - constructor; [lia|]. eapply Forall_impl; [exact F1|]. intros; simpl in *; lia. }
  exists t', (mkNode k (as_read e) c1 :: cs'). unfold as_read_groups in *. cbn [flat_map].
  rewrite map_app, (load_groups_app _ _ _ _ _ E1). split; [done|]. split.
  { unfold group_warnings in *. rewrite flat_map_app. by eapply loads_trans. }
  split; [by rewrite T2, <-app_assoc|]. split.
  - cbn [map erase]. unfold id at 1. by rewrite S1, S2.
  - rewrite ids_cons. constructor; [lia|]. apply Forall_app.
    split; (eapply Forall_impl; [eassumption|]); intros; simpl in *; lia.
Qed.

Lemma load_node n : loads_node n.
Proof.
  induction n as [i0 e c IH] using node_ind'. intros fail t i p e' Ht Hf Hdir.
  apply dir_content_cons in Hdir as (Hg & Hd & Hc & _). cbn [elem content node_groups] in *.
  destruct c as [|m c2] eqn:Ec.
  { exists t, []. split; [done|]. split; [by apply loads_refl|]. split; [|done].
    unfold filled. symmetry. apply update_in_same; [by destruct Ht as (_ & ? & _)|done]. }
  rewrite <-Ec in *. destruct Hd as [Hd|]; [|congruence].
  destruct (load_group_dir fail (map as_read (map elem c)) t i e') as (t1 & E1 & L1 & T1 & N1);
    [done|done|by unfold e'; rewrite isDirectory_as_read|done|by rewrite Ec|by apply dir_content_elems|].
  pose proof L1 as (Ht1 & _).
  destruct (load_children fail c IH (rp e) (next t) (filled t i e') [] (next t) t1)
    as (t' & cs' & E2 & L2 & T2 & S2 & F2); [done|by eapply place_filled|done|done| |done|constructor|].
  { rewrite N1, !length_map. lia. }
  exists t', cs'. assert (flush (elem <$> c) = [map elem c]) as Hfl by (by rewrite Ec).
  rewrite Hfl. unfold as_read_groups in *. cbn [app map]. rewrite (load_groups_cons _ _ _ _ _ E1).
  split; [done|]. split; [|done]. unfold group_warnings. cbn [flat_map]. by eapply loads_trans.
Qed.

(** The groups of a forest, loaded into an empty tree, give back the forest. *)
Lemma load_forest fail l t :
  tree_inv t -> topContent t = [] -> dir_content "" l ->
  exists t', load_groups fail (as_read_groups (forest_groups l)) t = (Ok tt, t') /\
    loads t t' (group_warnings (as_read_groups (forest_groups l))) /\
    map (erase id) (topContent t') = map (erase as_read) l.
Proof.
  intros Ht Htop Hdir. unfold forest_groups. destruct l as [|m c] eqn:Ec.
  { exists t. split; [done|]. split; [by apply loads_refl|]. by rewrite Htop. }
  rewrite <-Ec in *.
  destruct (load_group_top fail (map as_read (map elem l)) t) as (t1 & E1 & L1 & T1 & N1);
    [done|done|by rewrite Ec|by apply dir_content_elems|]. pose proof L1 as (Ht1 & _).
  destruct (load_children fail l (Forall_true _ _ load_node) "" 0 (fun l => l) [] (next t) t1)
    as (t' & cs' & E2 & L2 & T2 & S2 & F2); [done|by apply place_top|lia|done| |done|constructor|].
  { rewrite N1, !length_map. lia. }
  exists t'. assert (flush (elem <$> l) = [map elem l]) as Hfl by (by rewrite Ec).
  rewrite Hfl. unfold as_read_groups in *. cbn [app map]. rewrite (load_groups_cons _ _ _ _ _ E1).
  split; [done|]. rewrite T2. split; [|done].
  unfold group_warnings. cbn [flat_map]. by eapply loads_trans.
Qed.

(** ** Round trip *)

(** the elements of a tree, in the order of the metadata file of its nodes *)
Definition elements_of (l : list DirectoryNode) : list FilesystemElement := (forest l).*2.

Lemma elements_erase f l : elements_of (map (erase f) l) = f <$> elements_of l.
Proof.
  unfold elements_of. induction l as [|i e c l IHc IHl] using forest_ind; [done|].
  cbn [map erase]. rewrite !forest_cons, !fmap_cons, !fmap_app. by rewrite IHc, IHl.
Qed.

Lemma model_of_elements l : model_of l = list_to_map ((fun e => (rp e, e)) <$> elements_of l).
Proof. unfold model_of, elements_of. by rewrite <-list_fmap_compose. Qed.

Lemma model_as_read l :
  list_to_map ((fun e => (rp e, e)) <$> (as_read <$> elements_of l)) = as_read <$> model_of l.
Proof.
  rewrite model_of_elements, <-list_to_map_fmap, <-!list_fmap_compose. done.
Qed.

Lemma sorted_erase f l :
  (forall e, isDirectory (f e) = isDirectory e /\ rp (f e) = rp e) ->
  forest_sorted (map (erase f) l) <-> forest_sorted l.
Proof.
  intros Hf. assert (Hkey : forall n, same_key (erase f n) n).
  { intros [i e c]. unfold same_key. apply Hf. }
  assert (Hlist : forall k, sorted (map (erase f) k) <-> sorted k).
  { intros k. unfold sorted. induction k as [|n k IH]; simpl; [done|].
    rewrite !StronglySorted_cons, IH, Forall_map. f_equiv. apply Forall_iff. intros m.
    unfold in_order, compose. by rewrite (node_ltb_key _ m _ n). }
  unfold forest_sorted. rewrite Hlist. f_equiv.
  induction l as [|i e c l IHc IHl] using forest_ind; [done|].
  cbn [map erase forallb sorted_below]. rewrite !andb_true_iff, !bool_decide_eq_true, Hlist.
  by rewrite IHc, IHl.
Qed.

Lemma forest_writable l :
  forallb sorted_below l = true -> Forall (fun e => file_wf e = true) (elements_of l) ->
  forall p, forest_wf p l = true -> forallb writable l = true.
Proof.
  unfold elements_of. induction l as [|i e c l IHc IHl] using forest_ind; [done|].
  cbn [forallb sorted_below]. rewrite forest_cons, fmap_cons, fmap_app, Forall_cons, Forall_app.
  intros Hs (He & Hc & Hl) p (Hn & Hp & Hd & Hwc & Hwl)%forest_wf_cons. cbn [snd] in He.
  split_andb; [cbn [writable]; split_andb; [done| |done|by eauto]|by eauto].
  destruct Hd as [->| ->]; [done|by rewrite orb_true_r].
Qed.

Lemma cleared_inv t : tree_inv (mkTree [] ∅ None (opt t) (next t) (warnings t)).
Proof. split_and!; cbn [topContent]; done || constructor. Qed.

Lemma read_written t :
  tree_inv t -> tree_sorted t -> Forall (fun e => file_wf e = true) (elements_of (topContent t)) ->
  exists text, tree_writeTo t = Ok text /\ forall file t0, exists t',
    tree_readFrom text file t0 = (Ok tt, t') /\
    map (erase id) (topContent t') = map (erase as_read) (topContent t) /\
    tree_inv t' /\ topPath t' = None /\ opt t' = opt t0 /\
    warnings t' = warnings t0 ++ group_warnings (as_read_groups (forest_groups (topContent t))).
Proof.
  intros Ht [Hs Hsb] Hwf. pose proof Ht as (Hfw & _ & _ & Hpaths & _).
  destruct (tree_writeTo_groups t Hs) as (evs & E & Hg & Hev); [by eapply forest_writable|].
  exists (text_of evs). split; [done|]. intros file t0.
  set (t1 := mkTree [] ∅ None (opt t0) (next t0) (warnings t0)).
  destruct (load_forest Throw (topContent t) t1) as (t' & El & (Hinv & _ & Hp & Ho & Hw) & Her);
    [apply cleared_inv|done|done|].
  exists t'. split_and!; [|done..]. unfold tree_readFrom, mbind, method_bind, clear. fold t1.
  rewrite getlines_text.
  - rewrite <-(bump_0 t1). apply (read_lines_groups Throw file evs [] 0%Z t1 t' Hev).
    by rewrite Hg.
  - eapply Forall_impl; [exact Hev|]. intros [e|] He; [by apply line_one_line|done].
Qed.

Lemma erased_model l l' :
  map (erase id) l' = map (erase as_read) l ->
  model_of l' = as_read <$> model_of l /\ (forest_sorted l -> forest_sorted l').
Proof.
  intros E. split.
  - rewrite <-model_as_read, <-elements_erase, <-E, elements_erase, list_fmap_id.
    apply model_of_elements.
  - intros Hs. apply (sorted_erase id); [done|]. rewrite E. apply sorted_erase; [|done].
    intros e. by rewrite isDirectory_as_read.
Qed.

(** ** Properties of all elements *)

Abbreviation every Q m := (map_Forall (fun (_ : path) e => Q e) m).

Lemma every_alter (Q : FilesystemElement -> Prop) f p (m : gmap path FilesystemElement) :
  (forall e, Q e -> Q (f e)) -> every Q m -> every Q (alter f p m).
Proof.
  intros Hf Hm q e. rewrite lookup_alter. case_decide; [|apply Hm]. subst q.
  intros (e0 & E & ->)%fmap_Some_1. by apply Hf, (Hm p).
Qed.

Lemma every_elements (Q : FilesystemElement -> Prop) t :
  tree_inv t -> every Q (model t) -> Forall Q (elements_of (topContent t)).
Proof.
  intros (_ & _ & _ & Hp & _) Hk. apply Forall_forall. intros e He.
  unfold elements_of in He. apply list_elem_of_fmap in He as ([i e'] & -> & Hin).
  apply (Hk (rp e')). apply model_of_lookup; eauto.
Qed.

Lemma elements_every (Q : FilesystemElement -> Prop) t : Forall Q (elements_of (topContent t)) -> every Q (model t).
Proof.
  intros H q e. unfold model. rewrite model_of_elements. intros Hq%elem_of_list_to_map_2.
  apply list_elem_of_fmap in Hq as (e' & [= -> ->] & Hin). rewrite Forall_forall in H. by apply H.
Qed.
