(* ===== verification/TreeHash.v ===== *)
(** * computeMissingHashes (src/core.cpp)

    The hashes are computed in the order of the nodes; the first that fails
    ends the loop, and the hashes computed before it stay. *)

From S2P Require Import Prelude CxxPath CxxTime CxxStream Element Node Tree TreeInv TreeOps TreeCopy TreeIO TreeLoad.

Section hashes.
Context (hashFile : path -> outcome string) (top : path).

(** the loop body on an element with its identity *)
Definition hash_entry (x : nat * FilesystemElement) : outcome unit * (nat * FilesystemElement) :=
  match computeHashIfNeeded hashFile top x.2 with
  | Ok e' => (Ok tt, (x.1, e'))
  | Err err => (Err err, x)
  end.

Lemma mutate_each_app {A} (f : A -> outcome unit * A) l k :
  mutate_each f (l ++ k) =
  let '(r, l') := mutate_each f l in
  match r with
  | Ok _ => let '(r', k') := mutate_each f k in (r', l' ++ k')
  | Err err => (Err err, l' ++ k)
  end.
Proof.
  induction l as [|x l IH]; cbn [app mutate_each].
  - by destruct (mutate_each f k).
  - destruct (f x) as [[[]|err] x']; [|done]. rewrite IH.
    destruct (mutate_each f l) as [[[]|err] l']; [|done]. by destruct (mutate_each f k).
Qed.

(** the recursion over the nodes is the loop over the entries *)
Lemma hashes_entries l r l' :
  mutate_each (node_computeMissingHashes hashFile top) l = (r, l') ->
  mutate_each hash_entry (forest l) = (r, forest l').
Proof.
  revert r l'. induction l as [|i e c l IHc IHl] using forest_ind; intros r l'; [by intros [= <- <-]|].
  rewrite forest_cons. cbn [mutate_each node_computeMissingHashes]. unfold hash_entry at 1. cbn [fst snd].
  destruct (computeHashIfNeeded hashFile top e) as [e'|err]; [|by intros [= <- <-]].
  destruct (mutate_each _ c) as [rc c'] eqn:Ec. specialize (IHc _ _ eq_refl).
  rewrite mutate_each_app, IHc. destruct rc as [[]|err]; [|by intros [= <- <-]].
  destruct (mutate_each _ l) as [rl l''] eqn:El. intros [= <- <-].
  by rewrite (IHl _ _ eq_refl), forest_cons.
Qed.

(** what the loop leaves of the shape of the forest *)
Definition key_of (e : FilesystemElement) : FilesystemElement :=
  mkElem (ty e) 0 "" "" 0 0 "" (rp e) "" 0.

Lemma computeHashIfNeeded_key e e' :
  computeHashIfNeeded hashFile top e = Ok e' -> key_of e' = key_of e.
Proof.
  unfold computeHashIfNeeded. intros H. case_match; [by injection H as <-|].
  destruct (hashFile _) as [h|]; [|done]. by injection H as <-.
Qed.

Fixpoint rekey (n : DirectoryNode) : DirectoryNode :=
  match n with
  | mkNode i e c => mkNode i (key_of e) (map rekey c)
  end.

Lemma hashes_rekey l r l' :
  mutate_each (node_computeMissingHashes hashFile top) l = (r, l') -> map rekey l' = map rekey l.
Proof.
  revert r l'. induction l as [|i e c l IHc IHl] using forest_ind; intros r l'; [by intros [= <- <-]|].
  cbn [mutate_each node_computeMissingHashes].
  destruct (computeHashIfNeeded hashFile top e) as [e'|err] eqn:Ee; [|by intros [= <- <-]].
  apply computeHashIfNeeded_key in Ee.
  destruct (mutate_each _ c) as [rc c'] eqn:Ec. specialize (IHc _ _ eq_refl).
  destruct rc as [[]|err]; cycle 1.
  { intros [= <- <-]. cbn [map rekey]. by rewrite Ee, IHc. }
  destruct (mutate_each _ l) as [rl l''] eqn:El. intros [= <- <-].
  cbn [map rekey]. by rewrite Ee, IHc, (IHl _ _ eq_refl).
Qed.
End hashes.

(** ** The invariant depends on the keys only *)

Lemma forest_rekey l : forest (map rekey l) = (fun x => (x.1, key_of x.2)) <$> forest l.
Proof.
  induction l as [|i e c l IHc IHl] using forest_ind; [done|].
  cbn [map rekey]. rewrite !forest_cons, fmap_cons, fmap_app. by rewrite IHc, IHl.
Qed.

Lemma forest_wf_rekey par l : forest_wf par (map rekey l) = forest_wf par l.
Proof.
  revert par. induction l as [|i e c l IHc IHl] using forest_ind; intros par; [done|].
  unfold forest_wf in *. cbn [map rekey forallb node_wf key_of rp].
  rewrite IHc, IHl. by destruct c.
Qed.

Lemma sorted_rekey l : forest_sorted (map rekey l) <-> forest_sorted l.
Proof.
  assert (Hkey : forall n, same_key (rekey n) n) by (by intros [i e c]).
  assert (Hlist : forall k, sorted (map rekey k) <-> sorted k).
  { intros k. unfold sorted. induction k as [|n k IH]; simpl; [done|].
    rewrite !StronglySorted_cons, IH, Forall_map. f_equiv. apply Forall_iff. intros m.
    unfold in_order, compose. by rewrite (node_ltb_key _ m _ n). }
  unfold forest_sorted. rewrite Hlist. f_equiv.
  induction l as [|i e c l IHc IHl] using forest_ind; [done|].
  cbn [map rekey forallb sorted_below]. rewrite !andb_true_iff, !bool_decide_eq_true, Hlist.
  by rewrite IHc, IHl.
Qed.

Lemma ids_rekey l : ids (map rekey l) = ids l.
Proof. unfold ids. by rewrite forest_rekey, <-list_fmap_compose. Qed.

Lemma paths_rekey l : paths (map rekey l) = paths l.
Proof. unfold paths. by rewrite forest_rekey, <-!list_fmap_compose. Qed.

Lemma path_index_rekey l : path_index (map rekey l) = path_index l.
Proof. unfold path_index. by rewrite forest_rekey, <-!list_fmap_compose. Qed.

(** a tree whose nodes changed, but not their keys *)
Lemma same_keys_inv t l' :
  tree_inv t -> map rekey l' = map rekey (topContent t) ->
  tree_inv (mkTree l' (index t) (topPath t) (opt t) (next t) (warnings t)) /\
  (tree_sorted t -> forest_sorted l').
Proof.
  intros (Hwf & Hids & Hnext & Hpaths & Hix) E. split.
  - split_and!; cbn [topContent index next].
    + by rewrite <-forest_wf_rekey, E, forest_wf_rekey.
    + by rewrite <-ids_rekey, E, ids_rekey.
    + by rewrite <-ids_rekey, E, ids_rekey.
    + by rewrite <-paths_rekey, E, paths_rekey.
    + by rewrite <-(path_index_rekey l'), E, path_index_rekey.
  - intros Hs. by apply sorted_rekey; rewrite E; apply sorted_rekey.
Qed.

(** ** The specification *)

(** an element after its hash was computed, if one was missing and can be had *)
Definition with_hash (hashFile : path -> outcome string) (top : path) (e : FilesystemElement)
    : FilesystemElement :=
  match computeHashIfNeeded hashFile top e with Ok e' => e' | Err _ => e end.

Lemma hash_entries_ok hashFile top es es' :
  mutate_each (hash_entry hashFile top) es = (Ok tt, es') ->
  es' = (fun x => (x.1, with_hash hashFile top x.2)) <$> es.
Proof.
  revert es'. induction es as [|x es IH]; intros es'; [by intros [= <-]|].
  cbn [mutate_each]. unfold hash_entry at 1, with_hash.
  destruct (computeHashIfNeeded _ _ _) as [e'|] eqn:E; [|done].
  destruct (mutate_each _ es) as [r es1] eqn:Er. intros [= -> <-].
  rewrite fmap_cons, (IH _ eq_refl), E. done.
Qed.

(** a failure comes from an entry, those before it are done and those after untouched *)
Lemma hash_entries_err hashFile top es es' err :
  mutate_each (hash_entry hashFile top) es = (Err err, es') ->
  exists pre x post, es = pre ++ x :: post /\ computeHashIfNeeded hashFile top x.2 = Err err /\
    es' = ((fun x => (x.1, with_hash hashFile top x.2)) <$> pre) ++ x :: post.
Proof.
  revert es'. induction es as [|x es IH]; intros es'; [done|].
  cbn [mutate_each]. unfold hash_entry at 1.
  destruct (computeHashIfNeeded _ _ _) as [e'|err'] eqn:E.
  - destruct (mutate_each _ es) as [r es1] eqn:Er. intros [= -> <-].
    destruct (IH _ eq_refl) as (pre & y & post & -> & Hy & ->). exists (x :: pre), y, post.
    split_and!; [done|done|]. rewrite fmap_cons. unfold with_hash at 2. by rewrite E.
  - intros [= -> <-]. by exists [], x, es.
Qed.

Lemma computeMissingHashes_run hashFile t top r t' :
  topPath t = Some top -> tree_inv t -> computeMissingHashes hashFile t = (r, t') ->
  tree_inv t' /\ (tree_sorted t -> tree_sorted t') /\ same_fields t t' /\
  mutate_each (hash_entry hashFile top) (forest (topContent t)) = (r, forest (topContent t')).
Proof.
  intros Htop Ht. unfold computeMissingHashes, checkTopPath, hashAllMissing, mbind, method_bind.
  rewrite Htop. cbn beta iota. rewrite Htop. destruct (mutate_each _ (topContent t)) as [r0 c] eqn:E. intros [= -> <-].
  destruct (same_keys_inv t c Ht) as [Hinv Hs]; [by eapply hashes_rekey|]. rewrite Htop in Hinv.
  split; [done|]. split; [done|]. split; [done|]. by apply hashes_entries.
Qed.

Lemma with_hash_rp hashFile top e : rp (with_hash hashFile top e) = rp e.
Proof.
  unfold with_hash. destruct (computeHashIfNeeded hashFile top e) eqn:E; [|done].
  apply computeHashIfNeeded_key in E. by injection E.
Qed.

(** Success: every element got the hash it missed. *)
Lemma computeMissingHashes_ok hashFile t top t' :
  topPath t = Some top -> tree_inv t -> computeMissingHashes hashFile t = (Ok tt, t') ->
  model t' = with_hash hashFile top <$> model t.
Proof.
  intros Htop Ht E. destruct (computeMissingHashes_run _ _ _ _ _ Htop Ht E) as (_ & _ & _ & Hm).
  apply hash_entries_ok in Hm. unfold model, model_of. rewrite Hm, <-list_to_map_fmap, <-!list_fmap_compose.
  f_equal. apply list_fmap_ext. intros i [j e] _. unfold compose, path_elem. cbn. by rewrite with_hash_rp.
Qed.

(** the first hash that fails *)
Lemma computeMissingHashes_failed hashFile t top err t' :
  topPath t = Some top -> tree_inv t -> computeMissingHashes hashFile t = (Err err, t') ->
  tree_inv t' /\
  exists done_ e rest, elements_of (topContent t) = done_ ++ e :: rest /\
    ty e = regular /\ fileHash e = "" /\ hashFile (top // rp e) = Err err /\
    elements_of (topContent t') = (with_hash hashFile top <$> done_) ++ e :: rest.
Proof.
  intros Htop Ht E. destruct (computeMissingHashes_run _ _ _ _ _ Htop Ht E) as (Hinv & _ & _ & Hm).
  split; [done|]. apply hash_entries_err in Hm as (pre & x & post & El & Hx & El').
  exists pre.*2, x.2, post.*2. unfold elements_of. rewrite El, El', !fmap_app, !fmap_cons.
  unfold computeHashIfNeeded in Hx. destruct (negb _ || negb _) eqn:Hc; [done|].
  apply orb_false_iff in Hc as [Hty%negb_false_iff%bool_decide_eq_true_1 Hfh%negb_false_iff%str_empty_true].
  destruct (hashFile _) as [h|err'] eqn:Eh; [done|]. injection Hx as ->.
  split_and!; [done..|]. by rewrite <-!list_fmap_compose.
Qed.

(** Every file that misses a hash can be hashed: the call succeeds. *)
Lemma computeMissingHashes_total hashFile t top :
  topPath t = Some top -> tree_inv t ->
  every (fun e => ty e = regular -> fileHash e = "" -> exists h, hashFile (top // rp e) = Ok h) (model t) ->
  exists t', computeMissingHashes hashFile t = (Ok tt, t').
Proof.
  intros Htop Ht Hh%every_elements; [|done]. destruct (computeMissingHashes hashFile t) as [r t'] eqn:E.
  destruct r as [[]|err]; [by eexists|].
  destruct (computeMissingHashes_failed _ _ _ _ _ Htop Ht E) as (_ & pre & e & post & El & Hr & Hn & He & _).
  rewrite El in Hh. apply Forall_app in Hh as [_ [Hh _]%Forall_cons]. destruct (Hh Hr Hn). congruence.
Qed.

(** the hashes that were missing are those of the files *)
Lemma computeMissingHashes_spec hashFile t top :
  topPath t = Some top -> tree_inv t ->
  (forall p e, model t !! p = Some e -> ty e = regular -> fileHash e = "" -> exists h, hashFile (top // p) = Ok h) ->
  exists t', computeMissingHashes hashFile t = (Ok tt, t') /\ tree_inv t' /\
    (tree_sorted t -> tree_sorted t') /\ same_fields t t' /\
    (forall p e, model t !! p = Some e ->
       (ty e = regular -> fileHash e = "" -> exists h, hashFile (top // p) = Ok h /\
          model t' !! p = Some (setHash h e)) /\
       (ty e <> regular \/ fileHash e <> "" -> model t' !! p = Some e)) /\
    dom (model t') = dom (model t).
Proof.
  intros Htop Ht Hh.
  assert (Hrp : forall p e, model t !! p = Some e -> rp e = p)
    by (intros p e He; by destruct (inv_model t Ht p e He) as (_ & _ & _ & _ & ?)).
  destruct (computeMissingHashes_total hashFile t top Htop Ht) as [t' E].
  { intros p e He. rewrite (Hrp p e He). by apply Hh. }
  exists t'. split; [done|].
  destruct (computeMissingHashes_run _ _ _ _ _ Htop Ht E) as (Hinv & Hs & Hf & _).
  pose proof (computeMissingHashes_ok _ _ _ _ Htop Ht E) as Hm.
  split; [done|]. split; [done|]. split; [done|]. split; [|by rewrite Hm, dom_fmap_L].
  intros p e Hp. rewrite Hm, lookup_fmap, Hp. cbn [fmap option_fmap option_map]. unfold with_hash, computeHashIfNeeded.
  rewrite (Hrp p e Hp). split.
  - intros Hr He. destruct (Hh p e Hp Hr He) as [h Hh']. rewrite Hr, He, bool_decide_true by done. cbn [negb orb str_empty].
    exists h. by rewrite Hh'.
  - intros [Hr|He%str_empty_false]; [by rewrite bool_decide_false|]. by rewrite He, orb_true_r.
Qed.
