(* ===== verification/TreeSymlink.v ===== *)
(** * addSymlinkToTree (src/core.cpp)

    The link gets into the tree, but not into the index. *)

From S2P Require Import Prelude CxxPath CxxTime CxxStream Element Node Tree TreeInv TreeOps TreeCopy.

(** the directory of [p] is the top directory or a directory of the tree *)
Definition has_parent_dir (t : DirectoryTree) (p : path) : Prop :=
  parent_path p = "" \/ exists de, model t !! parent_path p = Some de /\ isDirectory de = true.

(** one new node, in the content but not in the index *)
Lemma unindexed_added t n l' :
  tree_inv t -> nid n = next t -> content n = [] -> model t !! rp (elem n) = None ->
  forest l' ≡ₚ entries n ++ forest (topContent t) -> forest_wf "" l' = true ->
  model_of l' = <[rp (elem n) := elem n]> (model t).
Proof.
  intros Ht Hid Hc Hnew Hperm Hwf.
  assert (Hf : forest [n] = [(next t, elem n)]).
  { rewrite entries_single, entries_forest, Hid, Hc. done. }
  destruct (forest_added t [n] l' 1 [] Ht) as [_ Hm]; [|done|..].
  - by rewrite entries_single.
  - unfold ids. by rewrite Hf.
  - unfold paths. rewrite Hf. apply NoDup_singleton.
  - unfold paths. rewrite Hf. intros p Hp. apply list_elem_of_singleton in Hp as ->. done.
  - unfold model in Hm at 1. cbn [topContent] in Hm. rewrite Hm. unfold model_of. rewrite Hf.
    cbn [fmap list_fmap list_to_map path_elem fst snd foldr curry]. cbn.
    by rewrite insert_empty, <-insert_union_singleton_l.
Qed.

Lemma moved_same d e :
  good_path (rp e) = true -> comps d `prefix_of` comps (rp e) -> moved d d e = e.
Proof.
  intros Hg Hp. unfold moved. rewrite reloc_same by done. by destruct e.
Qed.

(** a copy of a node without content is that element alone *)
Lemma copy_single d k i e n' :
  good_path (rp e) = true -> comps d `prefix_of` comps (rp e) ->
  copy_forest d d k [mkNode i e []] [n'] -> elem n' = e /\ content n' = [].
Proof.
  intros Hg Hp (_ & _ & Hids & He). rewrite entries_single, entries_forest in He. cbn in He.
  rewrite moved_same in He by done. apply Permutation_singleton_r in He. injection He as -> Hnil.
  split; [done|]. destruct (content n') as [|[j x c] l]; [done|]. by rewrite forest_cons in Hnil.
Qed.

(** The link becomes an element of the tree, that [search] does not find. *)
Lemma addSymlinkToTree_unindexed t link :
  tree_inv t -> ty link = symlink_ -> good_path (rp link) = true -> model t !! rp link = None ->
  has_parent_dir t (rp link) ->
  exists t', addSymlinkToTree link t = (Ok tt, t') /\
    model t' = <[rp link := link]> (model t) /\ index t' = index t.
Proof.
  intros Ht Hty Hg Hnew Hpar. pose proof Ht as (Hwf & Hids & _).
  pose proof (parent_filename _ Hg) as Hpf. pose proof (filename_good _ Hg) as Hname.
  assert (Hlw : node_wf (parent_path (rp link)) (mkNode (next t) link []) = true).
  { apply forest_wf_node, forest_wf_cons. split_and!; [done|by rewrite Hpf|by right|done|done]. }
  unfold addSymlinkToTree. rewrite bool_decide_true by done. unfold cassert, mbind, method_bind, lift_outcome,
    get_state. destruct Hpar as [Htop|(de & Hde & Hd)].
  - rewrite Htop. cbn [str_empty]. unfold set_next, set_top.
    cbn [topContent index topPath opt next warnings]. eexists. split; [done|]. split; [|done].
    unfold model at 1. cbn [topContent].
    apply (unindexed_added t (mkNode (next t) link [])); try done.
    + rewrite list_sort_perm, forest_app, entries_single. apply Permutation_app_comm.
    + rewrite Htop in Hlw. apply forest_wf_node in Hlw.
      apply (forest_wf_perm _ _ _ (list_sort_perm node_ltb _)), forest_wf_app. done.
  - pose proof (inv_good_path t Ht _ (ex_intro _ de Hde)) as Hgd.
    pose proof (good_path_nonempty _ Hgd) as Hne%str_empty_false. rewrite Hne.
    destruct (inv_model t Ht _ _ Hde) as (d & dc & Hi & Hfd & Hdp).
    destruct (find_in_wf d "" _ _ eq_refl Hwf Hfd) as (q & Hq & Hn).
    assert (Hwc : forest_wf (rp de) dc = true)
      by (by apply forest_wf_node, forest_wf_cons in Hn as (_ & _ & _ & ? & _)).
    destruct (addToDirectoryContent_spec (mkNode 0 link []) (parent_path (rp link)) d de dc (next t))
      as (n' & c' & E & Hperm & _ & Hcopy & Hid & _); [auto|done|done|by rewrite Hdp|done| |].
    { intros (m & Em & Hm)%list_elem_of_fmap. cbn [elem] in Em. rewrite Hdp, Hpf in Em.
      destruct (model_of_child t d _ m Ht Hfd Hm) as [x Hx]. by rewrite <-Em, Hnew in Hx. }
    rewrite Hdp in Hcopy.
    assert (Hpre : comps (parent_path (rp link)) `prefix_of` comps (rp link)).
    { rewrite <-Hpf at 2. rewrite comps_append by auto. by apply prefix_app_r. }
    destruct (copy_single _ _ _ _ _ Hg Hpre Hcopy) as [Hel Hco].
    unfold searchNode, deref, set_next, mutate, set_top. rewrite Hi. cbn [from_option_err].
    rewrite Hfd. cbn [from_option_err topContent]. rewrite E, Hfd. eexists. split; [done|].
    split; [|done]. unfold model at 1. cbn [topContent]. rewrite <-Hel.
    apply (unindexed_added t n'); [done|done|done|by rewrite Hel| |].
    + destruct (update_in_frame _ _ _ Hids Hfd) as (rest & Hold & Hupd).
      rewrite Hupd, Hold, (entries_forest (mkNode d de c')), (entries_forest (mkNode d de dc)).
      cbn [nid elem content]. rewrite Hperm, forest_app, entries_single. solve_Permutation.
    + eapply update_in_wf; [done..|]. intros p. rewrite !forest_wf_node, !forest_wf_cons.
      intros (? & ? & ? & ? & ?). split_and!; [done..|by left| |done].
      apply (forest_wf_perm _ _ _ Hperm), forest_wf_app. split; [done|].
      rewrite Hdp. by destruct Hcopy.
Qed.
