(* ===== verification/Diff.v ===== *)
(** * Two and three way diff (src/core.cpp)

    A diff is a list of lines, each with the elements that the trees have at one
    path. The recursion goes down the directories that at least two of the trees
    have. The names of a level are collected in an [unordered_set], so the order
    of the lines is unspecified: [order] is the iteration order of a set. *)

From S2P Require Import Prelude CxxPath CxxTime CxxStream Element Node Tree.

Definition DirectoryDiffLine2 : Type := option FilesystemElement * option FilesystemElement.
Definition DirectoryDiffLine3 : Type :=
  option FilesystemElement * option FilesystemElement * option FilesystemElement.

(** ** Printing *)

Definition show_side (mark : string) (d : option FilesystemElement) : outcome string :=
  match d with
  | Some e => s ← writeTo e; Ok (mark +:+ " " +:+ s +:+ String "010" "")
  | None => Ok (mark +:+ " /dev/null" +:+ String "010" "")
  end.

Definition show_line2 (d : DirectoryDiffLine2) : outcome string :=
  x ← show_side "-" d.1; y ← show_side "+" d.2; Ok (x +:+ y).

Definition show_line3 (d : DirectoryDiffLine3) : outcome string :=
  let '(a, b, c) := d in
  x ← show_side "a" a; y ← show_side "b" b; z ← show_side "c" c; Ok (x +:+ y +:+ z).

(** [operator<<] on a diff: every line is followed by a blank line *)
Definition show_diff {L} (show_line : L -> outcome string) (diff : list L) : outcome string :=
  for_each (fun d s => l ← show_line d; Ok (s +:+ l +:+ String "010" "")) diff "".

(** ** Comparison *)

(** [index.find(p)] and the node it points to *)
Definition find_ptr (t : DirectoryTree) (p : path) : outcome (option DirectoryNode) :=
  match index t !! p with
  | None => Ok None
  | Some i => n ← from_option_err Dangling (find_in i (topContent t)); Ok (Some n)
  end.

Section diff.
Context (order : gset string -> list string).

Definition itemNames (l : list DirectoryNode) : gset string :=
  list_to_set ((fun n => rp (elem n)) <$> l).

(** the body of the loop over the names: new lines and common directories *)
Definition item2 (a b : DirectoryTree) (o : CompareOpt) (itn : string)
    : outcome (list DirectoryDiffLine2 * list (DirectoryNode * DirectoryNode)) :=
  ita ← find_ptr a itn;
  itb ← find_ptr b itn;
  match ita, itb with
  | Some x, Some y =>
      Ok (if compare (elem x) (elem y) o then [] else [(Some (elem x), Some (elem y))],
          if isDirectory (elem x) && isDirectory (elem y) then [(x, y)] else [])
  | None, Some y => Ok ([(None, Some (elem y))], [])
  | Some x, None => Ok ([(Some (elem x), None)], [])
  | None, None => Err (AssertFailed "Diff2Helper::recursiveCompare: false")
  end.

(** [Diff2Helper::recursiveCompare] *)
Fixpoint recursiveCompare2 (fuel : nat) (a b : DirectoryTree) (o : CompareOpt)
    (la lb : list DirectoryNode) : outcome (list DirectoryDiffLine2) :=
  match fuel with
  | O => Err OutOfFuel
  | S fuel' =>
      '(result, commonDirectories) ←
        for_each (fun itn '(r, d) => '(r', d') ← item2 a b o itn; Ok (r ++ r', d ++ d'))
          (order (itemNames la ∪ itemNames lb)) ([], []);
      for_each (fun dirs r =>
          r' ← recursiveCompare2 fuel' a b o (content dirs.1) (content dirs.2); Ok (r ++ r'))
        commonDirectories result
  end.

(** enough fuel: the number of nodes bounds the depth *)
Definition compare2 (a b : DirectoryTree) (o : CompareOpt) (la lb : list DirectoryNode)
    : outcome (list DirectoryDiffLine2) :=
  recursiveCompare2 (S (length (forest la))) a b o la lb.

Definition diff2 (a b : DirectoryTree) (o : CompareOpt) : outcome (list DirectoryDiffLine2) :=
  compare2 a b o (topContent a) (topContent b).

Abbreviation dirs3 := (option DirectoryNode * option DirectoryNode * option DirectoryNode)%type.

Definition isDir (n : DirectoryNode) : bool := isDirectory (elem n).
Definition ifDir (n : DirectoryNode) : option DirectoryNode := if isDir n then Some n else None.

Definition item3 (a b c : DirectoryTree) (o : CompareOpt) (itn : string)
    : outcome (list DirectoryDiffLine3 * list dirs3) :=
  ita ← find_ptr a itn;
  itb ← find_ptr b itn;
  itc ← find_ptr c itn;
  let existing := omap id [ita; itb; itc] in
  _ ← cassert (negb (is_nil existing)) "Diff3Helper::recursiveCompare: numExisting>0";
  match ita, itb, itc with
  | Some x, Some y, Some z =>
      let ab := compare (elem x) (elem y) o in
      let bc := compare (elem y) (elem z) o in
      r ← (if negb ab || negb bc then Ok [(Some (elem x), Some (elem y), Some (elem z))]
           else _ ← cassert (compare (elem x) (elem z) o)
                  "Diff3Helper::recursiveCompare: compare(ae,ce,opt)"; Ok []);
      let numDirs := length (List.filter isDir [x; y; z]) in
      Ok (r, if 2 <=? numDirs then [(ifDir x, ifDir y, ifDir z)] else [])
  | _, _, _ =>
      Ok ([(elem <$> ita, elem <$> itb, elem <$> itc)],
          match existing with
          | [x; y] => if isDir x && isDir y then [(ita, itb, itc)] else []
          | _ => []
          end)
  end.

(** lines of a two way diff as lines of a three way diff *)
Definition without_a (d : DirectoryDiffLine2) : DirectoryDiffLine3 := (None, d.1, d.2).
Definition without_b (d : DirectoryDiffLine2) : DirectoryDiffLine3 := (d.1, None, d.2).
Definition without_c (d : DirectoryDiffLine2) : DirectoryDiffLine3 := (d.1, d.2, None).

(** the body of the loop over the common directories, with the recursive call
    for three directories *)
Definition visit3 (rec : list DirectoryNode -> list DirectoryNode -> list DirectoryNode ->
                         outcome (list DirectoryDiffLine3))
    (a b c : DirectoryTree) (o : CompareOpt) (dirs : dirs3) : outcome (list DirectoryDiffLine3) :=
  match dirs with
  | (Some x, Some y, Some z) => rec (content x) (content y) (content z)
  | (None, Some y, Some z) =>
      r ← compare2 b c o (content y) (content z); Ok (map without_a r)
  | (Some x, None, Some z) =>
      r ← compare2 a c o (content x) (content z); Ok (map without_b r)
  | (Some x, Some y, None) =>
      r ← compare2 a b o (content x) (content y); Ok (map without_c r)
  | _ => Err (AssertFailed "Diff3Helper::recursiveCompare: two directories")
  end.

(** [Diff3Helper::recursiveCompare] *)
Fixpoint recursiveCompare3 (fuel : nat) (a b c : DirectoryTree) (o : CompareOpt)
    (la lb lc : list DirectoryNode) : outcome (list DirectoryDiffLine3) :=
  match fuel with
  | O => Err OutOfFuel
  | S fuel' =>
      '(result, commonDirectories) ←
        for_each (fun itn '(r, d) => '(r', d') ← item3 a b c o itn; Ok (r ++ r', d ++ d'))
          (order (itemNames la ∪ itemNames lb ∪ itemNames lc)) ([], []);
      for_each (fun dirs r =>
          r' ← visit3 (recursiveCompare3 fuel' a b c o) a b c o dirs; Ok (r ++ r'))
        commonDirectories result
  end.

Definition diff3 (a b c : DirectoryTree) (o : CompareOpt) : outcome (list DirectoryDiffLine3) :=
  recursiveCompare3 (S (length (forest (topContent a)))) a b c o
    (topContent a) (topContent b) (topContent c).
End diff.

(** ** Reference definitions

    What the two diffs report, read off the maps from paths to elements. *)

Definition is_dir_at (m : gmap path FilesystemElement) (p : path) : bool :=
  str_empty p || match m !! p with Some e => isDirectory e | None => false end.

(** two trees differ at a path *)
Definition differ (o : CompareOpt) (x y : option FilesystemElement) : bool :=
  match x, y with
  | Some e, Some e' => negb (compare e e' o)
  | None, None => false
  | _, _ => true
  end.

(** the entries of the directories that both trees have *)
Definition seen2 (ma mb : gmap path FilesystemElement) (q : path) : bool :=
  is_dir_at ma (parent_path q) && is_dir_at mb (parent_path q).

Definition reference2 (ma mb : gmap path FilesystemElement) (o : CompareOpt)
    : list DirectoryDiffLine2 :=
  (fun q => (ma !! q, mb !! q)) <$>
    List.filter (fun q => seen2 ma mb q && differ o (ma !! q) (mb !! q))
      (elements (dom ma ∪ dom mb)).

(** number of trees that have a directory at a path *)
Definition dirs_at (ma mb mc : gmap path FilesystemElement) (p : path) : nat :=
  length (List.filter (fun m => is_dir_at m p) [ma; mb; mc]).

(** the trees that have the directory of [q] do not agree on [q] *)
Definition differ3 (ma mb mc : gmap path FilesystemElement) (o : CompareOpt) (q : path) : bool :=
  let p := parent_path q in
  if negb (is_dir_at ma p) then differ o (mb !! q) (mc !! q)
  else if negb (is_dir_at mb p) then differ o (ma !! q) (mc !! q)
  else if negb (is_dir_at mc p) then differ o (ma !! q) (mb !! q)
  else differ o (ma !! q) (mb !! q) || differ o (mb !! q) (mc !! q).

Definition reference3 (ma mb mc : gmap path FilesystemElement) (o : CompareOpt)
    : list DirectoryDiffLine3 :=
  (fun q => (ma !! q, mb !! q, mc !! q)) <$>
    List.filter (fun q => (2 <=? dirs_at ma mb mc (parent_path q)) && differ3 ma mb mc o q)
      (elements (dom ma ∪ dom mb ∪ dom mc)).
