(* ===== verification/DiffSpec.v ===== *)
(** * The diffs against their reference definitions

    The lines that [diff2] and [diff3] produce are those of [reference2] and
    [reference3], up to their order. *)

From S2P Require Import Prelude CxxPath CxxTime CxxStream Element Node Tree TreeInv TreeOps TreeCopy Diff.

(** ** Paths visited level by level *)

(** [q] lies strictly below the directory [p] *)
Definition below (p q : path) : Prop := within p q /\ p <> q.

Lemma comps_parent q : good_path q = true -> comps q = comps (parent_path q) ++ [filename q].
Proof. intros H. rewrite <-(parent_filename q H) at 1. apply comps_append; auto. Qed.

Lemma below_parent p q : good_path q = true -> below p q <-> within p (parent_path q).
Proof.
  intros Hq. unfold below, within. rewrite (comps_parent q Hq). split.
  - intros [[k Hk] Hne]. destruct k as [|x k _] using rev_ind.
    + rewrite app_nil_r in Hk. destruct Hne. apply comps_inj. by rewrite (comps_parent q Hq), Hk.
    + rewrite app_assoc in Hk. apply app_inj_tail in Hk as [-> _]. by exists k.
  - intros Hpre. split; [by apply prefix_app_r|]. intros ->.
    apply prefix_length in Hpre. rewrite (comps_parent q Hq), length_app in Hpre. simpl in Hpre. lia.
Qed.

Lemma within_trans p q r : within p q -> within q r -> within p r.
Proof. unfold within. intros. by etrans. Qed.

Lemma within_refl p : within p p.
Proof. by unfold within. Qed.
#[export] Hint Resolve within_refl : core.

Section visit.
Context (present good : path -> Prop).
Context (Hpath : forall q, present q -> good_path q = true).
Context (Hgood : forall d, good d -> d <> "" -> present d /\ good (parent_path d)).

Lemma child_towards p r :
  good r -> within p r -> p <> r ->
  exists d, parent_path d = p /\ good d /\ d <> "" /\ within d r.
Proof using Hpath Hgood.
  remember (length (comps r)) as k eqn:Hk. revert r Hk.
  induction (lt_wf k) as [k _ IH]. intros r -> Hr Hp Hne.
  destruct (decide (r = "")) as [->|Hr0].
  { destruct Hne. apply comps_nil. destruct Hp as [x Hx]. symmetry in Hx. by apply app_nil in Hx as [? _]. }
  destruct (Hgood r Hr Hr0) as [Hpr Hpar]. pose proof (Hpath r Hpr) as Hgp.
  destruct (decide (p = parent_path r)) as [->|Hpp]; [by exists r|].
  assert (Hw : within p (parent_path r)) by (apply (below_parent p r Hgp); by split).
  destruct (IH (length (comps (parent_path r)))) with (r := parent_path r) as (d & Hd & Hgd & Hd0 & Hdw);
    [|done..|].
  { rewrite (comps_parent r Hgp), length_app. simpl. lia. }
  exists d. split_and!; [done..|]. apply (within_trans _ _ _ Hdw).
  unfold within. rewrite (comps_parent r Hgp). by apply prefix_app_r.
Qed.

(** the list [L] has the paths below [p] whose directories are all good *)
Definition visits (p : path) (L : list path) : Prop :=
  NoDup L /\ forall q, q ∈ L <-> present q /\ below p q /\ good (parent_path q).

Lemma visits_disjoint p d d' L L' q :
  present d -> present d' -> parent_path d = p -> parent_path d' = p ->
  visits d L -> visits d' L' -> q ∈ L -> q ∈ L' -> d = d'.
Proof using Hpath.
  intros Hd Hd' Hp Hp' [_ HL] [_ HL'] (_ & [Hq _] & _)%HL (_ & [Hq' _] & _)%HL'.
  apply comps_inj. eapply prefix_same_length; [exact Hq|exact Hq'|].
  by rewrite (comps_parent d), (comps_parent d'), Hp, Hp', !length_app by auto.
Qed.

Lemma visits_concat p D Ls :
  NoDup D -> Forall (fun d => present d /\ parent_path d = p) D -> Forall2 visits D Ls ->
  NoDup (concat Ls) /\ forall q, q ∈ concat Ls <-> exists d, d ∈ D /\ present q /\ below d q /\
    good (parent_path q).
Proof using Hpath.
  intros Hnd HD HL. induction HL as [|d L D Ls Hd HL IH].
  { split; [constructor|]. intros q. split; [by intros ?%not_elem_of_nil|].
    intros (d & Hd & _). by apply not_elem_of_nil in Hd. }
  apply NoDup_cons in Hnd as [Hnew Hnd]. apply Forall_cons in HD as [[Hpd Hdp] HD].
  destruct (IH Hnd HD) as [IHn IHq]. cbn [concat]. split.
  - apply NoDup_app. split_and!; [by destruct Hd| |done].
    intros q Hq (d' & Hd' & Hq')%IHq. rewrite Forall_forall in HD.
    destruct (HD d' Hd') as [Hpd' Hdp']. pose proof Hd' as [i Hi]%list_elem_of_lookup.
    destruct (Forall2_lookup_l _ _ _ _ _ HL Hi) as (L' & HLi & HL').
    assert (q ∈ L') by (apply HL'; done). apply Hnew.
    rewrite (visits_disjoint p d d' L L' q); [|done..]. by eapply list_elem_of_lookup_2.
  - intros q. rewrite elem_of_app, IHq. destruct Hd as [_ Hd]. rewrite Hd. split.
    + intros [H|(d' & H' & H)]; [exists d|exists d']; (split; [|done]); apply elem_of_cons; auto.
    + intros (d' & [->|H']%elem_of_cons & H); [by left|right; eauto].
Qed.

(** a level of names, then the levels of its good directories *)
Lemma visits_level p N D Ls :
  good p -> NoDup N -> (forall q, q ∈ N <-> present q /\ parent_path q = p) ->
  NoDup D -> (forall d, d ∈ D <-> d ∈ N /\ good d) -> Forall2 visits D Ls ->
  visits p (N ++ concat Ls).
Proof using Hpath Hgood.
  intros Hp HN HNq HD HDq HL.
  destruct (visits_concat p D Ls) as [Hc Hcq]; [done| |done|].
  { apply Forall_forall. intros d [Hd _]%HDq. by apply HNq. }
  assert (Hdeep : forall d q, d ∈ D -> present q -> below d q -> within p (parent_path q) /\ parent_path q <> p).
  { intros d q [Hd _]%HDq Hq Hb. apply HNq in Hd as [Hd <-].
    apply (below_parent d q (Hpath q Hq)) in Hb.
    assert (Hbd : below (parent_path d) d) by (by apply (below_parent _ d (Hpath d Hd))).
    split; [by apply (within_trans _ d); [destruct Hbd|]|]. intros E. rewrite E in Hb.
    destruct Hbd as [Hw Hne]. apply Hne. apply comps_inj. unfold within in *.
    by apply (anti_symm prefix). }
  split.
  - apply NoDup_app. split_and!; [done| |done].
    intros q [Hq Hqp]%HNq (d & Hd & _ & Hb & _)%Hcq. by destruct (Hdeep d q Hd Hq Hb).
  - intros q. rewrite elem_of_app, HNq, Hcq. split.
    + intros [[Hq <-]|(d & Hd & Hq & Hb & Hg)].
      * split_and!; [done|by apply (below_parent _ q (Hpath q Hq))|done].
      * split_and!; [done| |done]. apply (below_parent _ q (Hpath q Hq)).
        by destruct (Hdeep d q Hd Hq Hb).
    + intros (Hq & Hb & Hg). destruct (decide (parent_path q = p)) as [E|Hne]; [by left|right].
      apply (below_parent p q (Hpath q Hq)) in Hb.
      destruct (child_towards p (parent_path q)) as (d & Hd & Hgd & Hd0 & Hw); [done..| |].
      { congruence. }
      exists d. split_and!; [|done| |done].
      * apply HDq. split; [|done]. apply HNq. split; [|done]. by apply Hgood.
      * by apply (below_parent d q (Hpath q Hq)).
Qed.
End visit.

(** ** Levels of a tree *)

(** [l] is the content of the directory [p] of the tree *)
Definition children_of (t : DirectoryTree) (p : path) (l : list DirectoryNode) : Prop :=
  (p = "" /\ l = topContent t) \/
  (exists i e, find_in i (topContent t) = Some (mkNode i e l) /\ rp e = p /\ isDirectory e = true).

Section levels.
Context (t : DirectoryTree) (Ht : tree_inv t).

Lemma node_at p i n :
  find_in i (topContent t) = Some n -> rp (elem n) = p ->
  model t !! p = Some (elem n) /\ good_path p = true.
Proof using Ht.
  intros Hf Hp. assert (Hm : model t !! p = Some (elem n)).
  { pose proof Ht as (_ & _ & _ & Hpaths & _). apply model_of_lookup; [done|]. exists (nid n).
    split; [|done]. apply (find_in_entries _ _ _ Hf). rewrite entries_forest. by apply elem_of_cons; left. }
  split; [done|]. apply (inv_good_path t Ht). by eexists.
Qed.

(** the node at a path belongs to the content of its directory *)
Lemma find_ptr_spec q :
  match model t !! q with
  | None => find_ptr t q = Ok None
  | Some e => exists n, find_ptr t q = Ok (Some n) /\ elem n = e /\
      (isDirectory e = true -> children_of t q (content n)) /\
      is_dir_at (model t) (parent_path q) = true /\
      forall l, children_of t (parent_path q) l -> n ∈ l
  end.
Proof using Ht.
  destruct (model t !! q) as [e|] eqn:Hm; unfold find_ptr; cycle 1.
  { apply inv_lookup_None in Hm; [|done]. by rewrite Hm. }
  destruct (inv_model t Ht q e Hm) as (i & c & Hi & Hf & Hq). rewrite Hi, Hf.
  cbn [from_option_err mbind outcome_bind]. exists (mkNode i e c). split_and!; [done|done| | |].
  { intros Hd. right. eauto. }
  - pose proof Ht as (Hwf & Hids & _).
    destruct (find_parent "" _ _ _ eq_refl Hwf Hids Hf) as [[_ Hp]|(j & m & Hfm & _ & Hm' & _ & Hd)];
      cbn [elem] in *; rewrite Hq in *; [by rewrite Hp|].
    destruct (node_at _ _ _ Hfm Hm') as [Hlk _]. unfold is_dir_at. rewrite Hlk, Hd. apply orb_true_r.
  - intros l Hl. pose proof Ht as (Hwf & Hids & _).
    destruct (find_parent "" _ _ _ eq_refl Hwf Hids Hf) as [[Hin Hp]|(j & m & Hfm & Hin & Hm' & Hg & Hd)];
      cbn [elem] in *; rewrite Hq in *.
    + destruct Hl as [[_ ->]|(k & e' & Hk & Hp' & _)]; [done|].
      destruct (node_at _ _ _ Hk Hp') as [_ Hg]. rewrite Hp in Hg. by apply good_path_nonempty in Hg.
    + destruct Hl as [[Hp _]|(k & e' & Hk & Hp' & _)].
      * rewrite Hm', Hp in Hg. by apply good_path_nonempty in Hg.
      * destruct (node_at _ _ _ Hk Hp') as [Hlk _].
        destruct (inv_model t Ht _ _ Hlk) as (k' & c' & Hk' & _ & _).
        pose proof (inv_unique t Ht _ _ _ _ Hk' Hk Hp'). 
        pose proof (inv_unique t Ht _ _ _ _ Hk' Hfm Hm'). subst. rewrite Hfm in Hk.
        injection Hk as ->. done.
Qed.

Lemma children_dir p l : children_of t p l -> is_dir_at (model t) p = true /\ good_dir p = true.
Proof using Ht.
  intros [[-> _]|(i & e & Hf & Hp & Hd)]; [done|].
  destruct (node_at _ _ _ Hf Hp) as [Hm Hg]. unfold is_dir_at. rewrite Hm. cbn [elem]. rewrite Hd.
  split; [apply orb_true_r|auto].
Qed.

Lemma children_paths p l q :
  children_of t p l ->
  q ∈ ((fun n => rp (elem n)) <$> l) <-> is_Some (model t !! q) /\ parent_path q = p.
Proof using Ht.
  intros Hl. pose proof Ht as (Hwf & Hids & _). split.
  - intros (n & -> & Hn)%list_elem_of_fmap.
    assert (Hpar : good_dir p = true /\ forest_wf p l = true).
    { split; [by eapply children_dir|].
      destruct Hl as [[-> ->]|(i & e & Hf & <- & _)]; [done|].
      destruct (find_in_wf _ "" _ _ eq_refl Hwf Hf) as (p' & _ & Hnw).
      by apply forest_wf_node, forest_wf_cons in Hnw as (_ & _ & _ & ? & _). }
    destruct Hpar as [Hg Hlw].
    destruct (node_wf_comps p n Hg (forest_wf_elem _ _ _ Hlw Hn)) as (_ & Hp & _).
    split; [|done]. destruct Hl as [[-> ->]|(i & e & Hf & <- & _)].
    + eexists. apply model_of_lookup; [by destruct Ht as (_ & _ & _ & ? & _)|].
      exists (nid n). split; [|done]. unfold forest. apply list_elem_of_In, in_flat_map.
      exists n. split; [by apply list_elem_of_In|]. rewrite entries_forest. by left.
    + by apply (model_of_child t i (mkNode i e l)).
  - intros [[e He] Hp]. pose proof (find_ptr_spec q) as H. rewrite He in H.
    destruct H as (n & Hn & En & _ & _ & Hin). rewrite Hp in Hin. apply Hin in Hl.
    apply list_elem_of_fmap. exists n. split; [|done].
    rewrite En. by destruct (inv_model t Ht q e He) as (_ & _ & _ & _ & ?).
Qed.

Lemma present_parent q :
  is_Some (model t !! q) -> is_dir_at (model t) (parent_path q) = true /\ good_path q = true.
Proof using Ht.
  intros H. split; [|by apply (inv_good_path t Ht)]. destruct H as [e He].
  pose proof (find_ptr_spec q) as H. rewrite He in H. by destruct H as (n & _ & _ & _ & ? & _).
Qed.

Lemma dir_at_present d : is_dir_at (model t) d = true -> d <> "" -> is_Some (model t !! d).
Proof using.
  unfold is_dir_at. intros H Hd. apply str_empty_false in Hd. rewrite Hd in H. cbn [orb] in H.
  by destruct (model t !! d).
Qed.

End levels.

Lemma content_smaller n l : n ∈ l -> length (forest (content n)) < length (forest l).
Proof.
  intros (l1 & l2 & ->)%list_elem_of_split. rewrite forest_app, forest_node, !length_app.
  rewrite entries_forest. simpl. lia.
Qed.

(** ** The two loops of a level *)

Lemma for_each_collect {A R D} (item : A -> outcome (list R * list D)) r d l r0 d0 :
  (forall x, x ∈ l -> item x = Ok (r x, d x)) ->
  for_each (fun x '(r1, d1) => '(r', d') ← item x; Ok (r1 ++ r', d1 ++ d')) l (r0, d0)
    = Ok (r0 ++ flat_map r l, d0 ++ flat_map d l).
Proof.
  revert r0 d0. induction l as [|x l IH]; intros r0 d0 H.
  - cbn. by rewrite !app_nil_r.
  - cbn [for_each]. rewrite H by apply list_elem_of_here. cbn [mbind outcome_bind flat_map].
    rewrite IH; [by rewrite <-!app_assoc|]. intros y Hy. apply H. by apply list_elem_of_further.
Qed.

Section for_each_dirs.
Context {R D : Type} (body : D -> outcome (list R)) (nodes : path -> list D) (goodb : path -> bool).
Context (V : path -> list path -> Prop) (lines : list path -> list R).
Context (lines_nil : lines [] = []) (lines_app : forall l k, lines (l ++ k) = lines l ++ lines k).

Lemma for_each_dirs names res :
  (forall q, q ∈ names -> if goodb q then exists x L, nodes q = [x] /\ body x = Ok (lines L) /\ V q L
                         else nodes q = []) ->
  exists Ls, Forall2 V (List.filter goodb names) Ls /\
    for_each (fun x r => r' ← body x; Ok (r ++ r')) (flat_map nodes names) res
      = Ok (res ++ lines (concat Ls)).
Proof using lines_nil lines_app.
  revert res. induction names as [|q names IH]; intros res H.
  { exists []. split; [constructor|]. cbn. by rewrite lines_nil, app_nil_r. }
  pose proof (H q (list_elem_of_here _ _)) as Hq.
  assert (H' : forall q, q ∈ names -> if goodb q
    then exists x L, nodes q = [x] /\ body x = Ok (lines L) /\ V q L else nodes q = [])
    by (intros; by apply H, list_elem_of_further).
  cbn [flat_map List.filter]. destruct (goodb q).
  - destruct Hq as (x & L & -> & Hx & HV). destruct (IH (res ++ lines L) H') as (Ls & HF & E).
    exists (L :: Ls). split; [by constructor|]. cbn [app for_each]. rewrite Hx.
    cbn [mbind outcome_bind concat]. by rewrite E, lines_app, app_assoc.
  - rewrite Hq. apply (IH res H').
Qed.
End for_each_dirs.

#[global] Instance filter_perm {A} (f : A -> bool) : Proper ((≡ₚ) ==> (≡ₚ)) (List.filter f).
Proof.
  intros l k H. induction H; simpl; [done|case_match; [by f_equiv|done]| |by etrans].
  destruct (f x), (f y); try done. apply Permutation_swap.
Qed.

Lemma filter_and {A} (f g : A -> bool) l :
  List.filter (fun x => f x && g x) l = List.filter g (List.filter f l).
Proof.
  induction l as [|x l IH]; simpl; [done|]. destruct (f x); simpl; [|done]. by rewrite IH.
Qed.

Lemma flat_map_filter {A B} (f : A -> bool) (g : A -> B) l :
  flat_map (fun x => if f x then [g x] else []) l = map g (List.filter f l).
Proof. induction l as [|x l IH]; simpl; [done|]. destruct (f x); simpl; by rewrite IH. Qed.

Lemma elem_of_filter_bool {A} (f : A -> bool) l x : x ∈ List.filter f l <-> x ∈ l /\ f x = true.
Proof. rewrite !list_elem_of_In. apply filter_In. Qed.

Lemma NoDup_filter_bool {A} (f : A -> bool) l : NoDup l -> NoDup (List.filter f l).
Proof. rewrite !NoDup_ListNoDup. apply List.NoDup_filter. Qed.

(** ** diff2 *)

Section diff2.
Context (order : gset string -> list string) (Horder : forall s, order s ≡ₚ elements s).
Context (a b : DirectoryTree) (Ha : tree_inv a) (Hb : tree_inv b) (o : CompareOpt).

Definition present2 (q : path) : Prop := is_Some (model a !! q) \/ is_Some (model b !! q).
Definition good2 (p : path) : Prop := is_dir_at (model a) p = true /\ is_dir_at (model b) p = true.

Definition line2 (q : path) : DirectoryDiffLine2 := (model a !! q, model b !! q).
Definition differ2 (q : path) : bool := differ o (model a !! q) (model b !! q).
Definition lines2 (L : list path) : list DirectoryDiffLine2 := map line2 (List.filter differ2 L).

(** the pointers to a common directory *)
Definition nodes2 (q : path) : list (DirectoryNode * DirectoryNode) :=
  match find_ptr a q, find_ptr b q with
  | Ok (Some x), Ok (Some y) => if isDirectory (elem x) && isDirectory (elem y) then [(x, y)] else []
  | _, _ => []
  end.

Lemma present2_path q : present2 q -> good_path q = true.
Proof using Ha Hb. intros [H|H]; [by apply (present_parent a Ha)|by apply (present_parent b Hb)]. Qed.

Lemma good2_parent d : good2 d -> d <> "" -> present2 d /\ good2 (parent_path d).
Proof using Ha Hb.
  intros [HA HB] Hd. apply dir_at_present in HA, HB; [|done..]. split; [by left|].
  split; [by apply (present_parent a Ha)|by apply (present_parent b Hb)].
Qed.

Lemma item2_ok q :
  present2 q -> item2 a b o q = Ok (if differ2 q then [line2 q] else [], nodes2 q).
Proof using Ha Hb.
  intros Hq. unfold item2, nodes2, differ2, line2.
  pose proof (find_ptr_spec a Ha q) as HA. pose proof (find_ptr_spec b Hb q) as HB.
  destruct (model a !! q) as [e|] eqn:EA, (model b !! q) as [e'|] eqn:EB.
  - destruct HA as (x & -> & <- & _), HB as (y & -> & <- & _). cbn [mbind outcome_bind differ].
    by destruct (compare _ _ _).
  - destruct HA as (x & -> & <- & _). by rewrite HB.
  - destruct HB as (y & -> & <- & _). by rewrite HA.
  - destruct Hq as [[? Hq]|[? Hq]]; congruence.
Qed.

Lemma names2 p la lb q :
  children_of a p la -> children_of b p lb ->
  q ∈ order (itemNames la ∪ itemNames lb) <-> present2 q /\ parent_path q = p.
Proof using Ha Hb Horder.
  intros HA HB. rewrite Horder, elem_of_elements, elem_of_union. unfold itemNames.
  rewrite !elem_of_list_to_set, (children_paths a Ha p la q HA), (children_paths b Hb p lb q HB).
  unfold present2. naive_solver.
Qed.

Definition good2b (p : path) : bool := is_dir_at (model a) p && is_dir_at (model b) p.

Lemma good2b_spec p : good2b p = true <-> good2 p.
Proof. apply andb_true_iff. Qed.

(** a common directory, or nothing to go down *)
Lemma nodes2_spec q :
  q <> "" ->
  if good2b q then exists x y, nodes2 q = [(x, y)] /\
    children_of a q (content x) /\ children_of b q (content y) /\
    forall l, children_of a (parent_path q) l -> x ∈ l
  else nodes2 q = [].
Proof using Ha Hb.
  intros Hq%str_empty_false. unfold good2b, is_dir_at, nodes2. rewrite Hq. cbn [orb].
  pose proof (find_ptr_spec a Ha q) as HA. pose proof (find_ptr_spec b Hb q) as HB.
  destruct (model a !! q) as [e|], (model b !! q) as [e'|].
  - destruct HA as (x & -> & <- & CA & _ & Hx), HB as (y & -> & <- & CB & _ & _).
    destruct (isDirectory (elem x)) eqn:Dx, (isDirectory (elem y)) eqn:Dy; cbn [andb]; try done.
    exists x, y. auto.
  - destruct HA as (x & -> & _). rewrite HB, andb_false_r. done.
  - by rewrite HA.
  - by rewrite HA.
Qed.

Lemma recursiveCompare2_spec fuel p la lb :
  children_of a p la -> children_of b p lb -> length (forest la) < fuel ->
  exists L, recursiveCompare2 order fuel a b o la lb = Ok (lines2 L) /\
    visits present2 good2 p L.
Proof using Ha Hb Horder.
  revert p la lb. induction fuel as [|fuel IH]; intros p la lb HA HB Hfuel; [lia|].
  set (N := order (itemNames la ∪ itemNames lb)).
  assert (HN : forall q, q ∈ N <-> present2 q /\ parent_path q = p) by (intros; by apply names2).
  cbn [recursiveCompare2]. fold N.
  rewrite (for_each_collect (item2 a b o) (fun q => if differ2 q then [line2 q] else []) nodes2)
    by (intros q [Hq _]%HN; by apply item2_ok).
  cbn [app mbind outcome_bind]. rewrite flat_map_filter. fold (lines2 N).
  destruct (for_each_dirs
    (fun dirs => recursiveCompare2 order fuel a b o (content dirs.1) (content dirs.2))
    nodes2 good2b (visits present2 good2) lines2) with (names := N) (res := lines2 N) as (Ls & HV & E).
  { done. }
  { intros l k. unfold lines2. by rewrite List.filter_app, map_app. }
  { intros q [Hq Hp]%HN. pose proof (good_path_nonempty _ (present2_path q Hq)) as Hne.
    pose proof (nodes2_spec q Hne) as Hn. destruct (good2b q); [|done].
    destruct Hn as (x & y & Hn & CA & CB & Hx). rewrite Hp in Hx.
    destruct (IH q (content x) (content y) CA CB) as (L & EL & VL).
    { pose proof (content_smaller x la (Hx _ HA)). lia. }
    by exists (x, y), L. }
  exists (N ++ concat Ls). split.
  - etransitivity; [exact E|]. unfold lines2. by rewrite List.filter_app, map_app.
  - eapply (visits_level present2 good2 present2_path good2_parent p N); [|..|exact HV].
    + split; [by apply (children_dir a Ha p la)|by apply (children_dir b Hb p lb)].
    + unfold N. rewrite Horder. apply NoDup_elements.
    + exact HN.
    + apply NoDup_filter_bool. unfold N. rewrite Horder. apply NoDup_elements.
    + intros d. by rewrite elem_of_filter_bool, good2b_spec.
Qed.

Lemma visits_top L (present good : path -> Prop) :
  (forall q, present q -> good_path q = true) ->
  visits present good "" L -> forall q, q ∈ L <-> present q /\ good (parent_path q).
Proof.
  intros Hp [_ HL] q. rewrite HL. split; [naive_solver|]. intros [Hq Hg]. split_and!; [done| |done].
  split; [apply prefix_nil|]. intros <-. by apply Hp, good_path_nonempty in Hq.
Qed.

(** [diff2] computes the reference diff, in some order. *)
Lemma diff2_reference :
  exists r, diff2 order a b o = Ok r /\ r ≡ₚ reference2 (model a) (model b) o.
Proof using Ha Hb Horder.
  destruct (recursiveCompare2_spec (S (length (forest (topContent a)))) "" (topContent a) (topContent b))
    as (L & E & HV); [by left|by left|lia|].
  exists (lines2 L). split; [exact E|]. unfold reference2, lines2.
  pose proof (visits_top L _ _ present2_path HV) as Hin. destruct HV as [Hnd _].
  rewrite filter_and. apply Permutation_map. f_equiv.
  apply NoDup_Permutation; [done|apply NoDup_filter_bool, NoDup_elements|].
  intros q. rewrite Hin, elem_of_filter_bool, elem_of_elements, elem_of_union, !elem_of_dom.
  unfold seen2. rewrite andb_true_iff. done.
Qed.
End diff2.

(** *** No difference *)

(** two maps agree on the paths and on what the options compare *)
Definition agree (o : CompareOpt) (ma mb : gmap path FilesystemElement) : Prop :=
  forall q, differ o (ma !! q) (mb !! q) = false.

Lemma is_dir_at_agree o (ma mb : gmap path FilesystemElement) p :
  differ o (ma !! p) (mb !! p) = false -> is_dir_at ma p = is_dir_at mb p.
Proof.
  unfold is_dir_at, differ. intros H. f_equal.
  destruct (ma !! p) as [e|], (mb !! p) as [e'|]; try done.
  apply negb_false_iff, compare_spec in H as (Ht & _). unfold isDirectory. by rewrite Ht.
Qed.

(** where all visited paths agree, all paths are visited *)
Lemma all_seen a b o :
  tree_inv a -> tree_inv b ->
  (forall q, seen2 (model a) (model b) q = true -> differ o (model a !! q) (model b !! q) = false) ->
  forall q, present2 a b q -> seen2 (model a) (model b) q = true.
Proof.
  intros Ha Hb Hseen q. remember (length (comps q)) as k eqn:Hk. revert q Hk.
  induction (lt_wf k) as [k _ IH]. intros q -> Hq. pose proof (present2_path a b Ha Hb q Hq) as Hg.
  unfold seen2. destruct (decide (parent_path q = "")) as [->|Hp]; [done|].
  assert (Hor : is_dir_at (model a) (parent_path q) = true \/ is_dir_at (model b) (parent_path q) = true).
  { destruct Hq as [Hq|Hq]; [left; by apply (present_parent a Ha)|right; by apply (present_parent b Hb)]. }
  assert (Hd : is_dir_at (model a) (parent_path q) = is_dir_at (model b) (parent_path q)).
  { apply (is_dir_at_agree o), Hseen. eapply IH; [|done|].
    - rewrite (comps_parent q Hg), length_app. simpl. lia.
    - destruct Hor as [H|H]; apply dir_at_present in H; [by left|done|by right|done]. }
  rewrite Hd in *. by destruct Hor as [->| ->].
Qed.

Lemma reference2_nil a b o :
  tree_inv a -> tree_inv b -> reference2 (model a) (model b) o = [] <-> agree o (model a) (model b).
Proof.
  intros Ha Hb. unfold reference2.
  assert (Hin : forall q, present2 a b q <-> q ∈ elements (dom (model a) ∪ dom (model b))).
  { intros q. by rewrite elem_of_elements, elem_of_union, !elem_of_dom. }
  split.
  - intros E%fmap_nil_inv q. destruct (differ _ _ _) eqn:Hd; [|done]. exfalso.
    assert (Hseen : forall q, seen2 (model a) (model b) q = true ->
      differ o (model a !! q) (model b !! q) = false).
    { intros q' Hs. destruct (differ o (model a !! q') _) eqn:Hd'; [exfalso|done].
      apply (not_elem_of_nil q'). rewrite <-E, elem_of_filter_bool, <-Hin, Hs, Hd'. split; [|done].
      unfold differ in Hd'. destruct (model a !! q') eqn:EA, (model b !! q') eqn:EB; unfold present2;
        rewrite ?EA, ?EB; eauto; done. }
    rewrite Hseen in Hd; [done|]. apply (all_seen a b o Ha Hb Hseen). unfold present2.
    unfold differ in Hd. destruct (model a !! q), (model b !! q); eauto; done.
  - intros H. rewrite (List.filter_ext _ (fun _ => false)).
    + by assert (forall l : list path, List.filter (fun _ => false) l = []) as -> by (by intros l; induction l).
    + intros q. by rewrite (H q), andb_false_r.
Qed.

Lemma diff2_nil order a b o :
  (forall s, order s ≡ₚ elements s) -> tree_inv a -> tree_inv b ->
  diff2 order a b o = Ok [] <-> agree o (model a) (model b).
Proof.
  intros Ho Ha Hb. rewrite <-(reference2_nil a b o Ha Hb).
  destruct (diff2_reference order Ho a b Ha Hb o) as (r & -> & Hr). split.
  - intros [= ->]. by apply Permutation_nil_l in Hr.
  - intros E. rewrite E in Hr. by apply Permutation_nil_r in Hr as ->.
Qed.
