(* ===== verification/Diff3Spec.v ===== *)
(** * The three way diff against its reference definition *)

From S2P Require Import Prelude CxxPath CxxTime CxxStream Element Node Tree TreeInv TreeOps TreeCopy Diff DiffSpec.

(** a directory is below directories *)
Lemma dir_above t d r :
  tree_inv t -> is_dir_at (model t) r = true -> within d r -> is_dir_at (model t) d = true.
Proof.
  intros Ht. remember (length (comps r)) as k eqn:Hk. revert r Hk.
  induction (lt_wf k) as [k _ IH]. intros r -> Hr Hw.
  destruct (decide (d = r)) as [->|Hne]; [done|].
  destruct (decide (r = "")) as [->|Hr0].
  { destruct Hne. apply comps_nil. destruct Hw as [x Hx]. symmetry in Hx. by apply app_nil in Hx as [? _]. }
  destruct (present_parent t Ht r (dir_at_present t r Hr Hr0)) as [Hp Hg].
  eapply (IH (length (comps (parent_path r)))); [|done|done|by apply (below_parent d r Hg)].
  rewrite (comps_parent r Hg), length_app. simpl. lia.
Qed.

(** a tree has nothing below a path that is not a directory *)
Lemma nothing_below t d q :
  tree_inv t -> is_dir_at (model t) d = false -> good_path q = true -> below d q ->
  model t !! q = None /\ is_dir_at (model t) (parent_path q) = false.
Proof.
  intros Ht Hd Hg Hb. apply (below_parent d q Hg) in Hb.
  assert (Hp : is_dir_at (model t) (parent_path q) = false).
  { apply not_true_iff_false. intros H. apply (dir_above t d) in H; [congruence|done|done]. }
  split; [|done]. apply eq_None_not_Some. intros H. apply (present_parent t Ht) in H as [H _]. congruence.
Qed.

Lemma visits_ext (pr pr' go go' : path -> Prop) d L :
  (forall q, below d q -> pr q /\ go (parent_path q) <-> pr' q /\ go' (parent_path q)) ->
  visits pr go d L -> visits pr' go' d L.
Proof.
  intros H [Hnd HL]. split; [done|]. intros q. rewrite HL. specialize (H q). naive_solver.
Qed.

Lemma map_filter_ext {A B C} (g : B -> C) (f : A -> B) (f' : A -> C) (d d' : A -> bool) L :
  (forall q, q ∈ L -> d q = d' q /\ g (f q) = f' q) ->
  map g (map f (List.filter d L)) = map f' (List.filter d' L).
Proof.
  intros H. induction L as [|q L IH]; [done|]. cbn [List.filter].
  destruct (H q (list_elem_of_here _ _)) as [-> E].
  assert (IH' := IH (fun q' Hq' => H q' (list_elem_of_further _ _ _ Hq'))).
  destruct (d' q); [|done]. cbn [map]. by rewrite E, IH'.
Qed.

Section diff3.
Context (order : gset string -> list string) (Horder : forall s, order s ≡ₚ elements s).
Context (a b c : DirectoryTree) (Ha : tree_inv a) (Hb : tree_inv b) (Hc : tree_inv c).
Context (o : CompareOpt).
(** comparison is transitive on the elements at one path *)
Context (Htrans : forall q x y z, model a !! q = Some x -> model b !! q = Some y -> model c !! q = Some z ->
  compare x y o = true -> compare y z o = true -> compare x z o = true).

Definition present3 (q : path) : Prop :=
  is_Some (model a !! q) \/ is_Some (model b !! q) \/ is_Some (model c !! q).
Definition good3b (p : path) : bool := 2 <=? dirs_at (model a) (model b) (model c) p.
Definition good3 (p : path) : Prop := good3b p = true.

Definition line3 (q : path) : DirectoryDiffLine3 := (model a !! q, model b !! q, model c !! q).
Definition reported3 (q : path) : bool := differ3 (model a) (model b) (model c) o q.
Definition lines3 (L : list path) : list DirectoryDiffLine3 := map line3 (List.filter reported3 L).

Lemma good3b_eq p :
  good3b p = (is_dir_at (model a) p && is_dir_at (model b) p) ||
             (is_dir_at (model a) p && is_dir_at (model c) p) ||
             (is_dir_at (model b) p && is_dir_at (model c) p).
Proof.
  unfold good3b, dirs_at. cbn [List.filter].
  by destruct (is_dir_at (model a) p), (is_dir_at (model b) p), (is_dir_at (model c) p).
Qed.

Lemma present3_path q : present3 q -> good_path q = true.
Proof using Ha Hb Hc.
  intros [H|[H|H]];
    [by apply (present_parent a Ha)|by apply (present_parent b Hb)|by apply (present_parent c Hc)].
Qed.

Lemma good3_parent d : good3 d -> d <> "" -> present3 d /\ good3 (parent_path d).
Proof using Ha Hb Hc.
  unfold good3. intros Hg Hd.
  assert (Hup : forall t, tree_inv t -> is_dir_at (model t) d = true ->
    is_Some (model t !! d) /\ is_dir_at (model t) (parent_path d) = true).
  { intros t Ht H. apply dir_at_present in H; [|done]. split; [done|]. by apply (present_parent t Ht). }
  pose proof (Hup a Ha) as HA. pose proof (Hup b Hb) as HB. pose proof (Hup c Hc) as HC.
  rewrite good3b_eq in *. unfold present3.
  destruct (is_dir_at (model a) d), (is_dir_at (model b) d), (is_dir_at (model c) d); try done;
    repeat match goal with H : true = true -> _ |- _ => destruct (H eq_refl) as [? ->]; clear H end;
    rewrite ?orb_true_r, ?andb_true_r; auto.
Qed.

(** the directories that the loop collects for a name *)
Definition nodes3 (q : path) :=
  match find_ptr a q, find_ptr b q, find_ptr c q with
  | Ok (Some x), Ok (Some y), Ok (Some z) =>
      if 2 <=? length (List.filter isDir [x; y; z]) then [(ifDir x, ifDir y, ifDir z)] else []
  | Ok ita, Ok itb, Ok itc =>
      match omap id [ita; itb; itc] with
      | [x; y] => if isDir x && isDir y then [(ita, itb, itc)] else []
      | _ => []
      end
  | _, _, _ => []
  end.

Lemma item3_ok q :
  present3 q ->
  item3 a b c o q =
  Ok (if differ o (model a !! q) (model b !! q) || differ o (model b !! q) (model c !! q)
      then [line3 q] else [], nodes3 q).
Proof using Ha Hb Hc Htrans.
  intros Hq. unfold item3, nodes3, line3. pose proof (Htrans q) as Ht.
  pose proof (find_ptr_spec a Ha q) as HA. pose proof (find_ptr_spec b Hb q) as HB.
  pose proof (find_ptr_spec c Hc q) as HC. unfold present3 in Hq.
  destruct (model a !! q) as [e|], (model b !! q) as [e'|], (model c !! q) as [e''|];
    repeat match goal with H : exists n, _ |- _ => destruct H as (? & -> & <- & _) end;
    rewrite ?HA, ?HB, ?HC; cbn [differ]; rewrite ?orb_true_r; try done; [|by destruct Hq as [[? [=]]|[[? [=]]|[? [=]]]]].
  cbn [mbind outcome_bind omap list_omap id is_nil negb cassert differ].
  specialize (Ht _ _ _ eq_refl eq_refl eq_refl).
  destruct (compare (elem x1) (elem x0) o), (compare (elem x0) (elem x) o); cbn [negb orb]; try done.
  by rewrite (Ht eq_refl eq_refl).
Qed.

Lemma names3 p la lb lc q :
  children_of a p la -> children_of b p lb -> children_of c p lc ->
  q ∈ order (itemNames la ∪ itemNames lb ∪ itemNames lc) <-> present3 q /\ parent_path q = p.
Proof using Ha Hb Hc Horder.
  intros HA HB HC. rewrite Horder, elem_of_elements, !elem_of_union. unfold itemNames.
  rewrite !elem_of_list_to_set, (children_paths a Ha p la q HA), (children_paths b Hb p lb q HB),
    (children_paths c Hc p lc q HC). unfold present3. naive_solver.
Qed.

(** the pointer to a directory, if the tree has one there *)
Definition dir_ptr (t : DirectoryTree) (q : path) (x : option DirectoryNode) : Prop :=
  match x with
  | Some n => is_dir_at (model t) q = true /\ children_of t q (content n) /\
      forall l, children_of t (parent_path q) l -> n ∈ l
  | None => is_dir_at (model t) q = false
  end.

Lemma nodes3_spec q :
  q <> "" ->
  if good3b q then exists x y z, nodes3 q = [(x, y, z)] /\ dir_ptr a q x /\ dir_ptr b q y /\ dir_ptr c q z
  else nodes3 q = [].
Proof using Ha Hb Hc.
  intros Hq%str_empty_false. rewrite good3b_eq. unfold nodes3, dir_ptr, is_dir_at. rewrite Hq. cbn [orb].
  pose proof (find_ptr_spec a Ha q) as HA. pose proof (find_ptr_spec b Hb q) as HB.
  pose proof (find_ptr_spec c Hc q) as HC.
  destruct (model a !! q) as [e|], (model b !! q) as [e'|], (model c !! q) as [e''|];
    repeat match goal with H : exists n, _ |- _ => destruct H as (? & -> & <- & ? & _ & ?) end;
    rewrite ?HA, ?HB, ?HC; cbn [List.filter omap list_omap id]; unfold ifDir, isDir;
    repeat match goal with |- context [isDirectory (elem ?n)] =>
      destruct (isDirectory (elem n)) eqn:? end;
    cbn [andb orb length Nat.leb]; try done; do 3 eexists; (split; [reflexivity|]); auto 10.
Qed.

(** a directory that only the trees [t1] and [t2] have, out of three *)
Lemma two_way t1 t2 t3 emb d x y :
  tree_inv t1 -> tree_inv t2 -> tree_inv t3 ->
  (forall q, present3 q <-> is_Some (model t1 !! q) \/ is_Some (model t2 !! q) \/ is_Some (model t3 !! q)) ->
  (forall p, is_dir_at (model t3) p = false ->
     good3b p = is_dir_at (model t1) p && is_dir_at (model t2) p) ->
  (forall q, model t3 !! q = None -> emb (line2 t1 t2 q) = line3 q) ->
  (forall q, let p := parent_path q in is_dir_at (model t3) p = false ->
     is_dir_at (model t1) p = true -> is_dir_at (model t2) p = true -> differ2 t1 t2 o q = reported3 q) ->
  dir_ptr t1 d (Some x) -> dir_ptr t2 d (Some y) -> dir_ptr t3 d None ->
  exists L, (r ← compare2 order t1 t2 o (content x) (content y); Ok (map emb r)) = Ok (lines3 L) /\
    visits present3 good3 d L.
Proof using Horder Ha Hb Hc.
  intros H1 H2 H3 Hpres Hgood Hline Hrep (D1 & C1 & _) (D2 & C2 & _) D3. cbn [dir_ptr] in D3.
  destruct (recursiveCompare2_spec order Horder t1 t2 H1 H2 o (S (length (forest (content x)))) d
    (content x) (content y) C1 C2) as (L & E & HV); [lia|].
  exists L. unfold compare2. rewrite E. cbn [mbind outcome_bind]. split.
  - f_equal. apply map_filter_ext. intros q Hq. apply (proj2 HV) in Hq as (Hq & Hb' & [G1 G2]).
    destruct (nothing_below t3 d q H3 D3 (present2_path t1 t2 H1 H2 q Hq) Hb') as [Hn Hp]. auto.
  - apply (visits_ext (present2 t1 t2) present3 (good2 t1 t2) good3); [|done].
    intros q Hbq. unfold good3. split.
    + intros [Hq [G1 G2]]. pose proof (present2_path t1 t2 H1 H2 q Hq) as Hg.
      destruct (nothing_below t3 d q H3 D3 Hg Hbq) as [Hn Hp].
      rewrite Hpres, Hgood, G1, G2 by done. split; [|done]. destruct Hq; auto.
    + intros [Hq G]. destruct (nothing_below t3 d q H3 D3 (present3_path q Hq) Hbq) as [Hn Hp].
      rewrite Hgood in G by done. apply andb_true_iff in G. split; [|done].
      apply Hpres in Hq as [?|[?|[? ?]]]; [by left|by right|congruence].
Qed.

Lemma visit3_spec (rec : list DirectoryNode -> list DirectoryNode -> list DirectoryNode -> _) d x y z :
  good3 d -> dir_ptr a d x -> dir_ptr b d y -> dir_ptr c d z ->
  (forall nx ny nz, x = Some nx -> y = Some ny -> z = Some nz ->
     exists L, rec (content nx) (content ny) (content nz) = Ok (lines3 L) /\ visits present3 good3 d L) ->
  exists L, visit3 order rec a b c o (x, y, z) = Ok (lines3 L) /\ visits present3 good3 d L.
Proof using Horder Ha Hb Hc.
  intros Hd Hx Hy Hz Hrec. unfold good3 in Hd. rewrite good3b_eq in Hd. unfold visit3.
  destruct x as [x|], y as [y|], z as [z|];
    repeat match goal with
      | H : dir_ptr ?t d None |- _ => let H' := fresh in pose proof H as H'; cbn in H'; rewrite H' in Hd; revert H
      end; intros; rewrite ?andb_false_r in Hd; try discriminate Hd.
  - by apply Hrec.
  - apply (two_way a b c); try done.
    + intros p Hp. rewrite good3b_eq, Hp, !andb_false_r, !orb_false_r. done.
    + intros q Hn. unfold line3, without_c, line2. by rewrite Hn.
    + intros q p H3 H1 H2. unfold reported3, differ3. fold p. by rewrite H1, H2, H3.
  - apply (two_way a c b); try done.
    + intros q. unfold present3. naive_solver.
    + intros p Hp. rewrite good3b_eq, Hp, !andb_false_r, !orb_false_r. done.
    + intros q Hn. unfold line3, without_b, line2. by rewrite Hn.
    + intros q p H3 H1 H2. unfold reported3, differ3. fold p. by rewrite H1, H3.
  - apply (two_way b c a); try done.
    + intros q. unfold present3. naive_solver.
    + intros p Hp. rewrite good3b_eq, Hp. done.
    + intros q Hn. unfold line3, without_a, line2. by rewrite Hn.
    + intros q p H3 H1 H2. unfold reported3, differ3. fold p. by rewrite H3.
Qed.

Lemma recursiveCompare3_spec fuel p la lb lc :
  children_of a p la -> children_of b p lb -> children_of c p lc -> length (forest la) < fuel ->
  exists L, recursiveCompare3 order fuel a b c o la lb lc = Ok (lines3 L) /\
    visits present3 good3 p L.
Proof using Ha Hb Hc Horder Htrans.
  revert p la lb lc. induction fuel as [|fuel IH]; intros p la lb lc HA HB HC Hfuel; [lia|].
  set (N := order (itemNames la ∪ itemNames lb ∪ itemNames lc)).
  assert (HN : forall q, q ∈ N <-> present3 q /\ parent_path q = p) by (intros; by apply names3).
  pose proof (children_dir a Ha p la HA) as [DA _]. pose proof (children_dir b Hb p lb HB) as [DB _].
  pose proof (children_dir c Hc p lc HC) as [DC _].
  cbn [recursiveCompare3]. fold N.
  rewrite (for_each_collect (item3 a b c o) (fun q => if reported3 q then [line3 q] else []) nodes3);
    cycle 1.
  { intros q [Hq Hp]%HN. unfold reported3, differ3. rewrite Hp, DA, DB, DC. cbn [negb].
    by apply item3_ok. }
  cbn [app mbind outcome_bind]. rewrite flat_map_filter. fold (lines3 N).
  destruct (for_each_dirs (visit3 order (recursiveCompare3 order fuel a b c o) a b c o)
    nodes3 good3b (visits present3 good3) lines3) with (names := N) (res := lines3 N) as (Ls & HV & E).
  { done. }
  { intros l k. unfold lines3. by rewrite List.filter_app, map_app. }
  { intros q [Hq Hp]%HN. pose proof (good_path_nonempty _ (present3_path q Hq)) as Hne.
    pose proof (nodes3_spec q Hne) as Hn. destruct (good3b q) eqn:Hgq; [|done].
    destruct Hn as (x & y & z & Hn & PA & PB & PC).
    destruct (visit3_spec (recursiveCompare3 order fuel a b c o) q x y z Hgq PA PB PC) as (L & EL & VL).
    { intros nx ny nz -> -> ->. destruct PA as (_ & CA & Hx), PB as (_ & CB & _), PC as (_ & CC & _).
      rewrite Hp in Hx. apply (IH q); [done..|]. pose proof (content_smaller nx la (Hx _ HA)). lia. }
    by exists (x, y, z), L. }
  exists (N ++ concat Ls). split.
  - etransitivity; [exact E|]. unfold lines3. by rewrite List.filter_app, map_app.
  - eapply (visits_level present3 good3 present3_path good3_parent p N); [|..|exact HV].
    + unfold good3. by rewrite good3b_eq, DA, DB, DC.
    + unfold N. rewrite Horder. apply NoDup_elements.
    + exact HN.
    + apply NoDup_filter_bool. unfold N. rewrite Horder. apply NoDup_elements.
    + intros d. by rewrite elem_of_filter_bool.
Qed.

(** [diff3] computes the reference diff, in some order. *)
Lemma diff3_reference :
  exists r, diff3 order a b c o = Ok r /\ r ≡ₚ reference3 (model a) (model b) (model c) o.
Proof using Ha Hb Hc Horder Htrans.
  destruct (recursiveCompare3_spec (S (length (forest (topContent a)))) "" (topContent a) (topContent b)
    (topContent c)) as (L & E & HV); [by left..|lia|].
  exists (lines3 L). split; [exact E|]. unfold reference3, lines3.
  pose proof (visits_top L _ _ present3_path HV) as Hin. destruct HV as [Hnd _].
  rewrite filter_and. apply Permutation_map. f_equiv.
  apply NoDup_Permutation; [done|apply NoDup_filter_bool, NoDup_elements|].
  intros q. rewrite Hin, elem_of_filter_bool, elem_of_elements, !elem_of_union, !elem_of_dom.
  unfold present3, good3, good3b. tauto.
Qed.
End diff3.

(** *** Hashed trees *)

(** the regular files of a tree, and only they, have a hash *)
Definition hashed (t : DirectoryTree) : Prop :=
  map_Forall (fun _ e => ty e = regular <-> fileHash e <> "") (model t).

Lemma hashed_transitive a b c o :
  o_hash o = false \/ (hashed a /\ hashed b) ->
  forall q x y z, model a !! q = Some x -> model b !! q = Some y -> model c !! q = Some z ->
    compare x y o = true -> compare y z o = true -> compare x z o = true.
Proof.
  intros H q x y z Ex Ey Ez Hxy. apply compare_trans; [|done]. destruct H as [H|[HA HB]]; [by left|].
  apply compare_spec in Hxy as (Ht & _). specialize (HA q x Ex). specialize (HB q y Ey). cbn in HA, HB.
  destruct (decide (ty y = regular)) as [Hr|Hr]; [right; left; by apply HB|].
  right; right. destruct (decide (fileHash x = "")) as [|Hn]; [done|]. apply HA in Hn. congruence.
Qed.

(** *** No difference *)

Lemma dirs_at_3 ma mb mc p :
  is_dir_at ma p = true -> is_dir_at mb p = true -> is_dir_at mc p = true -> dirs_at ma mb mc p = 3.
Proof. intros Ea Eb Ec. unfold dirs_at. cbn [List.filter]. by rewrite Ea, Eb, Ec. Qed.

(** the directory of a path is a directory of all three trees *)
Definition all_dirs (a b c : DirectoryTree) (p : path) : Prop :=
  is_dir_at (model a) p = true /\ is_dir_at (model b) p = true /\ is_dir_at (model c) p = true.

Lemma differ3_all a b c o q :
  all_dirs a b c (parent_path q) ->
  differ3 (model a) (model b) (model c) o q =
  differ o (model a !! q) (model b !! q) || differ o (model b !! q) (model c !! q).
Proof. intros (Da & Db & Dc). unfold differ3. by rewrite Da, Db, Dc. Qed.

(** where all visited paths agree, all paths are visited *)
Lemma all_seen3 a b c o :
  tree_inv a -> tree_inv b -> tree_inv c ->
  (forall q, all_dirs a b c (parent_path q) -> differ3 (model a) (model b) (model c) o q = false) ->
  forall q, present3 a b c q -> all_dirs a b c (parent_path q).
Proof.
  intros Ha Hb Hc Hseen q. remember (length (comps q)) as k eqn:Hk. revert q Hk.
  induction (lt_wf k) as [k _ IH]. intros q -> Hq. pose proof (present3_path a b c Ha Hb Hc q Hq) as Hg.
  destruct (decide (parent_path q = "")) as [->|Hp]; [by split_and!|].
  assert (Hor : is_dir_at (model a) (parent_path q) = true \/ is_dir_at (model b) (parent_path q) = true \/
    is_dir_at (model c) (parent_path q) = true).
  { destruct Hq as [Hq|[Hq|Hq]]; [left; by apply (present_parent a Ha)|right; left; by apply (present_parent b Hb)|
      right; right; by apply (present_parent c Hc)]. }
  assert (Hup : all_dirs a b c (parent_path (parent_path q))).
  { eapply IH; [|done|].
    - rewrite (comps_parent q Hg), length_app. simpl. lia.
    - destruct Hor as [H|[H|H]]; apply dir_at_present in H; unfold present3; auto. }
  pose proof (Hseen _ Hup) as Hd. rewrite differ3_all in Hd by done. apply orb_false_iff in Hd as [Hab Hbc].
  apply is_dir_at_agree in Hab, Hbc. unfold all_dirs. rewrite Hab, Hbc in *.
  destruct Hor as [H|[H|H]]; auto.
Qed.

Lemma reference3_nil a b c o :
  tree_inv a -> tree_inv b -> tree_inv c ->
  reference3 (model a) (model b) (model c) o = [] <->
  agree o (model a) (model b) /\ agree o (model b) (model c).
Proof.
  intros Ha Hb Hc. unfold reference3.
  assert (Hin : forall q, present3 a b c q <-> q ∈ elements (dom (model a) ∪ dom (model b) ∪ dom (model c))).
  { intros q. rewrite elem_of_elements, !elem_of_union, !elem_of_dom. unfold present3. tauto. }
  assert (Hnone : forall q, ~ present3 a b c q ->
    model a !! q = None /\ model b !! q = None /\ model c !! q = None).
  { intros q Hn. unfold present3 in Hn. rewrite !eq_None_not_Some. tauto. }
  split.
  - intros E%fmap_nil_inv.
    assert (Hseen : forall q, all_dirs a b c (parent_path q) -> differ3 (model a) (model b) (model c) o q = false).
    { intros q Hall. destruct (differ3 _ _ _ _ q) eqn:Hd; [exfalso|done].
      apply (not_elem_of_nil q). rewrite <-E, elem_of_filter_bool, <-Hin, Hd.
      destruct Hall as (Da & Db & Dc). rewrite dirs_at_3 by done. split; [|done].
      destruct (decide (q ∈ elements (dom (model a) ∪ dom (model b) ∪ dom (model c)))) as [Hq|Hq];
        [by apply Hin|]. rewrite <-Hin in Hq. apply Hnone in Hq as (E1 & E2 & E3).
      rewrite differ3_all, E1, E2, E3 in Hd by done. done. }
    assert (Hall : forall q, differ o (model a !! q) (model b !! q) || differ o (model b !! q) (model c !! q) = false).
    { intros q. destruct (decide (q ∈ elements (dom (model a) ∪ dom (model b) ∪ dom (model c)))) as [Hq|Hq].
      - pose proof (all_seen3 a b c o Ha Hb Hc Hseen q (proj2 (Hin q) Hq)) as Hd.
        rewrite <-(differ3_all a b c o q Hd). by apply Hseen.
      - rewrite <-Hin in Hq. apply Hnone in Hq as (-> & -> & ->). done. }
    split; intros q; specialize (Hall q); by apply orb_false_iff in Hall as [? ?].
  - intros [Hab Hbc].
    assert (Hf : forall q, (2 <=? dirs_at (model a) (model b) (model c) (parent_path q)) &&
      differ3 (model a) (model b) (model c) o q = false).
    { intros q. pose proof (Hab q) as H1. pose proof (Hbc q) as H2.
      pose proof (is_dir_at_agree o _ _ (parent_path q) (Hab _)) as D1.
      pose proof (is_dir_at_agree o _ _ (parent_path q) (Hbc _)) as D2.
      unfold differ3, dirs_at. cbn [List.filter]. rewrite D1, D2, H1, H2.
      by destruct (is_dir_at (model c) (parent_path q)). }
    rewrite (List.filter_ext _ (fun _ => false)) by exact Hf.
    by assert (forall l : list path, List.filter (fun _ => false) l = []) as -> by (by intros l; induction l).
Qed.
