(* ===== verification/FileSystem.v ===== *)
(** * The filesystem

    What src/core.cpp, src/extfs.cpp and src/backup.cpp use of the POSIX
    filesystem through [std::filesystem] and system calls. A file is found by
    the names on the way from the root directory to it. Creating or removing an
    entry changes the modification time of its directory; new entries belong to
    the user who runs the program. Paths are taken as they are written: symbolic
    links in the directory part of a path are not resolved, and paths have no
    dot components. Names with several hard links are files of their own: a change
    of one of them is not seen through the others. *)

From S2P Require Import Prelude CxxPath CxxTime CxxStream Element.

(** ** Locations *)

Abbreviation location := (list string).

(** the names of a path, starting at the root directory *)
Definition locate (p : path) : location := filter (fun n => n <> "") (split_sep p).

(** [path::lexically_relative] *)
Fixpoint mismatch (a b : list string) : list string * list string :=
  match a, b with
  | x :: a', y :: b' => if str_eqb x y then mismatch a' b' else (a, b)
  | _, _ => (a, b)
  end.

Definition up_steps (b : list string) : Z :=
  foldr (fun x n => (if str_eqb x ".." then n - 1
                     else if str_empty x || str_eqb x "." then n else n + 1)%Z) 0%Z b.

Definition lexically_relative (p base : path) : path :=
  if negb (Bool.eqb (has_root_directory p) (has_root_directory base)) then ""
  else
    let '(a, b) := mismatch (relative_elems p) (relative_elems base) in
    match a, b with
    | [], [] => "."
    | _, _ =>
        let n := up_steps b in
        if (n =? 0)%Z && match a with [] => true | x :: _ => str_empty x end then "."
        else if (n <? 0)%Z then ""
        else foldl path_append "" (replicate (Z.to_nat n) ".." ++ a)
    end.

(** ** Files *)

Record Inode := mkInode {
  i_type : file_type;
  i_perm : Z;
  i_user : string;
  i_group : string;
  i_mtime : Z;
  i_data : string;    (** content of a regular file *)
  i_target : path;    (** target of a symbolic link *)
  i_links : Z }.

(** what the program may do with owners: is it allowed to change them, and which
    names do [ext_lookup_user] and [ext_lookup_group] translate; these are the names
    of the user database and, for owners without a name there, the numbers of the
    files that were scanned, which are in the caches of src/extfs.cpp *)
Record Rights := mkRights {
  may_chown : bool;
  known_users : gset string;
  known_groups : gset string }.

Definition may_own (r : Rights) (user group : string) : bool :=
  may_chown r && bool_decide (user ∈ known_users r) && bool_decide (group ∈ known_groups r).

Record FS := mkFS {
  inodes : gmap location Inode;
  clock : Z;                   (** time that the next change gets *)
  self_user : string;          (** who runs the program *)
  self_group : string;
  umask : Z;
  rights : Rights }.

Abbreviation fs_method := (method FS).

Definition set_inodes (m : gmap location Inode) (fs : FS) : FS :=
  mkFS m (clock fs + 1) (self_user fs) (self_group fs) (umask fs) (rights fs).

Definition with_mtime (t : Z) (i : Inode) : Inode :=
  mkInode (i_type i) (i_perm i) (i_user i) (i_group i) t (i_data i) (i_target i) (i_links i).
Definition with_perm (pe : Z) (i : Inode) : Inode :=
  mkInode (i_type i) pe (i_user i) (i_group i) (i_mtime i) (i_data i) (i_target i) (i_links i).

(** a change of owner clears the set-user-ID bit of what is not a directory, and the
    set-group-ID bit if the group may execute the file; links do not have them *)
Definition drop_set_id (perm : Z) : Z :=
  let perm := Z.ldiff perm 2048 in
  if Z.testbit perm 3 then Z.ldiff perm 1024 else perm.

Definition chown_mode (t : file_type) (perm : Z) : Z :=
  match t with directory | symlink_ => perm | _ => drop_set_id perm end.

Definition with_owner (u g : string) (i : Inode) : Inode :=
  mkInode (i_type i) (chown_mode (i_type i) (i_perm i)) u g (i_mtime i) (i_data i) (i_target i) (i_links i).

Definition fs_error (what : string) (p : path) : error :=
  Throw ("filesystem error: " +:+ what +:+ " [" +:+ p +:+ "]").

Definition dir_loc (l : location) : location := take (pred (length l)) l.

Definition is_dir_loc (fs : FS) (l : location) : bool :=
  match inodes fs !! l with Some i => bool_decide (i_type i = directory) | None => false end.

(** [is_directory] and [exists] *)
Definition is_directory (fs : FS) (p : path) : bool := is_dir_loc fs (locate p).
Definition fs_exists (fs : FS) (p : path) : bool := bool_decide (is_Some (inodes fs !! locate p)).

(** the names in a directory *)
Definition dir_names (fs : FS) (l : location) : gset string :=
  list_to_set (omap (fun k => if bool_decide (k <> [] /\ dir_loc k = l) then last k else None)
                (map_to_list (inodes fs)).*1).

(** [directory_iterator(p)]: the paths of the entries, in the order of [order] *)
Definition directory_iterator (order : gset string -> list string) (fs : FS) (p : path)
    : outcome (list path) :=
  if is_directory fs p then Ok ((fun n => p // n) <$> order (dir_names fs (locate p)))
  else Err (fs_error "directory iterator cannot open directory" p).

(** ** Changes *)

(** a new entry in an existing directory *)
Definition fs_create (what : string) (p : path) (i : Inode) : fs_method unit := fun fs =>
  let l := locate p in
  if negb (is_dir_loc fs (dir_loc l)) || bool_decide (is_Some (inodes fs !! l))
  then (Err (fs_error what p), fs)
  else (Ok tt, set_inodes (<[l := i]> (alter (with_mtime (clock fs)) (dir_loc l) (inodes fs))) fs).

Definition new_inode (fs : FS) (t : file_type) (perm : Z) (data target : string) : Inode :=
  mkInode t perm (self_user fs) (self_group fs) (clock fs) data target 1.

(** [copy_file]: content and permissions; fails if the destination exists *)
Definition copy_file (src dst : path) : fs_method bool := fun fs =>
  match inodes fs !! locate src with
  | Some i =>
      if bool_decide (i_type i = regular) then
        (_ ← fs_create "cannot copy file" dst (new_inode fs regular (i_perm i) (i_data i) ""); mret true) fs
      else (Err (fs_error "cannot copy file" src), fs)
  | None => (Err (fs_error "cannot copy file" src), fs)
  end.

Definition create_symlink (target dst : path) : fs_method unit := fun fs =>
  fs_create "cannot create symlink" dst (new_inode fs symlink_ 511 "" target) fs.

Definition copy_symlink (src dst : path) : fs_method unit := fun fs =>
  match inodes fs !! locate src with
  | Some i =>
      if bool_decide (i_type i = symlink_) then create_symlink (i_target i) dst fs
      else (Err (fs_error "cannot copy symlink" src), fs)
  | None => (Err (fs_error "cannot copy symlink" src), fs)
  end.

(** [create_directory]: false if the directory exists *)
Definition create_directory (p : path) : fs_method bool := fun fs =>
  if is_directory fs p then (Ok false, fs)
  else (_ ← fs_create "cannot create directory" p
               (new_inode fs directory (Z.ldiff 511 (umask fs)) "" ""); mret true) fs.

(** a change of an existing file *)
Definition fs_update (err : error) (l : location) (f : Inode -> Inode) : fs_method unit := fun fs =>
  match inodes fs !! l with
  | Some i => (Ok tt, set_inodes (<[l := f i]> (inodes fs)) fs)
  | None => (Err err, fs)
  end.

(** [permissions(p, perm)] follows a symbolic link *)
Definition permissions (p : path) (perm : Z) : fs_method unit := fun fs =>
  let l := locate p in
  let l := match inodes fs !! l with
           | Some i => if bool_decide (i_type i = symlink_)
                       then locate (if has_root_directory (i_target i) then i_target i
                                    else parent_path p // i_target i)
                       else l
           | None => l
           end in
  fs_update (fs_error "cannot set permissions" p) l (with_perm perm) fs.

(** [remove_all]: number of entries removed *)
Definition remove_all (p : path) : fs_method nat := fun fs =>
  let l := locate p in
  let gone := filter (fun '(k, _) => l `prefix_of` k) (inodes fs) in
  if bool_decide (gone = ∅) then (Ok 0, fs)
  else (Ok (size gone),
        set_inodes (alter (with_mtime (clock fs)) (dir_loc l)
                      (filter (fun '(k, _) => ~ l `prefix_of` k) (inodes fs))) fs).

(** [ext_symlink_last_write_time] *)
Definition ext_symlink_last_write_time (p : path) (mtime : Z) : fs_method unit :=
  fs_update (Throw ("ext_symlink_last_write_time failed with path " +:+ p)) (locate p) (with_mtime mtime).

(** [ext_symlink_change_ownership]: the names are looked up, then [lchown] is called *)
Definition ext_symlink_change_ownership (p : path) (user group : string) : fs_method unit := fun fs =>
  let err := Throw ("ext_symlink_change_ownership failed with path " +:+ p) in
  if negb (bool_decide (user ∈ known_users (rights fs)))
  then (Err (Throw ("ext_lookup_user(const string& user): user " +:+ user +:+ " not found in the system")), fs)
  else if negb (bool_decide (group ∈ known_groups (rights fs)))
  then (Err (Throw ("ext_lookup_group(const string& group): group " +:+ group +:+ " not found in the system")), fs)
  else if may_chown (rights fs) then fs_update err (locate p) (with_owner user group) fs
  else (Err err, fs).

(** a file can be given to [user] and [group], or the call throws *)
Lemma change_ownership_cases p user group fs :
  ext_symlink_change_ownership p user group fs =
    fs_update (Throw ("ext_symlink_change_ownership failed with path " +:+ p)) (locate p) (with_owner user group) fs /\
    may_own (rights fs) user group = true \/
  (exists what, ext_symlink_change_ownership p user group fs = (Err (Throw what), fs)) /\
    may_own (rights fs) user group = false.
Proof.
  unfold ext_symlink_change_ownership, may_own.
  destruct (may_chown (rights fs)), (bool_decide (user ∈ known_users _)), (bool_decide (group ∈ known_groups _)); cbn; eauto.
Qed.

(** the nine permission bits survive a change of owner *)
Lemma nine_bits_ldiff perm k : Z.land perm 511 = perm -> Z.land 511 k = 0%Z -> Z.ldiff perm k = perm.
Proof.
  intros H Hk. apply Z.bits_inj'. intros n Hn. rewrite Z.ldiff_spec.
  pose proof (f_equal (fun z => Z.testbit z n) H) as H1. pose proof (f_equal (fun z => Z.testbit z n) Hk) as H2.
  cbn beta in H1, H2. rewrite Z.land_spec in H1, H2. rewrite Z.bits_0 in H2.
  destruct (Z.testbit perm n), (Z.testbit 511 n), (Z.testbit k n); done.
Qed.

Lemma nine_bits_kept t perm : Z.land perm 511 = perm -> chown_mode t perm = perm.
Proof.
  intros H. assert (drop_set_id perm = perm); [|by destruct t].
  unfold drop_set_id. rewrite (nine_bits_ldiff perm 2048 H), (nine_bits_ldiff perm 1024 H) by done.
  by destruct (Z.testbit perm 3).
Qed.

(** ** Well-formed filesystems *)

(** every file lies in a directory, names are names, and symbolic links have all
    permissions *)
Definition fs_wf (fs : FS) : Prop :=
  map_Forall (fun l i => (l <> [] -> is_dir_loc fs (dir_loc l) = true /\ forallb good_name l = true) /\
                         (i_type i = symlink_ -> i_perm i = 511%Z)) (inodes fs).

#[global] Instance fs_wf_dec fs : Decision (fs_wf fs).
Proof. unfold fs_wf. apply _. Defined.
