(* ===== verification/FsSpec.v ===== *)
(** * Laws of the filesystem model *)

From S2P Require Import Prelude CxxPath CxxTime CxxStream Element FileSystem.

(** ** Locations of paths *)

Lemma split_last_join s d f : split_last s = Some (d, f) -> s = d +:+ String sep f.
Proof.
  revert d. induction s as [|c s IH]; intros d; [done|]. cbn [split_last].
  destruct (split_last s) as [[d' f']|] eqn:E.
  - intros [= <- <-]. by rewrite app_cons_str, <-(IH d' eq_refl).
  - destruct (is_sep c) eqn:Hc; [|done]. apply is_sep_true in Hc as ->. by intros [= <- <-].
Qed.

Lemma split_last_app_sep s t :
  split_last (s +:+ String sep t) =
  match split_last t with
  | Some (d, f) => Some (s +:+ String sep d, f)
  | None => Some (s, t)
  end.
Proof.
  induction s as [|c s IH].
  - rewrite app_nil_l_str. cbn [split_last]. rewrite (proj2 (is_sep_true sep) eq_refl).
    by destruct (split_last t) as [[d f]|].
  - rewrite app_cons_str. cbn [split_last]. rewrite IH. by destruct (split_last t) as [[d f]|].
Qed.

Lemma locate_sep p q : locate (p +:+ String sep q) = locate p ++ locate q.
Proof. unfold locate. by rewrite split_sep_app_sep, filter_app. Qed.

Lemma locate_append p q :
  has_root_directory q = false -> locate (p // q) = locate p ++ locate q.
Proof.
  intros Hq. unfold path_append. rewrite Hq. destruct (str_empty (filename p)) eqn:Hf; [|apply locate_sep].
  apply str_empty_true in Hf. unfold filename in Hf.
  destruct (split_last p) as [[d f]|] eqn:E; [|by subst].
  subst f. apply split_last_join in E as ->.
  rewrite app_assoc_str, app_cons_str, app_nil_l_str, !locate_sep. by rewrite app_nil_r.
Qed.

Lemma locate_good q : good_dir q = true -> locate q = comps q.
Proof.
  unfold good_dir. rewrite orb_true_iff, str_empty_true. intros [->|H]; [done|].
  rewrite good_path_comps by done. unfold locate, good_path in *.
  induction (split_sep q) as [|n l IH]; [done|]. cbn [forallb] in H. split_andb.
  rewrite filter_cons_True, IH; [done..|]. by apply good_name_spec in H as [? _].
Qed.

Lemma good_dir_root q : good_dir q = true -> has_root_directory q = false.
Proof.
  unfold good_dir. rewrite orb_true_iff, str_empty_true. intros [->|H]; [done|]. by apply good_path_root.
Qed.

Lemma locate_entry top q : good_dir q = true -> locate (top // q) = locate top ++ comps q.
Proof. intros H. rewrite locate_append, (locate_good q) by (done || by apply good_dir_root). done. Qed.

(** ** Absolute paths *)

(** an absolute path in normal form *)
Definition good_top (top : path) : bool :=
  match top with String c r => is_sep c && good_dir r | "" => false end.

Lemma good_top_form top : good_top top = true -> exists r, top = String sep r /\ good_dir r = true.
Proof.
  destruct top as [|c r]; [done|]. cbn [good_top]. intros H. split_andb.
  exists r. split; [f_equal; by apply is_sep_true|done].
Qed.

Lemma filename_sep s t : t <> "" -> filename (s +:+ String sep t) = filename t.
Proof.
  intros Ht. unfold filename. rewrite split_last_app_sep. by destruct (split_last t) as [[d f]|].
Qed.

(** the paths that the iteration over the directory [p] of the tree yields *)
Lemma append_assoc top p n :
  good_dir p = true -> good_name n = true -> top // p // n = top // (p // n).
Proof.
  unfold good_dir. rewrite orb_true_iff, str_empty_true. intros [->|Hp] Hn.
  - rewrite path_append_top by done. unfold path_append at 2. cbn [has_root_directory].
    destruct (str_empty (filename top)) eqn:Hf; [by rewrite app_nil_r_str|].
    unfold path_append. rewrite (good_name_root n) by done. rewrite Hf. unfold filename at 1.
    rewrite split_last_app_sep. cbn [split_last str_empty]. by rewrite app_assoc_str, app_cons_str.
  - assert (Hne : filename p <> "").
    { apply filename_good in Hp. by apply good_name_spec in Hp as [? _]. }
    rewrite (path_append_good p n) by done.
    assert (Hf : str_empty (filename (top // p)) = false).
    { apply str_empty_false. unfold path_append. rewrite (good_path_root p) by done.
      destruct (str_empty (filename top)) eqn:Hf; [|by rewrite filename_sep by (by apply good_path_nonempty)].
      apply str_empty_true in Hf. unfold filename in Hf.
      destruct (split_last top) as [[d f]|] eqn:E; [|by subst]. subst f.
      apply split_last_join in E as ->.
      rewrite app_assoc_str, app_cons_str, app_nil_l_str, filename_sep by (by apply good_path_nonempty). done. }
    unfold path_append at 1. rewrite (good_name_root n), Hf by done.
    unfold path_append. rewrite (good_path_root p) by done.
    assert (has_root_directory (p +:+ String sep n) = false) as ->.
    { pose proof (good_path_root p Hp). pose proof (good_path_nonempty p Hp). by destruct p. }
    destruct (str_empty (filename top)); autorewrite with strs; done.
Qed.

Lemma comps_append_path r q :
  good_dir r = true -> good_path q = true -> comps (r // q) = comps r ++ comps q /\ good_path (r // q) = true.
Proof.
  unfold good_dir. rewrite orb_true_iff, str_empty_true. intros [->|Hr] Hq.
  - unfold path_append. rewrite good_path_root by done. done.
  - assert (Hf : str_empty (filename r) = false).
    { apply str_empty_false. apply filename_good in Hr. by apply good_name_spec in Hr as [? _]. }
    unfold path_append. rewrite good_path_root, Hf by done.
    assert (Hg : good_path (r +:+ String sep q) = true).
    { unfold good_path in *. rewrite split_sep_app_sep, forallb_app. by rewrite Hr, Hq. }
    split; [|done]. rewrite !good_path_comps by done. apply split_sep_app_sep.
Qed.

Lemma top_append top q :
  good_top top = true -> good_path q = true ->
  exists r, top = String sep r /\ good_dir r = true /\ top // q = String sep (r // q).
Proof.
  intros (r & -> & Hr)%good_top_form Hq. exists r. split_and!; [done..|].
  unfold path_append. rewrite good_path_root by done.
  destruct r as [|c r]; [done|].
  assert (Hf : filename (String sep (String c r)) = filename (String c r)).
  { change (String sep (String c r)) with ("" +:+ String sep (String c r)). by apply filename_sep. }
  rewrite Hf. by destruct (str_empty (filename (String c r))).
Qed.

Lemma relative_elems_top r :
  good_dir r = true -> relative_elems (String sep r) = comps r.
Proof.
  unfold good_dir. rewrite orb_true_iff, str_empty_true. intros [->|Hr]; [done|].
  rewrite good_path_comps, <-relative_elems_good by done.
  unfold relative_elems. cbn [ltrim_sep]. unfold is_sep at 1. by rewrite bool_decide_true.
Qed.

Lemma mismatch_prefix l k : mismatch (l ++ k) l = (k, []).
Proof.
  induction l as [|x l IH]; [by destruct k|]. cbn [app mismatch]. unfold str_eqb.
  by rewrite bool_decide_true.
Qed.

Lemma foldl_comps q : good_path q = true -> foldl path_append "" (comps q) = q.
Proof.
  intros Hg. pose proof Hg as H. revert q H Hg. apply (good_path_rev_ind (fun q => _ -> _ = q)).
  - intros n Hn _. rewrite good_path_comps, good_name_split by auto. by apply path_append_top.
  - intros d n Hd Hn IH _. rewrite <-(path_append_good d n), comps_append, foldl_app by auto.
    cbn [foldl]. by rewrite (IH Hd).
Qed.

(** the path relative to the top directory is the path in the tree *)
Lemma lexically_relative_entry top q :
  good_top top = true -> good_path q = true -> lexically_relative (top // q) top = q.
Proof.
  intros Ht Hq. destruct (top_append top q Ht Hq) as (r & -> & Hr & ->).
  destruct (comps_append_path r q Hr Hq) as [Hc Hg]. unfold lexically_relative.
  cbn [has_root_directory]. rewrite Bool.eqb_reflx. cbn [negb].
  rewrite !relative_elems_top, Hc, mismatch_prefix by auto.
  pose proof (good_comps q (good_path_dir _ Hq)) as Hgc. pose proof (foldl_comps q Hq) as Hf.
  destruct (comps q) as [|x l] eqn:E.
  { apply comps_nil in E as ->. done. }
  cbn [forallb] in Hgc. split_andb. apply good_name_spec in H as [Hx%str_empty_false _].
  cbn [up_steps foldr]. rewrite Hx. cbn. exact Hf.
Qed.

(** ** Directories *)

Lemma dir_loc_prefix l : dir_loc l `prefix_of` l.
Proof. unfold dir_loc. eexists. symmetry. apply take_drop. Qed.

Lemma dir_loc_snoc l n : dir_loc (l ++ [n]) = l.
Proof. unfold dir_loc. rewrite length_app, Nat.add_1_r. cbn [pred]. by rewrite take_app_length. Qed.

Lemma elem_of_dir_names fs l n : n ∈ dir_names fs l <-> is_Some (inodes fs !! (l ++ [n])).
Proof.
  unfold dir_names. rewrite elem_of_list_to_set, list_elem_of_omap. split.
  - intros (k & Hk & Hn). case_bool_decide as Hd; [|done]. destruct Hd as [Hne Hd].
    apply last_Some in Hn as [k' ->]. rewrite dir_loc_snoc in Hd. subst l.
    apply list_elem_of_fmap in Hk as ([k'' i] & -> & Hk). apply elem_of_map_to_list in Hk. eauto.
  - intros [i Hi]. exists (l ++ [n]). split.
    + apply list_elem_of_fmap. exists (l ++ [n], i). split; [done|]. by apply elem_of_map_to_list.
    + rewrite bool_decide_true; [by rewrite last_snoc|]. rewrite dir_loc_snoc.
      split; [by destruct l|done].
Qed.

Section fs_wf.
Context (fs : FS) (Hwf : fs_wf fs).

Lemma fs_names l i : inodes fs !! l = Some i -> forallb good_name l = true.
Proof using Hwf.
  intros Hl. destruct (decide (l = [])) as [->|Hne]; [done|]. by apply (proj1 (Hwf l i Hl) Hne).
Qed.

(** what is above a file is a directory *)
Lemma fs_above l k : is_Some (inodes fs !! (l ++ k)) -> k <> [] -> is_dir_loc fs l = true.
Proof using Hwf.
  revert l. induction k as [|n k IH] using rev_ind; intros l [i Hi] Hk; [done|].
  rewrite app_assoc in Hi. destruct (proj1 (Hwf _ _ Hi)) as [Hd _]; [by destruct (l ++ k)|].
  rewrite dir_loc_snoc in Hd. destruct (decide (k = [])) as [->|Hne]; [by rewrite app_nil_r in Hd|].
  apply IH; [|done]. unfold is_dir_loc in Hd. destruct (inodes fs !! (l ++ k)); [by eexists|done].
Qed.
End fs_wf.
