(* ===== verification/MetaFiles.v ===== *)
(** * Files by name

    What src/core.cpp, src/backup.cpp and src/main.cpp use of file streams:
    opening a file for reading or writing, and giving it another name. The path
    may be relative to the current directory ([absolute]), and a symbolic link at
    its end is followed once. *)

From S2P Require Import Prelude CxxPath CxxTime CxxStream Element Node Tree TreeIO FileSystem.

Section files.
Context (absolute : path -> path).

(** where opening [p] leads to *)
Definition follow (fs : FS) (p : path) : location :=
  let p := absolute p in
  match inodes fs !! locate p with
  | Some i => if bool_decide (i_type i = symlink_)
              then locate (if has_root_directory (i_target i) then i_target i else parent_path p // i_target i)
              else locate p
  | None => locate p
  end.

(** [exists], which asks for what a link leads to *)
Definition file_exists (fs : FS) (p : path) : bool := bool_decide (is_Some (inodes fs !! follow fs p)).

(** [ifstream in(p)]: the text of a file that can be opened; a directory can be
    opened, but nothing is read from it *)
Definition read_file (fs : FS) (p : path) : option string :=
  match inodes fs !! follow fs p with
  | Some i =>
      match i_type i with
      | regular => Some (i_data i)
      | directory => Some ""
      | _ => None
      end
  | None => None
  end.

Definition with_data (t : Z) (text : string) (i : Inode) : Inode :=
  mkInode (i_type i) (i_perm i) (i_user i) (i_group i) t text (i_target i) (i_links i).

(** [ofstream out(p)], and the text that is written to it; [err] if the file
    cannot be opened *)
Definition write_file (err : error) (p : path) (text : string) : fs_method unit := fun fs =>
  let l := follow fs p in
  match inodes fs !! l with
  | Some i => if bool_decide (i_type i = regular) then fs_update err l (with_data (clock fs) text) fs
              else (Err err, fs)
  | None =>
      if is_dir_loc fs (dir_loc l) then
        (Ok tt, set_inodes (<[l := new_inode fs regular (Z.ldiff 438 (umask fs)) text ""]>
                  (alter (with_mtime (clock fs)) (dir_loc l) (inodes fs))) fs)
      else (Err err, fs)
  end.

(** [rename] of a file that is not a directory, to a name that is not one of a
    directory; a link itself is renamed *)
Definition rename (p q : path) : fs_method unit := fun fs =>
  let l := locate (absolute p) in
  let k := locate (absolute q) in
  match inodes fs !! l with
  | Some i =>
      if bool_decide (i_type i = directory) || is_dir_loc fs k || negb (is_dir_loc fs (dir_loc k))
      then (Err (fs_error "cannot rename" p), fs)
      else (Ok tt, set_inodes (<[k := i]> (delete l
              (alter (with_mtime (clock fs)) (dir_loc l)
                 (alter (with_mtime (clock fs)) (dir_loc k) (inodes fs))))) fs)
  | None => (Err (fs_error "cannot rename" p), fs)
  end.

(** [DirectoryTree::writeTo] on a file, which is emptied when it is opened; what
    is in the file when a failed assertion ends the program is not modelled *)
Definition write_tree (t : DirectoryTree) (p : path) : fs_method unit :=
  let err := Throw ("could not open for writing: " +:+ p) in
  _ ← write_file err p "";
  text ← lift_outcome (tree_writeTo t);
  write_file err p text.

(** how the destructor of the tree manager replaces a metadata file, whose
    previous version may be kept *)
Definition store (needs_backup : bool) (t : DirectoryTree) (p : path) : fs_method unit :=
  _ ← (if needs_backup then rename p (p +:+ ".bak") else mret tt);
  write_tree t p.
End files.
