(* ===== verification/MetaSpec.v ===== *)
(** * Writing files, and metadata files that survive

    What writing and renaming files changes, and which trees come back from a
    metadata file as they were. *)

From S2P Require Import Prelude CxxPath CxxTime CxxStream Element Node Tree TreeInv TreeOps TreeCopy TreeIO TreeLoad DiffSpec Diff3Spec FileSystem FsSpec MetaFiles.

(** ** Changes of files *)

(** what may change when the files at [K] are written: they and the times of the
    directories they are in *)
Record keeps (K : list location) (fs fs' : FS) : Prop := {
  k_dirs : forall k, is_dir_loc fs' k = is_dir_loc fs k;
  k_files : forall k, k ∉ K -> is_dir_loc fs k = false -> inodes fs' !! k = inodes fs !! k;
  k_rest : forall k, k ∉ K -> k ∉ dir_loc <$> K -> inodes fs' !! k = inodes fs !! k;
  k_wf : fs_wf fs -> fs_wf fs' }.

Lemma keeps_refl K fs : keeps K fs fs.
Proof. by split. Qed.

Lemma keeps_trans K fs1 fs2 fs3 : keeps K fs1 fs2 -> keeps K fs2 fs3 -> keeps K fs1 fs3.
Proof.
  intros [D1 F1 R1 W1] [D2 F2 R2 W2]. split.
  - intros k. by rewrite D2.
  - intros k Hk Hd. rewrite F2 by (rewrite ?D1; done). auto.
  - intros k Hk Hd. rewrite R2 by done. auto.
  - auto.
Qed.

Lemma keeps_weaken K K' fs fs' : K ⊆ K' -> keeps K fs fs' -> keeps K' fs fs'.
Proof.
  intros H [D F R W]. split; [done| | |done].
  - intros k Hk. apply F. by intros ?%H.
  - intros k Hk Hd. apply R; [by intros ?%H|]. intros (x & -> & Hx)%list_elem_of_fmap.
    apply Hd, list_elem_of_fmap. eauto.
Qed.

(** ** Well-formed filesystems stay so *)

Lemma wf_after fs fs' :
  (forall k, is_dir_loc fs' k = is_dir_loc fs k) ->
  (forall k i', inodes fs' !! k = Some i' ->
     (exists i, inodes fs !! k = Some i /\ i_type i' = i_type i /\ i_perm i' = i_perm i) \/
     (is_dir_loc fs (dir_loc k) = true /\ forallb good_name k = true /\ (i_type i' = symlink_ -> i_perm i' = 511%Z))) ->
  fs_wf fs -> fs_wf fs'.
Proof.
  intros Hd Hi Hwf k i' Hk. rewrite Hd. destruct (Hi k i' Hk) as [(i & E & -> & ->)|(? & ? & ?)]; [|by auto].
  exact (Hwf k i E).
Qed.

Definition dir_in (m : gmap location Inode) (k : location) : bool :=
  match m !! k with Some i => bool_decide (i_type i = directory) | None => false end.

Lemma dir_in_touched (m : gmap location Inode) (t : Z) (l k : location) :
  dir_in (alter (with_mtime t) l m) k = dir_in m k.
Proof. unfold dir_in. rewrite lookup_alter. case_decide; [subst|done]. by destruct (m !! k). Qed.

Lemma touched_lookup (t : Z) (l : location) (m : gmap location Inode) (k : location) (i' : Inode) :
  alter (with_mtime t) l m !! k = Some i' ->
  exists i, m !! k = Some i /\ i_type i' = i_type i /\ i_perm i' = i_perm i.
Proof.
  rewrite lookup_alter. case_decide; [subst|by eauto]. intros (i & E & ->)%fmap_Some_1. by exists i.
Qed.

(** ** Trees that a metadata file holds *)

(** but for the number of hard links, a line keeps the element *)
Definition keepable (e : FilesystemElement) : Prop :=
  file_wf e = true /\
  as_read e = mkElem (ty e) (per e) (us e) (gs e) (mt e) (sz e) (fileHash e) (rp e) (symlink e) 1.

#[global] Instance keepable_dec e : Decision (keepable e).
Proof. unfold keepable. apply _. Defined.

Lemma compare_kept x y o : keepable y -> compare x (as_read y) o = compare x y o.
Proof. by intros [_ ->]. Qed.

Definition keepable_tree (t : DirectoryTree) : Prop := map_Forall (fun _ e => keepable e) (model t).

Lemma keepable_elements t :
  tree_inv t -> keepable_tree t -> Forall (fun e => file_wf e = true) (elements_of (topContent t)).
Proof.
  intros Ht Hk. eapply Forall_impl; [apply (every_elements keepable t Ht Hk)|]. by intros e [? _].
Qed.

Lemma agree_kept m t o : keepable_tree t -> agree o m (model t) -> agree o m (as_read <$> model t).
Proof.
  intros Hk H q. specialize (H q). rewrite lookup_fmap. destruct (m !! q), (model t !! q) as [y|] eqn:E; try done.
  cbn in *. rewrite compare_kept; [done|]. by apply (Hk q).
Qed.

Lemma hashed_kept t t' : keepable_tree t -> model t' = as_read <$> model t -> hashed t -> hashed t'.
Proof.
  intros Hk Hm Hh q e. rewrite Hm, lookup_fmap. intros (e0 & E & ->)%fmap_Some_1.
  destruct (Hk q e0 E) as [_ ->]. exact (Hh q e0 E).
Qed.

(** a text that is read as the tree [t] *)
Definition loads (text : string) (t : DirectoryTree) : Prop :=
  forall file t0, exists t', tree_readFrom text file t0 = (Ok tt, t') /\ tree_inv t' /\ tree_sorted t' /\
    model t' = as_read <$> model t.

Lemma keepable_loads t :
  tree_inv t -> tree_sorted t -> keepable_tree t -> exists text, tree_writeTo t = Ok text /\ loads text t.
Proof.
  intros Ht Hs Hk. destruct (read_written t Ht Hs (keepable_elements t Ht Hk)) as (text & Hw & Hr).
  exists text. split; [done|]. intros file t0. destruct (Hr file t0) as (t' & E & Her & Hinv & _).
  exists t'. destruct (erased_model _ _ Her) as [Hm Hso]. split; [done|]. split; [exact Hinv|]. split; [by apply Hso|done].
Qed.

Section files.
Context (absolute : path -> path).
Abbreviation loc p := (locate (absolute p)).

(** the location of a file that can be written *)
Definition regular_at (fs : FS) (l : location) (text : string) : Prop :=
  exists i, inodes fs !! l = Some i /\ i_type i = regular /\ i_data i = text.

Definition vacant (fs : FS) (l : location) : Prop :=
  inodes fs !! l = None /\ is_dir_loc fs (dir_loc l) = true /\ forallb good_name l = true.

Lemma regular_not_dir fs l text : regular_at fs l text -> is_dir_loc fs l = false.
Proof. intros (i & E & Hi & _). unfold is_dir_loc. by rewrite E, Hi. Qed.

Lemma regular_keeps K fs fs' l text : keeps K fs fs' -> l ∉ K -> regular_at fs l text -> regular_at fs' l text.
Proof.
  intros [_ F _ _] Hl Hr. unfold regular_at. rewrite F; [done|done|]. by eapply regular_not_dir.
Qed.

Lemma follow_here fs p text : regular_at fs (loc p) text \/ vacant fs (loc p) -> follow absolute fs p = loc p.
Proof. unfold follow. intros [(i & -> & -> & _)|(-> & _)]; done. Qed.

Lemma read_regular fs p text : regular_at fs (loc p) text -> read_file absolute fs p = Some text.
Proof.
  intros H. unfold read_file. rewrite (follow_here fs p text) by auto. destruct H as (i & -> & -> & <-). done.
Qed.

Lemma write_regular err p text old fs :
  regular_at fs (loc p) old ->
  exists fs', write_file absolute err p text fs = (Ok tt, fs') /\ keeps [loc p] fs fs' /\ regular_at fs' (loc p) text.
Proof.
  intros H. unfold write_file. rewrite (follow_here fs p old) by auto. destruct H as (i & E & Hi & _).
  rewrite E, Hi, bool_decide_true by done. unfold fs_update. rewrite E. eexists. split; [reflexivity|]. split.
  - assert (Hd : forall k, is_dir_loc (set_inodes (<[loc p := with_data (clock fs) text i]> (inodes fs)) fs) k = is_dir_loc fs k).
    { intros k. unfold is_dir_loc. cbn [inodes set_inodes]. rewrite lookup_insert. case_decide as Hk; [|done].
      by rewrite <-Hk, E. }
    split; [done| | |].
    + intros k Hk _. apply lookup_insert_ne. intros <-. apply Hk, list_elem_of_here.
    + intros k Hk _. apply lookup_insert_ne. intros <-. apply Hk, list_elem_of_here.
    + apply wf_after; [done|]. intros k i'. cbn [inodes set_inodes]. rewrite lookup_insert.
      case_decide as Hk; [|by eauto]. intros [= <-]. left. exists i. by rewrite <-Hk.
  - eexists. cbn [inodes set_inodes]. rewrite lookup_insert_eq. by split.
Qed.

Lemma vacant_not_own_dir fs l : vacant fs l -> dir_loc l <> l.
Proof. intros (E & Hd & _) Heq. unfold is_dir_loc in Hd. by rewrite Heq, E in Hd. Qed.

Lemma write_vacant err p text fs :
  vacant fs (loc p) ->
  exists fs', write_file absolute err p text fs = (Ok tt, fs') /\ keeps [loc p] fs fs' /\ regular_at fs' (loc p) text.
Proof.
  intros H. unfold write_file. rewrite (follow_here fs p "") by auto. pose proof (vacant_not_own_dir _ _ H) as Hown.
  destruct H as (E & Hd & Hg). rewrite E, Hd. eexists. split; [reflexivity|].
  set (i0 := new_inode fs regular _ text "").
  set (fs' := set_inodes _ fs).
  assert (Hdirs : forall k, is_dir_loc fs' k = is_dir_loc fs k).
  { intros k. unfold is_dir_loc at 1, fs'. cbn [inodes set_inodes]. rewrite lookup_insert.
    case_decide as Hk; [|apply dir_in_touched]. subst k. unfold is_dir_loc. by rewrite E. }
  split; [split; [done| | |]|].
  - intros k Hk Hkd. unfold fs'. cbn [inodes set_inodes]. rewrite lookup_insert_ne, lookup_alter_ne; [done| |].
    + intros <-. congruence.
    + intros <-. apply Hk, list_elem_of_here.
  - intros k Hk Hkd. unfold fs'. cbn [inodes set_inodes]. rewrite lookup_insert_ne, lookup_alter_ne; [done| |].
    + intros <-. apply Hkd, list_elem_of_here.
    + intros <-. apply Hk, list_elem_of_here.
  - apply wf_after; [done|]. intros k i'. unfold fs'. cbn [inodes set_inodes]. rewrite lookup_insert.
    case_decide as Hk; [|by intros ?%touched_lookup; left]. intros [= <-]. right. by rewrite <-Hk.
  - exists i0. unfold fs'. cbn [inodes set_inodes]. by rewrite lookup_insert_eq.
Qed.

(** ** Renaming *)

Lemma rename_ok p q text fs :
  regular_at fs (loc p) text -> is_dir_loc fs (loc q) = false -> is_dir_loc fs (dir_loc (loc q)) = true ->
  forallb good_name (loc q) = true -> loc p <> loc q -> is_dir_loc fs (dir_loc (loc p)) = true ->
  exists fs', rename absolute p q fs = (Ok tt, fs') /\ keeps [loc p; loc q] fs fs' /\ inodes fs' !! loc p = None.
Proof.
  intros Hp Hq Hqd Hg Hne Hpd. pose proof (regular_not_dir _ _ _ Hp) as Hpn. destruct Hp as (i & E & Hi & _).
  unfold rename. rewrite E, Hi, Hq, Hqd. cbn [orb negb bool_decide].
  eexists. split; [by rewrite bool_decide_false|]. set (fs' := set_inodes _ fs).
  assert (Hlook : forall k, k <> loc p -> k <> loc q -> inodes fs' !! k =
    alter (with_mtime (clock fs)) (dir_loc (loc p)) (alter (with_mtime (clock fs)) (dir_loc (loc q)) (inodes fs)) !! k).
  { intros k Hk1 Hk2. unfold fs'. cbn [inodes set_inodes]. by rewrite lookup_insert_ne, lookup_delete_ne. }
  assert (Hatp : inodes fs' !! loc p = None).
  { unfold fs'. cbn [inodes set_inodes]. by rewrite lookup_insert_ne, lookup_delete_eq. }
  assert (Hatq : inodes fs' !! loc q = Some i).
  { unfold fs'. cbn [inodes set_inodes]. apply lookup_insert_eq. }
  assert (Hdirs : forall k, is_dir_loc fs' k = is_dir_loc fs k).
  { intros k. destruct (decide (k = loc p)) as [->|Hk1]; [unfold is_dir_loc at 1; by rewrite Hatp|].
    destruct (decide (k = loc q)) as [->|Hk2]; [unfold is_dir_loc at 1; by rewrite Hatq, Hi|].
    unfold is_dir_loc at 1. rewrite Hlook by done.
    etrans; [apply dir_in_touched|apply dir_in_touched]. }
  split; [split; [done| | |]|done].
  - intros k Hk Hkd. rewrite !not_elem_of_cons in Hk. destruct Hk as (Hk1 & Hk2 & _). rewrite Hlook by done.
    rewrite !lookup_alter_ne; [done|intros <-; congruence..].
  - intros k Hk Hkd. rewrite !not_elem_of_cons in Hk. destruct Hk as (Hk1 & Hk2 & _). rewrite Hlook by done.
    rewrite !fmap_cons, !not_elem_of_cons in Hkd. destruct Hkd as (Hd1 & Hd2 & _).
    by rewrite !lookup_alter_ne.
  - apply wf_after; [done|]. intros k i'.
    destruct (decide (k = loc p)) as [->|Hk1]; [by rewrite Hatp|].
    destruct (decide (k = loc q)) as [->|Hk2]; [rewrite Hatq; intros [= <-]; right; by rewrite Hi|].
    rewrite Hlook by done. intros (i1 & E1 & Ht1 & Hp1)%touched_lookup.
    apply touched_lookup in E1 as (i2 & E2 & Ht2 & Hp2). left. exists i2. split; [done|]. split; congruence.
Qed.

(** ** Saving a tree *)

Lemma write_tree_ok t p fs text old :
  tree_writeTo t = Ok text -> regular_at fs (loc p) old \/ vacant fs (loc p) ->
  exists fs', write_tree absolute t p fs = (Ok tt, fs') /\ keeps [loc p] fs fs' /\ regular_at fs' (loc p) text.
Proof.
  intros Ht Hl. unfold write_tree. set (err := Throw _).
  assert (exists fs1, write_file absolute err p "" fs = (Ok tt, fs1) /\ keeps [loc p] fs fs1 /\ regular_at fs1 (loc p) "")
    as (fs1 & E1 & K1 & R1) by (destruct Hl; [by eapply write_regular|by apply write_vacant]).
  destruct (write_regular err p text "" fs1 R1) as (fs2 & E2 & K2 & R2).
  exists fs2. unfold mbind, method_bind, lift_outcome. rewrite E1, Ht, E2. split; [done|].
  split; [by eapply keeps_trans|done].
Qed.

(** a metadata file, and the place of its previous version *)
Record slot (fs : FS) (p : path) : Prop := {
  sl_file : exists text, regular_at fs (loc p) text;
  sl_dir : is_dir_loc fs (dir_loc (loc p)) = true;
  sl_name : forallb good_name (loc p) = true;
  sl_bak : is_dir_loc fs (loc (p +:+ ".bak")) = false;
  sl_bak_dir : is_dir_loc fs (dir_loc (loc (p +:+ ".bak"))) = true;
  sl_bak_name : forallb good_name (loc (p +:+ ".bak")) = true;
  sl_other : loc p <> loc (p +:+ ".bak") }.

Definition places (p : path) : list location := [loc p; loc (p +:+ ".bak")].

Lemma slot_keeps K fs fs' p : keeps K fs fs' -> loc p ∉ K -> slot fs p -> slot fs' p.
Proof.
  intros Hk Hp [[text F] D N B BD BN O]. pose proof Hk as [Hd _ _ _]. split; rewrite ?Hd; try done.
  exists text. by eapply regular_keeps.
Qed.

Lemma store_ok b t p fs text :
  tree_writeTo t = Ok text -> slot fs p ->
  exists fs', store absolute b t p fs = (Ok tt, fs') /\ keeps (places p) fs fs' /\ regular_at fs' (loc p) text.
Proof.
  intros Ht [[old F] D N B BD BN O].
  assert (Hsub : [loc p] ⊆ places p) by (by apply list_subseteq_skip, list_subseteq_nil).
  unfold store. destruct b.
  - destruct (rename_ok p (p +:+ ".bak") old fs F B BD BN O D) as (fs1 & E1 & K1 & V1).
    pose proof K1 as [Hd _ _ _].
    destruct (write_tree_ok t p fs1 text "" Ht) as (fs2 & E2 & K2 & R2); [right; split_and!; [done| |done]; by rewrite Hd|].
    exists fs2. unfold mbind, method_bind. rewrite E1, E2. split; [done|].
    split; [eapply keeps_trans; [done|by eapply keeps_weaken]|done].
  - destruct (write_tree_ok t p fs text old Ht) as (fs2 & E2 & K2 & R2); [by left|].
    exists fs2. unfold mbind, method_bind, mret, method_ret. rewrite E2. split; [done|].
    split; [by eapply keeps_weaken|done].
Qed.

(** two metadata files with places of their own *)
Lemma store_both b1 b2 t1 t2 p1 p2 fs text1 text2 :
  tree_writeTo t1 = Ok text1 -> tree_writeTo t2 = Ok text2 -> slot fs p1 -> slot fs p2 ->
  loc p1 ∉ places p2 -> loc p2 ∉ places p1 ->
  exists fs1 fs2, store absolute b1 t1 p1 fs = (Ok tt, fs1) /\ store absolute b2 t2 p2 fs1 = (Ok tt, fs2) /\
    keeps (places p1 ++ places p2) fs fs2 /\
    regular_at fs2 (loc p1) text1 /\ regular_at fs2 (loc p2) text2.
Proof.
  intros H1 H2 S1 S2 N1 N2. destruct (store_ok b1 t1 p1 fs text1 H1 S1) as (fs1 & E1 & K1 & R1).
  destruct (store_ok b2 t2 p2 fs1 text2 H2) as (fs2 & E2 & K2 & R2); [by eapply slot_keeps|].
  exists fs1, fs2. split; [done|]. split; [done|]. split; [|split; [by eapply regular_keeps|done]].
  apply (keeps_trans _ fs fs1).
  - eapply keeps_weaken; [|exact K1]. by apply list_subseteq_app_l.
  - eapply keeps_weaken; [|exact K2]. by apply list_subseteq_app_r.
Qed.

(** ** Directories away from the files *)

(** nothing at or below [top] is at or above the files [K] *)
Definition away (top : location) (K : list location) : Prop := Forall (fun k => ~ top `prefix_of` k) K.

Lemma keeps_away K fs fs' top l :
  keeps K fs fs' -> away top K -> top `prefix_of` l -> inodes fs' !! l = inodes fs !! l.
Proof.
  intros [_ _ R _] Ha Hl. unfold away in Ha. rewrite Forall_forall in Ha. apply R.
  - intros Hin. by apply (Ha l).
  - intros (k & -> & Hin)%list_elem_of_fmap. apply (Ha k Hin). etrans; [exact Hl|apply dir_loc_prefix].
Qed.
End files.
