(* ===== verification/TreeFs.v ===== *)
(** * DirectoryTree: operations on the filesystem (src/core.cpp)

    Scanning a directory, and the operations that change the tree together with
    the directory it is bound to. They act on the tree and on the filesystem;
    [sha1] is the hash function of the crypto library, [order] the order in
    which directories are listed. *)

From S2P Require Import Prelude CxxPath CxxTime CxxStream Element Node Tree FileSystem.

Section tree_fs.
Context (sha1 : string -> string) (order : gset string -> list string).
Context (absolute : path -> path).

(** ** Scanning *)

Definition hashFile (fs : FS) (p : path) : outcome string :=
  match inodes fs !! locate p with
  | Some i => if bool_decide (i_type i = regular) then Ok (sha1 (i_data i))
              else Err (Throw ("FileStore: error opening file for reading: " +:+ p))
  | None => Err (Throw ("FileStore: error opening file for reading: " +:+ p))
  end.

(** the constructor of [FilesystemElement] from a path *)
Definition element_at (fs : FS) (p top : path) (opt : ScanOpt) : outcome FilesystemElement :=
  let rp := lexically_relative p top in
  match inodes fs !! locate p with
  | None => Err (Throw "ext_symlink_status")
  | Some s =>
      let size := Z.of_nat (String.length (i_data s)) in
      match i_type s with
      | regular =>
          h ← (match opt with ComputeHash => hashFile fs p | OmitHash => Ok "" end);
          Ok (mkElem regular (i_perm s) (i_user s) (i_group s) (i_mtime s) size h rp "" (i_links s))
      | directory =>
          Ok (mkElem directory (i_perm s) (i_user s) (i_group s) (i_mtime s) 0 "" rp "" (i_links s))
      | symlink_ =>
          Ok (mkElem symlink_ (i_perm s) (i_user s) (i_group s) (i_mtime s) 0 "" rp (i_target s) (i_links s))
      | _ =>
          Ok (mkElem unknown (i_perm s) (i_user s) (i_group s) (i_mtime s) 0 "" rp "" (i_links s))
      end
  end.

(** the loop over the directory: new nodes with the elements of the entries *)
Definition scan_nodes (fs : FS) (top : path) (opt : ScanOpt) (entries : list path)
    : nat -> outcome (list DirectoryNode * nat) := fun next =>
  for_each (fun p '(nodes, k) => e ← element_at fs p top opt; Ok (nodes ++ [mkNode k e []], S k))
    entries ([], next).

(** the loop that fills the index and warns *)
Fixpoint index_nodes (nodes : list DirectoryNode) : tree_method unit :=
  match nodes with
  | [] => mret tt
  | n :: rest =>
      let e := elem n in
      t ← get_state;
      ix ← lift_outcome (index_insert (rp e) (nid n) "recursiveBuildFromPath: inserted.second" (index t));
      _ ← set_index ix;
      _ ← (if bool_decide (ty e = unknown)
           then warn ("Warning: " +:+ rp e +:+ " unsupported file type") else mret tt);
      _ ← (if negb (bool_decide (ty e = directory)) && negb (bool_decide (hardLinkCnt e = 1%Z))
           then warn ("Warning: " +:+ rp e +:+ " has multiple hardlinks") else mret tt);
      index_nodes rest
  end.

(** [recursiveBuildFromPath]; [fuel] bounds the depth of the directory *)
Fixpoint recursiveBuildFromPath (fuel : nat) (fs : FS) (top p : path) : tree_method unit :=
  match fuel with
  | O => lift_outcome (Err OutOfFuel)
  | S fuel' =>
      t ← get_state;
      entries ← lift_outcome (directory_iterator order fs (top // p));
      '(nodes, k) ← lift_outcome (scan_nodes fs top (opt t) entries (next t));
      _ ← set_next k;
      let nodes := list_sort node_ltb nodes in
      _ ← (if is_nil (topContent t) then set_top nodes
           else
             i ← lift_outcome (from_option_err (AssertFailed "recursiveBuildFromPath: it!=index.end()")
                                 (index t !! p));
             d ← deref i;
             d' ← lift_outcome (setDirectoryContent nodes d);
             mutate i (fun _ => d'));
      _ ← index_nodes nodes;
      run_each (fun n => if isDirectory (elem n) then recursiveBuildFromPath fuel' fs top (rp (elem n))
                         else mret tt) nodes
  end.

(** depth of the filesystem *)
Definition fs_depth (fs : FS) : nat := max_list (length <$> (map_to_list (inodes fs)).*1).

Definition set_opt (o : ScanOpt) : tree_method unit := fun t =>
  (Ok tt, mkTree (topContent t) (index t) (topPath t) o (next t) (warnings t)).

(** [DirectoryTree::scanDirectory] *)
Definition scanDirectory (fs : FS) (top : path) (o : ScanOpt) : tree_method unit :=
  _ ← clear;
  _ ← set_opt o;
  _ ← set_topPath (Some (absolute top));
  if negb (is_directory fs (absolute top))
  then lift_outcome (Err (Throw (top +:+ " is not a directory")))
  else recursiveBuildFromPath (S (fs_depth fs)) fs (absolute top) "".
End tree_fs.

(** ** Operations on tree and filesystem *)

Abbreviation world_method := (method (DirectoryTree * FS)).

Definition on_tree {A} (m : tree_method A) : world_method A := fun '(t, fs) =>
  let '(r, t') := m t in (r, (t', fs)).
Definition on_fs {A} (m : fs_method A) : world_method A := fun '(t, fs) =>
  let '(r, fs') := m fs in (r, (t, fs')).

(** [topPath.value()] *)
Definition top_value : world_method path := fun w =>
  (from_option_err (Throw "bad_optional_access") (topPath w.1), w).

(** [try { m } catch(exception&) { handler }]; a failed assertion is not caught *)
Definition try_catch (m handler : world_method unit) : world_method unit := fun w =>
  match m w with
  | (Err (Throw _), w') => handler w'
  | r => r
  end.

Definition fixupParentMtime (parent : path) : world_method unit :=
  if str_empty parent then mret tt
  else
    top ← top_value;
    i ← on_tree (searchNode parent "");
    n ← on_tree (deref i);
    on_fs (ext_symlink_last_write_time (top // parent) (mt (elem n))).

(** the part that the operations on owners share *)
Definition change_ownership_or_warn (absPath : path) (user group : string) : world_method unit :=
  try_catch (on_fs (ext_symlink_change_ownership absPath user group))
    (on_tree (warn ("Warning: could not change ownership of " +:+ absPath +:+ ": maybe retry with sudo?"))).

(** the number of removed entries, as an [int] *)
Definition removeFromTreeAndFilesystem (relativePath : path) : world_method Z :=
  _ ← on_tree (checkTopPath "removeFromTreeAndFilesystem");
  _ ← on_tree (removeFromTree relativePath);
  top ← top_value;
  result ← on_fs (remove_all (top // relativePath));
  let result := to_int (Z.of_nat result) in
  _ ← fixupParentMtime (parent_path relativePath);
  mret result.

Definition addSymlinkToTreeAndFilesystem (link : FilesystemElement) : world_method unit :=
  _ ← on_tree (checkTopPath "addSymlinkToTreeAndFilesystem");
  _ ← on_tree (addSymlinkToTree link);
  top ← top_value;
  let absPath := top // rp link in
  _ ← on_fs (create_symlink (symlink link) absPath);
  _ ← change_ownership_or_warn absPath (us link) (gs link);
  _ ← on_fs (ext_symlink_last_write_time absPath (mt link));
  fixupParentMtime (parent_path (rp link)).

Definition modifyPermissionsInTreeAndFilesystem (relativePath : path) (perm : Z) : world_method unit :=
  _ ← on_tree (checkTopPath "modifyPermissionsInTreeAndFilesystem");
  _ ← on_tree (modifyPermissionsInTree relativePath perm);
  top ← top_value;
  _ ← on_fs (permissions (top // relativePath) perm);
  fixupParentMtime (parent_path relativePath).

Definition modifyOwnerInTreeAndFilesystem (relativePath : path) (user group : string)
    : world_method unit :=
  _ ← on_tree (checkTopPath "modifyOwnerInTreeAndFilesystem");
  _ ← on_tree (modifyOwnerInTree relativePath user group);
  top ← top_value;
  _ ← change_ownership_or_warn (top // relativePath) user group;
  fixupParentMtime (parent_path relativePath).

Definition modifyMtimeInTreeAndFilesystem (relativePath : path) (mtime : Z) : world_method unit :=
  _ ← on_tree (checkTopPath "modifyMtimeInTreeAndFilesystem");
  _ ← on_tree (modifyMtimeInTree relativePath mtime);
  top ← top_value;
  on_fs (ext_symlink_last_write_time (top // relativePath) mtime).

(** [recursiveFilesystemCopy]: [src] is a node of the source tree, the pointer
    [dst] its copy in this tree *)
Fixpoint recursiveFilesystemCopy (srcTopPath : path) (src : DirectoryNode) (dst : nat)
    : world_method unit :=
  match src with
  | mkNode _ se sc =>
      n ← on_tree (deref dst);
      let e := elem n in
      top ← top_value;
      let srcPathAbs := srcTopPath // rp se in
      let dstPathAbs := top // rp e in
      _ ← (match ty e with
           | regular =>
               ok ← on_fs (copy_file srcPathAbs dstPathAbs);
               if ok : bool then mret tt
               else on_tree (lift_outcome (Err (Throw ("Error copying " +:+ srcPathAbs +:+ " to " +:+ dstPathAbs))))
           | symlink_ => on_fs (copy_symlink srcPathAbs dstPathAbs)
           | directory =>
               ok ← on_fs (create_directory dstPathAbs);
               if negb ok then on_tree (lift_outcome (Err (Throw ("Error creating directory " +:+ dstPathAbs))))
               else
                 _ ← run_each (fun m =>
                        j ← on_tree (searchNode (rp e // filename (rp (elem m))) "");
                        recursiveFilesystemCopy srcTopPath m j) sc;
                 on_fs (permissions dstPathAbs (per e))
           | _ => on_tree (lift_outcome (Err (Throw
                    ("DirectoryTree::recursiveFilesystemCopy: unknown file type " +:+ srcPathAbs))))
           end);
      _ ← change_ownership_or_warn dstPathAbs (us e) (gs e);
      on_fs (ext_symlink_last_write_time dstPathAbs (mt e))
  end.

Definition copyFromTreeAndFilesystem (srcTree : DirectoryTree) (relativeSrcPath relativeDstPath : path)
    : world_method unit :=
  _ ← on_tree (checkTopPath "copyFromTreeAndFilesystem");
  srcTop ← on_tree (lift_outcome (from_option_err
             (Throw "copyFromTreeAndFilesystem: DirectoryTree not constructed from filesystem")
             (topPath srcTree)));
  '(src, dst) ← on_tree (treeCopy srcTree relativeSrcPath relativeDstPath);
  _ ← recursiveFilesystemCopy srcTop src dst;
  fixupParentMtime relativeDstPath.
