(* ===== verification/FsData.v ===== *)
(** * The content of files

    No operation of the program on tree and directory changes the content of a
    file that exists, whether it succeeds or throws: it changes metadata, or adds
    entries, or removes them. The one that removes spares all files that are not
    below the path it is called with. Here this is shown for any tree and any
    filesystem, by the structure of the operations: [Spares] is closed under
    sequencing, loops and handlers, and instance search assembles the proofs. *)

From S2P Require Import Prelude CxxPath CxxTime CxxStream Element Node Tree FileSystem TreeFs.

(** the same type, data and target *)
Definition same_matter (i j : Inode) : Prop :=
  i_type j = i_type i /\ i_data j = i_data i /\ i_target j = i_target i.

#[global] Instance same_matter_preorder : PreOrder same_matter.
Proof. split; [by intros i|]. intros i j k (? & ? & ?) (? & ? & ?). split_and!; congruence. Qed.

(** the files at the locations [D] are still there, with their content *)
Definition content_kept (D : location -> Prop) (fs fs' : FS) : Prop :=
  forall l i, D l -> inodes fs !! l = Some i -> exists i', inodes fs' !! l = Some i' /\ same_matter i i'.

#[global] Instance content_kept_preorder D : PreOrder (content_kept D).
Proof.
  split; [intros fs l i _ Hi; by exists i|]. intros f1 f2 f3 H1 H2 l i HD Hi.
  destruct (H1 l i HD Hi) as (j & Hj & Hij). destruct (H2 l j HD Hj) as (k & Hk & Hjk).
  exists k. split; [done|]. by etrans.
Qed.

Section spares.
Context (D : location -> Prop).

Class SparesFs {A} (m : fs_method A) := spares_fs fs : content_kept D fs (m fs).2.
Class Spares {A} (m : world_method A) := spares w : content_kept D w.2 (m w).2.2.

(** ** Operations of the filesystem *)

(** one file changes, or its directory *)
Lemma alter_kept fs fs' f k :
  (forall i, same_matter i (f i)) -> inodes fs' = alter f k (inodes fs) -> content_kept D fs fs'.
Proof.
  intros Hf E l i _ Hi. rewrite E, lookup_alter. case_decide as Hk; [rewrite Hk|]; rewrite Hi; cbn; eexists;
    (split; [reflexivity|]); [done|reflexivity].
Qed.

Lemma spares_update err l f : (forall i, same_matter i (f i)) -> SparesFs (fs_update err l f).
Proof.
  intros Hf fs. unfold fs_update. destruct (inodes fs !! l) as [i|] eqn:Hi; [|reflexivity].
  apply (alter_kept _ _ f l); [done|]. cbn [snd inodes set_inodes]. apply map_eq. intros k. rewrite lookup_alter.
  case_decide as Hk; [subst k; by rewrite lookup_insert_eq, Hi|by rewrite lookup_insert_ne].
Qed.

#[global] Instance spares_create what p i : SparesFs (fs_create what p i).
Proof.
  intros fs. unfold fs_create. destruct (_ || _) eqn:Hc; [reflexivity|].
  apply orb_false_iff in Hc as [_ Hn%bool_decide_eq_false_1%eq_None_not_Some].
  intros l j HD Hj. assert (l <> locate p) by congruence. cbn [snd inodes set_inodes].
  rewrite lookup_insert_ne, lookup_alter by done. case_decide as Hk; [rewrite Hk|]; rewrite Hj; by eexists.
Qed.

#[global] Instance spares_fs_ret {A} (a : A) : SparesFs (mret a).
Proof. intros fs. reflexivity. Qed.

#[global] Instance spares_fs_bind {A B} (m : fs_method A) (k : A -> fs_method B) :
  SparesFs m -> (forall a, SparesFs (k a)) -> SparesFs (m ≫= k).
Proof.
  intros Hm Hk fs. unfold mbind, method_bind. specialize (Hm fs). destruct (m fs) as [[a|e] fs']; [|done].
  etrans; [exact Hm|apply Hk].
Qed.

#[global] Instance spares_mtime p t : SparesFs (ext_symlink_last_write_time p t).
Proof. by apply spares_update. Qed.

#[global] Instance spares_permissions p perm : SparesFs (permissions p perm).
Proof. intros fs. unfold permissions. by apply spares_update. Qed.

#[global] Instance spares_owner p u g : SparesFs (ext_symlink_change_ownership p u g).
Proof.
  intros fs. destruct (change_ownership_cases p u g fs) as [[-> _]|[[what ->] _]]; [by apply spares_update|reflexivity].
Qed.

#[global] Instance spares_symlink target p : SparesFs (create_symlink target p).
Proof. intros fs. apply spares_create. Qed.

#[global] Instance spares_copy_symlink src dst : SparesFs (copy_symlink src dst).
Proof.
  intros fs. unfold copy_symlink. destruct (inodes fs !! _) as [i|]; [|reflexivity].
  case_bool_decide; [apply spares_symlink|reflexivity].
Qed.

#[global] Instance spares_copy_file src dst : SparesFs (copy_file src dst).
Proof.
  intros fs. unfold copy_file. destruct (inodes fs !! _) as [i|]; [|reflexivity].
  case_bool_decide; [apply (spares_fs_bind _ _ _ _)|reflexivity].
Qed.

#[global] Instance spares_create_directory p : SparesFs (create_directory p).
Proof.
  intros fs. unfold create_directory. destruct (is_directory fs p); [reflexivity|apply (spares_fs_bind _ _ _ _)].
Qed.

Lemma spares_remove_all p : (forall l, D l -> ~ locate p `prefix_of` l) -> SparesFs (remove_all p).
Proof.
  intros HD fs. unfold remove_all. case_bool_decide; [reflexivity|]. intros l i Hl Hi. cbn [snd inodes set_inodes].
  assert (Hf : filter (fun '(k, _) => ~ locate p `prefix_of` k) (inodes fs) !! l = Some i).
  { apply map_lookup_filter_Some. split; [done|by apply HD]. }
  rewrite lookup_alter. case_decide as Hk; [rewrite Hk|]; rewrite Hf; by eexists.
Qed.

(** ** Operations on tree and directory *)

#[global] Instance spares_ret {A} (a : A) : Spares (mret a).
Proof. intros w. reflexivity. Qed.

#[global] Instance spares_bind {A B} (m : world_method A) (k : A -> world_method B) :
  Spares m -> (forall a, Spares (k a)) -> Spares (m ≫= k).
Proof.
  intros Hm Hk w. unfold mbind, method_bind. specialize (Hm w). destruct (m w) as [[a|e] w']; [|done].
  etrans; [exact Hm|apply Hk].
Qed.

#[global] Instance spares_on_tree {A} (m : tree_method A) : Spares (on_tree m).
Proof. intros [t fs]. unfold on_tree. destruct (m t). reflexivity. Qed.

#[global] Instance spares_on_fs {A} (m : fs_method A) : SparesFs m -> Spares (on_fs m).
Proof. intros Hm [t fs]. unfold on_fs. specialize (Hm fs). by destruct (m fs). Qed.

#[global] Instance spares_top : Spares top_value.
Proof. intros w. reflexivity. Qed.

#[global] Instance spares_try m h : Spares m -> Spares h -> Spares (try_catch m h).
Proof.
  intros Hm Hh w. unfold try_catch. specialize (Hm w). destruct (m w) as [[a|[]] w']; try done.
  etrans; [exact Hm|apply Hh].
Qed.

#[global] Instance spares_run_each {A} (body : A -> world_method unit) l :
  (forall x, x ∈ l -> Spares (body x)) -> Spares (run_each body l).
Proof.
  induction l as [|x l IH]; intros Hb; cbn [run_each]; [apply _|].
  pose proof (Hb x (list_elem_of_here _ _)). apply spares_bind; [done|]. intros _. apply IH.
  intros y Hy. by apply Hb, list_elem_of_further.
Qed.

#[global] Instance spares_fixup p : Spares (fixupParentMtime p).
Proof. unfold fixupParentMtime. destruct (str_empty p); apply _. Qed.

#[global] Instance spares_own p u g : Spares (change_ownership_or_warn p u g).
Proof. unfold change_ownership_or_warn. apply _. Qed.

#[global] Instance spares_recursive_copy st src dst : Spares (recursiveFilesystemCopy st src dst).
Proof.
  revert dst. induction src as [i se sc IH] using node_ind'. intros dst. cbn [recursiveFilesystemCopy].
  apply spares_bind; [apply _|]. intros n. apply spares_bind; [apply _|]. intros top.
  apply spares_bind; [|intros; apply _]. destruct (ty (elem n)); try apply _.
  - apply spares_bind; [apply _|]. intros []; apply _.
  - apply spares_bind; [apply _|]. intros []; cbn [negb]; [|apply _]. apply spares_bind; [|intros; apply _].
    apply spares_run_each. intros m Hm. apply spares_bind; [apply _|]. rewrite Forall_forall in IH. auto.
Qed.

#[global] Instance spares_copy s sp dp : Spares (copyFromTreeAndFilesystem s sp dp).
Proof.
  unfold copyFromTreeAndFilesystem. do 2 (apply spares_bind; [apply _|]; intros ?).
  apply spares_bind; [apply _|]. intros [src dst]. apply _.
Qed.

#[global] Instance spares_add_symlink link : Spares (addSymlinkToTreeAndFilesystem link).
Proof. unfold addSymlinkToTreeAndFilesystem. apply _. Qed.

#[global] Instance spares_modify_permissions p perm : Spares (modifyPermissionsInTreeAndFilesystem p perm).
Proof. unfold modifyPermissionsInTreeAndFilesystem. apply _. Qed.

#[global] Instance spares_modify_owner p u g : Spares (modifyOwnerInTreeAndFilesystem p u g).
Proof. unfold modifyOwnerInTreeAndFilesystem. apply _. Qed.

#[global] Instance spares_modify_mtime p t : Spares (modifyMtimeInTreeAndFilesystem p t).
Proof. unfold modifyMtimeInTreeAndFilesystem. apply _. Qed.
End spares.

(** ** The directory a tree is bound to *)

Class KeepsTop {A} (m : tree_method A) := keeps_top t : topPath (m t).2 = topPath t.
Class StaysBound {A} (m : world_method A) := stays_bound w : topPath (m w).2.1 = topPath w.1.

#[global] Instance keeps_top_ret {A} (a : A) : KeepsTop (mret a).
Proof. done. Qed.
#[global] Instance keeps_top_lift {A} (r : outcome A) : KeepsTop (lift_outcome r).
Proof. done. Qed.
#[global] Instance keeps_top_get : KeepsTop get_state.
Proof. done. Qed.
#[global] Instance keeps_top_bind {A B} (m : tree_method A) (k : A -> tree_method B) :
  KeepsTop m -> (forall a, KeepsTop (k a)) -> KeepsTop (m ≫= k).
Proof.
  intros Hm Hk t. unfold mbind, method_bind. specialize (Hm t). destruct (m t) as [[a|e] t']; [|done].
  by rewrite (Hk a t').
Qed.
#[export] Hint Extern 1 (KeepsTop (match ?x with _ => _ end)) => destruct x : typeclass_instances.
#[global] Instance keeps_top_check w : KeepsTop (checkTopPath w).
Proof. intros t. unfold checkTopPath. destruct (topPath t) eqn:E; exact E. Qed.
#[global] Instance keeps_top_search p w : KeepsTop (searchNode p w).
Proof. done. Qed.
#[global] Instance keeps_top_deref i : KeepsTop (deref i).
Proof. done. Qed.
#[global] Instance keeps_top_set_top l : KeepsTop (set_top l).
Proof. done. Qed.
#[global] Instance keeps_top_set_index ix : KeepsTop (set_index ix).
Proof. done. Qed.
#[global] Instance keeps_top_set_next k : KeepsTop (set_next k).
Proof. done. Qed.
#[global] Instance keeps_top_mutate i f : KeepsTop (mutate i f).
Proof. intros t. unfold mutate. by destruct (find_in i (topContent t)). Qed.
#[global] Instance keeps_top_warn w : KeepsTop (warn w).
Proof. done. Qed.
#[global] Instance keeps_top_remove p : KeepsTop (removeFromTree p).
Proof. unfold removeFromTree. apply _. Qed.
#[global] Instance keeps_top_add_symlink l : KeepsTop (addSymlinkToTree l).
Proof. unfold addSymlinkToTree. apply _. Qed.
#[global] Instance keeps_top_copy s sp dp : KeepsTop (treeCopy s sp dp).
Proof. unfold treeCopy. apply _. Qed.
#[global] Instance keeps_top_permissions p perm : KeepsTop (modifyPermissionsInTree p perm).
Proof. unfold modifyPermissionsInTree. apply _. Qed.
#[global] Instance keeps_top_owner p u g : KeepsTop (modifyOwnerInTree p u g).
Proof. unfold modifyOwnerInTree. apply _. Qed.
#[global] Instance keeps_top_mtime p t : KeepsTop (modifyMtimeInTree p t).
Proof. unfold modifyMtimeInTree. apply _. Qed.

#[global] Instance stays_bound_ret {A} (a : A) : StaysBound (mret a).
Proof. done. Qed.
#[global] Instance stays_bound_bind {A B} (m : world_method A) (k : A -> world_method B) :
  StaysBound m -> (forall a, StaysBound (k a)) -> StaysBound (m ≫= k).
Proof.
  intros Hm Hk w. unfold mbind, method_bind. specialize (Hm w). destruct (m w) as [[a|e] w']; [|done].
  by rewrite (Hk a w').
Qed.
#[export] Hint Extern 1 (StaysBound (match ?x with _ => _ end)) => destruct x : typeclass_instances.
#[global] Instance stays_bound_on_tree {A} (m : tree_method A) : KeepsTop m -> StaysBound (on_tree m).
Proof. intros Hm [t fs]. unfold on_tree. specialize (Hm t). by destruct (m t). Qed.
#[global] Instance stays_bound_on_fs {A} (m : fs_method A) : StaysBound (on_fs m).
Proof. intros [t fs]. unfold on_fs. by destruct (m fs). Qed.
#[global] Instance stays_bound_top : StaysBound top_value.
Proof. done. Qed.
#[global] Instance stays_bound_try m h : StaysBound m -> StaysBound h -> StaysBound (try_catch m h).
Proof.
  intros Hm Hh w. unfold try_catch. specialize (Hm w). destruct (m w) as [[a|[]] w']; try done. by rewrite (Hh w').
Qed.
#[global] Instance stays_bound_fixup p : StaysBound (fixupParentMtime p).
Proof. unfold fixupParentMtime. apply _. Qed.
#[global] Instance stays_bound_own p u g : StaysBound (change_ownership_or_warn p u g).
Proof. unfold change_ownership_or_warn. apply _. Qed.

Lemma stays_bound_run_each {A} (body : A -> world_method unit) l :
  (forall x, x ∈ l -> StaysBound (body x)) -> StaysBound (run_each body l).
Proof.
  induction l as [|x l IH]; intros Hb; cbn [run_each]; [apply _|].
  pose proof (Hb x (list_elem_of_here _ _)). apply stays_bound_bind; [done|]. intros _. apply IH.
  intros y Hy. by apply Hb, list_elem_of_further.
Qed.

#[global] Instance stays_bound_recursive_copy st src dst : StaysBound (recursiveFilesystemCopy st src dst).
Proof.
  revert dst. induction src as [i se sc IH] using node_ind'. intros dst. cbn [recursiveFilesystemCopy].
  apply stays_bound_bind; [apply _|]. intros n. apply stays_bound_bind; [apply _|]. intros top.
  apply stays_bound_bind; [|intros; apply _]. destruct (ty (elem n)); try apply _.
  apply stays_bound_bind; [apply _|]. intros []; cbn [negb]; [|apply _]. apply stays_bound_bind; [|intros; apply _].
  apply stays_bound_run_each. intros m Hm. apply stays_bound_bind; [apply _|]. rewrite Forall_forall in IH. auto.
Qed.

(** ** Sequences of operations *)

(** the operations that change a tree and the directory it is bound to *)
Inductive change :=
  | ch_copy (srcTree : DirectoryTree) (relativeSrcPath relativeDstPath : path)
  | ch_remove (relativePath : path)
  | ch_symlink (link : FilesystemElement)
  | ch_permissions (relativePath : path) (perm : Z)
  | ch_owner (relativePath : path) (user group : string)
  | ch_mtime (relativePath : path) (mtime : Z).

Definition run_change (c : change) : world_method unit :=
  match c with
  | ch_copy s sp dp => copyFromTreeAndFilesystem s sp dp
  | ch_remove p => _ ← removeFromTreeAndFilesystem p; mret tt
  | ch_symlink link => addSymlinkToTreeAndFilesystem link
  | ch_permissions p perm => modifyPermissionsInTreeAndFilesystem p perm
  | ch_owner p u g => modifyOwnerInTreeAndFilesystem p u g
  | ch_mtime p t => modifyMtimeInTreeAndFilesystem p t
  end.

(** one after the other, whether they succeed or not *)
Definition run_changes (cs : list change) (w : DirectoryTree * FS) : DirectoryTree * FS :=
  foldl (fun w c => (run_change c w).2) w cs.

(** the files below a path that is removed *)
Definition removes (top : path) (c : change) (l : location) : Prop :=
  match c with ch_remove p => locate (top // p) `prefix_of` l | _ => False end.

#[global] Instance removes_dec top c l : Decision (removes top c l).
Proof. destruct c; cbn [removes]; apply _. Defined.

#[global] Instance stays_bound_change c : StaysBound (run_change c).
Proof.
  destruct c; cbn [run_change]; unfold copyFromTreeAndFilesystem, removeFromTreeAndFilesystem, addSymlinkToTreeAndFilesystem,
    modifyPermissionsInTreeAndFilesystem, modifyOwnerInTreeAndFilesystem, modifyMtimeInTreeAndFilesystem; apply _.
Qed.

(** removing spares what is not below the path *)
Lemma remove_kept D p t fs top :
  topPath t = Some top -> (forall l, D l -> ~ locate (top // p) `prefix_of` l) ->
  content_kept D fs (removeFromTreeAndFilesystem p (t, fs)).2.2.
Proof.
  intros Htop HD. unfold removeFromTreeAndFilesystem.
  unfold mbind at 1, method_bind at 1, on_tree at 1, checkTopPath. rewrite Htop.
  unfold mbind at 1, method_bind at 1, on_tree at 1. pose proof (keeps_top (m := removeFromTree p) t) as Hr.
  destruct (removeFromTree p t) as [[[]|e] t']; [|reflexivity]. cbn [snd] in Hr.
  unfold mbind at 1, method_bind at 1, top_value. cbn [fst]. rewrite Hr, Htop. cbn [from_option_err].
  pose proof (spares_remove_all D (top // p) HD). refine (spares_bind D _ _ _ _ (t', fs)); apply _.
Qed.

Lemma change_kept D c t fs top :
  topPath t = Some top -> (forall l, D l -> ~ removes top c l) -> content_kept D fs (run_change c (t, fs)).2.2.
Proof.
  intros Htop HD. destruct c as [s sp dp|p|link|p perm|p u g|p m]; cbn [run_change removes] in *.
  2:{ pose proof (remove_kept D p t fs top Htop HD) as Hk. unfold mbind, method_bind.
      by destruct (removeFromTreeAndFilesystem p (t, fs)) as [[n|e] w]. }
  all: match goal with |- content_kept _ _ (?m _).2.2 => exact (spares D (m := m) (t, fs)) end.
Qed.

Lemma changes_kept D cs t fs top :
  topPath t = Some top -> (forall c l, c ∈ cs -> D l -> ~ removes top c l) ->
  content_kept D fs (run_changes cs (t, fs)).2 /\ topPath (run_changes cs (t, fs)).1 = Some top.
Proof.
  revert t fs. induction cs as [|c cs IH]; intros t fs Htop HD; [by split; [reflexivity|]|].
  cbn [run_changes foldl]. pose proof (stays_bound (m := run_change c) (t, fs)) as Ht.
  pose proof (change_kept D c t fs top Htop) as Hc. destruct (run_change c (t, fs)) as [r [t' fs']]. cbn [fst snd] in *.
  destruct (IH t' fs') as [H1 H2]; [by rewrite Ht|intros c' l Hin; by apply HD, list_elem_of_further|].
  split; [|exact H2]. etrans; [apply Hc; intros l; by apply HD, list_elem_of_here|exact H1].
Qed.
