(* ===== verification/Status.v ===== *)
(** * File status (src/extfs.h, src/extfs.cpp, src/core.cpp)

    What the constructor of [FilesystemElement] reads of a file: [struct stat]
    with mode bits and numeric owners, whose names come from caches in front of
    the user database. The rest of the development works on a filesystem with
    types and names; here this view is shown to be what the program sees. The
    system calls and the database are parameters. *)

From S2P Require Import Prelude CxxPath CxxTime CxxStream Element ExtFs Node Tree FileSystem TreeFs.

(** ** ext_file_status *)

Record Stat := mkStat {
  st_mode : Z;
  st_uid : N;
  st_gid : N;
  st_size : Z;
  st_mtime : Z;
  st_nlink : Z }.

(** an [ext_file_status] is the [struct stat] that it wraps; without a call of
    [stat] it is all zero *)
Abbreviation ext_file_status := Stat.

Definition no_status : ext_file_status := mkStat 0 0 0 0 0 0.

Definition status_type (s : ext_file_status) : file_type := mode_type (st_mode s).
Definition status_permissions (s : ext_file_status) : Z := mode_permissions (st_mode s).
Definition file_size (s : ext_file_status) : Z := st_size s.
Definition mtime (s : ext_file_status) : Z := st_mtime s.
Definition hard_link_count (s : ext_file_status) : Z := st_nlink s.

(** the caches of users and of groups *)
Record Owners := mkOwners { users : OwnerCache; groups : OwnerCache }.

Definition in_users {A} (m : method OwnerCache A) : method Owners A := fun c =>
  let '(r, u) := m (users c) in (r, mkOwners u (groups c)).
Definition in_groups {A} (m : method OwnerCache A) : method Owners A := fun c =>
  let '(r, g) := m (groups c) in (r, mkOwners (users c) g).

(** the size of the buffer for the calls of the database: [sysconf] returns a
    [long], which is converted to [int] *)
Definition allocateStructBuffer (pw_size gr_size : Z) : Z :=
  let defaultValue := 2048%Z in
  let u := to_int pw_size in
  let u := if (u <? 0)%Z then defaultValue else u in
  let g := to_int gr_size in
  let g := if (g <? 0)%Z then defaultValue else g in
  Z.max u g.

Section status.
Context (stat lstat : path -> option Stat) (read_symlink hashFile : path -> outcome string).
Context (getpwuid getgrgid : N -> db_result string) (getpwnam getgrnam : string -> db_result N).
Context (lchown : path -> N -> N -> FS -> bool * FS).

Definition user (s : ext_file_status) : method Owners string := in_users (ext_lookup_user_uid getpwuid (st_uid s)).
Definition group (s : ext_file_status) : method Owners string := in_groups (ext_lookup_group_gid getgrgid (st_gid s)).

Definition ext_status (p : path) : outcome ext_file_status :=
  from_option_err (Throw "ext_status") (stat p).
Definition ext_symlink_status (p : path) : outcome ext_file_status :=
  from_option_err (Throw "ext_symlink_status") (lstat p).

(** the constructor of [FilesystemElement] from a path *)
Definition element_from_status (p top : path) (opt : ScanOpt) : method Owners FilesystemElement :=
  let rp := lexically_relative p top in
  s ← lift_outcome (ext_symlink_status p);
  let per := status_permissions s in
  us ← user s;
  gs ← group s;
  let mt := mtime s in
  let links := hard_link_count s in
  match status_type s with
  | regular =>
      h ← lift_outcome (match opt with ComputeHash => hashFile p | OmitHash => Ok "" end);
      mret (mkElem regular per us gs mt (file_size s) h rp "" links)
  | directory => mret (mkElem directory per us gs mt 0 "" rp "" links)
  | symlink_ =>
      target ← lift_outcome (read_symlink p);
      mret (mkElem symlink_ per us gs mt 0 "" rp target links)
  | _ => mret (mkElem unknown per us gs mt 0 "" rp "" links)
  end.

(** [ext_symlink_change_ownership], with the caches and the filesystem; of the
    two lookups, whose order is not specified, that of the user comes first *)
Definition change_ownership_by_name (p : path) (us gs : string) : method (Owners * FS) unit := fun '(c, fs) =>
  match in_users (ext_lookup_user_name getpwnam us) c with
  | (Err e, c1) => (Err e, (c1, fs))
  | (Ok uid, c1) =>
      match in_groups (ext_lookup_group_name getgrnam gs) c1 with
      | (Err e, c2) => (Err e, (c2, fs))
      | (Ok gid, c2) =>
          let '(done_, fs') := lchown p uid gid fs in
          (if done_ then Ok tt else Err (Throw ("ext_symlink_change_ownership failed with path " +:+ p)), (c2, fs'))
      end
  end.
End status.

(** ** The view of the filesystem *)

Section view.
Context (sha1 : string -> string) (lstat : path -> option Stat) (read_symlink : path -> outcome string).
Context (getpwuid getgrgid : N -> db_result string) (getpwnam getgrnam : string -> db_result N).
Context (Husers : db_bijective getpwuid getpwnam) (Hgroups : db_bijective getgrgid getgrnam).

Definition owners_ok (c : Owners) : Prop := cache_ok getpwuid (users c) /\ cache_ok getgrgid (groups c).

(** the status of a file: the mode has the code of the type and the twelve permission
    bits, and the owners are those with the names *)
Definition status_of (i : Inode) (s : Stat) : Prop :=
  (exists code, type_code (i_type i) = Some code /\ st_mode s = Z.lor code (i_perm i)) /\ (0 <= i_perm i < 4096)%Z /\
  owner_name getpwuid (st_uid s) = i_user i /\ owner_name getgrgid (st_gid s) = i_group i /\
  st_mtime s = i_mtime i /\ st_nlink s = i_links i /\
  (i_type i = regular -> st_size s = Z.of_nat (String.length (i_data i))).

Lemma status_decoded i s :
  status_of i s -> status_type s = i_type i /\ status_permissions s = i_perm i.
Proof using Type.
  intros ((c & Hc & Hm) & Hp & _). destruct (mode_parts _ c (i_perm i) Hc Hp) as [Ht Hpe].
  unfold status_type, status_permissions. rewrite Hm. split; [by apply (mode_type_code _ _ c)|done].
Qed.

(** what the system calls return on the filesystem [fs] *)
Record system_shows (fs : FS) : Prop := {
  sys_absent p : inodes fs !! locate p = None -> lstat p = None;
  sys_status p i : inodes fs !! locate p = Some i -> exists s, lstat p = Some s /\ status_of i s;
  sys_link p i : inodes fs !! locate p = Some i -> i_type i = symlink_ -> read_symlink p = Ok (i_target i) }.

Lemma user_ok c s :
  owners_ok c -> exists c', user getpwuid s c = (Ok (owner_name getpwuid (st_uid s)), c') /\ owners_ok c'.
Proof using Husers.
  intros [Hu Hg]. destruct (lookup_by_id_ok getpwuid getpwnam Husers "ext_lookup_user(uid_t uid): getpwuid_r failed"
    (users c) (st_uid s) Hu) as (u' & E & Hu' & _).
  exists (mkOwners u' (groups c)). unfold user, in_users, ext_lookup_user_uid. by rewrite E.
Qed.

Lemma group_ok c s :
  owners_ok c -> exists c', group getgrgid s c = (Ok (owner_name getgrgid (st_gid s)), c') /\ owners_ok c'.
Proof using Hgroups.
  intros [Hu Hg]. destruct (lookup_by_id_ok getgrgid getgrnam Hgroups "ext_lookup_group(gid_t gid): getgrgid_r failed"
    (groups c) (st_gid s) Hg) as (g' & E & Hg' & _).
  exists (mkOwners (users c) g'). unfold group, in_groups, ext_lookup_group_gid. by rewrite E.
Qed.

(** the element that the constructor builds is the one of the model *)
Lemma element_refines c fs p top opt :
  owners_ok c -> system_shows fs ->
  exists c', element_from_status lstat read_symlink (hashFile sha1 fs) getpwuid getgrgid p top opt c
      = (element_at sha1 fs p top opt, c') /\ owners_ok c'.
Proof using Husers Hgroups.
  intros Hc [Hnone Hsome Hlink]. unfold element_from_status, element_at, ext_symlink_status.
  destruct (inodes fs !! locate p) as [i|] eqn:Hi; cycle 1.
  { exists c. by rewrite Hnone. }
  destruct (Hsome p i Hi) as (s & Hs & Hst). destruct (status_decoded i s Hst) as [Ht Hp].
  destruct Hst as (_ & _ & Hu & Hg & Hm & Hl & Hz). rewrite Hs.
  destruct (user_ok c s Hc) as (c1 & E1 & Hc1). destruct (group_ok c1 s Hc1) as (c2 & E2 & Hc2).
  exists c2. split; [|done]. unfold mbind at 1, method_bind at 1, lift_outcome at 1. cbn [from_option_err].
  unfold mbind at 1, method_bind at 1. rewrite E1. unfold mbind at 1, method_bind at 1. rewrite E2.
  rewrite Ht, Hp, Hu, Hg. unfold mtime, hard_link_count, file_size. rewrite Hm, Hl.
  destruct (i_type i) eqn:Hty; try done.
  - rewrite Hz by done. unfold mbind, method_bind, lift_outcome. destruct opt; [|done]. by destruct (hashFile sha1 fs p).
  - unfold mbind, method_bind, lift_outcome. by rewrite (Hlink p i Hi Hty).
Qed.

(** the rights of the model are the names that caches and database know *)
Definition rights_shown (c : Owners) (r : Rights) : Prop :=
  (forall n, n ∈ known_users r <-> name_known getpwnam (users c) n) /\
  (forall n, n ∈ known_groups r <-> name_known getgrnam (groups c) n).

(** [lchown] on the filesystem of the model *)
Definition lchown_shows (lchown : path -> N -> N -> FS -> bool * FS) : Prop :=
  forall p uid gid fs, lchown p uid gid fs =
    match inodes fs !! locate p with
    | Some i =>
        if may_chown (rights fs)
        then (true, set_inodes (<[locate p := with_owner (owner_name getpwuid uid) (owner_name getgrgid gid) i]> (inodes fs)) fs)
        else (false, fs)
    | None => (false, fs)
    end.

Lemma change_refines lchown c fs p u g :
  lchown_shows lchown -> owners_ok c -> rights_shown c (rights fs) ->
  exists c', change_ownership_by_name getpwnam getgrnam lchown p u g (c, fs)
      = (let '(r, fs') := ext_symlink_change_ownership p u g fs in (r, (c', fs'))) /\
    owners_ok c' /\ rights_shown c' (rights fs).
Proof using Husers Hgroups.
  intros Hl [Hu Hg] [Ru Rg]. unfold change_ownership_by_name, ext_symlink_change_ownership.
  unfold in_users, in_groups, ext_lookup_user_name, ext_lookup_group_name.
  destruct (lookup_by_name_cases getpwuid getpwnam Husers "ext_lookup_user(const string& user): getpwnam_r failed"
    (fun user => "ext_lookup_user(const string& user): user " +:+ user +:+ " not found in the system") (users c) u Hu)
    as [(Ku & uid & u' & -> & Eu & Hu' & Nu)|(Ku & Eu)]; rewrite Eu; cbn [users groups]; cycle 1.
  { exists c. rewrite bool_decide_false by (by rewrite Ru). by destruct c. }
  rewrite bool_decide_true by (by apply Ru). cbn [negb].
  destruct (lookup_by_name_cases getgrgid getgrnam Hgroups "ext_lookup_group(const string& group): getgrnam_r failed"
    (fun group => "ext_lookup_group(const string& group): group " +:+ group +:+ " not found in the system") (groups c) g Hg)
    as [(Kg & gid & g' & -> & Eg & Hg' & Ng)|(Kg & Eg)]; rewrite Eg; cycle 1.
  { exists (mkOwners u' (groups c)). rewrite bool_decide_false by (by rewrite Rg). split; [done|]. split; [done|].
    split; [|done]. intros n. cbn [users]. by rewrite Nu. }
  rewrite bool_decide_true by (by apply Rg). cbn [negb]. exists (mkOwners u' g'). split.
  - rewrite Hl. unfold fs_update. by destruct (inodes fs !! locate p), (may_chown (rights fs)).
  - split; [done|]. split; intros n; cbn [users groups]; by rewrite ?Nu, ?Ng.
Qed.
End view.
