(* ===== verification/Threads.v ===== *)
(** * Two threads that scan (src/backup.cpp, src/extfs.cpp)

    [scanSourceTargetDir] scans source and backup directory in two threads. They
    share the caches of owner names, the buffer that the calls of the user
    database write to, and the mutex that protects both. A thread is a program
    whose only interaction with the other one are lookups of owner names; a
    lookup is a sequence of steps between [lock] and [unlock]. *)

From S2P Require Import Prelude CxxPath CxxTime CxxStream Element ExtFs Node Tree FileSystem TreeFs Status.

(** ** Programs that look up owners *)

Inductive request := ReqUser (uid : N) | ReqGroup (gid : N).

Definition req_id (q : request) : N := match q with ReqUser id | ReqGroup id => id end.

Inductive prog (V : Type) :=
  | Done (v : V)
  | Ask (q : request) (k : outcome string -> prog V).
Arguments Done {V} v.
Arguments Ask {V} q k.

Fixpoint prog_bind {V W} (p : prog V) (f : V -> prog W) : prog W :=
  match p with
  | Done v => f v
  | Ask q k => Ask q (fun r => prog_bind (k r) f)
  end.

(** the answers come from a function *)
Fixpoint answered {V} (h : request -> outcome string) (p : prog V) : V :=
  match p with
  | Done v => v
  | Ask q k => answered h (k (h q))
  end.

(** the answers come from methods of an object *)
Fixpoint served {S V} (h : request -> method S string) (p : prog V) (s : S) : V * S :=
  match p with
  | Done v => (v, s)
  | Ask q k => let '(r, s') := h q s in served h (k r) s'
  end.

Lemma answered_bind {V W} h (p : prog V) (f : V -> prog W) : answered h (prog_bind p f) = answered h (f (answered h p)).
Proof. induction p as [v|q k IH]; [done|]. apply IH. Qed.

Lemma served_bind {S V W} (h : request -> method S string) (p : prog V) (f : V -> prog W) s :
  served h (prog_bind p f) s = let '(v, s') := served h p s in served h (f v) s'.
Proof. revert s. induction p as [v|q k IH]; intros s; [done|]. cbn. by destruct (h q s). Qed.

(** ** Methods that look up owners *)

Definition pmethod (S A : Type) : Type := S -> prog (outcome A * S).

#[global] Instance pmethod_ret S : MRet (pmethod S) := fun A a s => Done (Ok a, s).
#[global] Instance pmethod_bind S : MBind (pmethod S) := fun A B k m s =>
  prog_bind (m s) (fun '(r, s') => match r with Ok a => k a s' | Err e => Done (Err e, s') end).

Definition quietly {S A} (m : method S A) : pmethod S A := fun s => Done (m s).
Definition lookup_owner {S} (q : request) : pmethod S string := fun s => Ask q (fun r => Done (r, s)).

(** a method that asks, and one that does not *)
Definition implements {S A} (h : request -> outcome string) (m : pmethod S A) (n : method S A) : Prop :=
  forall s, answered h (m s) = n s.

Lemma implements_bind {S A B} h (m : pmethod S A) n (f : A -> pmethod S B) g :
  implements h m n -> (forall a, implements h (f a) (g a)) -> implements h (mbind f m) (mbind g n).
Proof.
  intros Hm Hf s. unfold mbind, pmethod_bind, method_bind. rewrite answered_bind, Hm.
  destruct (n s) as [[a|e] s']; [apply Hf|done].
Qed.

Lemma implements_ret {S A} h (a : A) : implements h (mret a : pmethod S A) (mret a).
Proof. done. Qed.

Lemma implements_quietly {S A} h (m : method S A) : implements h (quietly m) m.
Proof. done. Qed.

Lemma implements_lookup {S} h q : implements h (lookup_owner q : pmethod S string) (lift_outcome (h q)).
Proof. done. Qed.

Create HintDb implements.
#[export] Hint Resolve implements_bind implements_ret implements_quietly implements_lookup : implements.

(** ** Scanning with lookups *)

Section scan.
Context (lstat : path -> option Stat) (read_symlink : path -> outcome string) (hash : path -> outcome string).
Context (order : gset string -> list string) (absolute : path -> path).

(** the constructor of [FilesystemElement] from a path *)
Definition scan_element {S} (p top : path) (o : ScanOpt) : pmethod S FilesystemElement :=
  let rp := lexically_relative p top in
  s ← quietly (lift_outcome (ext_symlink_status lstat p));
  let per := status_permissions s in
  us ← lookup_owner (ReqUser (st_uid s));
  gs ← lookup_owner (ReqGroup (st_gid s));
  let mt := mtime s in
  let links := hard_link_count s in
  match status_type s with
  | regular =>
      h ← quietly (lift_outcome (match o with ComputeHash => hash p | OmitHash => Ok "" end));
      mret (mkElem regular per us gs mt (file_size s) h rp "" links)
  | directory => mret (mkElem directory per us gs mt 0 "" rp "" links)
  | symlink_ =>
      target ← quietly (lift_outcome (read_symlink p));
      mret (mkElem symlink_ per us gs mt 0 "" rp target links)
  | _ => mret (mkElem unknown per us gs mt 0 "" rp "" links)
  end.

Fixpoint scan_entries (top : path) (o : ScanOpt) (entries : list path) (nodes : list DirectoryNode) (k : nat)
    : pmethod DirectoryTree (list DirectoryNode * nat) :=
  match entries with
  | [] => mret (nodes, k)
  | p :: rest =>
      e ← scan_element p top o;
      scan_entries top o rest (nodes ++ [mkNode k e []]) (S k)
  end.

Fixpoint scan_each (body : DirectoryNode -> pmethod DirectoryTree unit) (l : list DirectoryNode)
    : pmethod DirectoryTree unit :=
  match l with
  | [] => mret tt
  | n :: l' => _ ← body n; scan_each body l'
  end.

(** [recursiveBuildFromPath] *)
Fixpoint scan_build (fuel : nat) (fs : FS) (top p : path) : pmethod DirectoryTree unit :=
  match fuel with
  | O => quietly (lift_outcome (Err OutOfFuel))
  | S fuel' =>
      t ← quietly get_state;
      entries ← quietly (lift_outcome (directory_iterator order fs (top // p)));
      '(nodes, k) ← scan_entries top (opt t) entries [] (next t);
      _ ← quietly (set_next k);
      let nodes := list_sort node_ltb nodes in
      _ ← quietly (if is_nil (topContent t) then set_top nodes
           else
             i ← lift_outcome (from_option_err (AssertFailed "recursiveBuildFromPath: it!=index.end()")
                                 (index t !! p));
             d ← deref i;
             d' ← lift_outcome (setDirectoryContent nodes d);
             mutate i (fun _ => d'));
      _ ← quietly (index_nodes nodes);
      scan_each (fun n => if isDirectory (elem n) then scan_build fuel' fs top (rp (elem n)) else mret tt) nodes
  end.

(** [DirectoryTree::scanDirectory] *)
Definition scan_directory (fs : FS) (top : path) (o : ScanOpt) : pmethod DirectoryTree unit :=
  _ ← quietly clear;
  _ ← quietly (set_opt o);
  _ ← quietly (set_topPath (Some (absolute top)));
  if negb (is_directory fs (absolute top))
  then quietly (lift_outcome (Err (Throw (top +:+ " is not a directory"))))
  else scan_build (S (fs_depth fs)) fs (absolute top) "".
End scan.

(** ** The scan with lookups is the scan of the model *)

Section scan_refines.
Context (sha1 : string -> string) (lstat : path -> option Stat) (read_symlink : path -> outcome string).
Context (getpwuid getgrgid : N -> db_result string).
Context (order : gset string -> list string) (absolute : path -> path) (fs : FS).
Context (Hsys : system_shows lstat read_symlink getpwuid getgrgid fs).

Definition owner_of (q : request) : string :=
  match q with
  | ReqUser id => owner_name getpwuid id
  | ReqGroup id => owner_name getgrgid id
  end.
Abbreviation names := (fun q => Ok (owner_of q)).

Lemma scan_element_ok {S} p top o :
  implements names (scan_element lstat read_symlink (hashFile sha1 fs) p top o)
    (lift_outcome (element_at sha1 fs p top o) : method S _).
Proof using Hsys.
  intros s. destruct Hsys as [Hnone Hsome Hlink]. unfold scan_element, element_at, ext_symlink_status.
  destruct (inodes fs !! locate p) as [i|] eqn:Hi; [|by rewrite Hnone].
  destruct (Hsome p i Hi) as (st & Hs & Hst). destruct (status_decoded _ _ i st Hst) as [Ht Hp].
  destruct Hst as (_ & _ & Hu & Hg & Hm & Hl & Hz). rewrite Hs.
  unfold mbind, pmethod_bind, quietly, lift_outcome, lookup_owner. cbn [from_option_err prog_bind answered owner_of].
  rewrite Ht, Hp, Hu, Hg. unfold mtime, hard_link_count, file_size. rewrite Hm, Hl.
  destruct (i_type i) eqn:Hty; try done.
  - rewrite Hz by done. destruct o; [|done]. cbn. by destruct (hashFile sha1 fs p).
  - by rewrite (Hlink p i Hi Hty).
Qed.

Lemma scan_entries_ok top o entries nodes k :
  implements names (scan_entries lstat read_symlink (hashFile sha1 fs) top o entries nodes k)
    (lift_outcome (for_each (fun p '(nodes, k) => e ← element_at sha1 fs p top o; Ok (nodes ++ [mkNode k e []], S k))
                     entries (nodes, k))).
Proof using Hsys.
  revert nodes k. induction entries as [|p rest IH]; intros nodes k t; [done|].
  cbn [scan_entries for_each]. unfold mbind at 1, pmethod_bind. rewrite answered_bind, scan_element_ok.
  unfold lift_outcome at 1. destruct (element_at sha1 fs p top o) as [e|err]; [apply IH|done].
Qed.

Lemma scan_each_ok body body' l :
  (forall n, implements names (body n) (body' n)) -> implements names (scan_each body l) (run_each body' l).
Proof using Type.
  intros Hb. induction l as [|n l IH]; cbn [scan_each run_each]; auto with implements.
Qed.

Lemma scan_build_ok fuel top p :
  implements names (scan_build lstat read_symlink (hashFile sha1 fs) order fuel fs top p)
    (recursiveBuildFromPath sha1 order fuel fs top p).
Proof using Hsys.
  revert p. induction fuel as [|fuel IH]; intros p; [done|]. cbn [scan_build recursiveBuildFromPath].
  do 2 (apply implements_bind; [apply implements_quietly|]; intros ?).
  apply implements_bind; [apply scan_entries_ok|]. intros [nodes k].
  do 3 (apply implements_bind; [apply implements_quietly|]; intros ?).
  apply scan_each_ok. intros nd. destruct (isDirectory _); auto with implements.
Qed.

Lemma scan_directory_ok top o :
  implements names (scan_directory lstat read_symlink (hashFile sha1 fs) order absolute fs top o)
    (scanDirectory sha1 order absolute fs top o).
Proof using Hsys.
  unfold scan_directory, scanDirectory.
  repeat (apply implements_bind; [by auto with implements|]; intros ?).
  destruct (negb _); auto using scan_build_ok with implements.
Qed.
End scan_refines.

(** one element, looked up in the caches by a single thread *)
Lemma scan_element_alone lstat read_symlink hash getpwuid getgrgid p top o c :
  (served (fun q => match q with
     | ReqUser id => in_users (ext_lookup_user_uid getpwuid id)
     | ReqGroup id => in_groups (ext_lookup_group_gid getgrgid id)
     end) (scan_element lstat read_symlink hash p top o tt) c) =
  let '(r, c') := element_from_status lstat read_symlink hash getpwuid getgrgid p top o c in (r, tt, c').
Proof.
  unfold scan_element, element_from_status, ext_symlink_status.
  unfold mbind, pmethod_bind, method_bind, quietly, lift_outcome, lookup_owner, user, group.
  destruct (lstat p) as [st|]; cbn [from_option_err prog_bind served]; [|done].
  destruct (in_users _ c) as [[us|e] c1]; cbn [prog_bind served]; [|done].
  destruct (in_groups _ c1) as [[gs|e] c2]; cbn [prog_bind served]; [|done].
  destruct (status_type st); try done.
  - destruct o; [|done]. by destruct (hash p).
  - by destruct (read_symlink p).
Qed.

(** ** Two threads *)

(** what the threads share *)
Record Shared := mkShared {
  mutex : option bool;       (** the thread that holds the lock: true is the background thread *)
  structBuffer : string;     (** the name that the last call of the database left *)
  owners : Owners }.

(** where a thread is in a lookup *)
Inductive where_ :=
  | Outside
  | Entered                                   (** it has the lock *)
  | Missing                                   (** the cache has no entry *)
  | Fetched (found : bool)                    (** the database was called *)
  | Stored (found : bool) (name : string)     (** the cache has an entry, the reverse cache not yet *)
  | Leaving (r : outcome string).

Section threads.
Context {V : Type} (getpwuid getgrgid : N -> db_result string).

Definition thread : Type := where_ * prog V.

Definition cache_of (q : request) (c : Owners) : OwnerCache :=
  match q with ReqUser _ => users c | ReqGroup _ => groups c end.
Definition set_cache (q : request) (x : OwnerCache) (c : Owners) : Owners :=
  match q with ReqUser _ => mkOwners x (groups c) | ReqGroup _ => mkOwners (users c) x end.
Definition database (q : request) : db_result string :=
  match q with ReqUser id => getpwuid id | ReqGroup id => getgrgid id end.
Definition lookup_failed (q : request) : error :=
  Throw (match q with
         | ReqUser _ => "ext_lookup_user(uid_t uid): getpwuid_r failed"
         | ReqGroup _ => "ext_lookup_group(gid_t gid): getgrgid_r failed"
         end).

(** [result->pw_name] is in the buffer *)
Definition entry_name (q : request) (found : bool) (sh : Shared) : string :=
  if found then structBuffer sh else N_to_string (req_id q).

Definition with_buffer (b : string) (sh : Shared) : Shared := mkShared (mutex sh) b (owners sh).
Definition with_mutex (m : option bool) (sh : Shared) : Shared := mkShared m (structBuffer sh) (owners sh).
Definition with_cache (q : request) (x : OwnerCache) (sh : Shared) : Shared :=
  mkShared (mutex sh) (structBuffer sh) (set_cache q x (owners sh)).

(** one step of the thread [i]; a call that finds nothing may leave anything in
    the buffer *)
Inductive thread_step (i : bool) : Shared -> thread -> Shared -> thread -> Prop :=
  | t_lock q k sh :
      mutex sh = None -> thread_step i sh (Outside, Ask q k) (with_mutex (Some i) sh) (Entered, Ask q k)
  | t_hit q k sh n :
      byId (cache_of q (owners sh)) !! req_id q = Some n ->
      thread_step i sh (Entered, Ask q k) sh (Leaving (Ok n), Ask q k)
  | t_miss q k sh :
      byId (cache_of q (owners sh)) !! req_id q = None -> thread_step i sh (Entered, Ask q k) sh (Missing, Ask q k)
  | t_failed q k sh b :
      database q = DbFailed ->
      thread_step i sh (Missing, Ask q k) (with_buffer b sh) (Leaving (Err (lookup_failed q)), Ask q k)
  | t_found q k sh n :
      database q = DbFound n -> thread_step i sh (Missing, Ask q k) (with_buffer n sh) (Fetched true, Ask q k)
  | t_unknown q k sh b :
      database q = DbNotFound -> thread_step i sh (Missing, Ask q k) (with_buffer b sh) (Fetched false, Ask q k)
  | t_store q k sh found :
      let x := cache_of q (owners sh) in
      let n := entry_name q found sh in
      thread_step i sh (Fetched found, Ask q k)
        (with_cache q (mkCache (map_insert (req_id q) n (byId x)) (byName x)) sh)
        (Stored found (default n (byId x !! req_id q)), Ask q k)
  | t_reverse q k sh found n :
      let x := cache_of q (owners sh) in
      thread_step i sh (Stored found n, Ask q k)
        (with_cache q (mkCache (byId x) (map_insert (entry_name q found sh) (req_id q) (byName x))) sh)
        (Leaving (Ok n), Ask q k)
  | t_unlock q k sh r :
      thread_step i sh (Leaving r, Ask q k) (with_mutex None sh) (Outside, k r).

Record System := mkSystem { shared : Shared; background : thread; foreground : thread }.

(** either thread makes a step *)
Inductive step : System -> System -> Prop :=
  | s_background sh sh' b b' f : thread_step true sh b sh' b' -> step (mkSystem sh b f) (mkSystem sh' b' f)
  | s_foreground sh sh' b f f' : thread_step false sh f sh' f' -> step (mkSystem sh b f) (mkSystem sh' b f').

Definition launched (c : Owners) (buf : string) (p1 p2 : prog V) : System :=
  mkSystem (mkShared None buf c) (Outside, p1) (Outside, p2).
Definition finished (S : System) (v1 v2 : V) : Prop :=
  mutex (shared S) = None /\ background S = (Outside, Done v1) /\ foreground S = (Outside, Done v2).
End threads.
