(* ===== verification/ScanSpec.v ===== *)
(** * Scanning a directory

    The tree that [scanDirectory] builds is a picture of the directory: at every
    path it has the element of the file that is there, and no other element. *)

From S2P Require Import Prelude CxxPath CxxTime CxxStream Element Node Tree TreeInv TreeOps TreeCopy TreeIO TreeLoad DiffSpec FileSystem FsSpec TreeFs.

Section picture.
Context (sha1 : string -> string).

(** the element of a file *)
Definition elem_of_inode (o : ScanOpt) (q : path) (i : Inode) : FilesystemElement :=
  let t := match i_type i with
           | regular => regular | directory => directory | symlink_ => symlink_ | _ => unknown end in
  mkElem t (i_perm i) (i_user i) (i_group i) (i_mtime i)
    (if bool_decide (t = regular) then Z.of_nat (String.length (i_data i)) else 0%Z)
    (if bool_decide (t = regular) then match o with ComputeHash => sha1 (i_data i) | OmitHash => "" end else "")
    q (if bool_decide (t = symlink_) then i_target i else "") (i_links i).

(** what is at a path of the directory [top] *)
Definition scan_at (fs : FS) (top : path) (o : ScanOpt) (q : path) : option FilesystemElement :=
  elem_of_inode o q <$> inodes fs !! (locate top ++ comps q).

Lemma scan_at_rp fs top o q e : scan_at fs top o q = Some e -> rp e = q.
Proof. unfold scan_at. intros (i & _ & <-)%fmap_Some_1 || intros (i & _ & ->)%fmap_Some_1. done. Qed.

Lemma isDirectory_scan fs top o q e :
  scan_at fs top o q = Some e -> isDirectory e = is_dir_loc fs (locate top ++ comps q).
Proof.
  unfold scan_at, is_dir_loc. destruct (inodes fs !! _) as [i|]; [|done]. intros [= <-].
  unfold isDirectory. cbn [elem_of_inode ty]. by destruct (i_type i).
Qed.

Lemma element_at_ok fs top o q e :
  good_top top = true -> good_path q = true -> scan_at fs top o q = Some e ->
  element_at sha1 fs (top // q) top o = Ok e.
Proof.
  intros Ht Hq. unfold scan_at, element_at, hashFile. rewrite lexically_relative_entry by done.
  rewrite locate_entry by auto. destruct (inodes fs !! _) as [i|] eqn:Ei; [|done]. intros [= <-].
  unfold elem_of_inode. destruct (i_type i) eqn:Et; try done. by destruct o.
Qed.

Lemma scan_nodes_ok fs top o p ns es k :
  good_top top = true -> good_dir p = true -> Forall (fun n => good_name n = true) ns ->
  Forall2 (fun n e => scan_at fs top o (p // n) = Some e) ns es ->
  scan_nodes sha1 fs top o ((fun n => top // p // n) <$> ns) k = Ok (alloc k es, k + length es).
Proof.
  intros Ht Hp Hns Hes. unfold scan_nodes.
  assert (Hgen : forall past k0, k0 = k + length past ->
    for_each (fun p0 '(nodes, k1) => e ← element_at sha1 fs p0 top o; Ok (nodes ++ [mkNode k1 e []], S k1))
      ((fun n => top // p // n) <$> ns) (alloc k past, k0) = Ok (alloc k (past ++ es), k + length (past ++ es)));
    [|by apply (Hgen [])].
  induction Hes as [|n e ns es He _ IH]; intros past k0 ->.
  - by rewrite !app_nil_r.
  - apply Forall_cons in Hns as [Hn Hns]. rewrite fmap_cons. cbn [for_each].
    rewrite append_assoc, (element_at_ok fs top o (p // n) e) by auto. cbn [mbind outcome_bind].
    rewrite <-alloc_snoc, (IH Hns (past ++ [e])), <-app_assoc; [done|].
    rewrite length_app. simpl. lia.
Qed.

(** the content of the directory [p], all the way down *)
Definition pictures (fs : FS) (top : path) (o : ScanOpt) (p : path) (c : list DirectoryNode) : Prop :=
  forest_sorted c /\
  forall q, model_of c !! q = if decide (below p q) then scan_at fs top o q else None.
End picture.

#[global] Instance below_dec p q : Decision (below p q).
Proof. unfold below. apply _. Defined.

(** ** The index *)

(** [index_nodes] on nodes without content *)
Lemma index_nodes_ok ns t :
  Forall (fun n => content n = []) ns -> NoDup (paths ns) ->
  (forall p, p ∈ paths ns -> index t !! p = None) ->
  exists ws, index_nodes ns t =
  (Ok tt, mkTree (topContent t) (path_index ns ∪ index t) (topPath t) (opt t) (next t) (warnings t ++ ws)).
Proof.
  intros Hc. revert t. induction Hc as [|[i e c] ns Hn _ IH]; intros t Hnd Hnew.
  - exists []. cbn [index_nodes]. unfold path_index. cbn. rewrite app_nil_r, (left_id_L ∅ (∪)). by destruct t.
  - cbn [content] in Hn. subst c. rewrite paths_cons in Hnd, Hnew. cbn [paths forest flat_map] in Hnd, Hnew.
    change (paths []) with (@nil path) in Hnd, Hnew. cbn [app] in Hnd, Hnew.
    apply NoDup_cons in Hnd as [Hni Hnd]. cbn [index_nodes elem nid].
    unfold mbind, method_bind, get_state, lift_outcome, index_insert, set_index.
    rewrite Hnew by apply list_elem_of_here.
    set (w1 := if bool_decide (ty e = unknown) then ["Warning: " +:+ rp e +:+ " unsupported file type"] else []).
    set (b := negb (bool_decide (ty e = directory)) && negb (bool_decide (hardLinkCnt e = 1%Z))).
    set (w2 := if b then ["Warning: " +:+ rp e +:+ " has multiple hardlinks"] else []).
    set (t2 := mkTree (topContent t) (<[rp e := i]> (index t)) (topPath t) (opt t) (next t)
      ((warnings t ++ w1) ++ w2)).
    destruct (IH t2) as [ws E]; [done| |].
    { intros p Hp. unfold t2. cbn [index]. rewrite lookup_insert_ne; [|by intros <-].
      apply Hnew. by apply list_elem_of_further. }
    exists (w1 ++ w2 ++ ws). etransitivity; [|etransitivity; [exact E|]].
    + unfold t2, w1, w2. case_bool_decide; destruct b; unfold warn, mret, method_ret;
        cbn [topContent index topPath opt next warnings]; by rewrite ?app_nil_r.
    + unfold t2. cbn [topContent index topPath opt next warnings].
      rewrite <-!app_assoc, path_index_cons, <-insert_union_l.
      change (path_index []) with (∅ : gmap path nat).
      rewrite (left_id_L ∅ (∪)), insert_union_r; [done|]. by apply path_index_None.
Qed.

(** ** One level *)

(** what scanning keeps of a tree *)
Definition kept (t t' : DirectoryTree) : Prop :=
  tree_inv t' /\ next t <= next t' /\ topPath t' = topPath t /\ opt t' = opt t.

Lemma kept_refl t : tree_inv t -> kept t t.
Proof. unfold kept. auto. Qed.

Lemma kept_trans t1 t2 t3 : kept t1 t2 -> kept t2 t3 -> kept t1 t3.
Proof. intros (_ & N1 & P1 & O1) (I2 & N2 & P2 & O2). split; [done|]. split_and!; [lia|congruence..]. Qed.

Section scan.
Context (sha1 : string -> string) (order : gset string -> list string).
Context (Horder : forall s, order s ≡ₚ elements s).
Context (fs : FS) (Hfs : fs_wf fs) (top : path) (Htop : good_top top = true) (o : ScanOpt).

Abbreviation scan := (scan_at sha1 fs top o).
Abbreviation shows := (pictures sha1 fs top o).

Lemma scan_path q e : scan q = Some e -> q <> "" -> good_path q = true.
Proof using Hfs.
  unfold scan_at. destruct (inodes fs !! _) as [i|] eqn:Hi; [|done]. intros _ Hq.
  apply (fs_names fs Hfs) in Hi. rewrite forallb_app in Hi. split_andb.
  unfold good_path. by destruct q.
Qed.

(** the nodes of the directory [p], in the order of the tree, without content *)
Definition level (p : path) (ns : list DirectoryNode) : Prop :=
  Forall (fun n => content n = []) ns /\ sorted ns /\ NoDup (paths ns) /\
  (forall n, n ∈ ns -> scan (rp (elem n)) = Some (elem n)) /\
  (forall q, q ∈ paths ns <-> good_path q = true /\ parent_path q = p /\ is_Some (scan q)).

Lemma paths_flat ns : Forall (fun n => content n = []) ns -> paths ns = (fun n => rp (elem n)) <$> ns.
Proof.
  induction 1 as [|[i e c] ns Hn _ IH]; [done|]. cbn [content] in Hn. subst c.
  rewrite paths_cons, IH. done.
Qed.

Lemma level_wf p ns : good_dir p = true -> level p ns -> forest_wf p ns = true.
Proof.
  intros Hp (Hc & _ & _ & _ & Hq). apply forallb_Forall', Forall_forall. intros n Hn.
  rewrite (paths_flat ns Hc) in Hq. rewrite Forall_forall in Hc. specialize (Hc n Hn).
  destruct (proj1 (Hq (rp (elem n)))) as (Hg & Hpar & _); [by apply (list_elem_of_fmap_2 (fun n => rp (elem n)))|].
  destruct n as [i e c]. cbn [elem content] in *. subst c. apply forest_wf_node, forest_wf_cons.
  split_and!; [by auto|by rewrite <-Hpar, parent_filename|by right|done|done].
Qed.

(** the entries of a directory, when each of them can be read *)
Lemma scan_all p ns :
  (forall n, n ∈ ns -> is_Some (scan (p // n))) -> exists es, Forall2 (fun n e => scan (p // n) = Some e) ns es.
Proof.
  intros Hscan. induction ns as [|n ns IH]; [exists []; constructor|].
  destruct (Hscan n (list_elem_of_here _ _)) as [e He].
  destruct IH as [es Hes]; [intros; by apply Hscan, list_elem_of_further|]. exists (e :: es). by constructor.
Qed.

Lemma scanned_paths p ns es :
  Forall2 (fun n e => scan (p // n) = Some e) ns es -> rp <$> es = (fun n => p // n) <$> ns.
Proof.
  induction 1 as [|n e ns es He _ IH]; [done|]. rewrite !fmap_cons, IH. f_equal. by apply scan_at_rp in He.
Qed.

Lemma alloc_elem k es n : n ∈ alloc k es -> content n = [] /\ elem n ∈ es.
Proof.
  revert k. induction es as [|e es IH]; intros k; [by intros ?%not_elem_of_nil|].
  cbn [alloc]. intros [->|Hn]%elem_of_cons; [split; [done|]; apply list_elem_of_here|].
  destruct (IH _ Hn). split; [done|]. by apply list_elem_of_further.
Qed.

(** listing a directory and reading its entries gives a level *)
Lemma scan_level p k :
  good_dir p = true -> is_dir_loc fs (locate top ++ comps p) = true ->
  exists entries nodes k', directory_iterator order fs (top // p) = Ok entries /\
    scan_nodes sha1 fs top o entries k = Ok (nodes, k') /\
    ids nodes = seq k (k' - k) /\ k <= k' /\ level p (list_sort node_ltb nodes).
Proof using Horder Hfs Htop.
  intros Hp Hd. unfold directory_iterator, is_directory. rewrite locate_entry, Hd by done.
  set (ns := order (dir_names fs (locate top ++ comps p))).
  assert (Hns : forall n, n ∈ ns <-> is_Some (inodes fs !! ((locate top ++ comps p) ++ [n]))).
  { intros n. unfold ns. rewrite Horder, elem_of_elements. apply elem_of_dir_names. }
  assert (Hgood : Forall (fun n => good_name n = true) ns).
  { apply Forall_forall. intros n [i Hi]%Hns. apply (fs_names fs Hfs) in Hi.
    rewrite forallb_app in Hi. split_andb. cbn in H0. by rewrite andb_true_r in H0. }
  assert (Hscan : forall n, n ∈ ns -> is_Some (scan (p // n))).
  { intros n Hn. rewrite Forall_forall in Hgood. unfold scan_at. rewrite comps_append by auto.
    rewrite app_assoc. apply Hns in Hn as [i ->]. by eexists. }
  destruct (scan_all p ns Hscan) as [es Hes].
  exists ((fun n => top // p // n) <$> ns), (alloc k es), (k + length es).
  split; [done|]. split; [by apply scan_nodes_ok|]. rewrite ids_alloc.
  split; [f_equal; lia|]. split; [lia|].
  pose proof (scanned_paths p ns es Hes) as Hrp.
  pose proof (list_sort_perm node_ltb (alloc k es)) as Hperm.
  assert (Hel : forall e, e ∈ es -> scan (rp e) = Some e).
  { intros e [j Hj]%list_elem_of_lookup. destruct (Forall2_lookup_r _ _ _ _ _ Hes Hj) as (n & _ & He).
    by rewrite (scan_at_rp _ _ _ _ _ _ He). }
  split_and!.
  - apply Forall_forall. intros n Hn. rewrite Hperm in Hn. by apply (alloc_elem k es).
  - apply sort_sorted.
  - rewrite Hperm, paths_alloc, Hrp. apply (NoDup_fmap_2_strong _); [|unfold ns; rewrite Horder; apply NoDup_elements].
    intros x y Hx Hy. rewrite Forall_forall in Hgood. apply append_inj; auto.
  - intros n Hn. rewrite Hperm in Hn. by apply Hel, (alloc_elem k es).
  - intros q. rewrite Hperm, paths_alloc, Hrp. rewrite Forall_forall in Hgood. split.
    + intros (n & -> & Hn)%list_elem_of_fmap. split_and!; [by auto|by apply parent_append; auto|auto].
    + intros (Hg & Hpar & [e He]). apply list_elem_of_fmap. exists (filename q).
      rewrite <-Hpar, parent_filename by done. split; [done|]. apply Hns.
      unfold scan_at in He. rewrite (comps_parent q Hg), Hpar, app_assoc in He.
      destruct (inodes fs !! _); [by eexists|done].
Qed.

(** ** From levels to pictures *)

Lemma model_of_cons i e c l q :
  model_of (mkNode i e c :: l) !! q =
  if decide (rp e = q) then Some e else model_of c !! q ∪ model_of l !! q.
Proof.
  unfold model_of. rewrite forest_cons, fmap_cons, fmap_app. cbn [list_to_map path_elem snd foldr fst].
  unfold path_elem at 1. cbn [snd]. cbn. case_decide as Hq.
  - subst. by rewrite lookup_insert_eq.
  - rewrite lookup_insert_ne by done. fold (@list_to_map path FilesystemElement (gmap path FilesystemElement) _ _).
    rewrite list_to_map_app, lookup_union. done.
Qed.

(** a node of a level whose content was filled *)
Definition filled_in (n n' : DirectoryNode) : Prop :=
  nid n' = nid n /\ elem n' = elem n /\ shows (rp (elem n)) (content n').

Lemma below_within p q : within p q <-> p = q \/ below p q.
Proof.
  unfold below. split; [|intros [->|[? _]]; auto]. destruct (decide (p = q)); auto.
Qed.

Lemma filled_lookup ns ns' q :
  Forall2 filled_in ns ns' -> (forall n, n ∈ ns -> scan (rp (elem n)) = Some (elem n)) ->
  model_of ns' !! q = if decide (Exists (fun n => within (rp (elem n)) q) ns) then scan q else None.
Proof.
  intros H. induction H as [|[i e c] [i' e' c'] ns ns' (_ & He & Hc) _ IH]; intros Hel.
  { cbn. case_decide as Hx; [by inversion Hx|done]. }
  cbn [elem content] in *. subst e'. rewrite model_of_cons, (proj2 Hc q).
  rewrite IH by (intros; by apply Hel, list_elem_of_further).
  pose proof (Hel _ (list_elem_of_here _ _)) as Hs. cbn [elem] in Hs.
  destruct (decide (rp e = q)) as [<-|Hne].
  { rewrite decide_True; [done|]. apply Exists_cons. left. cbn [elem]. auto. }
  destruct (decide (below (rp e) q)) as [Hb|Hb].
  - rewrite (decide_True (P := Exists _ (_ :: _))); [|apply Exists_cons; left; cbn [elem]; by destruct Hb].
    destruct (scan q); by case_decide.
  - destruct (decide (Exists (fun n => within (rp (elem n)) q) ns)) as [Hx|Hx].
    + rewrite (decide_True (P := Exists _ (_ :: _))) by (apply Exists_cons; by right). by destruct (scan q).
    + rewrite decide_False; [done|]. rewrite Exists_cons. cbn [elem]. rewrite below_within. tauto.
Qed.

Lemma filled_sorted ns ns' : Forall2 filled_in ns ns' -> sorted ns -> forest_sorted ns'.
Proof.
  intros H Hs. split.
  - unfold sorted in *. induction H as [|n n' ns ns' (_ & He & _) H IH]; [constructor|].
    apply StronglySorted_inv in Hs as [Hs Hn]. constructor; [by apply IH|].
    rewrite Forall_forall in *. intros m' [j Hj]%list_elem_of_lookup.
    destruct (Forall2_lookup_r _ _ _ _ _ H Hj) as (m & Hm & _ & Hem & _).
    apply list_elem_of_lookup_2, Hn in Hm. unfold in_order, node_ltb in *. by rewrite He, Hem.
  - clear Hs. induction H as [|n n' ns ns' (_ & _ & [[Hs Hb] _]) H IH]; [done|].
    cbn [forallb]. apply andb_true_iff. split; [|done]. destruct n' as [i e c]. cbn [sorted_below content] in *.
    apply andb_true_iff. split; [by apply bool_decide_eq_true_2|done].
Qed.

Lemma shows_level p ns ns' :
  good_dir p = true -> level p ns -> Forall2 filled_in ns ns' -> shows p ns'.
Proof using Hfs.
  intros Hp (Hc & Hs & _ & Hel & Hq) HF. split; [by eapply filled_sorted|]. intros q.
  rewrite (filled_lookup ns ns' q HF Hel). rewrite (paths_flat ns Hc) in Hq.
  destruct (decide (Exists _ ns)) as [Hx|Hx].
  - apply Exists_exists in Hx as (n & Hn & Hw). rewrite decide_True; [done|].
    destruct (proj1 (Hq (rp (elem n)))) as (Hg & Hpar & _); [by apply (list_elem_of_fmap_2 (fun n => rp (elem n)))|].
    assert (Hb : below p (rp (elem n))) by (apply (below_parent _ _ Hg); by rewrite Hpar).
    destruct Hb as [Hb Hne]. split; [by apply (within_trans _ (rp (elem n)))|]. intros ->.
    apply Hne, comps_inj. unfold within in *. by apply (anti_symm prefix).
  - destruct (decide (below p q)) as [Hb|]; [|done]. destruct (scan q) as [e|] eqn:He; [exfalso|done].
    destruct Hb as [[k Hk] Hne]. destruct k as [|n k].
    { rewrite app_nil_r in Hk. apply Hne. symmetry. by apply comps_inj. }
    assert (Hgq : good_path q = true) by (apply (scan_path q e He); intros ->; by destruct (comps p)).
    pose proof (good_comps q (good_path_dir _ Hgq)) as Hgc. rewrite Hk, forallb_app in Hgc.
    cbn [forallb] in Hgc. split_andb.
    apply Hx, Exists_exists.
    assert (Hin : p // n ∈ (fun n => rp (elem n)) <$> ns).
    { apply Hq. split_and!; [by auto|by apply parent_append|]. unfold scan_at. rewrite comps_append by done.
      unfold scan_at in He. rewrite Hk in He.
      assert (Hs' : is_Some (inodes fs !! ((locate top ++ comps p ++ [n]) ++ k))).
      { rewrite <-!app_assoc. cbn [app]. destruct (inodes fs !! _); [by eexists|done]. }
      destruct (decide (k = [])) as [->|Hk0].
      - rewrite app_nil_r in Hs'. destruct Hs' as [x ->]. by eexists.
      - pose proof (fs_above fs Hfs _ _ Hs' Hk0) as Hd. unfold is_dir_loc in Hd.
        destruct (inodes fs !! (locate top ++ comps p ++ [n])); [by eexists|done]. }
    apply list_elem_of_fmap in Hin as (m & Em & Hm). exists m. split; [done|]. rewrite <-Em.
    unfold within. rewrite comps_append, Hk by done. exists k. by rewrite <-app_assoc.
Qed.

Lemma shows_file n :
  scan (rp (elem n)) = Some (elem n) -> isDirectory (elem n) = false -> shows (rp (elem n)) [].
Proof using Hfs.
  intros Hs Hd. split; [split; [constructor|done]|]. intros q. cbn. case_decide as Hb; [|done].
  destruct Hb as [[k Hk] Hne]. rewrite (isDirectory_scan _ _ _ _ _ _ Hs) in Hd.
  destruct (scan q) as [e|] eqn:He; [exfalso|done]. unfold scan_at in He. rewrite Hk, app_assoc in He.
  assert (k <> []) as Hk0.
  { intros ->. rewrite app_nil_r in Hk. apply Hne. symmetry. by apply comps_inj. }
  assert (Hx : is_Some (inodes fs !! ((locate top ++ comps (rp (elem n))) ++ k)))
    by (destruct (inodes fs !! _); [by eexists|done]).
  pose proof (fs_above fs Hfs _ _ Hx Hk0). congruence.
Qed.

(** ** The recursion *)

(** the nodes of a level are new to the tree *)
Lemma level_fresh t i e ns :
  tree_inv t -> find_in i (topContent t) = Some (mkNode i e []) -> good_path (rp e) = true ->
  level (rp e) ns -> forall q, q ∈ paths ns -> model t !! q = None.
Proof.
  intros Ht Hf Hg (_ & _ & _ & _ & Hq) q (Hgq & Hpar & _)%Hq.
  rewrite <-(parent_filename q Hgq), Hpar. apply (empty_dir_no_entry t i); auto.
Qed.

Lemma level_forest ns : Forall (fun n => content n = []) ns -> forall i e, (i, e) ∈ forest ns -> exists n, n ∈ ns /\ elem n = e.
Proof.
  induction 1 as [|[j e' c] ns Hn _ IH]; intros i e; [by intros ?%not_elem_of_nil|].
  cbn [content] in Hn. subst c. rewrite forest_cons. cbn [app forest flat_map].
  intros [[= -> ->]|Hin]%elem_of_cons; [eexists; split; [apply list_elem_of_here|done]|].
  destruct (IH _ _ Hin) as (n & ? & ?). exists n. split; [by apply list_elem_of_further|done].
Qed.

(** the new content of a node and its index entries *)
Lemma install_level t i e ns k :
  tree_inv t -> find_in i (topContent t) = Some (mkNode i e []) -> good_path (rp e) = true ->
  isDirectory e = true -> level (rp e) ns -> ids ns ≡ₚ seq (next t) (k - next t) -> next t <= k ->
  exists t1, index_nodes ns (mkTree (filled t i e ns) (index t) (topPath t) (opt t) k (warnings t))
      = (Ok tt, t1) /\
    kept t t1 /\ topContent t1 = filled t i e ns /\ next t1 = k.
Proof.
  intros Ht Hf Hg Hd Hl Hids Hk. pose proof Hl as (Hc & _ & Hnd & _). pose proof Ht as (Hwf & Hidst & _).
  pose proof (level_fresh t i e ns Ht Hf Hg Hl) as Hfresh.
  set (t0 := mkTree (filled t i e ns) (index t) (topPath t) (opt t) k (warnings t)).
  destruct (index_nodes_ok ns t0 Hc Hnd) as [ws E].
  { intros p Hp. cbn [index t0]. apply inv_lookup_None; auto. }
  rewrite E. eexists. split; [done|]. cbn [topContent index topPath opt next warnings t0].
  destruct (forest_added t ns (filled t i e ns) (k - next t) (warnings t ++ ws) Ht) as [Hinv _].
  - destruct (update_in_frame _ _ _ Hidst Hf) as (rest & Hold & Hnew).
    unfold filled. rewrite Hnew, Hold, !entries_forest. cbn [nid elem content]. solve_Permutation.
  - eapply update_in_wf; [done..|]. intros p. rewrite !forest_wf_node, !forest_wf_cons.
    intros (? & ? & _ & _ & ?). split_and!; [done..|by left|by apply level_wf; auto|done].
  - done.
  - done.
  - done.
  - split; [|done]. unfold kept. cbn [topContent index topPath opt next warnings].
    replace (next t + (k - next t)) with k in Hinv by lia. auto.
Qed.

Lemma install_top t ns k :
  tree_inv t -> topContent t = [] -> level "" ns -> ids ns ≡ₚ seq (next t) (k - next t) -> next t <= k ->
  exists t1, index_nodes ns (mkTree ns (index t) (topPath t) (opt t) k (warnings t)) = (Ok tt, t1) /\
    kept t t1 /\ topContent t1 = ns /\ next t1 = k.
Proof.
  intros Ht Htc Hl Hids Hk. pose proof Hl as (Hc & _ & Hnd & _).
  assert (Hnone : forall p, model t !! p = None).
  { intros p. unfold model. rewrite Htc. done. }
  set (t0 := mkTree ns (index t) (topPath t) (opt t) k (warnings t)).
  destruct (index_nodes_ok ns t0 Hc Hnd) as [ws E].
  { intros p Hp. cbn [index t0]. apply inv_lookup_None; auto. }
  rewrite E. eexists. split; [done|]. cbn [topContent index topPath opt next warnings t0].
  destruct (forest_added t ns ns (k - next t) (warnings t ++ ws) Ht) as [Hinv _].
  - by rewrite Htc, app_nil_r.
  - by apply level_wf.
  - done.
  - done.
  - done.
  - split; [|done]. unfold kept. cbn [topContent index topPath opt next warnings].
    replace (next t + (k - next t)) with k in Hinv by lia. auto.
Qed.

(** scanning below the node [i], which is still empty *)
Definition builds (fuel : nat) : Prop := forall t i e,
  tree_inv t -> opt t = o -> find_in i (topContent t) = Some (mkNode i e []) ->
  isDirectory e = true -> good_path (rp e) = true -> scan (rp e) = Some e ->
  fs_depth fs < fuel + length (locate top ++ comps (rp e)) ->
  exists t' c', recursiveBuildFromPath sha1 order fuel fs top (rp e) t = (Ok tt, t') /\
    kept t t' /\ topContent t' = filled t i e c' /\ shows (rp e) c' /\
    Forall (fun j => next t <= j) (ids c').

Abbreviation descend fuel := (fun n =>
  if isDirectory (elem n) then recursiveBuildFromPath sha1 order fuel fs top (rp (elem n)) else mret tt).

Lemma build_children fuel : builds fuel -> forall ns b K past t,
  Forall (fun n => content n = [] /\ good_path (rp (elem n)) = true /\ scan (rp (elem n)) = Some (elem n) /\
    fs_depth fs < fuel + length (locate top ++ comps (rp (elem n)))) ns ->
  place b K -> tree_inv t -> opt t = o -> topContent t = K (past ++ ns) ->
  NoDup (ids ns) -> Forall (fun j => b <= j < next t) (ids ns) -> (forall j, j ∈ ids ns -> j ∉ ids past) ->
  exists t' ns', run_each (descend fuel) ns t = (Ok tt, t') /\ kept t t' /\
    topContent t' = K (past ++ ns') /\ Forall2 filled_in ns ns' /\ Forall (fun j => b <= j) (ids ns').
Proof using Hfs.
  intros HR ns. induction ns as [|[i e c] ns IH]; intros b K past t Hns HK Ht Ho Htop' Hnd Hids Hpast.
  { exists t, []. split; [done|]. split; [by apply kept_refl|]. done. }
  apply Forall_cons in Hns as [(Hc & Hg & Hs & Hdepth) Hns]. cbn [content elem] in *. subst c.
  rewrite ids_cons in Hnd, Hids, Hpast. change (ids []) with (@nil nat) in *. cbn [app] in *.
  apply NoDup_cons in Hnd as [Hi Hnd]. apply Forall_cons in Hids as [[Hb Hin] Hids].
  assert (Hip : i ∉ ids past) by (apply Hpast, list_elem_of_here).
  cbn [run_each elem]. unfold mbind, method_bind.
  assert (Hstep : exists t1 c1, (if isDirectory e then recursiveBuildFromPath sha1 order fuel fs top (rp e)
      else mret tt) t = (Ok tt, t1) /\ kept t t1 /\
      topContent t1 = K ((past ++ [mkNode i e c1]) ++ ns) /\ shows (rp e) c1 /\
      Forall (fun j => next t <= j) (ids c1)).
  { destruct (isDirectory e) eqn:Hd.
    - destruct (HK i (past ++ mkNode i e [] :: ns) Hb) as [Hfind Hupd].
      rewrite find_in_skip, find_in_cons, bool_decide_true in Hfind by done.
      destruct (HR t i e Ht Ho) as (t1 & c1 & E & Hk & Hc1 & Hsh & Hf1); [by rewrite Htop'|done..|].
      exists t1, c1. split_and!; [done|done| |done|done].
      rewrite Hc1. unfold filled. rewrite Htop', Hupd, update_in_app, update_in_cons, bool_decide_true by done.
      by rewrite !update_in_id, <-app_assoc by done.
    - exists t, []. split; [done|]. split; [by apply kept_refl|]. rewrite <-app_assoc. split; [done|].
      split; [by apply (shows_file (mkNode i e []))|done]. }
  destruct Hstep as (t1 & c1 & -> & Hk1 & Ht1 & Hsh & Hf1). pose proof Hk1 as (Hinv1 & Hn1 & _ & Ho1).
  destruct (IH b K (past ++ [mkNode i e c1]) t1) as (t' & ns' & E2 & Hk2 & Ht2 & HF & Hf2);
    [done|done|done|congruence|done|done| | |].
  { eapply Forall_impl; [exact Hids|]. intros; simpl in *; lia. }
  { intros j Hj. rewrite ids_app, ids_cons, app_nil_r.
    rewrite Forall_forall in Hids, Hf1. pose proof (Hids j Hj). intros [Hx|[->|Hx]%elem_of_cons]%elem_of_app.
    - by apply (Hpast j); [by apply list_elem_of_further|].
    - done.
    - apply Hf1 in Hx. simpl in *; lia. }
  exists t', (mkNode i e c1 :: ns'). split; [exact E2|]. split; [by eapply kept_trans|].
  split; [by rewrite Ht2, <-app_assoc|]. split; [by constructor|].
  rewrite ids_cons. constructor; [done|]. apply Forall_app. split; [|done].
  eapply Forall_impl; [exact Hf1|]. intros; simpl in *; lia.
Qed.

Lemma depth_bound l i : inodes fs !! l = Some i -> length l <= fs_depth fs.
Proof.
  intros H. unfold fs_depth. apply elem_of_map_to_list in H.
  apply (list_elem_of_fmap_2 fst), (list_elem_of_fmap_2 length), max_list_elem_of_le in H. done.
Qed.

(** the nodes of a level are ready for the recursion *)
Lemma level_children p ns fuel :
  good_dir p = true -> level p ns -> fs_depth fs < S fuel + length (locate top ++ comps p) ->
  Forall (fun n => content n = [] /\ good_path (rp (elem n)) = true /\ scan (rp (elem n)) = Some (elem n) /\
    fs_depth fs < fuel + length (locate top ++ comps (rp (elem n)))) ns.
Proof.
  intros Hp (Hc & _ & _ & Hel & Hq) Hdepth. rewrite (paths_flat ns Hc) in Hq.
  rewrite Forall_forall in *. intros n Hn.
  destruct (proj1 (Hq (rp (elem n)))) as (Hg & Hpar & _); [by apply (list_elem_of_fmap_2 (fun n => rp (elem n)))|].
  split_and!; [auto..|]. rewrite (comps_parent _ Hg), Hpar, !length_app in *. simpl. lia.
Qed.

Lemma builds_all fuel : builds fuel.
Proof using Horder Hfs Htop.
  induction fuel as [|fuel IH]; intros t i e Ht Ho Hf Hd Hg Hs Hdepth.
  { exfalso. pose proof Hs as Hs'. unfold scan_at in Hs'.
    destruct (inodes fs !! _) as [x|] eqn:Ex; [|done]. apply depth_bound in Ex. lia. }
  assert (Hdl : is_dir_loc fs (locate top ++ comps (rp e)) = true)
    by (by rewrite <-(isDirectory_scan _ _ _ _ _ _ Hs)).
  destruct (scan_level (rp e) (next t) (good_path_dir _ Hg) Hdl) as (ents & nodes & k & Hit & Hsn & Hids & Hk & Hl).
  set (ns := list_sort node_ltb nodes) in *.
  assert (Hidn : ids ns ≡ₚ seq (next t) (k - next t)) by (unfold ns; by rewrite list_sort_perm, Hids).
  destruct (install_level t i e ns k Ht Hf Hg Hd Hl Hidn Hk) as (t1 & Hix & Hk1 & Htc & Hnx).
  pose proof Hk1 as (Hinv1 & _ & _ & Ho1).
  destruct (build_children fuel IH ns (next t) (filled t i e) [] t1) as (t' & ns' & E & Hk2 & Htc' & HF & Hfr);
    [by apply (level_children (rp e)); auto|by eapply place_filled|done|congruence|done| | | |].
  { rewrite Hidn. apply NoDup_seq. }
  { rewrite Hidn. apply Forall_forall. intros j Hj%elem_of_seq. lia. }
  { intros j _. apply not_elem_of_nil. }
  exists t', ns'. split; [|split_and!; [by eapply kept_trans|done|by eapply shows_level; auto|done]].
  cbn [recursiveBuildFromPath]. unfold mbind, method_bind, get_state, lift_outcome, set_next.
  rewrite Hit, Ho, Hsn. fold ns.
  assert (is_nil (topContent t) = false) as -> by (by destruct (topContent t)).
  pose proof (node_in_index t i _ Ht Hf) as Hi. cbn [elem] in Hi. rewrite Hi. cbn [from_option_err].
  unfold deref, setDirectoryContent, mutate, set_top.
  cbn [topContent index topPath opt next warnings]. rewrite Hf. cbn [from_option_err elem nid]. rewrite Hd.
  cbn [cassert mbind outcome_bind]. fold (filled t i e ns). rewrite Hix. exact E.
Qed.

(** scanning into an empty tree *)
Lemma build_top t fuel :
  tree_inv t -> opt t = o -> topContent t = [] -> is_dir_loc fs (locate top) = true ->
  fs_depth fs < fuel + length (locate top) ->
  exists t', recursiveBuildFromPath sha1 order fuel fs top "" t = (Ok tt, t') /\
    kept t t' /\ shows "" (topContent t').
Proof using Horder Hfs Htop.
  intros Ht Ho Htc Hd Hdepth. destruct fuel as [|fuel].
  { exfalso. unfold is_dir_loc in Hd. destruct (inodes fs !! locate top) as [x|] eqn:Ex; [|done].
    apply depth_bound in Ex. lia. }
  destruct (scan_level "" (next t)) as (ents & nodes & k & Hit & Hsn & Hids & Hk & Hl);
    [done|by rewrite app_nil_r|].
  set (ns := list_sort node_ltb nodes) in *.
  assert (Hidn : ids ns ≡ₚ seq (next t) (k - next t)) by (unfold ns; by rewrite list_sort_perm, Hids).
  destruct (install_top t ns k Ht Htc Hl Hidn Hk) as (t1 & Hix & Hk1 & Htc1 & Hnx).
  pose proof Hk1 as (Hinv1 & _ & _ & Ho1).
  destruct (build_children fuel (builds_all fuel) ns 0 (fun l => l) [] t1)
    as (t' & ns' & E & Hk2 & Htc' & HF & _);
    [apply (level_children ""); [done|done|by rewrite app_nil_r]|by apply place_top|done|congruence|done| | | |].
  { rewrite Hidn. apply NoDup_seq. }
  { rewrite Hidn. apply Forall_forall. intros j Hj%elem_of_seq. lia. }
  { intros j _. apply not_elem_of_nil. }
  exists t'. split; [|split; [by eapply kept_trans|rewrite Htc'; by eapply shows_level]].
  cbn [recursiveBuildFromPath]. unfold mbind, method_bind, get_state, lift_outcome, set_next, set_top.
  rewrite Hit, Ho, Hsn. fold ns. rewrite Htc. cbn [is_nil topContent index topPath opt next warnings].
  rewrite Hix. exact E.
Qed.

(** The tree is a picture of the directory. *)
Lemma scanDirectory_spec absolute p t :
  absolute p = top -> is_dir_loc fs (locate top) = true ->
  exists t', scanDirectory sha1 order absolute fs p o t = (Ok tt, t') /\
    tree_inv t' /\ tree_sorted t' /\ topPath t' = Some top /\ opt t' = o /\
    forall q, model t' !! q = if decide (q = "") then None else scan q.
Proof using Horder Hfs Htop.
  intros Hp Hd. unfold scanDirectory, mbind, method_bind, clear, set_opt, set_topPath. rewrite Hp.
  unfold is_directory. rewrite Hd. cbn [negb topContent index topPath opt next warnings].
  set (t0 := mkTree [] ∅ (Some top) o (next t) (warnings t)).
  destruct (build_top t0 (S (fs_depth fs))) as (t' & E & (Hinv & _ & Htp & Hopt) & [Hs Hm]);
    [|done|done|done|lia|].
  { split_and!; cbn [topContent t0]; done || constructor. }
  exists t'. split; [exact E|]. split; [done|]. split; [done|]. split; [done|]. split; [done|].
  intros q. unfold model. rewrite Hm. destruct (decide (q = "")) as [->|Hq].
  - rewrite decide_False; [done|]. by intros [_ ?].
  - rewrite decide_True; [done|]. split; [apply prefix_nil|done].
Qed.
End scan.
