(* ===== verification/TreeApi.v ===== *)
(** * The public operations of DirectoryTree (src/core.h)

    A tree is an object on which the rest of the program calls methods. Whatever
    sequence of calls is made, with trees built in the same way as sources of
    copies, its invariant holds, its content is sorted, and its elements have only
    the fields that their type has. The operations on the tree alone and those on
    tree and filesystem are included; left out are [addSymlinkToTree] and
    [addSymlinkToTreeAndFilesystem], which do not keep the index, and the reading of
    files that were not written by the program, which need not be sorted. *)

From S2P Require Import Prelude CxxPath CxxTime CxxStream Element Node Tree TreeInv TreeOps TreeCopy TreeIO TreeLoad TreeHash Diff DiffSpec FileSystem FsSpec TreeFs MetaSpec ScanSpec.

(** ** Types of elements *)

(** one of four types; only regular files have size and hash, only links a target *)
Definition well_typed (e : FilesystemElement) : Prop :=
  (ty e = regular \/ ty e = directory \/ ty e = symlink_ \/ ty e = unknown) /\
  (ty e <> regular -> sz e = 0%Z /\ fileHash e = "") /\ (ty e <> symlink_ -> symlink e = "").

#[global] Instance well_typed_dec e : Decision (well_typed e).
Proof. unfold well_typed. apply _. Defined.

Lemma as_read_typed e : well_typed (as_read e).
Proof. unfold well_typed, as_read. cbn. destruct (ty e); cbn; naive_solver. Qed.

Lemma scanned_typed sha1 o q i : well_typed (elem_of_inode sha1 o q i).
Proof. unfold well_typed, elem_of_inode. cbn. destruct (i_type i); cbn; naive_solver. Qed.

Lemma hashed_typed hashFile top e e' : computeHashIfNeeded hashFile top e = Ok e' -> well_typed e -> well_typed e'.
Proof.
  unfold computeHashIfNeeded. destruct (negb _ || negb _) eqn:Hc; [by intros [= <-]|].
  destruct (hashFile _) as [h|]; [|done]. intros [= <-] (H1 & _ & H3).
  apply orb_false_iff in Hc as [Hr%negb_false_iff%bool_decide_eq_true_1 _]. by split_and!.
Qed.

Lemma read_type_fields_typed fail t s z h l s' :
  (t = regular \/ t = directory \/ t = symlink_ \/ t = unknown) -> read_type_fields fail t s = Ok ((z, h, l), s') ->
  (t <> regular -> z = 0%Z /\ h = "") /\ (t <> symlink_ -> l = "").
Proof.
  unfold read_type_fields. intros [->|[->|[->| ->]]]; try (by intros [= <- <- <- <-]).
  - intros ([z' s1] & _ & ([h' s2] & _ & H)%bind_ok)%bind_ok. destruct (str_eqb h' "*"); [by injection H as <- <- <- <-|].
    case_bool_decide; [|done]. by injection H as <- <- <- <-.
  - intros ([l' s1] & _ & H)%bind_ok. by injection H as <- <- <- <-.
Qed.

Lemma read_type_four c t : read_type c = Some t -> t = regular \/ t = directory \/ t = symlink_ \/ t = unknown.
Proof. unfold read_type. intros H. repeat case_match; naive_solver. Qed.

(** a line of a metadata file, whatever it says *)
Lemma readFrom_typed line file n e : readFrom line file n = Ok e -> well_typed e.
Proof.
  unfold readFrom. intros ([perms s] & _ & H)%bind_ok. destruct perms as [|c perms]; [done|].
  destruct (negb _); [done|].
  apply bind_ok in H as (t & Ht & (pe & _ & ([u s1] & _ & ([g s2] & _ & ([tm s3] & _ & H)%bind_ok)%bind_ok)%bind_ok)%bind_ok).
  destruct (_ =? -1)%Z; [done|]. apply bind_ok in H as ([tz s4] & _ & H). destruct (negb _); [done|].
  apply bind_ok in H as ([[[z h] l] s5] & Hf & ([p s6] & _ & H)%bind_ok). destruct (negb _); [done|]. injection H as <-.
  assert (Hty : t = regular \/ t = directory \/ t = symlink_ \/ t = unknown).
  { destruct (read_type c) as [t'|] eqn:Et; [|done]. injection Ht as <-. by apply (read_type_four c). }
  destruct (read_type_fields_typed _ t s4 z h l s5 Hty Hf) as [H1 H2]. by split_and!.
Qed.

(** ** Calls *)

Inductive call :=
  | c_clear
  | c_bindToTopPath (p : path)
  | c_scanDirectory (fs : FS) (p : path) (o : ScanOpt)
  | c_readFrom (text file : string)
  | c_computeMissingHashes (hashFile : path -> outcome string)
  | c_copyFromTree (s : DirectoryTree) (sp dp : path)
  | c_removeFromTree (p : path)
  | c_modifyPermissions (p : path) (perm : Z)
  | c_modifyOwner (p : path) (user group : string)
  | c_modifyMtime (p : path) (mtime : Z)
  | c_copyFromTreeAndFilesystem (fs : FS) (s : DirectoryTree) (sp dp : path)
  | c_removeFromTreeAndFilesystem (fs : FS) (p : path)
  | c_modifyPermissionsAndFilesystem (fs : FS) (p : path) (perm : Z)
  | c_modifyOwnerAndFilesystem (fs : FS) (p : path) (user group : string)
  | c_modifyMtimeAndFilesystem (fs : FS) (p : path) (mtime : Z).

(** what an operation on tree and filesystem, called on the filesystem [fs], does to
    the tree *)
Definition tree_part {A} (m : world_method A) (fs : FS) : tree_method unit := fun t =>
  let '(r, (t', _)) := m (t, fs) in
  (match r with Ok _ => Ok tt | Err e => Err e end, t').

Section calls.
Context (sha1 : string -> string) (order : gset string -> list string) (absolute : path -> path).
Context (Horder : forall x : gset string, order x ≡ₚ elements x).

Definition perform (c : call) : tree_method unit :=
  match c with
  | c_clear => clear
  | c_bindToTopPath p => bindToTopPath absolute p
  | c_scanDirectory fs p o => scanDirectory sha1 order absolute fs p o
  | c_readFrom text file => tree_readFrom text file
  | c_computeMissingHashes hashFile => computeMissingHashes hashFile
  | c_copyFromTree s sp dp => copyFromTree s sp dp
  | c_removeFromTree p => removeFromTree p
  | c_modifyPermissions p perm => modifyPermissionsInTree p perm
  | c_modifyOwner p user group => modifyOwnerInTree p user group
  | c_modifyMtime p mtime => modifyMtimeInTree p mtime
  | c_copyFromTreeAndFilesystem fs s sp dp => tree_part (copyFromTreeAndFilesystem s sp dp) fs
  | c_removeFromTreeAndFilesystem fs p => tree_part (removeFromTreeAndFilesystem p) fs
  | c_modifyPermissionsAndFilesystem fs p perm => tree_part (modifyPermissionsInTreeAndFilesystem p perm) fs
  | c_modifyOwnerAndFilesystem fs p user group => tree_part (modifyOwnerInTreeAndFilesystem p user group) fs
  | c_modifyMtimeAndFilesystem fs p mtime => tree_part (modifyMtimeInTreeAndFilesystem p mtime) fs
  end.

(** a tree that is the result of calls: directories that are scanned are those of
    a well-formed filesystem, trees that are copied from and files that are read
    come from such trees. Filesystems may be others in each call: anything can happen
    to the files in between. An exception may leave a call. *)
Inductive built : DirectoryTree -> Prop :=
  | b_new : built emptyTree
  | b_call c t :
      built t ->
      match c with
      | c_scanDirectory fs p _ => fs_wf fs /\ good_top (absolute p) = true
      | c_readFrom _ _ | c_copyFromTree _ _ _ | c_copyFromTreeAndFilesystem _ _ _ _ => False
      | _ => True
      end -> built (perform c t).2
  | b_copy s t sp dp : built s -> built t -> built (perform (c_copyFromTree s sp dp) t).2
  | b_copy_files fs s t sp dp :
      built s -> built t -> built (perform (c_copyFromTreeAndFilesystem fs s sp dp) t).2
  | b_read s t text file :
      built s -> keepable_tree s -> built t -> tree_writeTo s = Ok text -> built (perform (c_readFrom text file) t).2.

(** what a tree always is *)
Record proper (t : DirectoryTree) : Prop := {
  q_inv : tree_inv t;
  q_sorted : tree_sorted t;
  q_typed : every well_typed (model t) }.

Lemma empty_inv tp o n w : tree_inv (mkTree [] ∅ tp o n w).
Proof using Type. split_and!; cbn; try done; constructor. Qed.

Lemma empty_proper tp o n w : proper (mkTree [] ∅ tp o n w).
Proof using Type. split; [apply empty_inv|by split; [constructor|]|]. intros q e. unfold model, model_of. cbn. by rewrite lookup_empty. Qed.

(** [proper] does not depend on the other fields *)
Lemma proper_fields c ix tp tp' o o' n w w' :
  proper (mkTree c ix tp o n w) -> proper (mkTree c ix tp' o' n w').
Proof using Type. intros [Hi Hs Ht]. by split. Qed.

(** an operation that succeeds on a path of the tree and fails elsewhere *)
Lemma proper_found (m : tree_method unit) t (x : option FilesystemElement) err F :
  proper t ->
  match x with
  | None => m t = (Err err, t)
  | Some _ => exists t', m t = (Ok tt, t') /\ tree_inv t' /\ model t' = F (model t) /\ (tree_sorted t -> tree_sorted t') /\
      same_fields t t'
  end ->
  (every well_typed (model t) -> every well_typed (F (model t))) -> proper (m t).2.
Proof using Type.
  intros Ht H HF. destruct x; [|by rewrite H]. destruct H as (t' & -> & Hi & Hm & Hs & _). destruct Ht as [_ Hso Hty].
  split; [done|auto|]. cbn. rewrite Hm. auto.
Qed.

Lemma attribute_proper op w f `{!Attribute op w f} t p :
  proper t -> (forall e, well_typed e -> well_typed (f e)) -> proper (op p t).2.
Proof using Type.
  intros Ht Hf. pose proof Ht as [Hi _ _]. eapply proper_found; [done|exact (attribute_spec op w f t p Hi)|].
  by apply every_alter.
Qed.

Lemma can_copy_cases s t sp dp : can_copy s t sp dp \/ ~ can_copy s t sp dp.
Proof using Type.
  unfold can_copy. destruct (model s !! sp); [|right; intros ([? [=]] & _)].
  destruct (model t !! (dp // filename sp)); [right; by intros (_ & _ & ?)|].
  destruct (decide (dp = "")); [left; eauto|].
  destruct (model t !! dp) as [de|]; [|right; intros (_ & [?|(? & [=] & _)] & _); done].
  destruct (isDirectory de) eqn:Hd; [left; eauto 6|right; intros (_ & [?|(? & [= <-] & ?)] & _); congruence].
Qed.

Lemma graft_typed from to p m : every well_typed m -> every well_typed (graft from to p m).
Proof using Type.
  intros Hm q e. unfold graft. intros Hq%elem_of_list_to_map_2.
  apply list_elem_of_fmap in Hq as ([q' e'] & [= -> ->] & Hin%elem_of_map_to_list).
  unfold subtree in Hin. apply map_lookup_filter_Some in Hin as [Hin _]. exact (Hm q' e' Hin).
Qed.

Lemma copy_proper s t sp dp : proper s -> proper t -> proper (copyFromTree s sp dp t).2.
Proof using Type.
  intros [Is _ Ts] Ht. pose proof Ht as [It St Tt]. destruct (can_copy_cases s t sp dp) as [Hc|Hc].
  - destruct (copyFromTree_spec s t sp dp Is It Hc) as (t' & -> & Hi & Hm & Hs & _). split; [done|auto|].
    cbn. rewrite Hm. apply map_Forall_union_2; [by apply graft_typed|done].
  - destruct (copyFromTree_fails s t sp dp Is It Hc) as (err & -> & _). done.
Qed.

Lemma prune_typed p m : every well_typed m -> every well_typed (prune p m).
Proof using Type. intros Hm q e. rewrite prune_lookup. case_decide; [done|apply Hm]. Qed.

Lemma remove_proper t p : proper t -> proper (removeFromTree p t).2.
Proof using Type.
  intros Ht. pose proof Ht as [It _ _]. eapply proper_found; [done|exact (removeFromTree_spec t p It)|]. apply prune_typed.
Qed.

Lemma mutate_each_all {A} (P : A -> Prop) (f : A -> outcome unit * A) l r l' :
  (forall x, P x -> P (f x).2) -> mutate_each f l = (r, l') -> Forall P l -> Forall P l'.
Proof using Type.
  intros Hf. revert r l'. induction l as [|x l IH]; intros r l'; cbn [mutate_each]; [by intros [= _ <-]|].
  specialize (Hf x) as Hx. destruct (f x) as [[[]|err] x']; cbn in Hx.
  - destruct (mutate_each f l) as [r1 l1]. intros [= _ <-] [Px Pl]%Forall_cons. apply Forall_cons. split; [auto|].
    by apply (IH r1 l1).
  - intros [= _ <-] [Px Pl]%Forall_cons. apply Forall_cons. auto.
Qed.

Lemma hashes_proper hashFile t : proper t -> proper (computeMissingHashes hashFile t).2.
Proof using Type.
  intros Ht. destruct (topPath t) as [top|] eqn:Htop; cycle 1.
  { unfold computeMissingHashes, checkTopPath, mbind, method_bind. by rewrite Htop. }
  pose proof Ht as [It St Tt]. destruct (computeMissingHashes hashFile t) as [r t'] eqn:E.
  destruct (computeMissingHashes_run _ _ _ _ _ Htop It E) as (Hi & Hs & _ & Hm). split; [done|auto|].
  apply elements_every. unfold elements_of. apply Forall_fmap.
  eapply (mutate_each_all (fun x => well_typed x.2)); [|exact Hm|].
  - intros x Hx. unfold hash_entry. destruct (computeHashIfNeeded hashFile top x.2) eqn:Eh; [|done]. by eapply hashed_typed.
  - apply (every_elements well_typed t It) in Tt. unfold elements_of in Tt. rewrite Forall_fmap in Tt. exact Tt.
Qed.

Lemma scan_proper fs p o t :
  fs_wf fs -> good_top (absolute p) = true -> proper (scanDirectory sha1 order absolute fs p o t).2.
Proof using Horder.
  intros Hwf Htop. destruct (is_directory fs (absolute p)) eqn:Hd.
  - destruct (scanDirectory_spec sha1 order Horder fs Hwf (absolute p) Htop o absolute p t eq_refl Hd)
      as (t' & -> & Hi & Hs & _ & _ & Hm). split; [done|done|]. intros q e. cbn [snd]. rewrite Hm. case_decide; [done|].
    unfold scan_at. intros (i & _ & ->)%fmap_Some_1. apply scanned_typed.
  - unfold scanDirectory, mbind, method_bind, clear, set_opt, set_topPath. rewrite Hd. apply empty_proper.
Qed.

Lemma read_proper s t text file :
  proper s -> keepable_tree s -> tree_writeTo s = Ok text -> proper (tree_readFrom text file t).2.
Proof using Type.
  intros [Is Ss _] Hk Hw. destruct (keepable_loads s Is Ss Hk) as (text' & Hw' & Hl). rewrite Hw in Hw'. injection Hw' as <-.
  destruct (Hl file t) as (t' & -> & Hi & Hs & Hm). split; [done|done|]. intros q e. cbn [snd]. rewrite Hm, lookup_fmap.
  intros (e0 & _ & ->)%fmap_Some_1. apply as_read_typed.
Qed.

(** *** Operations on tree and filesystem

    Each is put together from operations on the tree and on the files, and keeps
    what all of the former keep. *)

Definition keeps_proper {A} (m : world_method A) : Prop := forall t fs, proper t -> proper (m (t, fs)).2.1.

Lemma kp_ret {A} (a : A) : keeps_proper (mret a).
Proof using Type. by intros t fs Ht. Qed.

Lemma kp_bind {A B} (m : world_method A) (k : A -> world_method B) :
  keeps_proper m -> (forall a, keeps_proper (k a)) -> keeps_proper (m ≫= k).
Proof using Type.
  intros Hm Hk t fs Ht. specialize (Hm t fs Ht). unfold mbind, method_bind.
  destruct (m (t, fs)) as [[a|e] [t' fs']]; [by apply Hk|done].
Qed.

Lemma kp_tree {A} (m : tree_method A) : (forall t, proper t -> proper (m t).2) -> keeps_proper (on_tree m).
Proof using Type. intros Hm t fs Ht. specialize (Hm t Ht). unfold on_tree. by destruct (m t). Qed.

Lemma kp_fs {A} (m : fs_method A) : keeps_proper (on_fs m).
Proof using Type. intros t fs Ht. unfold on_fs. by destruct (m fs). Qed.

Lemma kp_top : keeps_proper top_value.
Proof using Type. by intros t fs Ht. Qed.

Lemma kp_catch m h : keeps_proper m -> keeps_proper h -> keeps_proper (try_catch m h).
Proof using Type.
  intros Hm Hh t fs Ht. specialize (Hm t fs Ht). unfold try_catch. destruct (m (t, fs)) as [[?|[]] [t' fs']]; try done.
  by apply Hh.
Qed.

Lemma kp_run {A} (f : A -> world_method unit) l : (forall x, x ∈ l -> keeps_proper (f x)) -> keeps_proper (run_each f l).
Proof using Type.
  induction l as [|x l IH]; intros H; cbn [run_each]; [apply kp_ret|].
  apply kp_bind; [apply H; left|]. intros _. apply IH. intros y Hy. apply H. by right.
Qed.

Lemma kp_lift {A} (x : outcome A) : keeps_proper (on_tree (lift_outcome x)).
Proof using Type. by apply kp_tree. Qed.

Lemma kp_deref i : keeps_proper (on_tree (deref i)).
Proof using Type. by apply kp_tree. Qed.

Lemma kp_search p w : keeps_proper (on_tree (searchNode p w)).
Proof using Type. by apply kp_tree. Qed.

Lemma kp_check w : keeps_proper (on_tree (checkTopPath w)).
Proof using Type. apply kp_tree. intros t Ht. unfold checkTopPath. by destruct (topPath t). Qed.

Lemma kp_warn w : keeps_proper (on_tree (warn w)).
Proof using Type. apply kp_tree. intros [] Ht. by eapply proper_fields. Qed.

Ltac kp := repeat first
  [ apply kp_ret | apply kp_lift | apply kp_deref | apply kp_search | apply kp_check | apply kp_warn | apply kp_fs
  | apply kp_top | apply kp_catch | apply kp_bind; [|intros ?] | case_match ].

Lemma kp_fixup p : keeps_proper (fixupParentMtime p).
Proof using Type. unfold fixupParentMtime. kp. Qed.

Lemma kp_owner p u g : keeps_proper (change_ownership_or_warn p u g).
Proof using Type. unfold change_ownership_or_warn. kp. Qed.

Lemma kp_copy_files top n : forall i, keeps_proper (recursiveFilesystemCopy top n i).
Proof using Type.
  induction n as [k e c IH] using node_ind'. intros i. cbn [recursiveFilesystemCopy]. rewrite Forall_forall in IH.
  apply kp_bind; [apply kp_deref|]. intros d. apply kp_bind; [apply kp_top|]. intros tp. apply kp_bind; cycle 1.
  { intros _. apply kp_bind; [apply kp_owner|]. intros _. apply kp_fs. }
  destruct (ty (elem d)); kp. apply kp_run. intros m Hm. apply kp_bind; [apply kp_search|]. intros j. by apply IH.
Qed.

Lemma kp_treeCopy s sp dp : proper s -> keeps_proper (on_tree (treeCopy s sp dp)).
Proof using Type.
  intros Hs. apply kp_tree. intros t Ht. pose proof (copy_proper s t sp dp Hs Ht) as H.
  unfold copyFromTree, mbind, method_bind in H. by destruct (treeCopy s sp dp t) as [[?|?] ?].
Qed.

Lemma tree_part_proper {A} (m : world_method A) fs t : keeps_proper m -> proper t -> proper (tree_part m fs t).2.
Proof using Type. intros Hm Ht. specialize (Hm t fs Ht). unfold tree_part. by destruct (m (t, fs)) as [? [? ?]]. Qed.

Lemma copy_files_proper fs s t sp dp :
  proper s -> proper t -> proper (tree_part (copyFromTreeAndFilesystem s sp dp) fs t).2.
Proof using Type.
  intros Hs. apply tree_part_proper. unfold copyFromTreeAndFilesystem.
  kp; [by apply kp_treeCopy|apply kp_copy_files|apply kp_fixup].
Qed.

Lemma remove_files_proper fs t p : proper t -> proper (tree_part (removeFromTreeAndFilesystem p) fs t).2.
Proof using Type.
  apply tree_part_proper. unfold removeFromTreeAndFilesystem.
  kp; [apply kp_tree; intros t'; apply remove_proper|apply kp_fixup].
Qed.

Lemma permissions_files_proper fs t p perm :
  proper t -> proper (tree_part (modifyPermissionsInTreeAndFilesystem p perm) fs t).2.
Proof using Type.
  apply tree_part_proper. unfold modifyPermissionsInTreeAndFilesystem. kp; [apply kp_tree|apply kp_fixup].
  intros t' Ht. by apply (attribute_proper (fun p => modifyPermissionsInTree p perm) _ _ t' p Ht).
Qed.

Lemma owner_files_proper fs t p user group :
  proper t -> proper (tree_part (modifyOwnerInTreeAndFilesystem p user group) fs t).2.
Proof using Type.
  apply tree_part_proper. unfold modifyOwnerInTreeAndFilesystem. kp; [apply kp_tree|apply kp_fixup].
  intros t' Ht. by apply (attribute_proper (fun p => modifyOwnerInTree p user group) _ _ t' p Ht).
Qed.

Lemma mtime_files_proper fs t p mtime : proper t -> proper (tree_part (modifyMtimeInTreeAndFilesystem p mtime) fs t).2.
Proof using Type.
  apply tree_part_proper. unfold modifyMtimeInTreeAndFilesystem. kp. apply kp_tree.
  intros t' Ht. by apply (attribute_proper (fun p => modifyMtimeInTree p mtime) _ _ t' p Ht).
Qed.

Lemma call_proper c t :
  proper t ->
  match c with
  | c_scanDirectory fs p _ => fs_wf fs /\ good_top (absolute p) = true
  | c_readFrom _ _ | c_copyFromTree _ _ _ | c_copyFromTreeAndFilesystem _ _ _ _ => False
  | _ => True
  end -> proper (perform c t).2.
Proof using Horder.
  intros Ht Hc.
  destruct c as [|p|fs p o| |hashFile|s sp dp|p|p perm|p user group|p mtime|fs s sp dp|fs p|fs p perm|fs p user group|fs p mtime];
    cbn [perform]; try done.
  - apply empty_proper.
  - destruct t. by eapply proper_fields.
  - destruct Hc. by apply scan_proper.
  - by apply hashes_proper.
  - by apply remove_proper.
  - by apply (attribute_proper (fun p => modifyPermissionsInTree p perm) _ _ t p Ht).
  - by apply (attribute_proper (fun p => modifyOwnerInTree p user group) _ _ t p Ht).
  - by apply (attribute_proper (fun p => modifyMtimeInTree p mtime) _ _ t p Ht).
  - by apply remove_files_proper.
  - by apply permissions_files_proper.
  - by apply owner_files_proper.
  - by apply mtime_files_proper.
Qed.

Lemma built_proper t : built t -> proper t.
Proof using Horder.
  induction 1 as [|c t _ IH Hc|s t sp dp _ IHs _ IHt|fs s t sp dp _ IHs _ IHt|s t text file _ IHs Hk _ _ Hw].
  - apply empty_proper.
  - by apply call_proper.
  - by apply copy_proper.
  - by apply copy_files_proper.
  - by eapply read_proper.
Qed.
End calls.
