(* ===== verification/SyncSpec.v ===== *)
(** * Tree and directory in step

    A tree that is bound to a directory is in step with it when every element
    depicts the file at its path. The operations that change both keep them in
    step, including the modification times of the directories they touch. *)

From S2P Require Import Prelude CxxPath CxxTime CxxStream Element Node Tree TreeInv TreeOps TreeCopy TreeIO TreeLoad DiffSpec FileSystem FsSpec TreeFs ScanSpec.

Section sync.
Context (sha1 : string -> string).

Definition kind (t : file_type) : file_type :=
  match t with regular => regular | directory => directory | symlink_ => symlink_ | _ => unknown end.

(** the element depicts the file: all that is recorded agrees; the hash may be
    missing, and the number of hard links is not recorded *)
Definition depicts (e : FilesystemElement) (i : Inode) : Prop :=
  ty e = kind (i_type i) /\ per e = i_perm i /\ us e = i_user i /\ gs e = i_group i /\
  mt e = i_mtime i /\
  (ty e = regular -> sz e = Z.of_nat (String.length (i_data i)) /\
     (fileHash e = "" \/ fileHash e = sha1 (i_data i))) /\
  (ty e <> regular -> sz e = 0%Z /\ fileHash e = "") /\
  symlink e = (if decide (ty e = symlink_) then i_target i else "").

Definition both {A B} (R : A -> B -> Prop) (x : option A) (y : option B) : Prop :=
  match x, y with Some a, Some b => R a b | None, None => True | _, _ => False end.

(** tree and directory agree at a path *)
Definition sync_at (top : path) (t : DirectoryTree) (fs : FS) (q : path) : Prop :=
  both depicts (model t !! q) (inodes fs !! (locate top ++ comps q)).

Definition in_sync (top : path) (t : DirectoryTree) (fs : FS) : Prop :=
  forall q, q <> "" -> sync_at top t fs q.

(** a tree bound to a directory that it depicts *)
Record bound (top : path) (t : DirectoryTree) (fs : FS) : Prop := {
  b_inv : tree_inv t;
  b_top : topPath t = Some top;
  b_fs : fs_wf fs;
  b_dir : is_dir_loc fs (locate top) = true;
  b_sync : in_sync top t fs }.

Lemma scan_depicts o q i : depicts (elem_of_inode sha1 o q i) i.
Proof.
  unfold depicts, elem_of_inode. cbn [ty per us gs mt sz fileHash symlink].
  split_and!; try done; destruct (i_type i); try done; intros _; destruct o; auto.
Qed.

(** a change of the filesystem below [top] *)
Record fs_step (top : path) (fs fs' : FS) : Prop := {
  s_wf : fs_wf fs';
  s_dir : is_dir_loc fs' (locate top) = true;
  s_rights : rights fs' = rights fs;
  s_frame : forall l, ~ locate top `prefix_of` l -> inodes fs' !! l = inodes fs !! l }.

Lemma fs_step_refl top fs : fs_wf fs -> is_dir_loc fs (locate top) = true -> fs_step top fs fs.
Proof. by split. Qed.

Lemma fs_step_trans top fs1 fs2 fs3 : fs_step top fs1 fs2 -> fs_step top fs2 fs3 -> fs_step top fs1 fs3.
Proof.
  intros [_ _ C1 F1] [W2 D2 C2 F2]. split; [done|done|congruence|].
  intros l Hl. by rewrite F2, F1.
Qed.

(** ** Changing one file *)

(** a change that keeps the type of a file *)
Definition keeps_type (f : Inode -> Inode) : Prop :=
  forall i, i_type (f i) = i_type i /\ (i_type i = symlink_ -> i_perm (f i) = i_perm i).

Lemma keeps_type_mtime m : keeps_type (with_mtime m).
Proof. done. Qed.
Lemma keeps_type_owner u g : keeps_type (with_owner u g).
Proof. intros i. split; [done|]. cbn. by intros ->. Qed.

Lemma is_dir_alter fs fs' f l :
  keeps_type f -> inodes fs' = alter f l (inodes fs) -> forall k, is_dir_loc fs' k = is_dir_loc fs k.
Proof.
  intros Hf E k. unfold is_dir_loc. rewrite E, lookup_alter. case_decide as Hk; [subst k|done].
  destruct (inodes fs !! l); [|done]. cbn. by rewrite (proj1 (Hf _)).
Qed.

Lemma fs_wf_alter fs fs' f l :
  keeps_type f -> inodes fs' = alter f l (inodes fs) -> fs_wf fs -> fs_wf fs'.
Proof.
  intros Hf E Hwf k i. rewrite E, lookup_alter. intros Hk.
  assert (Hi : exists i0, inodes fs !! k = Some i0 /\ i_type i = i_type i0 /\
    (i_type i0 = symlink_ -> i_perm i = i_perm i0)).
  { case_decide as Hkl; [subst k|eauto]. destruct (inodes fs !! l) as [i0|]; [|done].
    injection Hk as <-. destruct (Hf i0). eauto. }
  destruct Hi as (i0 & H0 & Ht & Hp). destruct (Hwf k i0 H0) as [Hd Hs]. split.
  - intros Hne. destruct (Hd Hne). by rewrite (is_dir_alter fs fs' f l Hf E).
  - rewrite Ht. intros Hl. rewrite Hp by done. auto.
Qed.

Lemma locate_in top q : good_dir q = true -> locate top `prefix_of` locate (top // q).
Proof. intros H. rewrite locate_entry by done. by apply prefix_app_r. Qed.

(** a change of one file below [top] *)
Lemma update_step top fs err q f i :
  fs_wf fs -> is_dir_loc fs (locate top) = true -> good_dir q = true -> keeps_type f ->
  inodes fs !! (locate top ++ comps q) = Some i ->
  exists fs', fs_update err (locate (top // q)) f fs = (Ok tt, fs') /\ fs_step top fs fs' /\
    inodes fs' = alter f (locate top ++ comps q) (inodes fs).
Proof.
  intros Hwf Hd Hq Hf Hi. unfold fs_update. rewrite locate_entry, Hi by done. eexists. split; [done|].
  assert (E : inodes (set_inodes (<[locate top ++ comps q := f i]> (inodes fs)) fs)
    = alter f (locate top ++ comps q) (inodes fs)).
  { cbn [inodes set_inodes]. apply map_eq. intros k. rewrite lookup_alter.
    case_decide as Hk; [subst k; by rewrite lookup_insert_eq, Hi|by rewrite lookup_insert_ne]. }
  split; [|done]. split.
  - by eapply fs_wf_alter.
  - by rewrite (is_dir_alter _ _ f _ Hf E).
  - done.
  - intros l Hl. rewrite E, lookup_alter_ne; [done|]. intros <-. apply Hl. by apply prefix_app_r.
Qed.

Lemma in_sync_inode top t fs q e :
  in_sync top t fs -> model t !! q = Some e -> q <> "" ->
  exists i, inodes fs !! (locate top ++ comps q) = Some i /\ depicts e i.
Proof.
  intros Hs Hm Hq. specialize (Hs q Hq). unfold sync_at in Hs. rewrite Hm in Hs.
  destruct (inodes fs !! _) as [i|]; [eauto|done].
Qed.

Lemma loc_inj top p q : locate top ++ comps p = locate top ++ comps q -> p = q.
Proof. intros H%app_inv_head. by apply comps_inj. Qed.

(** changing the element and the file at one path in the same way *)
Lemma sync_alter top t t' fs fs' p g f :
  in_sync top t fs -> model t' = alter g p (model t) ->
  inodes fs' = alter f (locate top ++ comps p) (inodes fs) ->
  (forall e i, model t !! p = Some e -> depicts e i -> depicts (g e) (f i)) -> in_sync top t' fs'.
Proof.
  intros Hs Hm Hi Hgf q Hq. specialize (Hs q Hq). unfold sync_at in *. rewrite Hm, Hi.
  destruct (decide (p = q)) as [<-|Hne].
  - rewrite !lookup_alter_eq. destruct (model t !! p) eqn:E, (inodes fs !! _); cbn in *; auto.
  - rewrite !lookup_alter_ne by (done || intros E; by apply loc_inj in E). done.
Qed.

(** ** Restoring the modification time of the parent directory *)

(** the element depicts the file but for the modification time *)
Definition untimed (e : FilesystemElement) (i : Inode) : Prop := depicts e (with_mtime (mt e) i).

Lemma depicts_untimed e i : depicts e i -> untimed e i.
Proof. unfold untimed, depicts. cbn. naive_solver. Qed.

Lemma both_untimed x y : both depicts x y -> both untimed x y.
Proof. destruct x, y; cbn; auto using depicts_untimed. Qed.

(** in step but for the modification time of the directory [p] *)
Definition stale (top p : path) (t : DirectoryTree) (fs : FS) : Prop :=
  forall q, q <> "" -> if decide (q = p)
    then both untimed (model t !! q) (inodes fs !! (locate top ++ comps q)) else sync_at top t fs q.

Lemma in_sync_stale top p t fs : in_sync top t fs -> stale top p t fs.
Proof.
  intros Hs q Hq. specialize (Hs q Hq). case_decide; [by apply both_untimed|done].
Qed.

Lemma stale_fixed top p t fs fs' e :
  stale top p t fs -> model t !! p = Some e ->
  inodes fs' = alter (with_mtime (mt e)) (locate top ++ comps p) (inodes fs) -> in_sync top t fs'.
Proof.
  intros Hs He Hi q Hq. specialize (Hs q Hq). unfold sync_at in *. rewrite Hi.
  case_decide as Hqp; [subst q|].
  - rewrite lookup_alter_eq, He in *. by destruct (inodes fs !! _).
  - rewrite lookup_alter_ne; [done|]. intros E. by apply loc_inj in E.
Qed.

(** the parts of [bound] that do not depend on the files below [top] *)
Record based (top : path) (t : DirectoryTree) (fs : FS) : Prop := {
  a_inv : tree_inv t;
  a_top : topPath t = Some top;
  a_fs : fs_wf fs;
  a_dir : is_dir_loc fs (locate top) = true }.

Lemma bound_based top t fs : bound top t fs -> based top t fs.
Proof. intros []. by split. Qed.

Lemma based_bound top t fs : based top t fs -> in_sync top t fs -> bound top t fs.
Proof. intros [] ?. by split. Qed.

Lemma based_step top t fs fs' : based top t fs -> fs_step top fs fs' -> based top t fs'.
Proof. intros [] []. by split. Qed.

Lemma inv_good_dir t p : tree_inv t -> p = "" \/ is_Some (model t !! p) -> good_dir p = true.
Proof. intros Ht [->|H]; [done|]. apply good_path_dir, (inv_good_path t Ht p H). Qed.

(** the parent of an entry is the top or an entry *)
Lemma parent_entry t p :
  tree_inv t -> is_Some (model t !! p) -> parent_path p = "" \/ is_Some (model t !! parent_path p).
Proof.
  intros Ht Hp. destruct (decide (parent_path p = "")) as [|Hne]; [by left|]. right.
  destruct (present_parent t Ht p Hp) as [Hd _]. by apply (dir_at_present t).
Qed.

Lemma fixupParentMtime_run top t fs p e i :
  based top t fs -> model t !! p = Some e -> inodes fs !! (locate top ++ comps p) = Some i ->
  exists fs', fixupParentMtime p (t, fs) = (Ok tt, (t, fs')) /\ fs_step top fs fs' /\
    inodes fs' = alter (with_mtime (mt e)) (locate top ++ comps p) (inodes fs).
Proof.
  intros [Ht Htop Hwf Hd] He Hi. pose proof (inv_model t Ht p e He) as (j & c & Hj & Hf & _).
  assert (Hg : good_path p = true) by (apply (inv_good_path t Ht); eauto).
  destruct (update_step top fs (Throw ("ext_symlink_last_write_time failed with path " +:+ top // p))
    p (with_mtime (mt e)) i) as (fs' & E & Hstep & Halt);
    [done|done|by apply good_path_dir|apply keeps_type_mtime|done|].
  exists fs'. split; [|by split]. unfold fixupParentMtime.
  apply good_path_nonempty, str_empty_false in Hg. rewrite Hg.
  unfold mbind, method_bind, top_value, on_tree, searchNode, deref, on_fs, ext_symlink_last_write_time.
  cbn [fst]. rewrite Htop. cbn [from_option_err]. rewrite Hj. cbn [from_option_err]. rewrite Hf.
  cbn [from_option_err elem]. by rewrite E.
Qed.

Lemma fixupParentMtime_ok top t fs p :
  based top t fs -> stale top p t fs -> p = "" \/ is_Some (model t !! p) ->
  exists fs', fixupParentMtime p (t, fs) = (Ok tt, (t, fs')) /\ bound top t fs' /\ fs_step top fs fs'.
Proof.
  intros Hb Hs Hp. pose proof Hb as [Ht Htop Hwf Hd].
  destruct (decide (p = "")) as [->|Hne].
  { exists fs. split_and!; [done|apply based_bound; [done|]|by apply fs_step_refl].
    intros q Hq. specialize (Hs q Hq). by rewrite decide_False in Hs by done. }
  destruct Hp as [|[e He]]; [done|]. pose proof (Hs p Hne) as Hsp. rewrite decide_True, He in Hsp by done.
  destruct (inodes fs !! (locate top ++ comps p)) as [ino|] eqn:Hino; [|done].
  destruct (fixupParentMtime_run top t fs p e ino Hb He Hino) as (fs' & E & Hstep & Halt).
  exists fs'. split_and!; [done|apply based_bound; [by eapply based_step|by eapply stale_fixed]|done].
Qed.

(** ** Metadata *)

(** the result of an operation that keeps tree and directory in step *)
Definition stepped {A} (top : path) (w : DirectoryTree * FS) (r : outcome A * (DirectoryTree * FS))
    (a : A) (m : gmap path FilesystemElement) : Prop :=
  exists t' fs', r = (Ok a, (t', fs')) /\ bound top t' fs' /\ fs_step top w.2 fs' /\ model t' = m.

(** a metadata operation: the element, then the file, changes at one path *)
Lemma modify_step top t fs p e op where_ f `{!Attribute op where_ f} err g :
  bound top t fs -> model t !! p = Some e -> keeps_type g ->
  (forall i, depicts e i -> depicts (f e) (g i)) ->
  exists t' fs', op p t = (Ok tt, t') /\ fs_update err (locate (top // p)) g fs = (Ok tt, fs') /\
    bound top t' fs' /\ fs_step top fs fs' /\ model t' = alter f p (model t) /\ same_fields t t'.
Proof.
  intros [Ht Htop Hwf Hd Hs] Hp Hg Hfg.
  pose proof (attribute_spec op where_ f t p Ht) as Hspec. rewrite Hp in Hspec.
  destruct Hspec as (t' & E & Ht' & Hm & _ & Hsame). pose proof Hsame as (Htop' & _).
  assert (Hgood : good_path p = true) by (apply (inv_good_path t Ht); eauto).
  destruct (in_sync_inode top t fs p e Hs Hp) as (i & Hi & _); [by apply good_path_nonempty|].
  destruct (update_step top fs err p g i) as (fs' & E' & Hstep & Halt);
    [done|done|by apply good_path_dir|done|done|].
  exists t', fs'. split_and!; [done|done| |done|done|by apply Hsame..].
  apply based_bound; [apply (based_step top t' fs); [split; by rewrite ?Htop'|done]|].
  eapply sync_alter; [done..|]. intros e0 i0 He0. rewrite Hp in He0. injection He0 as <-. auto.
Qed.

Lemma modify_parent t t' p f :
  tree_inv t -> is_Some (model t !! p) -> model t' = alter f p (model t) ->
  parent_path p = "" \/ is_Some (model t' !! parent_path p).
Proof.
  intros Ht Hp ->. destruct (parent_entry t p Ht Hp) as [|[e He]]; [by left|]. right.
  rewrite lookup_alter. case_decide as E; [rewrite E|]; rewrite He; cbn; eauto.
Qed.

Lemma modifyMtime_sync top t fs p e m :
  bound top t fs -> model t !! p = Some e ->
  stepped top (t, fs) (modifyMtimeInTreeAndFilesystem p m (t, fs)) tt (alter (setMtime m) p (model t)).
Proof.
  intros Hb Hp. pose proof Hb as [Ht Htop _ _ _].
  destruct (modify_step top t fs p e (fun p => modifyMtimeInTree p m) _ _ (Throw ("ext_symlink_last_write_time failed with path " +:+ top // p))
    (with_mtime m) Hb Hp) as (t' & fs' & E & E' & Hb' & Hst & Hm & Htop' & _);
    [apply keeps_type_mtime|unfold depicts; cbn; naive_solver|].
  exists t', fs'. split_and!; [|done..].
  unfold modifyMtimeInTreeAndFilesystem, mbind, method_bind, on_tree, checkTopPath, top_value, on_fs,
    ext_symlink_last_write_time.
  rewrite Htop, E. cbn [fst]. rewrite Htop', Htop. cbn [from_option_err]. by rewrite E'.
Qed.

Lemma chown_allowed absPath u g (t : DirectoryTree) fs fs' :
  may_own (rights fs) u g = true ->
  fs_update (Throw ("ext_symlink_change_ownership failed with path " +:+ absPath)) (locate absPath)
    (with_owner u g) fs = (Ok tt, fs') ->
  change_ownership_or_warn absPath u g (t, fs) = (Ok tt, (t, fs')).
Proof.
  intros Hc E. unfold change_ownership_or_warn, try_catch, on_fs.
  destruct (change_ownership_cases absPath u g fs) as [[-> _]|[_ Hc']]; [by rewrite E|congruence].
Qed.

Lemma chown_refused absPath u g (t : DirectoryTree) fs :
  may_own (rights fs) u g = false ->
  change_ownership_or_warn absPath u g (t, fs) =
  on_tree (warn ("Warning: could not change ownership of " +:+ absPath +:+ ": maybe retry with sudo?")) (t, fs).
Proof.
  intros Hc. unfold change_ownership_or_warn, try_catch, on_fs at 1.
  destruct (change_ownership_cases absPath u g fs) as [[_ Hc']|[[what ->] _]]; [congruence|done].
Qed.

(** a file whose element has permissions that survive a change of owner *)
Lemma depicts_owner e i u g :
  chown_mode (ty e) (per e) = per e -> depicts e i -> depicts (setGroup g (setUser u e)) (with_owner u g i).
Proof.
  intros Hk (Ht & Hp & Hu & Hg & Hm & Hr & Hn & Hl). unfold depicts. cbn. split_and!; try done.
  rewrite <-Hp. rewrite <-Hk at 1. rewrite Ht. by destruct (i_type i).
Qed.

Lemma modifyOwner_sync top t fs p e u g :
  bound top t fs -> may_own (rights fs) u g = true -> chown_mode (ty e) (per e) = per e -> model t !! p = Some e ->
  stepped top (t, fs) (modifyOwnerInTreeAndFilesystem p u g (t, fs)) tt
    (alter (fun e => setGroup g (setUser u e)) p (model t)).
Proof.
  intros Hb Hc Hk Hp. pose proof Hb as [Ht Htop _ _ _].
  destruct (modify_step top t fs p e (fun p => modifyOwnerInTree p u g) _ _ (Throw ("ext_symlink_change_ownership failed with path " +:+ top // p))
    (with_owner u g) Hb Hp) as (t' & fs' & E & E' & Hb' & Hst & Hm & Htop' & _);
    [apply keeps_type_owner|intros i; by apply depicts_owner|].
  destruct (fixupParentMtime_ok top t' fs' (parent_path p)) as (fs2 & E2 & Hb2 & Hst2);
    [by apply bound_based|apply in_sync_stale, Hb'|by eapply modify_parent|].
  exists t', fs2. split_and!; [|done|by eapply fs_step_trans|done].
  unfold modifyOwnerInTreeAndFilesystem, mbind, method_bind, on_tree, checkTopPath, top_value.
  rewrite Htop, E. cbn [fst]. rewrite Htop', Htop. cbn [from_option_err].
  by rewrite (chown_allowed _ _ _ _ _ _ Hc E').
Qed.

(** [permissions] on what is not a symbolic link *)
Definition with_perm_file (perm : Z) (i : Inode) : Inode :=
  if bool_decide (i_type i = symlink_) then i else with_perm perm i.

Lemma keeps_type_perm perm : keeps_type (with_perm_file perm).
Proof. intros i. unfold with_perm_file. by case_bool_decide. Qed.

Lemma permissions_file p perm fs i :
  inodes fs !! locate p = Some i -> i_type i <> symlink_ ->
  permissions p perm fs = fs_update (fs_error "cannot set permissions" p) (locate p) (with_perm_file perm) fs.
Proof.
  intros Hi Ht. unfold permissions, fs_update. rewrite Hi, bool_decide_false by done.
  unfold with_perm_file. by rewrite Hi, bool_decide_false.
Qed.

Lemma modifyPermissions_sync top t fs p e perm :
  bound top t fs -> model t !! p = Some e -> ty e <> symlink_ ->
  stepped top (t, fs) (modifyPermissionsInTreeAndFilesystem p perm (t, fs)) tt
    (alter (setPermissions perm) p (model t)).
Proof.
  intros Hb Hp He. pose proof Hb as [Ht Htop _ _ Hs].
  assert (Hk : forall i, depicts e i -> i_type i <> symlink_).
  { intros i (E & _) Hi. rewrite Hi in E. done. }
  destruct (modify_step top t fs p e (fun p => modifyPermissionsInTree p perm) _ _ (fs_error "cannot set permissions" (top // p))
    (with_perm_file perm) Hb Hp) as (t' & fs' & E & E' & Hb' & Hst & Hm & Htop' & _);
    [apply keeps_type_perm| |].
  { intros i Hi. unfold with_perm_file. rewrite bool_decide_false by auto.
    revert Hi. unfold depicts. cbn. naive_solver. }
  destruct (fixupParentMtime_ok top t' fs' (parent_path p)) as (fs2 & E2 & Hb2 & Hst2);
    [by apply bound_based|apply in_sync_stale, Hb'|by eapply modify_parent|].
  exists t', fs2. split_and!; [|done|by eapply fs_step_trans|done].
  assert (Hgood : good_path p = true) by (apply (inv_good_path t Ht); eauto).
  destruct (in_sync_inode top t fs p e Hs Hp) as (i & Hi & Hei); [by apply good_path_nonempty|].
  unfold modifyPermissionsInTreeAndFilesystem, mbind, method_bind, on_tree, checkTopPath, top_value, on_fs.
  rewrite Htop, E. cbn [fst]. rewrite Htop', Htop. cbn [from_option_err].
  rewrite (permissions_file (top // p) perm fs i); [|by rewrite locate_entry by auto|by apply Hk].
  by rewrite E'.
Qed.

(** two states of the files that differ in modification times only *)
Definition times_aside (m m' : gmap location Inode) : Prop :=
  forall l, with_mtime 0 <$> m' !! l = with_mtime 0 <$> m !! l.

(** restoring the time of the parent of an entry, whatever else is off *)
Lemma fixup_aside top t t1 fs fs1 p e f :
  bound top t fs -> model t !! p = Some e -> based top t1 fs1 -> model t1 = alter f p (model t) ->
  (forall l, is_Some (inodes fs !! l) -> is_Some (inodes fs1 !! l)) ->
  exists fs', fixupParentMtime (parent_path p) (t1, fs1) = (Ok tt, (t1, fs')) /\ times_aside (inodes fs1) (inodes fs').
Proof.
  intros [Ht Htop Hwf Hd Hs] Hp Hb1 Hm Hin.
  destruct (modify_parent t t1 p f Ht) as [->|[e1 He1]]; [by eauto|done|by exists fs1|].
  destruct (parent_entry t p Ht) as [Hpar|[e0 He0]]; [by eauto|rewrite Hpar; by exists fs1|].
  destruct (in_sync_inode top t fs (parent_path p) e0 Hs He0) as (i & Hi & _).
  { eapply good_path_nonempty, (inv_good_path t Ht); eauto. }
  destruct (Hin _ ltac:(eauto)) as [i1 Hi1].
  destruct (fixupParentMtime_run top t1 fs1 (parent_path p) e1 i1) as (fs' & E' & _ & Halt); [done..|].
  exists fs'. split; [done|]. intros l. rewrite Halt, lookup_alter.
  case_decide as Hl; [subst l; by rewrite Hi1|done].
Qed.

(** without the right to change owners, or with a name that nobody has, there is a
    warning, and the file stays *)
Lemma modifyOwner_refused top t fs p e u g :
  bound top t fs -> may_own (rights fs) u g = false -> model t !! p = Some e ->
  exists t' fs', modifyOwnerInTreeAndFilesystem p u g (t, fs) = (Ok tt, (t', fs')) /\
    model t' = alter (fun e => setGroup g (setUser u e)) p (model t) /\
    warnings t' = warnings t ++
      ["Warning: could not change ownership of " +:+ top // p +:+ ": maybe retry with sudo?"] /\
    times_aside (inodes fs) (inodes fs').
Proof.
  intros Hb Hc Hp. pose proof Hb as [Ht Htop Hwf Hd Hs].
  pose proof (attribute_spec (fun p => modifyOwnerInTree p u g) _ _ t p Ht) as Hspec. rewrite Hp in Hspec.
  destruct Hspec as (t1 & E & Ht1 & Hm & _ & Htop1 & _ & Hw1).
  set (w := "Warning: could not change ownership of " +:+ top // p +:+ ": maybe retry with sudo?").
  set (t2 := mkTree (topContent t1) (index t1) (topPath t1) (opt t1) (next t1) (warnings t1 ++ [w])).
  destruct (fixup_aside top t t2 fs fs p e (fun e => setGroup g (setUser u e)) Hb Hp) as (fs' & E' & Hl);
    [split; [done|cbn; congruence|done|done]|done|done|].
  exists t2, fs'. split_and!; [|done|cbn; by rewrite Hw1|done].
  unfold modifyOwnerInTreeAndFilesystem, mbind, method_bind, on_tree, checkTopPath, top_value.
  rewrite Htop, E. cbn [fst]. rewrite Htop1, Htop. cbn [from_option_err].
  rewrite (chown_refused _ _ _ _ _ Hc). unfold on_tree, warn. exact E'.
Qed.

(** an allowed change of owner, also where it changes the permissions *)
Lemma modifyOwner_allowed top t fs p e u g :
  bound top t fs -> may_own (rights fs) u g = true -> model t !! p = Some e ->
  exists t' fs', modifyOwnerInTreeAndFilesystem p u g (t, fs) = (Ok tt, (t', fs')) /\
    model t' = alter (fun e => setGroup g (setUser u e)) p (model t) /\ warnings t' = warnings t /\
    times_aside (alter (with_owner u g) (locate top ++ comps p) (inodes fs)) (inodes fs').
Proof.
  intros Hb Hc Hp. pose proof Hb as [Ht Htop Hwf Hd Hs].
  pose proof (attribute_spec (fun p => modifyOwnerInTree p u g) _ _ t p Ht) as Hspec. rewrite Hp in Hspec.
  destruct Hspec as (t1 & E & Ht1 & Hm & _ & Htop1 & _ & Hw1).
  assert (Hg : good_path p = true) by (apply (inv_good_path t Ht); eauto).
  destruct (in_sync_inode top t fs p e Hs Hp) as (i & Hi & _); [by apply good_path_nonempty|].
  destruct (update_step top fs (Throw ("ext_symlink_change_ownership failed with path " +:+ top // p)) p (with_owner u g) i)
    as (fs1 & E1 & Hst & Halt); [done|done|by apply good_path_dir|apply keeps_type_owner|done|].
  destruct (fixup_aside top t t1 fs fs1 p e (fun e => setGroup g (setUser u e)) Hb Hp) as (fs' & E' & Hl).
  { apply (based_step top t1 fs); [split; by rewrite ?Htop1|done]. }
  { done. }
  { intros l. rewrite Halt, lookup_alter_is_Some. done. }
  exists t1, fs'. split_and!; [|done|done|by rewrite <-Halt].
  unfold modifyOwnerInTreeAndFilesystem, mbind, method_bind, on_tree, checkTopPath, top_value.
  rewrite Htop, E. cbn [fst]. rewrite Htop1, Htop. cbn [from_option_err].
  by rewrite (chown_allowed _ _ _ _ _ _ Hc E1).
Qed.
End sync.
