(* ===== verification/SyncOps.v ===== *)
(** * Removing and copying in tree and directory

    The operations that add and remove entries keep the tree in step with the
    directory it is bound to. *)

From S2P Require Import Prelude CxxPath CxxTime CxxStream Element Node Tree TreeInv TreeOps TreeCopy TreeIO TreeLoad DiffSpec FileSystem FsSpec TreeFs ScanSpec SyncSpec.

Lemma dir_loc_above l : l <> [] -> ~ l `prefix_of` dir_loc l.
Proof.
  intros Hl Hp%prefix_length. unfold dir_loc in Hp. rewrite length_take in Hp.
  destruct l; [done|]. simpl in Hp. lia.
Qed.

Lemma dir_loc_entry top p :
  good_path p = true -> dir_loc (locate top ++ comps p) = locate top ++ comps (parent_path p).
Proof. intros Hp. by rewrite (comps_parent p Hp), app_assoc, dir_loc_snoc. Qed.

Lemma entry_loc_nonnil (l : location) p : good_path p = true -> l ++ comps p <> [].
Proof. intros Hp. rewrite (comps_parent p Hp), app_assoc. by destruct (l ++ comps (parent_path p)). Qed.

Lemma loc_within top p q : (locate top ++ comps p) `prefix_of` (locate top ++ comps q) <-> within p q.
Proof.
  unfold within. split; [|by apply prefix_app]. by intros H%prefix_app_inv.
Qed.

Lemma is_dir_with_mtime c i : bool_decide (i_type (with_mtime c i) = directory) = bool_decide (i_type i = directory).
Proof. done. Qed.

(** ** Removing a subtree of the filesystem *)

Section remove.
Context (fs : FS) (l : location) (Hl : l <> []).

Definition removed : FS :=
  set_inodes (alter (with_mtime (clock fs)) (dir_loc l)
    (filter (fun '(k, _) => ~ l `prefix_of` k) (inodes fs))) fs.

Lemma removed_lookup k :
  inodes removed !! k =
  if decide (l `prefix_of` k) then None
  else if decide (k = dir_loc l) then with_mtime (clock fs) <$> inodes fs !! k else inodes fs !! k.
Proof using Hl.
  cbn [removed inodes set_inodes]. rewrite lookup_alter.
  assert (Hf : filter (fun '(k, _) => ~ l `prefix_of` k) (inodes fs) !! k =
    if decide (l `prefix_of` k) then None else inodes fs !! k).
  { case_decide as Hk.
    - apply map_lookup_filter_None. right. intros x _ Hn. by apply Hn.
    - rewrite map_lookup_filter. destruct (inodes fs !! k) as [x|]; [|done]. cbn.
      by rewrite option_guard_True. }
  destruct (decide (dir_loc l = k)) as [E|E].
  - rewrite E, Hf. pose proof (dir_loc_above l Hl). rewrite !decide_False by congruence.
    by rewrite decide_True.
  - rewrite Hf. case_decide; [done|]. by rewrite decide_False by done.
Qed.

Lemma removed_is_dir k : ~ l `prefix_of` k -> is_dir_loc removed k = is_dir_loc fs k.
Proof using Hl.
  intros Hk. unfold is_dir_loc. rewrite removed_lookup, decide_False by done.
  case_decide; [|done]. by destruct (inodes fs !! k).
Qed.

Lemma removed_wf : fs_wf fs -> fs_wf removed.
Proof using Hl.
  intros Hwf k i. rewrite removed_lookup. case_decide as Hk; [done|]. intros Hi.
  assert (H0 : exists i0, inodes fs !! k = Some i0 /\ i_type i = i_type i0 /\ i_perm i = i_perm i0).
  { case_decide; [|eauto]. destruct (inodes fs !! k) as [i0|]; [|done]. injection Hi as <-. eauto. }
  destruct H0 as (i0 & H0 & Ht & Hp). destruct (Hwf k i0 H0) as [Hd Hs]. rewrite Ht, Hp.
  split; [|done]. intros Hne. destruct (Hd Hne) as [Hdk ?]. split; [|done].
  rewrite removed_is_dir; [done|]. intros Hpre. apply Hk. etrans; [done|apply dir_loc_prefix].
Qed.
End remove.

Lemma remove_all_ok p fs i :
  inodes fs !! locate p = Some i ->
  remove_all p fs = (Ok (size (filter (fun '(k, _) => locate p `prefix_of` k) (inodes fs))), removed fs (locate p)).
Proof.
  intros Hi. unfold remove_all. rewrite bool_decide_false; [done|]. intros E.
  assert (H : filter (fun '(k, _) => locate p `prefix_of` k) (inodes fs) !! locate p = Some i)
    by (by apply map_lookup_filter_Some).
  by rewrite E in H.
Qed.

Section sync_remove.
Context (sha1 : string -> string).

(** as many files go as entries of the tree *)
Lemma removed_count top t fs p :
  fs_wf fs -> in_sync sha1 top t fs -> good_path p = true ->
  size (filter (fun '(k, _) => (locate top ++ comps p) `prefix_of` k) (inodes fs)) =
  size (subtree p (model t)).
Proof.
  intros Hwf Hs Hp. rewrite <-!(size_dom (D := gset _)). unfold size, set_size. cbn.
  rewrite <-(length_fmap (fun q => locate top ++ comps q) (elements (dom (subtree p (model t))))).
  apply Permutation_length, NoDup_Permutation.
  - apply NoDup_elements.
  - apply NoDup_fmap_2; [|apply NoDup_elements]. intros q q' E. by apply loc_inj in E.
  - intros k. rewrite list_elem_of_fmap. setoid_rewrite elem_of_elements. setoid_rewrite elem_of_dom. split.
    + intros [i [Hi Hk]%map_lookup_filter_Some]. pose proof Hk as [r Hr].
      pose proof (fs_names fs Hwf k i Hi) as Hn. rewrite Hr, !forallb_app in Hn. split_andb.
      assert (Hc : comps (join_sep (comps p ++ r)) = comps p ++ r)
        by (apply comps_join; rewrite forallb_app; by split_andb).
      exists (join_sep (comps p ++ r)). rewrite Hc, app_assoc. split; [done|].
      assert (Hq : join_sep (comps p ++ r) <> "").
      { intros E. rewrite E in Hc. symmetry in Hc. cbn in Hc. apply app_nil in Hc as [Hc _].
        by apply (entry_loc_nonnil [] p Hp). }
      specialize (Hs _ Hq). unfold sync_at in Hs. rewrite Hc, app_assoc, <-Hr, Hi in Hs.
      destruct (model t !! _) as [e|] eqn:E; [|done]. exists e. apply map_lookup_filter_Some.
      split; [done|]. exists r. by rewrite Hc.
    + intros (q & -> & e & [He Hw]%map_lookup_filter_Some).
      destruct (in_sync_inode sha1 top t fs q e Hs He) as (i & Hi & _).
      { intros ->. destruct Hw as [r Hr]. symmetry in Hr. cbn in Hr. apply app_nil in Hr as [Hr _].
        by apply (entry_loc_nonnil [] p Hp). }
      exists i. apply map_lookup_filter_Some. split; [done|]. by apply loc_within.
Qed.

(** removing an entry touches nothing outside of [top] *)
Lemma removed_step top fs p :
  fs_wf fs -> is_dir_loc fs (locate top) = true -> good_path p = true ->
  fs_step top fs (removed fs (locate top ++ comps p)).
Proof.
  intros Hwf Hd Hg. pose proof (entry_loc_nonnil (locate top) p Hg) as Hl.
  split; [by apply removed_wf| |done|].
  - rewrite removed_is_dir; [done|done|]. intros H%prefix_length. rewrite length_app in H.
    pose proof (entry_loc_nonnil [] p Hg). destruct (comps p); [done|]. simpl in H. lia.
  - intros k Hk. rewrite removed_lookup by done. rewrite !decide_False; [done| |].
    + intros ->. apply Hk. rewrite dir_loc_entry by done. by apply prefix_app_r.
    + intros H. apply Hk. etrans; [|exact H]. by apply prefix_app_r.
Qed.

(** afterwards only the time of the parent directory is off *)
Lemma removed_stale top t t' fs p :
  in_sync sha1 top t fs -> good_path p = true -> model t' = prune p (model t) ->
  stale sha1 top (parent_path p) t' (removed fs (locate top ++ comps p)).
Proof.
  intros Hs Hg Hm q Hq. specialize (Hs q Hq). unfold sync_at in *.
  rewrite removed_lookup, Hm, prune_lookup by (by apply entry_loc_nonnil).
  assert (Hpar : locate top ++ comps q = dir_loc (locate top ++ comps p) <-> q = parent_path p).
  { rewrite dir_loc_entry by done. split; [apply loc_inj|by intros ->]. }
  destruct (decide (within p q)) as [Hw|Hw].
  - rewrite (decide_True _ _ (proj2 (loc_within top p q) Hw)). by case_decide.
  - rewrite (decide_False _ _ (fun H => Hw (proj1 (loc_within top p q) H))).
    destruct (decide (q = parent_path p)) as [Hqp|Hqp].
    + rewrite decide_True by (by apply Hpar).
      destruct (model t !! q), (inodes fs !! _); cbn in *; try done. by apply depicts_untimed in Hs.
    + rewrite decide_False by (by rewrite Hpar). done.
Qed.

Lemma removeFromTree_sync top t fs p e :
  bound sha1 top t fs -> model t !! p = Some e ->
  stepped sha1 top (t, fs) (removeFromTreeAndFilesystem p (t, fs)) (to_int (Z.of_nat (size (subtree p (model t)))))
    (prune p (model t)).
Proof.
  intros [Ht Htop Hwf Hd Hs] Hp.
  pose proof (removeFromTree_spec t p Ht) as Hspec. rewrite Hp in Hspec.
  destruct Hspec as (t' & E & Ht' & Hm & _ & Htop' & _).
  assert (Hg : good_path p = true) by (apply (inv_good_path t Ht); eauto).
  destruct (in_sync_inode sha1 top t fs p e Hs Hp) as (i & Hi & _); [by apply good_path_nonempty|].
  pose proof (removed_step top fs p Hwf Hd Hg) as Hstep.
  destruct (fixupParentMtime_ok sha1 top t' (removed fs (locate top ++ comps p)) (parent_path p))
    as (fs2 & E2 & Hb2 & Hst2).
  - apply (based_step top t' fs); [|done]. split; by rewrite ?Htop'.
  - by apply (removed_stale top t).
  - destruct (parent_entry t p Ht) as [|[e' He']]; [eauto|by left|]. right. exists e'.
    rewrite Hm, prune_lookup, decide_False; [done|]. intros Hw.
    apply (proj2 (below_parent p p Hg)) in Hw as [_ ?]. done.
  - exists t', fs2. split_and!; [|done|by eapply fs_step_trans|done].
    unfold removeFromTreeAndFilesystem, mbind, method_bind, on_tree, checkTopPath, top_value, on_fs.
    rewrite Htop, E. cbn [fst]. rewrite Htop', Htop. cbn [from_option_err].
    assert (Hloc : locate (top // p) = locate top ++ comps p) by (by apply locate_entry, good_path_dir).
    rewrite (remove_all_ok (top // p) fs i) by (by rewrite Hloc). rewrite Hloc.
    rewrite (removed_count top t fs p) by done. by rewrite E2.
Qed.
End sync_remove.
