(* ===== verification/SyncCopy.v ===== *)
(** * Copying in tree and directory

    [copyFromTreeAndFilesystem] keeps the tree in step with its directory: the
    files that it writes are those that the copied elements depict. *)

From S2P Require Import Prelude CxxPath CxxTime CxxStream Element Node Tree TreeInv TreeOps TreeCopy TreeIO TreeLoad Diff DiffSpec Diff3Spec FileSystem FsSpec TreeFs ScanSpec SyncSpec SyncOps.

(** ** A new entry *)

Section create.
Context (fs : FS) (l : location) (i : Inode).

Definition created : FS := set_inodes (<[l := i]> (alter (with_mtime (clock fs)) (dir_loc l) (inodes fs))) fs.

Lemma fs_create_ok what p :
  locate p = l -> is_dir_loc fs (dir_loc l) = true -> inodes fs !! l = None ->
  fs_create what p i fs = (Ok tt, created).
Proof.
  intros E Hd Hn. unfold fs_create. rewrite E, Hd, Hn. cbn [negb orb].
  by rewrite bool_decide_false by (by intros [? ?]).
Qed.

Lemma created_lookup k :
  inodes created !! k =
  if decide (k = l) then Some i
  else if decide (k = dir_loc l) then with_mtime (clock fs) <$> inodes fs !! k else inodes fs !! k.
Proof.
  cbn [created inodes set_inodes]. rewrite lookup_insert. case_decide as H1; [by rewrite decide_True|].
  rewrite (decide_False (P := k = l)) by congruence. rewrite lookup_alter.
  case_decide as H2; [subst k; by rewrite decide_True|by rewrite decide_False by congruence].
Qed.

Lemma created_is_dir k :
  inodes fs !! l = None -> is_dir_loc fs k = true -> is_dir_loc created k = true.
Proof.
  intros Hn Hk. unfold is_dir_loc in *. rewrite created_lookup. case_decide as H1.
  - subst k. by rewrite Hn in Hk.
  - case_decide; [|done]. by destruct (inodes fs !! k).
Qed.

Lemma created_wf :
  fs_wf fs -> l <> [] -> is_dir_loc fs (dir_loc l) = true -> inodes fs !! l = None ->
  forallb good_name l = true -> (i_type i = symlink_ -> i_perm i = 511%Z) -> fs_wf created.
Proof.
  intros Hwf Hl Hd Hn Hg Hp k j. rewrite created_lookup. case_decide as H1; [subst k|].
  - intros [= <-]. split; [|done]. intros _. split; [by apply created_is_dir|done].
  - intros Hj. assert (H0 : exists i0, inodes fs !! k = Some i0 /\ i_type j = i_type i0 /\ i_perm j = i_perm i0).
    { case_decide; [|eauto]. destruct (inodes fs !! k) as [i0|]; [|done]. injection Hj as <-. eauto. }
    destruct H0 as (i0 & H0 & -> & ->). destruct (Hwf k i0 H0) as [Hdk Hs]. split; [|done].
    intros Hne. destruct (Hdk Hne). split; [by apply created_is_dir|done].
Qed.
End create.

Lemma dir_good_names fs l : fs_wf fs -> is_dir_loc fs l = true -> forallb good_name l = true.
Proof.
  intros Hwf Hd. unfold is_dir_loc in Hd. destruct (inodes fs !! l) as [i|] eqn:E; [|done].
  by apply (fs_names fs Hwf l i).
Qed.

Lemma append_longer d n : good_dir d = true -> good_name n = true -> d // n <> d.
Proof.
  intros Hd Hn E%(f_equal comps). rewrite comps_append in E by done.
  apply (f_equal length) in E. rewrite length_app in E. simpl in E. lia.
Qed.

(** nothing is below a location that is not a directory *)
Lemma nothing_under fs l k :
  fs_wf fs -> is_dir_loc fs l = false -> l `prefix_of` k -> k <> l -> inodes fs !! k = None.
Proof.
  intros Hwf Hd [r ->] Hne. apply eq_None_not_Some. intros Hs.
  rewrite (fs_above fs Hwf l r Hs) in Hd; [done|]. intros ->. by rewrite app_nil_r in Hne.
Qed.

(** two directories none of which is in the other *)
Definition apart (p q : path) : Prop := ~ locate p `prefix_of` locate q /\ ~ locate q `prefix_of` locate p.

(** the types that can be copied *)
Definition copyable (e : FilesystemElement) : Prop :=
  ty e = regular \/ ty e = directory \/ ty e = symlink_.

(** an entry of such a type whose owner can be restored, and with it the permissions:
    the names are known, and there is no set-ID bit to be lost *)
Definition supported (r : Rights) (e : FilesystemElement) : Prop :=
  copyable e /\ may_own r (us e) (gs e) = true /\ chown_mode (ty e) (per e) = per e.

Lemma depicts_type sha1 e i : depicts sha1 e i -> copyable e -> i_type i = ty e.
Proof. unfold copyable. intros (-> & _). destruct (i_type i); cbn; naive_solver. Qed.

Section sync_copy.
Context (sha1 : string -> string) (top : path) (t : DirectoryTree).
Context (Ht : tree_inv t) (Htop : topPath t = Some top).

Abbreviation loc d := (locate top ++ comps d).

(** ** One entry and what is below it *)

(** the entry [d] has been created, with the file [i] *)
Record growing (d : path) (fs fs' : FS) (i : Inode) : Prop := {
  w_step : fs_step top fs fs';
  w_frame : forall k, ~ loc d `prefix_of` k -> k <> dir_loc (loc d) -> inodes fs' !! k = inodes fs !! k;
  w_dir : with_mtime 0 <$> inodes fs' !! dir_loc (loc d) = with_mtime 0 <$> inodes fs !! dir_loc (loc d);
  w_here : inodes fs' !! loc d = Some i }.

Definition below_sync (d : path) (fs : FS) : Prop :=
  forall q, within d q -> q <> d -> sync_at sha1 top t fs q.

Lemma growing_create what fs d i :
  fs_wf fs -> is_dir_loc fs (locate top) = true -> good_path d = true ->
  is_dir_loc fs (loc (parent_path d)) = true -> inodes fs !! loc d = None ->
  (i_type i = symlink_ -> i_perm i = 511%Z) ->
  exists fs', fs_create what (top // d) i fs = (Ok tt, fs') /\ growing d fs fs' i /\
    forall k, loc d `prefix_of` k -> k <> loc d -> inodes fs' !! k = None.
Proof.
  intros Hwf Hd Hg Hp Hn Hi. pose proof (entry_loc_nonnil (locate top) d Hg) as Hl.
  pose proof (dir_loc_entry top d Hg) as Hdl. exists (created fs (loc d) i).
  assert (Hgl : forallb good_name (loc d) = true)
    by (rewrite forallb_app, (dir_good_names fs) by done; by apply good_comps, good_path_dir).
  split_and!.
  - apply fs_create_ok; [by apply locate_entry, good_path_dir|by rewrite Hdl|done].
  - split.
    + split; [apply created_wf; by rewrite ?Hdl|by apply created_is_dir|done|].
      intros k Hk. rewrite created_lookup, !decide_False; [done| |].
      * intros ->. apply Hk. rewrite Hdl. by apply prefix_app_r.
      * intros ->. apply Hk. by apply prefix_app_r.
    + intros k Hk Hk'. rewrite created_lookup, !decide_False; [done|done|]. by intros ->.
    + rewrite created_lookup, decide_False, decide_True; [|done|].
      * by destruct (inodes fs !! dir_loc (loc d)).
      * intros E. by apply (dir_loc_above (loc d) Hl); rewrite E.
    + by rewrite created_lookup, decide_True.
  - intros k Hk Hne. rewrite created_lookup, decide_False by done.
    assert (Hnk : inodes fs !! k = None).
    { apply (nothing_under fs (loc d)); [done| |done|done]. unfold is_dir_loc. by rewrite Hn. }
    rewrite Hnk. by case_decide.
Qed.

(** changing the new file *)
Lemma growing_update err f d fs fs1 i :
  good_path d = true -> keeps_type f -> growing d fs fs1 i ->
  exists fs2, fs_update err (locate (top // d)) f fs1 = (Ok tt, fs2) /\ growing d fs fs2 (f i) /\
    (below_sync d fs1 -> below_sync d fs2) /\ rights fs2 = rights fs1.
Proof.
  intros Hg Hf [Hst Hfr Hdir Hh]. pose proof Hst as [Hwf Hd _ _].
  destruct (update_step top fs1 err d f i) as (fs2 & E & Hst2 & Halt);
    [done|done|by apply good_path_dir|done|done|].
  exists fs2. split; [done|]. split; [|split; [|by destruct Hst2]].
  - split; [by eapply fs_step_trans| | |by rewrite Halt, lookup_alter_eq, Hh].
    + intros k Hk Hk'. rewrite Halt, lookup_alter_ne; [by apply Hfr|]. by intros <-.
    + rewrite Halt, lookup_alter_ne; [done|]. intros E'.
      by apply (dir_loc_above (loc d) (entry_loc_nonnil _ d Hg)); rewrite <-E'.
  - intros Hb q Hq Hne. specialize (Hb q Hq Hne). unfold sync_at in *.
    rewrite Halt, lookup_alter_ne; [done|]. intros E'. by apply loc_inj in E'.
Qed.

(** ** Entries of one directory *)

(** the entries [ds] of the directory [p] have been created, with what is below them *)
Record grown (p : path) (ds : list path) (fs fs' : FS) : Prop := {
  g_step : fs_step top fs fs';
  g_frame : forall k, (forall d, d ∈ ds -> ~ loc d `prefix_of` k) -> k <> loc p ->
    inodes fs' !! k = inodes fs !! k;
  g_dir : with_mtime 0 <$> inodes fs' !! loc p = with_mtime 0 <$> inodes fs !! loc p;
  g_sync : forall d q, d ∈ ds -> within d q -> sync_at sha1 top t fs' q }.

Lemma grown_one d fs fs' e i :
  good_path d = true -> growing d fs fs' i -> below_sync d fs' -> model t !! d = Some e ->
  depicts sha1 e i -> grown (parent_path d) [d] fs fs'.
Proof.
  intros Hg [Hst Hfr Hdir Hh] Hb He Hei. rewrite (dir_loc_entry top d Hg) in *. split; [done| |done|].
  - intros k Hk. apply Hfr, Hk, list_elem_of_here.
  - intros d' q ->%list_elem_of_singleton Hq. destruct (decide (q = d)) as [->|Hne]; [|by apply Hb].
    unfold sync_at. by rewrite He, Hh.
Qed.

Lemma grown_nil p fs : fs_wf fs -> is_dir_loc fs (locate top) = true -> grown p [] fs fs.
Proof. intros Hwf Hd. split; [by apply fs_step_refl|done|done|by intros ? ? ?%not_elem_of_nil]. Qed.

Lemma grown_cons p d ds fs fs1 fs2 :
  (forall x, x ∈ d :: ds -> good_path x = true /\ parent_path x = p) -> d ∉ ds ->
  grown p [d] fs fs1 -> grown p ds fs1 fs2 -> grown p (d :: ds) fs fs2.
Proof.
  intros Hds Hd [Hst1 Hf1 Hd1 Hs1] [Hst2 Hf2 Hd2 Hs2]. split.
  - by eapply fs_step_trans.
  - intros k Hk Hp. rewrite Hf2, Hf1; [done| |done| |done].
    + intros x ->%list_elem_of_singleton. apply Hk, list_elem_of_here.
    + intros x Hx. by apply Hk, list_elem_of_further.
  - congruence.
  - intros x q Hx Hq. apply elem_of_cons in Hx as [->|Hx]; [|by apply (Hs2 x)].
    specialize (Hs1 d q (list_elem_of_here _ _) Hq). unfold sync_at in *. rewrite Hf2; [done| |].
    + intros x Hx Hxq%loc_within. apply Hd. assert (d = x) as ->; [|done].
      destruct (Hds d) as [Hgd Hpd]; [apply list_elem_of_here|].
      destruct (Hds x) as [Hgx Hpx]; [by apply list_elem_of_further|].
      apply comps_inj. eapply prefix_same_length; [exact Hq|exact Hxq|].
      by rewrite (comps_parent d), (comps_parent x), Hpd, Hpx, !length_app by done.
    + intros ->%loc_inj. destruct (Hds d) as [Hgd Hpd]; [apply list_elem_of_here|].
      rewrite <-Hpd in Hq. apply (proj2 (below_parent d d Hgd)) in Hq as [_ ?]. done.
Qed.

(** ** The source *)

Context (st : path) (s : DirectoryTree) (Hs : tree_inv s) (Hapart : apart st top).

Lemma source_frame fs fs' k : fs_step top fs fs' -> inodes fs' !! (locate st ++ k) = inodes fs !! (locate st ++ k).
Proof using Hapart.
  intros [_ _ _ Hf]. apply Hf. intros H. destruct Hapart as [H1 H2].
  destruct (prefix_weak_total (locate st) (locate top) (locate st ++ k)); [by apply prefix_app_r|done|done|done].
Qed.

Lemma source_sync fs fs' : fs_step top fs fs' -> in_sync sha1 st s fs -> in_sync sha1 st s fs'.
Proof using Hapart.
  intros Hst Hsync q Hq. specialize (Hsync q Hq). unfold sync_at in *. by rewrite (source_frame fs).
Qed.

(** the tree has at [d] a copy of what the source has at [a] *)
Definition mirrors (a d : path) : Prop :=
  forall q q' r, comps q = comps a ++ r -> comps q' = comps d ++ r ->
    model t !! q' = withPath q' <$> model s !! q.

Lemma mirrors_child a d n :
  good_dir a = true -> good_dir d = true -> good_name n = true -> mirrors a d -> mirrors (a // n) (d // n).
Proof.
  intros Ha Hd Hn Hm q q' r Hq Hq'. rewrite !comps_append in * by done.
  apply (Hm q q' (n :: r)); [by rewrite Hq, <-app_assoc|by rewrite Hq', <-app_assoc].
Qed.

Lemma mirrors_here a d : mirrors a d -> model t !! d = withPath d <$> model s !! a.
Proof. intros Hm. apply (Hm a d []); by rewrite app_nil_r. Qed.

(** the file operation that writes the entry itself *)
Definition write_entry (se : FilesystemElement) (sc : list DirectoryNode) (e : FilesystemElement)
    : world_method unit :=
  match ty e with
  | regular =>
      ok ← on_fs (copy_file (st // rp se) (top // rp e));
      if ok : bool then mret tt
      else on_tree (lift_outcome (Err (Throw ("Error copying " +:+ st // rp se +:+ " to " +:+ top // rp e))))
  | symlink_ => on_fs (copy_symlink (st // rp se) (top // rp e))
  | directory =>
      ok ← on_fs (create_directory (top // rp e));
      if negb ok then on_tree (lift_outcome (Err (Throw ("Error creating directory " +:+ top // rp e))))
      else
        _ ← run_each (fun m =>
               j ← on_tree (searchNode (rp e // filename (rp (elem m))) "");
               recursiveFilesystemCopy st m j) sc;
        on_fs (permissions (top // rp e) (per e))
  | _ => on_tree (lift_outcome (Err (Throw
           ("DirectoryTree::recursiveFilesystemCopy: unknown file type " +:+ st // rp se))))
  end.

Lemma recursiveFilesystemCopy_eq i se sc j n fs :
  find_in j (topContent t) = Some n ->
  recursiveFilesystemCopy st (mkNode i se sc) j (t, fs) =
  (_ ← write_entry se sc (elem n);
   _ ← change_ownership_or_warn (top // rp (elem n)) (us (elem n)) (gs (elem n));
   on_fs (ext_symlink_last_write_time (top // rp (elem n)) (mt (elem n)))) (t, fs).
Proof using Htop.
  intros Hf. cbn [recursiveFilesystemCopy]. unfold mbind at 1, method_bind at 1, on_tree at 1, deref at 1.
  rewrite Hf. cbn [from_option_err]. unfold mbind at 1, method_bind at 1, top_value at 1. cbn [fst].
  rewrite Htop. done.
Qed.

(** the entry itself is written, and what is below it *)
Definition written (e : FilesystemElement) (se : FilesystemElement) (sc : list DirectoryNode) (fs : FS) : Prop :=
  exists fs' i, write_entry se sc e (t, fs) = (Ok tt, (t, fs')) /\ growing (rp e) fs fs' i /\
    below_sync (rp e) fs' /\ depicts sha1 e (with_mtime (mt e) (with_owner (us e) (gs e) i)).

Lemma written_copied i se sc j n fs :
  find_in j (topContent t) = Some n -> model t !! rp (elem n) = Some (elem n) ->
  may_own (rights fs) (us (elem n)) (gs (elem n)) = true -> written (elem n) se sc fs ->
  exists fs', recursiveFilesystemCopy st (mkNode i se sc) j (t, fs) = (Ok tt, (t, fs')) /\
    grown (parent_path (rp (elem n))) [rp (elem n)] fs fs'.
Proof using Htop Ht.
  intros Hf Hm Hc (fs1 & ino & E & Hg & Hb & Hd).
  assert (Hgood : good_path (rp (elem n)) = true) by (apply (inv_good_path t Ht); eauto).
  rewrite (recursiveFilesystemCopy_eq i se sc j n fs Hf).
  assert (Hc1 : may_own (rights fs1) (us (elem n)) (gs (elem n)) = true) by (by destruct Hg as [[_ _ -> _] _ _ _]).
  destruct (growing_update (Throw ("ext_symlink_change_ownership failed with path " +:+ top // rp (elem n)))
    (with_owner (us (elem n)) (gs (elem n))) (rp (elem n)) fs fs1 ino) as (fs2 & E2 & Hg2 & Hb2 & _);
    [done|apply keeps_type_owner|done|].
  destruct (growing_update (Throw ("ext_symlink_last_write_time failed with path " +:+ top // rp (elem n)))
    (with_mtime (mt (elem n))) (rp (elem n)) fs fs2 _ Hgood (keeps_type_mtime _) Hg2)
    as (fs3 & E3 & Hg3 & Hb3 & _).
  exists fs3. split; [|by eapply grown_one; eauto].
  unfold mbind, method_bind. rewrite E, (chown_allowed _ _ _ _ _ _ Hc1 E2).
  unfold on_fs, ext_symlink_last_write_time. by rewrite E3.
Qed.

(** nothing is below a file in the tree *)
Lemma file_no_entries d e q :
  model t !! d = Some e -> isDirectory e = false -> within d q -> q <> d -> model t !! q = None.
Proof using Ht.
  intros He Hd Hw Hne. destruct (model t !! q) as [e'|] eqn:Hq; [|done].
  assert (Hg : good_path q = true) by (apply (inv_good_path t Ht); eauto).
  assert (Hgd : d <> "") by (eapply good_path_nonempty, (inv_good_path t Ht); eauto).
  destruct (nothing_below t d q Ht) as [H _]; [|done|done|congruence].
  unfold is_dir_at. apply str_empty_false in Hgd. by rewrite He, Hd, Hgd.
Qed.

(** where an entry can be written *)
Definition room (d : path) (fs : FS) : Prop :=
  fs_wf fs /\ is_dir_loc fs (locate top) = true /\
  is_dir_loc fs (loc (parent_path d)) = true /\ inodes fs !! loc d = None.

(** a file or a link *)
Lemma written_leaf what e fs i se sc :
  model t !! rp e = Some e -> isDirectory e = false -> room (rp e) fs ->
  (i_type i = symlink_ -> i_perm i = 511%Z) ->
  depicts sha1 e (with_mtime (mt e) (with_owner (us e) (gs e) i)) ->
  (forall fs', fs_create what (top // rp e) i fs = (Ok tt, fs') ->
     write_entry se sc e (t, fs) = (Ok tt, (t, fs'))) ->
  written e se sc fs.
Proof using Ht.
  intros Hm Hd (Hwf & Hdt & Hp & Hn) Hi Hdep Hw.
  destruct (growing_create what fs (rp e) i) as (fs' & E & Hg & Hnone);
    [done|done|by apply (inv_good_path t Ht); eauto|done|done|done|].
  exists fs', i. split_and!; [by apply Hw|done| |done].
  intros q Hq Hne. unfold sync_at. rewrite (file_no_entries (rp e) e q), Hnone; [done| | |done..].
  - by apply loc_within.
  - intros E'. by apply loc_inj in E'.
Qed.

Lemma source_inode fs a se :
  in_sync sha1 st s fs -> model s !! a = Some se ->
  exists i, inodes fs !! locate (st // a) = Some i /\ depicts sha1 se i.
Proof using Hs.
  intros Hsync Ha. assert (Hg : good_path a = true) by (apply (inv_good_path s Hs); eauto).
  rewrite locate_entry by auto. apply (in_sync_inode sha1 st s fs a se Hsync Ha).
  by apply good_path_nonempty.
Qed.

Lemma written_regular e fs se sc :
  model t !! rp e = Some e -> model s !! rp se = Some se -> e = withPath (rp e) se ->
  ty se = regular -> chown_mode (ty se) (per se) = per se -> in_sync sha1 st s fs -> room (rp e) fs -> written e se sc fs.
Proof using Ht Hs.
  intros Hm Hms He Hr Hk Hsync Hroom. pose proof (f_equal ty He) as Hty. cbn in Hty.
  destruct (source_inode fs (rp se) se Hsync Hms) as (i & Hi & Hdep).
  assert (Hit : i_type i = regular) by (rewrite (depicts_type sha1 se i Hdep); unfold copyable; auto).
  apply (written_leaf "cannot copy file" e fs (new_inode fs regular (i_perm i) (i_data i) ""));
    [done|by unfold isDirectory; rewrite Hty, Hr|done|done| |].
  - assert (Hki : chown_mode regular (i_perm i) = i_perm i) by (destruct Hdep as (_ & <- & _); by rewrite Hr in Hk).
    rewrite He. unfold with_owner, new_inode. cbn [i_type i_perm]. rewrite Hki.
    revert Hdep. unfold depicts. cbn. rewrite Hr. naive_solver.
  - intros fs' E. unfold write_entry, mbind, method_bind, on_fs, copy_file. rewrite Hty, Hr, Hi.
    rewrite bool_decide_true by done. unfold mbind, method_bind. by rewrite E.
Qed.

Lemma written_symlink e fs se sc :
  model t !! rp e = Some e -> model s !! rp se = Some se -> e = withPath (rp e) se ->
  ty se = symlink_ -> in_sync sha1 st s fs -> room (rp e) fs -> written e se sc fs.
Proof using Ht Hs.
  intros Hm Hms He Hr Hsync Hroom. pose proof (f_equal ty He) as Hty. cbn in Hty.
  destruct (source_inode fs (rp se) se Hsync Hms) as (i & Hi & Hdep).
  assert (Hit : i_type i = symlink_) by (rewrite (depicts_type sha1 se i Hdep); unfold copyable; auto).
  assert (Hperm : i_perm i = 511%Z) by (by apply (proj2 (proj1 Hroom _ i Hi))).
  apply (written_leaf "cannot create symlink" e fs (new_inode fs symlink_ 511 "" (i_target i)));
    [done|by unfold isDirectory; rewrite Hty, Hr|done|done| |].
  - rewrite He. revert Hdep. unfold depicts. cbn. rewrite Hr, Hperm. naive_solver.
  - intros fs' E. unfold write_entry, on_fs, copy_symlink, create_symlink. rewrite Hty, Hr, Hi.
    rewrite bool_decide_true by done. by rewrite E.
Qed.

(** *** Directories *)

(** what the loop over the content of a directory does *)
Definition copies_content (sc : list DirectoryNode) (d : path) (fs : FS) : Prop :=
  exists fs', run_each (fun m =>
      j ← on_tree (searchNode (d // filename (rp (elem m))) "");
      recursiveFilesystemCopy st m j) sc (t, fs) = (Ok tt, (t, fs')) /\
    grown d ((fun m => d // filename (rp (elem m))) <$> sc) fs fs'.

Lemma growing_grown d ds fs fs1 fs2 i :
  (forall x, x ∈ ds -> within d x) -> good_path d = true -> growing d fs fs1 i -> grown d ds fs1 fs2 ->
  exists i', with_mtime 0 i' = with_mtime 0 i /\ growing d fs fs2 i'.
Proof.
  intros Hds Hg [Hst Hfr Hdir Hh] [Hst2 Hfr2 Hdir2 _]. rewrite Hh in Hdir2.
  destruct (inodes fs2 !! loc d) as [i'|] eqn:Hi'; [|done]. exists i'. split; [exact (Some_inj _ _ Hdir2)|].
  assert (Hk : forall k, ~ loc d `prefix_of` k -> inodes fs2 !! k = inodes fs1 !! k).
  { intros k Hk. apply Hfr2; [|by intros ->]. intros x Hx Hp. apply Hk.
    etrans; [|exact Hp]. by apply loc_within, Hds. }
  split; [by eapply fs_step_trans| | |done].
  - intros k Hk1 Hk2. by rewrite Hk, Hfr.
  - rewrite Hk; [done|]. by apply dir_loc_above, entry_loc_nonnil.
Qed.

(** a path below [d] mirrors a path below [a], through a child of [a] *)
Lemma child_on_the_way i a d se sc q :
  find_in i (topContent s) = Some (mkNode i se sc) -> rp se = a -> isDirectory se = true ->
  good_path d = true -> mirrors a d -> is_Some (model t !! q) -> within d q -> q <> d ->
  exists m, m ∈ sc /\ within (d // filename (rp (elem m))) q.
Proof using Ht Hs.
  intros Hf Ha Hdir Hgd Hm Hq [r Hr] Hne.
  assert (Hgq : good_path q = true) by (by apply (inv_good_path t Ht)).
  destruct r as [|x r]; [rewrite app_nil_r in Hr; by apply comps_inj in Hr|].
  destruct (node_at s Hs a i _ Hf) as [Hsa Hga]; [done|].
  assert (Hnames : forallb good_name (comps a ++ x :: r) = true).
  { pose proof (good_comps q (good_path_dir _ Hgq)) as Hc. rewrite Hr in Hc.
    rewrite forallb_app in Hc |- *. split_andb; [|done]. by apply good_comps, good_path_dir. }
  assert (Hx : good_name x = true) by (rewrite forallb_app in Hnames; cbn [forallb] in Hnames; by split_andb).
  set (q0 := join_sep (comps a ++ x :: r)).
  assert (Hq0 : comps q0 = comps a ++ x :: r) by (by apply comps_join).
  assert (Hs0 : is_Some (model s !! q0)).
  { rewrite (Hm q0 q (x :: r) Hq0 Hr) in Hq. destruct (model s !! q0); [eauto|by destruct Hq]. }
  assert (Hsx : is_Some (model s !! (a // x))).
  { apply (model_ancestor s (a // x) q0); [done|done| |by apply good_path_nonempty; auto].
    unfold within. rewrite Hq0, comps_append by auto. exists r. by rewrite <-app_assoc. }
  assert (Hin : a // x ∈ ((fun n => rp (elem n)) <$> sc)).
  { apply (children_paths s Hs a); [right; eauto|]. split; [done|]. by apply parent_append; auto. }
  apply list_elem_of_fmap in Hin as (m & Em & Hin). exists m. split; [done|].
  rewrite <-Em, filename_append by auto. unfold within. rewrite comps_append by auto.
  exists r. by rewrite Hr, <-app_assoc.
Qed.

Lemma content_within i se sc d x :
  find_in i (topContent s) = Some (mkNode i se sc) -> good_path d = true ->
  x ∈ (fun m => d // filename (rp (elem m))) <$> sc -> within d x.
Proof using Hs.
  intros Hf Hg (m & -> & Hx)%list_elem_of_fmap.
  assert (Hna : good_name (filename (rp (elem m))) = true).
  { pose proof (model_of_child s i (mkNode i se sc) m Hs Hf Hx) as Hmm.
    by apply filename_good, (inv_good_path s Hs). }
  unfold within. rewrite comps_append by auto. by apply prefix_app_r.
Qed.

(** with its content copied, a directory that was empty is in step *)
Lemma content_sync i d se sc fs fs' :
  find_in i (topContent s) = Some (mkNode i se sc) -> isDirectory se = true ->
  good_path d = true -> mirrors (rp se) d ->
  (forall k, loc d `prefix_of` k -> k <> loc d -> inodes fs !! k = None) ->
  grown d ((fun m => d // filename (rp (elem m))) <$> sc) fs fs' -> below_sync d fs'.
Proof using Ht Hs.
  intros Hf Hdir Hg Hm Hnone [_ Hfr _ Hsync] q Hq Hne.
  destruct (decide (Exists (fun m => within (d // filename (rp (elem m))) q) sc)) as [Hx|Hx].
  - apply Exists_exists in Hx as (m & Hin & Hw). apply (Hsync (d // filename (rp (elem m)))); [|done].
    by apply (list_elem_of_fmap_2 (fun m => d // filename (rp (elem m)))).
  - rewrite Exists_exists in Hx. unfold sync_at.
    assert (model t !! q = None) as ->.
    { apply eq_None_not_Some. intros Hs'. apply Hx.
      by apply (child_on_the_way i (rp se) d se sc q). }
    rewrite Hfr, Hnone; [done|by apply loc_within| | |].
    + intros E. by apply loc_inj in E.
    + intros x (m & -> & Hin)%list_elem_of_fmap Hw. apply Hx. exists m. split; [done|]. by apply loc_within in Hw.
    + intros E. by apply loc_inj in E.
Qed.

Lemma create_directory_ok d i fs fs' :
  good_path d = true -> inodes fs !! loc d = None ->
  i = new_inode fs directory (Z.ldiff 511 (umask fs)) "" "" ->
  fs_create "cannot create directory" (top // d) i fs = (Ok tt, fs') ->
  create_directory (top // d) fs = (Ok true, fs').
Proof.
  intros Hg Hn -> E. unfold create_directory.
  assert (is_directory fs (top // d) = false) as ->.
  { unfold is_directory, is_dir_loc. by rewrite locate_entry, Hn by auto. }
  unfold mbind, method_bind. by rewrite E.
Qed.

Lemma written_directory i e fs se sc :
  model t !! rp e = Some e -> e = withPath (rp e) se -> ty se = directory ->
  find_in i (topContent s) = Some (mkNode i se sc) -> mirrors (rp se) (rp e) ->
  in_sync sha1 st s fs -> room (rp e) fs ->
  (forall fs1, fs_step top fs fs1 -> is_dir_loc fs1 (loc (rp e)) = true ->
     (forall k, loc (rp e) `prefix_of` k -> k <> loc (rp e) -> inodes fs1 !! k = None) ->
     copies_content sc (rp e) fs1) ->
  written e se sc fs.
Proof using Ht Hs.
  intros Hm He Hr Hf Hmir Hsync (Hwf & Hdt & Hp & Hn) Hrec. pose proof (f_equal ty He) as Hty. cbn in Hty.
  assert (Hg : good_path (rp e) = true) by (apply (inv_good_path t Ht); eauto).
  assert (Hdir : isDirectory se = true) by (unfold isDirectory; by rewrite Hr).
  set (i0 := new_inode fs directory (Z.ldiff 511 (umask fs)) "" "").
  destruct (growing_create "cannot create directory" fs (rp e) i0) as (fs1 & E & Hg1 & Hnone); [done..|].
  pose proof Hg1 as [Hst1 _ _ Hh1].
  destruct (Hrec fs1) as (fs2 & E2 & Hgr); [done|unfold is_dir_loc; by rewrite Hh1|done|].
  destruct (growing_grown (rp e) ((fun m => rp e // filename (rp (elem m))) <$> sc) fs fs1 fs2 i0)
    as (i2 & Hi2 & Hg2); [intros x; by apply (content_within i se)|done..|].
  destruct (growing_update (fs_error "cannot set permissions" (top // rp e)) (with_perm_file (per e))
    (rp e) fs fs2 i2 Hg (keeps_type_perm _) Hg2) as (fs3 & E3 & Hg3 & Hb3 & _).
  assert (Hti2 : i_type i2 = directory) by exact (f_equal i_type Hi2).
  exists fs3, (with_perm_file (per e) i2). split_and!; [|done|by eapply Hb3, content_sync|].
  - unfold write_entry, mbind, method_bind. rewrite Hty, Hr. unfold on_fs at 1.
    rewrite (create_directory_ok (rp e) i0 fs fs1) by done. cbn [negb].
    unfold mbind, method_bind in E2. rewrite E2. unfold on_fs.
    rewrite (permissions_file _ _ _ i2); [by rewrite E3|rewrite locate_entry by auto; by destruct Hg2|congruence].
  - assert (Hms : model s !! rp se = Some se) by (by apply (node_at s Hs (rp se) i _ Hf)).
    destruct (source_inode fs (rp se) se Hsync Hms) as (ino & _ & Hdep).
    unfold with_perm_file. rewrite bool_decide_false by congruence.
    rewrite He. revert Hdep. unfold depicts. cbn. rewrite Hr, Hti2.
    intros (_ & _ & _ & _ & _ & _ & Hsz & Hl). by destruct (Hsz ltac:(done)).
Qed.

(** *** The whole copy *)

Context (R : Rights).

(** the state in which the content [sc] can be copied into the directory [d] *)
Record ready (sc : list DirectoryNode) (d : path) (fs : FS) : Prop := {
  r_fs : fs_wf fs;
  r_top : is_dir_loc fs (locate top) = true;
  r_dir : is_dir_loc fs (loc d) = true;
  r_rights : rights fs = R;
  r_src : in_sync sha1 st s fs;
  r_free : forall m, m ∈ sc -> inodes fs !! loc (d // filename (rp (elem m))) = None }.

(** nodes of one directory of the source, with their copies in [d] *)
Record copying (sc : list DirectoryNode) (d : path) : Prop := {
  c_good : good_dir d = true;
  c_nodup : NoDup ((fun m => d // filename (rp (elem m))) <$> sc);
  c_nodes : forall m, m ∈ sc -> find_in (nid m) (topContent s) = Some m /\
    mirrors (rp (elem m)) (d // filename (rp (elem m))) /\
    (forall q e, within (rp (elem m)) q -> model s !! q = Some e -> supported R e) }.

Lemma source_child m : find_in (nid m) (topContent s) = Some m ->
  model s !! rp (elem m) = Some (elem m) /\ good_path (rp (elem m)) = true.
Proof using Hs. intros Hf. by apply (node_at s Hs (rp (elem m)) (nid m) m). Qed.

(** the content of a directory that is being copied *)
Lemma copying_content i se sc d :
  find_in i (topContent s) = Some (mkNode i se sc) -> good_path d = true -> mirrors (rp se) d ->
  (forall q e, within (rp se) q -> model s !! q = Some e -> supported R e) -> copying sc d.
Proof using Hs.
  intros Hf Hd Hm Hsup. pose proof Hs as (Hwf & Hids & _ & Hpaths & _).
  destruct (node_at s Hs (rp se) i _ Hf) as [Hse Hga]; [done|].
  assert (Hkids : forall m, m ∈ sc -> good_path (rp (elem m)) = true /\ parent_path (rp (elem m)) = rp se).
  { intros m Hin. pose proof (model_of_child s i _ m Hs Hf Hin) as Hmm.
    split; [by apply (inv_good_path s Hs)|].
    destruct (find_in_wf i "" _ _ eq_refl Hwf Hf) as (q & Hq & Hn).
    apply forest_wf_node, forest_wf_cons in Hn as (_ & _ & _ & Hc & _).
    by apply (node_wf_comps (rp se) m); [auto|eapply forest_wf_elem]. }
  split; [by auto| |].
  - destruct (model_of_node s i _ Hs Hf) as [Hnd _]. rewrite paths_cons, app_nil_r in Hnd.
    apply NoDup_cons in Hnd as [_ Hnd%children_nodup].
    assert (E : (fun m => d // filename (rp (elem m))) <$> sc = (fun p => d // filename p) <$> ((fun n => rp (elem n)) <$> sc))
      by (by rewrite <-list_fmap_compose).
    rewrite E. apply NoDup_fmap_2_strong; [|done].
    intros p q (m & -> & Hin)%list_elem_of_fmap (m' & -> & Hin')%list_elem_of_fmap Heq.
    destruct (Hkids m Hin) as [Hg1 Hp1], (Hkids m' Hin') as [Hg2 Hp2].
    apply (f_equal filename) in Heq. rewrite !filename_append in Heq by auto.
    by rewrite <-(parent_filename _ Hg1), <-(parent_filename _ Hg2), Hp1, Hp2, Heq.
  - intros m Hin. destruct (Hkids m Hin) as [Hg Hp].
    assert (Hw : within (rp se) (rp (elem m))).
    { unfold within. rewrite (comps_parent _ Hg), Hp. by apply prefix_app_r. }
    split_and!; [by eapply find_in_content| |].
    + rewrite <-(parent_filename _ Hg) at 1. rewrite Hp. apply mirrors_child; auto.
    + intros q e Hq. apply Hsup. by eapply within_trans.
Qed.

Lemma ready_next m sc d fs fs1 :
  copying (m :: sc) d -> ready (m :: sc) d fs -> grown d [d // filename (rp (elem m))] fs fs1 ->
  copying sc d /\ ready sc d fs1.
Proof using Hapart Hs.
  intros [Hg Hnd Hn] [Hwf Htp Hd Hc Hsrc Hfree] [Hst Hfr Hdir _].
  rewrite fmap_cons in Hnd. apply NoDup_cons in Hnd as [Hni Hnd].
  split; [split; [done..|]; intros; by apply Hn, list_elem_of_further|].
  assert (Hkid : forall x, x ∈ m :: sc -> good_name (filename (rp (elem x))) = true).
  { intros x Hx. by apply filename_good, source_child, Hn. }
  split; try by destruct Hst.
  - revert Hd Hdir. unfold is_dir_loc.
    destruct (inodes fs !! _) as [i|], (inodes fs1 !! _) as [i'|]; try done.
    intros Hi E%(f_equal (fmap i_type)). injection E as ->. done.
  - by destruct Hst as [_ _ -> _].
  - by eapply source_sync.
  - intros x Hx. rewrite Hfr; [by apply Hfree, list_elem_of_further| |].
    + intros y ->%list_elem_of_singleton [r Hr]%loc_within. apply Hni.
      pose proof (Hkid x (list_elem_of_further _ _ _ Hx)). pose proof (Hkid m (list_elem_of_here _ _)).
      rewrite !comps_append, <-app_assoc in Hr by done. apply app_inv_head in Hr. injection Hr as E _.
      rewrite <-E. by apply (list_elem_of_fmap_2 (fun m => d // filename (rp (elem m)))).
    + intros E%loc_inj. revert E. apply append_longer; [done|]. by apply Hkid, list_elem_of_further.
Qed.

(** one node, given that its content can be copied *)
Lemma copy_node i se sc d fs :
  (forall d' fs', copying sc d' -> ready sc d' fs' -> copies_content sc d' fs') ->
  copying [mkNode i se sc] d -> ready [mkNode i se sc] d fs ->
  exists j fs', index t !! (d // filename (rp se)) = Some j /\
    recursiveFilesystemCopy st (mkNode i se sc) j (t, fs) = (Ok tt, (t, fs')) /\
    grown d [d // filename (rp se)] fs fs'.
Proof using Ht Htop Hs Hapart.
  intros IH [Hgd _ Hn] [Hwf Htp Hd Hc Hsrc Hfree].
  destruct (Hn _ (list_elem_of_here _ _)) as (Hf & Hmir & Hsup). cbn [nid elem] in *.
  specialize (Hfree _ (list_elem_of_here _ _)). cbn [elem] in Hfree.
  destruct (source_child (mkNode i se sc) Hf) as [Hms Hgs]. cbn [elem] in *.
  set (p := d // filename (rp se)) in *.
  assert (Hgp : good_path p = true) by (apply good_append; auto).
  assert (Hpp : parent_path p = d) by (apply parent_append; auto).
  pose proof (mirrors_here _ _ Hmir) as Hmp. rewrite Hms in Hmp. cbn in Hmp.
  destruct (inv_model t Ht p _ Hmp) as (j & c & Hj & Hfj & _).
  assert (Hroom : room p fs) by (unfold room; by rewrite Hpp).
  assert (Hwr : written (withPath p se) se sc fs).
  { assert (Hsse : supported R se) by (eapply Hsup; [apply within_refl|done]).
    destruct Hsse as ([Hr|[Hr|Hr]] & _ & Hk).
    - by apply written_regular.
    - apply (written_directory i); try done. intros fs1 Hst Hd1 Hnone. apply IH.
      + by apply (copying_content i se).
      + split; [by destruct Hst|by destruct Hst|done|by destruct Hst as [_ _ -> _]|by eapply source_sync|].
        intros m Hin. cbn [rp withPath]. apply Hnone.
        * apply loc_within, (content_within i se sc p); [done|done|].
          by apply (list_elem_of_fmap_2 (fun m => p // filename (rp (elem m)))).
        * intros E%loc_inj. revert E. apply append_longer; [auto|].
          apply filename_good, (inv_good_path s Hs). by apply (model_of_child s i _ m Hs Hf).
    - by apply written_symlink. }
  assert (Hown : may_own (rights fs) (us se) (gs se) = true) by (rewrite Hc; apply (Hsup _ se (within_refl _) Hms)).
  destruct (written_copied i se sc j _ fs Hfj Hmp Hown Hwr) as (fs' & E & Hg).
  cbn [elem rp withPath] in Hg. rewrite Hpp in Hg. eauto.
Qed.

Lemma copy_content sc d fs : copying sc d -> ready sc d fs -> copies_content sc d fs.
Proof using Ht Htop Hs Hapart.
  revert d fs. induction sc as [|i se c sc IHc IHsc] using forest_ind; intros d fs Hc Hr.
  - exists fs. split; [done|]. destruct Hr. by apply grown_nil.
  - destruct (copy_node i se c d fs IHc) as (j & fs1 & Hj & E & Hg1).
    { destruct Hc as [Hgd _ Hn]. split; [done|apply NoDup_singleton|].
      intros m ->%list_elem_of_singleton. apply Hn, list_elem_of_here. }
    { destruct Hr as [? ? ? ? ? Hfree]. split; try done.
      intros m ->%list_elem_of_singleton. apply Hfree, list_elem_of_here. }
    destruct (ready_next _ sc d fs fs1 Hc Hr Hg1) as [Hc1 Hr1].
    destruct (IHsc d fs1 Hc1 Hr1) as (fs2 & E2 & Hg2). exists fs2. split.
    + cbn [run_each]. unfold mbind at 1, method_bind at 1. unfold mbind at 1, method_bind at 1.
      unfold on_tree at 1, searchNode at 1. cbn [elem]. rewrite Hj. cbn [from_option_err]. by rewrite E.
    + rewrite fmap_cons. cbn [elem]. destruct Hc as [Hgd Hnd Hn]. rewrite fmap_cons in Hnd.
      apply NoDup_cons in Hnd as [Hni Hnd]. apply (grown_cons d _ _ fs fs1); [|done..].
      intros x Hx. change (x ∈ (fun m => d // filename (rp (elem m))) <$> (mkNode i se c :: sc)) in Hx.
      apply list_elem_of_fmap in Hx as (m & -> & Hm). destruct (Hn m Hm) as (Hf & _).
      destruct (source_child m Hf) as [_ Hg]. split; [apply good_append; auto|apply parent_append; auto].
Qed.
End sync_copy.

(** ** copyFromTreeAndFilesystem *)

Section copy_op.
Context (s t : DirectoryTree) (sp dp : path).
Context (Hs : tree_inv s) (Ht : tree_inv t) (Hcan : can_copy s t sp dp).

Lemma copy_paths :
  good_path sp = true /\ good_dir dp = true /\ good_name (filename sp) = true /\
  reloc (parent_path sp) dp sp = dp // filename sp /\ comps (parent_path sp) `prefix_of` comps sp /\
  (forall k e, model s !! k = Some e -> good_path k = true /\ rp e = k).
Proof using Hs Ht Hcan.
  destruct Hcan as (Hsp & Hdp & _). assert (Hg : good_path sp = true) by (by apply (inv_good_path s Hs)).
  assert (Hgd : good_dir dp = true).
  { destruct Hdp as [->|(de & Hde & _)]; [done|]. apply good_path_dir, (inv_good_path t Ht). eauto. }
  split_and!; [done|done|auto| | |].
  - rewrite <-(parent_filename sp Hg) at 2. apply reloc_top; auto.
  - rewrite (comps_parent sp Hg). by apply prefix_app_r.
  - intros k e Hk. split; [apply (inv_good_path s Hs); eauto|].
    by destruct (inv_model s Hs k e Hk) as (_ & _ & _ & _ & ?).
Qed.

Context (t' : DirectoryTree) (Hcop : copied s t t' sp dp).

Lemma copied_mirrors : mirrors t' s sp (dp // filename sp).
Proof using Hs Ht Hcan Hcop.
  intros q q' r Hq Hq'. destruct copy_paths as (Hg & Hgd & Hn & Hrel & Hpre & Hkeys).
  pose proof Hcop as (_ & Hm & _). rewrite <-Hrel in Hq'.
  pose proof (graft_lookup (parent_path sp) dp sp (model s) q q' r Hgd Hkeys Hpre Hg Hq Hq') as Hgr.
  rewrite Hm, lookup_union, Hgr.
  assert (model t !! q' = None) as ->; [|by destruct (withPath q' <$> model s !! q)].
  apply eq_None_not_Some. intros Hsome. destruct Hcan as (_ & _ & Hnone).
  destruct (model_ancestor t (dp // filename sp) q' Ht) as [e He]; [done| |by apply good_path_nonempty; auto|congruence].
  exists r. by rewrite Hq', Hrel.
Qed.

Lemma copied_outside q : ~ within (dp // filename sp) q -> model t' !! q = model t !! q.
Proof using Hs Ht Hcan Hcop.
  intros Hw. destruct copy_paths as (Hg & Hgd & Hn & Hrel & Hpre & Hkeys).
  pose proof Hcop as (_ & Hm & _). rewrite Hm, lookup_union.
  rewrite graft_outside by (done || by rewrite Hrel). by destruct (model t !! q).
Qed.
End copy_op.

Section copy_sync.
Context (sha1 : string -> string).

(** after the files are there, only the time of the destination directory is off *)
Lemma copied_stale top s t t' fs fs' sp dp :
  tree_inv s -> tree_inv t -> can_copy s t sp dp -> copied s t t' sp dp ->
  in_sync sha1 top t fs -> grown sha1 top t' dp [dp // filename sp] fs fs' -> stale sha1 top dp t' fs'.
Proof.
  intros Hs Ht Hcan Hcop Hsync [_ Hfr Hdir Hnew] q Hq.
  destruct (copy_paths s t sp dp Hs Ht Hcan) as (_ & Hgd & Hn & _).
  destruct (decide (within (dp // filename sp) q)) as [Hw|Hw].
  { pose proof (Hnew _ q (list_elem_of_here _ _) Hw) as Hat. case_decide; [|done].
    by apply both_untimed. }
  specialize (Hsync q Hq). unfold sync_at in *. rewrite (copied_outside s t sp dp Hs Ht Hcan t' Hcop q Hw).
  case_decide as Hqd; [subst q|].
  - destruct (inodes fs !! (locate top ++ comps dp)) as [i|], (inodes fs' !! (locate top ++ comps dp)) as [i'|];
      try done. apply Some_inj in Hdir. destruct (model t !! dp) as [e|]; [|done]. cbn in *.
    apply depicts_untimed in Hsync. unfold untimed in *.
    assert (with_mtime (mt e) i' = with_mtime (mt e) i) as ->; [|done].
    by rewrite <-(eq_refl : with_mtime (mt e) (with_mtime 0 i') = with_mtime (mt e) i'), Hdir.
  - rewrite Hfr; [done| |].
    + intros x ->%list_elem_of_singleton Hx. by apply Hw, (loc_within top).
    + intros E. by apply loc_inj in E.
Qed.

Lemma dir_in_sync top t fs d :
  in_sync sha1 top t fs -> is_dir_loc fs (locate top) = true ->
  d = "" \/ (exists e, model t !! d = Some e /\ isDirectory e = true) ->
  is_dir_loc fs (locate top ++ comps d) = true.
Proof.
  intros Hs Hd [->|(e & He & Hdir)]; [by rewrite app_nil_r|]. destruct (decide (d = "")) as [->|Hne].
  { by rewrite app_nil_r. }
  destruct (in_sync_inode sha1 top t fs d e Hs He Hne) as (i & Hi & Hei). unfold is_dir_loc. rewrite Hi.
  unfold isDirectory in Hdir. apply bool_decide_eq_true_1 in Hdir.
  apply bool_decide_eq_true_2. rewrite (depicts_type sha1 e i Hei); [done|]. by right; left.
Qed.

(** Copying from a tree in step with its directory, elsewhere on the filesystem,
    succeeds and leaves this tree in step with its own directory. *)
Lemma copyFromTree_sync st s top t fs sp dp :
  bound sha1 st s fs -> bound sha1 top t fs -> apart st top -> can_copy s t sp dp ->
  (forall q e, within sp q -> model s !! q = Some e -> supported (rights fs) e) ->
  stepped sha1 top (t, fs) (copyFromTreeAndFilesystem s sp dp (t, fs)) tt
    (graft (parent_path sp) dp sp (model s) ∪ model t).
Proof.
  intros [Hs Hst _ _ Hssync] [Ht Htop Hwf Hd Hsync] Hap Hcan Hsup.
  destruct (treeCopy_spec s t sp dp Hs Ht Hcan) as (i & src & t' & E & Hcop & Hix & Hf & Hsp).
  destruct (copy_paths s t sp dp Hs Ht Hcan) as (_ & Hgd & Hn & _).
  pose proof Hcop as (Ht' & Hm & _ & Htop' & _). pose proof Hcan as (_ & Hdst & Hnone).
  pose proof (find_in_nid _ _ _ Hf) as Hid. destruct src as [i' se sc]. cbn [elem nid] in *. subst i' sp.
  rewrite Htop in Htop'.
  destruct (copy_node sha1 top t' Ht' Htop' st s Hs Hap (rights fs) i se sc dp fs) as (j & fs1 & Hj & E1 & Hg1).
  - intros d' fs'. by apply copy_content.
  - split; [done|apply NoDup_singleton|]. intros m ->%list_elem_of_singleton. cbn [elem nid].
    split_and!; [done|by apply (copied_mirrors s t)|done].
  - split; [done|done|by eapply dir_in_sync|done|done|]. intros m ->%list_elem_of_singleton. cbn [elem].
    pose proof (Hsync (dp // filename (rp se))) as Hfree. unfold sync_at in Hfree. rewrite Hnone in Hfree.
    destruct (inodes fs !! _); [|done]. destruct Hfree. by apply good_path_nonempty; auto.
  - rewrite Hix in Hj. injection Hj as <-.
    destruct (fixupParentMtime_ok sha1 top t' fs1 dp) as (fs2 & E2 & Hb2 & Hst2).
    + apply (based_step top t' fs); [by split|by destruct Hg1].
    + by apply (copied_stale top s t t' fs fs1 (rp se) dp).
    + destruct Hdst as [->|(de & Hde & _)]; [by left|right]. exists de.
      rewrite (copied_outside s t (rp se) dp Hs Ht Hcan t' Hcop); [done|]. intros [r Hr].
      rewrite comps_append, <-app_assoc in Hr by auto. apply (f_equal length) in Hr.
      rewrite length_app in Hr. simpl in Hr. lia.
    + exists t', fs2. split_and!; [|done|eapply fs_step_trans; [by destruct Hg1|done]|done].
      unfold copyFromTreeAndFilesystem, mbind, method_bind, on_tree, checkTopPath, lift_outcome.
      rewrite Htop, Hst. cbn [from_option_err]. rewrite E. by rewrite E1.
Qed.

(** a tree bound to another directory stays in step *)
Lemma bound_elsewhere st s top fs fs' :
  bound sha1 st s fs -> apart st top -> fs_step top fs fs' -> bound sha1 st s fs'.
Proof.
  intros [Hs Hst Hwf Hd Hsync] Hap Hstep. split; [done|done|by destruct Hstep| |by eapply source_sync].
  pose proof (source_frame top st Hap fs fs' [] Hstep) as E. rewrite !app_nil_r in E.
  unfold is_dir_loc in *. by rewrite E.
Qed.

(** a scanned tree is in step with its directory *)
Lemma scan_bound order absolute fs p o t :
  (forall x : gset string, order x ≡ₚ elements x) -> fs_wf fs -> good_top (absolute p) = true ->
  is_dir_loc fs (locate (absolute p)) = true ->
  exists t', scanDirectory sha1 order absolute fs p o t = (Ok tt, t') /\ bound sha1 (absolute p) t' fs.
Proof.
  intros Ho Hwf Hg Hd.
  destruct (scanDirectory_spec sha1 order Ho fs Hwf (absolute p) Hg o absolute p t eq_refl Hd)
    as (t' & E & Hinv & _ & Htop & _ & Hm).
  exists t'. split; [done|]. split; [done..|]. intros q Hq. unfold sync_at. rewrite Hm, decide_False by done.
  unfold scan_at. destruct (inodes fs !! _) as [i|]; [|done]. apply scan_depicts.
Qed.
End copy_sync.
