(* ===== verification/Backup.v ===== *)
(** * Backups (src/backup.cpp)

    [backupImpl] makes the backup directory equal to the source directory, by
    working off the differences between the two trees. The answers of
    the user are read from the standard input; the messages are added in
    [BackupTalk.v]. *)

From S2P Require Import Prelude CxxPath CxxTime CxxStream Element Node Tree Diff FileSystem TreeFs.

(** ** Questions *)

Definition tolower (c : ascii) : ascii :=
  let n := nat_of_ascii c in if (65 <=? n) && (n <=? 90) then ascii_of_nat (n + 32) else c.

(** the first character that is an answer, and the rest of the input *)
Fixpoint read_answer (input : string) : option (bool * string) :=
  match input with
  | "" => None
  | String c rest =>
      if bool_decide (tolower c = "y"%char) then Some (true, rest)
      else if bool_decide (tolower c = "n"%char) then Some (false, rest)
      else read_answer rest
  end.

(** [askYesNo]: at the end of the input [cin.get()] never gives an answer, and
    the loop does not end *)
Definition askYesNo : method string bool := fun input =>
  match read_answer input with
  | Some (b, rest) => (Ok b, rest)
  | None => (Err Hangs, input)
  end.

(** ** What a backup works on *)

Record Desk := mkDesk {
  dst : DirectoryTree;
  meta : option DirectoryTree;   (** [metaTree], unless it is [nullptr] *)
  files : FS;
  input : string }.

Abbreviation desk_method := (method Desk).

Definition on_dst {A} (m : world_method A) : desk_method A := fun d =>
  let '(r, (t, fs)) := m (dst d, files d) in (r, mkDesk t (meta d) fs (input d)).

(** [if(metaTree) metaTree->m] *)
Definition on_meta (m : tree_method unit) : desk_method unit := fun d =>
  match meta d with
  | None => (Ok tt, d)
  | Some t => let '(r, t') := m t in (r, mkDesk (dst d) (Some t') (files d) (input d))
  end.

Definition ask : desk_method bool := fun d =>
  let '(r, s) := askYesNo (input d) in (r, mkDesk (dst d) (meta d) (files d) s).

Definition when (b : bool) (m : desk_method unit) : desk_method unit := if b then m else mret tt.

(** ** Comparisons *)

(** the options that select what the user calls content; the modification time
    counts when it is the only sign of a change *)
Definition content_opt (x y : FilesystemElement) : CompareOpt :=
  let mtime :=
    if negb (bool_decide (ty x = regular)) || negb (bool_decide (ty y = regular)) then false
    else negb (negb (str_empty (fileHash x)) && negb (str_empty (fileHash y))) in
  mkOpt false false mtime true true true.

(** everything but the content *)
Definition metadata_opt : CompareOpt := mkOpt true true true false false false.

Definition same_owner (x y : FilesystemElement) : bool :=
  bool_decide (us x = us y) && bool_decide (gs x = gs y).

(** ** backupImpl *)

Definition updateMetadata (x y : FilesystemElement) : desk_method unit :=
  let relPath := rp x in
  _ ← when (negb (bool_decide (per x = per y)))
        (_ ← on_dst (modifyPermissionsInTreeAndFilesystem relPath (per x));
         on_meta (modifyPermissionsInTree relPath (per x)));
  _ ← when (negb (same_owner x y))
        (_ ← on_dst (modifyOwnerInTreeAndFilesystem relPath (us x) (gs x));
         on_meta (modifyOwnerInTree relPath (us x) (gs x)));
  when (negb (bool_decide (mt x = mt y)))
    (_ ← on_dst (modifyMtimeInTreeAndFilesystem relPath (mt x));
     on_meta (modifyMtimeInTree relPath (mt x))).

Definition replaceEntry (srcTree : DirectoryTree) (relPath : path) : desk_method unit :=
  _ ← on_dst (removeFromTreeAndFilesystem relPath);
  _ ← on_dst (copyFromTreeAndFilesystem srcTree relPath (parent_path relPath));
  _ ← on_meta (removeFromTree relPath);
  on_meta (copyFromTree srcTree relPath (parent_path relPath)).

(** the body of the loop over the differences; the result says if bit rot was
    detected *)
Definition backupLine (srcTree : DirectoryTree) (d : DirectoryDiffLine2) : desk_method bool :=
  match d with
  | (None, None) => lift_outcome (Err (Throw "bad_optional_access"))
  | (None, Some y) =>
      _ ← on_dst (removeFromTreeAndFilesystem (rp y));
      _ ← on_meta (removeFromTree (rp y));
      mret false
  | (Some x, None) =>
      _ ← on_dst (copyFromTreeAndFilesystem srcTree (rp x) (parent_path (rp x)));
      _ ← on_meta (copyFromTree srcTree (rp x) (parent_path (rp x)));
      mret false
  | (Some x, Some y) =>
      if compare x y (content_opt x y) then _ ← updateMetadata x y; mret false
      else if compare x y metadata_opt then mret true
      else
        replace ← (if (mt x <? mt y)%Z then ask else mret true);
        _ ← when replace (replaceEntry srcTree (rp x));
        mret false
  end.

Fixpoint backupLines (srcTree : DirectoryTree) (diff : list DirectoryDiffLine2) (bitrot : bool)
    : desk_method bool :=
  match diff with
  | [] => mret bitrot
  | d :: diff' => b ← backupLine srcTree d; backupLines srcTree diff' (bitrot || b)
  end.

Section backup.
Context (order : gset string -> list string).

Definition backupImpl (srcTree : DirectoryTree) : desk_method Z :=
  d ← get_state;
  diff ← lift_outcome (diff2 order srcTree (dst d) all_opts);
  bitrot ← backupLines srcTree diff false;
  mret (if bitrot : bool then 2 else 0)%Z.
End backup.

(** ** Scanning both directories *)

Section scan_both.
Context (sha1 : string -> string) (listing : gset string -> list string) (absolute : path -> path).

(** the message of an exception that a scan ended with *)
Definition exception_text {A} (r : outcome A) : outcome string :=
  match r with
  | Ok _ => Ok ""
  | Err (Throw what) => Ok what
  | Err e => Err e
  end.

(** after both threads have ended: the messages of their exceptions are joined *)
Definition join_scans (src dst : outcome unit * DirectoryTree) : outcome (DirectoryTree * DirectoryTree) :=
  let '(rs, srcTree) := src in
  let '(rd, dstTree) := dst in
  foregroundException ← exception_text rd;
  backgroundException ← exception_text rs;
  let what :=
    if negb (str_empty backgroundException)
    then foregroundException +:+ (if negb (str_empty foregroundException) then " " else "") +:+ backgroundException
    else foregroundException in
  if negb (str_empty what) then Err (Throw what) else Ok (srcTree, dstTree).

(** [scanSourceTargetDir]; with threads both scans are done, in either order *)
Definition scanSourceTargetDir (fs : FS) (src dst : path) (threads : bool) (opt : ScanOpt)
    : outcome (DirectoryTree * DirectoryTree) :=
  let '(rs, srcTree) := scanDirectory sha1 listing absolute fs src opt emptyTree in
  let '(rd, dstTree) := scanDirectory sha1 listing absolute fs dst opt emptyTree in
  if threads then join_scans (rs, srcTree) (rd, dstTree)
  else _ ← rs; _ ← rd; Ok (srcTree, dstTree).

(** [backup] without metadata files, on the filesystem and the standard input *)
Definition backup_plain (order : gset string -> list string) (src dst : path) (threads : bool)
    : method (FS * string) Z := fun '(fs, inp) =>
  match scanSourceTargetDir fs src dst threads OmitHash with
  | Err e => (Err e, (fs, inp))
  | Ok (srcTree, dstTree) =>
      let '(r, d) := backupImpl order srcTree (mkDesk dstTree None fs inp) in (r, (files d, input d))
  end.
End scan_both.
