(* ===== verification/ThreadsSpec.v ===== *)
(** * Two threads that scan: every interleaving gives the same result

    The lock is held by at most one thread, which is inside of a lookup; whenever
    it is free the caches agree with the user database. So every lookup gets the
    answer that it gets alone, no thread waits forever, and both scans end with
    the trees that they build one after the other. *)

From S2P Require Import Prelude CxxPath CxxTime CxxStream Element ExtFs Node Tree FileSystem TreeFs Status Threads Backup.

(** runs that are bounded and go on until [P] holds reach it *)
Lemma bounded_run_ends {A} (R : relation A) (P : A -> Prop) x k :
  (forall n y, nsteps R n x y -> n <= k) -> (forall y, rtc R x y -> (exists z, R y z) \/ P y) ->
  exists y, rtc R x y /\ P y.
Proof.
  intros Hb Hgo. assert (H : forall m, (exists y, rtc R x y /\ P y) \/ exists y, nsteps R m x y).
  { induction m as [|m [?|[y Hy]]]; [right; exists x; constructor|by left|].
    destruct (Hgo y) as [[z Hz]|Hp]; [by eapply rtc_nsteps_2| |left; eauto using rtc_nsteps_2].
    right. exists z. by eapply nsteps_r. }
  destruct (H (S k)) as [?|[y Hy]]; [done|]. apply Hb in Hy. lia.
Qed.

Section interleavings.
Context {V : Type} (getpwuid getgrgid : N -> db_result string) (getpwnam getgrnam : string -> db_result N).
Context (Husers : db_bijective getpwuid getpwnam) (Hgroups : db_bijective getgrgid getgrnam).

Abbreviation names := (fun q => Ok (owner_of getpwuid getgrgid q)).
Abbreviation owner q := (owner_of getpwuid getgrgid q).
Abbreviation owners_good := (owners_ok getpwuid getgrgid).
Abbreviation tstep := (thread_step (V:=V) getpwuid getgrgid).
Abbreviation sstep := (step (V:=V) getpwuid getgrgid).

(** ** The caches *)

Lemma cache_of_ok q c : owners_good c -> exists getId getName, db_bijective getId getName /\
  cache_ok getId (cache_of q c) /\ database getpwuid getgrgid q = getId (req_id q) /\ owner q = owner_name getId (req_id q) /\
  forall x, cache_ok getId x -> owners_good (set_cache q x c).
Proof using Husers Hgroups.
  intros [Hu Hg]. destruct q; [exists getpwuid, getpwnam|exists getgrgid, getgrnam]; split_and!; try done; by split.
Qed.

Lemma cached_owner q c n : owners_good c -> byId (cache_of q c) !! req_id q = Some n -> n = owner q.
Proof using Husers Hgroups.
  intros Hc Hn. destruct (cache_of_ok q c Hc) as (gi & gn & _ & Hok & _ & -> & _). by apply (Hok _ n).
Qed.

Lemma set_cache_of q x y c : set_cache q x (set_cache q y c) = set_cache q x c.
Proof using Type. by destruct q. Qed.

Lemma cache_of_set q x c : cache_of q (set_cache q x c) = x.
Proof using Type. by destruct q. Qed.

(** a new owner in both maps *)
Lemma stored_ok q c :
  owners_good c -> byId (cache_of q c) !! req_id q = None ->
  owners_good (set_cache q (mkCache (<[req_id q := owner q]> (byId (cache_of q c)))
    (map_insert (owner q) (req_id q) (byName (cache_of q c)))) c).
Proof using Husers Hgroups.
  intros Hc Hn. destruct (cache_of_ok q c Hc) as (gi & gn & Hdb & Hok & _ & Eo & Hset). apply Hset.
  destruct (cache_ok_insert gi gn Hdb _ _ Hok Hn) as [Hins Hnone]. unfold map_insert. by rewrite Eo, Hnone.
Qed.

(** ** The invariant *)

(** inside of the lookup of [q] *)
Definition inside (q : request) (w : where_) (sh : Shared) : Prop :=
  match w with
  | Outside => False
  | Entered => owners_good (owners sh)
  | Missing => owners_good (owners sh) /\ byId (cache_of q (owners sh)) !! req_id q = None
  | Fetched found => owners_good (owners sh) /\ byId (cache_of q (owners sh)) !! req_id q = None /\
      entry_name q found sh = owner q
  | Stored found n => n = owner q /\ entry_name q found sh = owner q /\
      exists c, owners_good c /\ byId (cache_of q c) !! req_id q = None /\
        owners sh = set_cache q (mkCache (<[req_id q := owner q]> (byId (cache_of q c))) (byName (cache_of q c))) c
  | Leaving r => owners_good (owners sh) /\ r = Ok (owner q)
  end.

(** a thread that will end with [v] *)
Definition sound (i : bool) (sh : Shared) (th : thread) (v : V) : Prop :=
  answered names th.2 = v /\
  match th.1 with
  | Outside => mutex sh <> Some i
  | w => mutex sh = Some i /\ exists q k, th.2 = Ask q k /\ inside q w sh
  end.

Definition at_rest (sh : Shared) : Prop := mutex sh = None -> owners_good (owners sh).

Lemma sound_inside i sh w q k v :
  w <> Outside -> sound i sh (w, Ask q k) v -> mutex sh = Some i /\ inside q w sh /\ answered names (Ask q k) = v.
Proof using Type.
  intros Hw [Ha H]. cbn in *. destruct w; try done;
    destruct H as (Hm & q' & k' & E & Hin); injection E as <- _; by split_and!.
Qed.

Lemma inside_sound i sh w q k v :
  mutex sh = Some i -> inside q w sh -> answered names (Ask q k) = v -> sound i sh (w, Ask q k) v.
Proof using Type. intros Hm Hin Ha. split; [done|]. cbn. destruct w; try done; by eauto. Qed.

Lemma thread_step_sound i sh th sh' th' v :
  tstep i sh th sh' th' -> sound i sh th v -> at_rest sh -> sound i sh' th' v /\ at_rest sh'.
Proof using Husers Hgroups.
  intros Hst Hs Hr. destruct Hst as [q k sh Hm|q k sh n Hn|q k sh Hn|q k sh b Hd|q k sh n Hd|q k sh b Hd|q k sh found x n|q k sh found n x|q k sh r].
  1: { destruct Hs as [Ha _]. split; [|done]. apply inside_sound; [done|by apply Hr|done]. }
  all: (apply sound_inside in Hs as (Hm & Hin & Ha); [|done]; cbn [inside] in Hin).
  all: try (split; [apply inside_sound; [done| |done]|unfold at_rest; cbn; by rewrite Hm]; cbn [inside]).
  - split; [done|]. f_equal. by apply (cached_owner q (owners sh)).
  - done.
  - destruct Hin as [Hc Hn]. destruct (cache_of_ok q _ Hc) as (gi & gn & Hdb & _ & Ed & _).
    rewrite Ed in Hd. by destruct (db_no_id_failure _ _ Hdb (req_id q)).
  - destruct Hin as [Hc Hn]. destruct (cache_of_ok q _ Hc) as (gi & gn & _ & _ & Ed & Eo & _).
    split_and!; [done|done|]. cbn. rewrite Eo. unfold owner_name. by rewrite <-Ed, Hd.
  - destruct Hin as [Hc Hn]. destruct (cache_of_ok q _ Hc) as (gi & gn & _ & _ & Ed & Eo & _).
    split_and!; [done|done|]. cbn. rewrite Eo. unfold owner_name. by rewrite <-Ed, Hd.
  - destruct Hin as (Hc & Hnone & En). subst x n. rewrite Hnone. split; [done|]. split; [done|].
    exists (owners sh). split; [done|]. split; [done|]. cbn. unfold map_insert. by rewrite Hnone, En.
  - destruct Hin as (-> & En & c & Hc & Hnone & Eo). subst x. split; [|done]. cbn. rewrite Eo, set_cache_of, cache_of_set, En.
    cbn [byId byName]. by apply stored_ok.
  - destruct Hin as [Hc ->]. split; [by split|]. by intros _.
Qed.

(** the other thread does not notice *)
Lemma thread_step_frame i sh th sh' th' v u ot :
  tstep i sh th sh' th' -> sound i sh th v -> sound (negb i) sh ot u -> sound (negb i) sh' ot u.
Proof using Type.
  intros Hst Hs [Ha Ho]. split; [done|].
  assert (Hm : mutex sh <> Some (negb i)).
  { intros Hm. destruct Hst; try congruence; destruct Hs as [_ [Hs _]]; cbn in Hs; rewrite Hs in Hm;
      injection Hm; by destruct i. }
  destruct ot as [w p]. cbn in *. destruct w; try (by destruct Ho). 
  destruct Hst; cbn; try done. intros E. injection E. by destruct i.
Qed.

Record system_ok (v1 v2 : V) (S : System) : Prop := {
  y_background : sound true (shared S) (background S) v1;
  y_foreground : sound false (shared S) (foreground S) v2;
  y_rest : at_rest (shared S) }.

Lemma step_ok v1 v2 S S' : sstep S S' -> system_ok v1 v2 S -> system_ok v1 v2 S'.
Proof using Husers Hgroups.
  intros Hst [H1 H2 H3]. destruct Hst as [sh sh' b b' f Hst|sh sh' b f f' Hst]; cbn in *.
  - destruct (thread_step_sound _ _ _ _ _ _ Hst H1 H3) as [H1' H3']. split; [done| |done].
    by apply (thread_step_frame true sh b sh' b' v1 v2 f).
  - destruct (thread_step_sound _ _ _ _ _ _ Hst H2 H3) as [H2' H3']. split; [|done|done].
    by apply (thread_step_frame false sh f sh' f' v2 v1 b).
Qed.

Lemma launched_ok c buf p1 p2 :
  owners_good c -> system_ok (answered names p1) (answered names p2) (launched c buf p1 p2).
Proof using Type. intros Hc. split; [split; cbn; done|split; cbn; done|by intros _]. Qed.

Lemma reachable_ok v1 v2 S S' : rtc sstep S S' -> system_ok v1 v2 S -> system_ok v1 v2 S'.
Proof using Husers Hgroups. induction 1; eauto using step_ok. Qed.

(** ** Progress *)

(** a thread that has the lock can go on *)
Lemma holder_steps i sh w q k v :
  w <> Outside -> sound i sh (w, Ask q k) v -> exists sh' th', tstep i sh (w, Ask q k) sh' th'.
Proof using Type.
  intros Hw Hs. destruct (sound_inside _ _ _ _ _ _ Hw Hs) as (_ & Hin & _).
  destruct w as [| | |found|found n|r]; cbn [inside] in Hin; [done| | |by eauto using thread_step..].
  - destruct (byId (cache_of q (owners sh)) !! req_id q) eqn:E; eauto using thread_step.
  - destruct (database getpwuid getgrgid q) eqn:E; eexists _, _;
      [by apply (t_failed _ _ _ _ _ _ "")|by apply (t_unknown _ _ _ _ _ _ "")|by apply t_found].
Qed.

Lemma thread_cases i sh th v :
  sound i sh th v ->
  (exists v', th = (Outside, Done v')) \/ (exists q k, th = (Outside, Ask q k)) \/
  (mutex sh = Some i /\ exists sh' th', tstep i sh th sh' th').
Proof using Type.
  intros Hs. destruct th as [w p]. assert (Hw : w = Outside \/ w <> Outside) by (destruct w; auto).
  destruct Hw as [->|Hw]; [destruct p; eauto|]. right; right.
  assert (exists q k, p = Ask q k) as (q & k & ->).
  { destruct Hs as [_ H]. destruct w; try done; destruct H as (_ & q & k & E & _); eauto. }
  split; [by apply (sound_inside _ _ _ _ _ _ Hw Hs)|by eapply holder_steps].
Qed.

(** no deadlock: both threads have ended, or one of them can make a step *)
Lemma system_steps v1 v2 S :
  system_ok v1 v2 S -> finished S v1 v2 \/ exists S', sstep S S'.
Proof using Type.
  destruct S as [sh b f]. intros [H1 H2 _]. cbn in *.
  destruct (thread_cases _ _ _ _ H1) as [(u1 & ->)|[(q & k & ->)|(_ & sh' & b' & Hst)]]; cycle 2.
  { right. eauto using step. }
  - destruct (thread_cases _ _ _ _ H2) as [(u2 & ->)|[(q & k & ->)|(_ & sh' & f' & Hst)]]; [| |right; eauto using step].
    + left. destruct H1 as [<- N1], H2 as [<- N2]. split; [|done]. cbn in *.
      destruct (mutex sh) as [[]|]; done.
    + right. destruct H1 as [_ N1], H2 as [_ N2]. cbn in *.
      assert (Hm : mutex sh = None) by (destruct (mutex sh) as [[]|]; done). eauto using step, thread_step.
  - destruct (thread_cases _ _ _ _ H2) as [(u2 & ->)|[(q' & k' & ->)|(_ & sh' & f' & Hst)]]; [| |right; eauto using step];
      right; destruct H1 as [_ N1], H2 as [_ N2]; cbn in *;
      assert (Hm : mutex sh = None) by (destruct (mutex sh) as [[]|]; done); eauto using step, thread_step.
Qed.

(** ** Termination *)

(** the number of lookups that a program makes *)
Fixpoint lookups (p : prog V) : nat :=
  match p with Done _ => 0 | Ask q k => S (lookups (k (Ok (owner q)))) end.

(** the steps of a lookup that are done *)
Definition passed (w : where_) : nat :=
  match w with
  | Outside => 0 | Entered => 1 | Missing => 2 | Fetched _ => 3 | Stored _ _ => 4 | Leaving _ => 5
  end.

Definition ahead (th : thread) : nat := 6 * lookups th.2 - passed th.1.
Definition total (S : System) : nat := ahead (background S) + ahead (foreground S).

Lemma thread_step_ahead i sh th sh' th' v :
  tstep i sh th sh' th' -> sound i sh th v -> ahead th' < ahead th.
Proof using Type.
  intros Hst Hs. unfold ahead. destruct Hst; cbn [fst snd lookups passed]; try lia.
  apply sound_inside in Hs as (_ & [_ ->] & _); [|done]. lia.
Qed.

Lemma step_total v1 v2 S S' : sstep S S' -> system_ok v1 v2 S -> total S' < total S.
Proof using Type.
  intros Hst [H1 H2 _]. unfold total.
  destruct Hst as [sh sh' b b' f Hst|sh sh' b f f' Hst]; cbn [shared background foreground] in *;
    [pose proof (thread_step_ahead _ _ _ _ _ _ Hst H1)|pose proof (thread_step_ahead _ _ _ _ _ _ Hst H2)]; lia.
Qed.

Lemma steps_total v1 v2 n S S' : nsteps sstep n S S' -> system_ok v1 v2 S -> n + total S' <= total S.
Proof using Husers Hgroups.
  induction 1 as [S|n S S1 S' Hst _ IH]; intros HS; [lia|].
  pose proof (step_total _ _ _ _ Hst HS). specialize (IH (step_ok _ _ _ _ Hst HS)). lia.
Qed.
End interleavings.

(** ** The two scans *)

Section scans.
Context (sha1 : string -> string) (lstat : path -> option Stat) (read_symlink : path -> outcome string).
Context (getpwuid getgrgid : N -> db_result string) (getpwnam getgrnam : string -> db_result N).
Context (Husers : db_bijective getpwuid getpwnam) (Hgroups : db_bijective getgrgid getgrnam).
Context (listing : gset string -> list string) (absolute : path -> path) (fs : FS).
Context (Hsys : system_shows lstat read_symlink getpwuid getgrgid fs).

(** the program of a thread that scans the directory [dir] *)
Definition scanning (dir : path) (o : ScanOpt) : prog (outcome unit * DirectoryTree) :=
  scan_directory lstat read_symlink (hashFile sha1 fs) listing absolute fs dir o emptyTree.

(** both threads, the source directory scanned in the background *)
Definition scans (c : Owners) (buf : string) (src dst : path) (o : ScanOpt) : System :=
  launched c buf (scanning src o) (scanning dst o).

Lemma scans_ok c buf src dst o :
  owners_ok getpwuid getgrgid c ->
  system_ok getpwuid getgrgid (scanDirectory sha1 listing absolute fs src o emptyTree)
    (scanDirectory sha1 listing absolute fs dst o emptyTree) (scans c buf src dst o).
Proof using Hsys.
  intros Hc. unfold scans, scanning.
  rewrite <-!(scan_directory_ok sha1 lstat read_symlink getpwuid getgrgid listing absolute fs Hsys).
  by apply launched_ok.
Qed.

Lemma joined src dst o v1 v2 :
  v1 = scanDirectory sha1 listing absolute fs src o emptyTree ->
  v2 = scanDirectory sha1 listing absolute fs dst o emptyTree ->
  join_scans v1 v2 = scanSourceTargetDir sha1 listing absolute fs src dst true o.
Proof using Type. intros -> ->. unfold scanSourceTargetDir. by do 2 destruct (scanDirectory _ _ _ _ _ _ _). Qed.

Lemma scans_bounded c buf src dst o n S :
  owners_ok getpwuid getgrgid c -> nsteps (step getpwuid getgrgid) n (scans c buf src dst o) S ->
  n <= 6 * (lookups getpwuid getgrgid (scanning src o) + lookups getpwuid getgrgid (scanning dst o)).
Proof using Husers Hgroups Hsys.
  intros Hc Hn. pose proof (steps_total _ _ _ _ Husers Hgroups _ _ _ _ _ Hn (scans_ok c buf src dst o Hc)) as H.
  unfold total, ahead in H. cbn [scans launched background foreground fst snd passed] in H. lia.
Qed.

Lemma scans_proceed c buf src dst o S :
  owners_ok getpwuid getgrgid c -> rtc (step getpwuid getgrgid) (scans c buf src dst o) S ->
  (exists S', step getpwuid getgrgid S S') \/
  exists v1 v2, finished S v1 v2 /\ owners_ok getpwuid getgrgid (owners (shared S)) /\
    v1 = scanDirectory sha1 listing absolute fs src o emptyTree /\
    v2 = scanDirectory sha1 listing absolute fs dst o emptyTree /\
    join_scans v1 v2 = scanSourceTargetDir sha1 listing absolute fs src dst true o.
Proof using Husers Hgroups Hsys.
  intros Hc Hr. pose proof (reachable_ok _ _ _ _ Husers Hgroups _ _ _ _ Hr (scans_ok c buf src dst o Hc)) as HS.
  destruct (system_steps _ _ _ _ _ HS) as [Hf|]; [right|by left]. eexists _, _. split; [exact Hf|].
  split; [by apply HS, Hf|]. split; [done|]. split; [done|by apply joined].
Qed.
End scans.
