(* ===== verification/BackupSpec.v ===== *)
(** * What a backup does to the map of entries

    Every difference is settled by taking over a whole subtree of the source or
    by taking over the metadata of one entry. The regions that this changes do
    not overlap, which gives the entries after a backup, and the differences
    that are left. *)

From S2P Require Import Prelude CxxPath CxxTime CxxStream Element Node Tree TreeInv TreeOps TreeCopy Diff DiffSpec Diff3Spec FileSystem TreeFs SyncOps Backup.

(** the entry [y] with the permissions, owner and time of [x] *)
Definition dressed (x y : FilesystemElement) : FilesystemElement :=
  mkElem (ty y) (per x) (us x) (gs x) (mt x) (sz y) (fileHash y) (rp y) (symlink y) (hardLinkCnt y).

Section maps.
Context (ms : gmap path FilesystemElement).

(** the source at and below [p], the map elsewhere *)
Definition swap (p : path) (m : gmap path FilesystemElement) : gmap path FilesystemElement :=
  subtree p ms ∪ prune p m.

Lemma subtree_lookup p (m : gmap path FilesystemElement) q :
  subtree p m !! q = if decide (within p q) then m !! q else None.
Proof.
  unfold subtree. rewrite map_lookup_filter. destruct (m !! q); cbn; [|by case_decide].
  case_decide; [by rewrite option_guard_True|by rewrite option_guard_False].
Qed.

Lemma swap_lookup p m q : swap p m !! q = if decide (within p q) then ms !! q else m !! q.
Proof.
  unfold swap. rewrite lookup_union, subtree_lookup, prune_lookup. case_decide.
  - by destruct (ms !! q).
  - by destruct (m !! q).
Qed.

(** is a difference settled by taking over the subtree *)
Definition whole (x y : option FilesystemElement) : bool :=
  match x, y with
  | Some x, Some y => negb (compare x y (content_opt x y))
  | _, _ => true
  end.

Context (m0 : gmap path FilesystemElement).

Abbreviation wholly p := (whole (ms !! p) (m0 !! p)).

Definition settle (m : gmap path FilesystemElement) (p : path) : gmap path FilesystemElement :=
  match ms !! p, m0 !! p with
  | Some x, Some y => if compare x y (content_opt x y) then <[p := dressed x y]> m else swap p m
  | _, _ => swap p m
  end.

Lemma settle_whole m p : wholly p = true -> settle m p = swap p m.
Proof.
  unfold whole, settle. destruct (ms !! p), (m0 !! p); try done.
  intros H%negb_true_iff. by rewrite H.
Qed.

Lemma settle_part m p : wholly p = false ->
  exists x y, ms !! p = Some x /\ m0 !! p = Some y /\ compare x y (content_opt x y) = true /\
    settle m p = <[p := dressed x y]> m.
Proof.
  unfold whole, settle. destruct (ms !! p) as [x|], (m0 !! p) as [y|]; try done.
  intros H%negb_false_iff. rewrite H. eauto 10.
Qed.

(** nothing else is settled below an entry that is taken over wholly *)
Definition independent (L : list path) : Prop :=
  forall p q, p ∈ L -> q ∈ L -> wholly p = true -> within p q -> p = q.

Lemma settled_lookup L m q :
  independent L ->
  foldl settle m L !! q =
  if decide (Exists (fun p => wholly p = true /\ within p q) L) then ms !! q
  else if decide (q ∈ L) then
    match ms !! q, m0 !! q with Some x, Some y => Some (dressed x y) | _, _ => None end
  else m !! q.
Proof.
  revert m. induction L as [|p L IH]; intros m Hind.
  { rewrite decide_False by (intros H; inversion H). by rewrite decide_False by apply not_elem_of_nil. }
  cbn [foldl]. rewrite IH by (intros a b Ha Hb; apply Hind; by apply list_elem_of_further).
  destruct (decide (Exists (fun p => wholly p = true /\ within p q) L)) as [HE|HE].
  { rewrite decide_True; [done|]. by apply Exists_cons_tl. }
  destruct (wholly p) eqn:Hp.
  - rewrite settle_whole, swap_lookup by done. destruct (decide (within p q)) as [Hw|Hw].
    + rewrite (decide_True (P := Exists _ (p :: L))) by (by apply Exists_cons_hd).
      case_decide as Hq; [|done]. exfalso. apply HE. apply Exists_exists. exists q. split; [done|].
      rewrite <-(Hind p q) in * by (done || apply list_elem_of_here || by apply list_elem_of_further). auto.
    + rewrite (decide_False (P := Exists _ (p :: L))).
      2:{ intros [[_ ?]|?]%Exists_cons; done. }
      destruct (decide (q ∈ L)) as [Hq|Hq].
      * by rewrite decide_True by (by apply list_elem_of_further).
      * rewrite decide_False; [done|]. intros [->|?]%elem_of_cons; [|done]. by apply Hw, within_refl.
  - destruct (settle_part m p Hp) as (x & y & Hx & Hy & _ & ->).
    rewrite (decide_False (P := Exists _ (p :: L))).
    2:{ intros [[? _]|?]%Exists_cons; congruence. }
    destruct (decide (q = p)) as [->|Hne].
    + rewrite (decide_True (P := p ∈ p :: L)) by apply list_elem_of_here. rewrite Hx, Hy.
      case_decide; [done|]. by rewrite lookup_insert_eq.
    + rewrite lookup_insert_ne by done. destruct (decide (q ∈ L)) as [Hq|Hq].
      * by rewrite decide_True by (by apply list_elem_of_further).
      * rewrite decide_False; [done|]. by intros [?|?]%elem_of_cons.
Qed.
End maps.

(** ** The differences that are left *)

Lemma compare_dressed x y o :
  compare x y (mkOpt false false o true true true) = true -> compare x (dressed x y) all_opts = true.
Proof. rewrite !compare_spec. cbn. unfold hashes_agree. cbn. naive_solver. Qed.

Lemma dressed_dir x y : isDirectory (dressed x y) = isDirectory y.
Proof. done. Qed.

Lemma differ_refl o x : differ o x x = false.
Proof. destruct x; [|done]. cbn. by rewrite compare_refl. Qed.

Section left_over.
Context (s t t' : DirectoryTree) (Hs : tree_inv s) (Ht : tree_inv t) (Ht' : tree_inv t').

Abbreviation ms := (model s).
Abbreviation m := (model t).

(** directories of both trees never differ in content *)
Definition plain_dirs : Prop :=
  forall q x y, ms !! q = Some x -> m !! q = Some y -> isDirectory x = true -> isDirectory y = true ->
    compare x y (content_opt x y) = true.

(** the paths at which the trees differ, as [diff2] finds them *)
Definition different (q : path) : Prop :=
  (is_Some (ms !! q) \/ is_Some (m !! q)) /\ seen2 ms m q = true /\
  differ all_opts (ms !! q) (m !! q) = true.

Lemma different_good q : different q -> good_path q = true.
Proof using Hs Ht. intros [[H|H] _]; [by apply (inv_good_path s Hs)|by apply (inv_good_path t Ht)]. Qed.

Lemma dirs_not_whole p :
  plain_dirs -> p <> "" -> is_dir_at ms p = true -> is_dir_at m p = true -> whole (ms !! p) (m !! p) = false.
Proof.
  intros Hpl Hp%str_empty_false. unfold is_dir_at. rewrite Hp. cbn [orb].
  destruct (ms !! p) as [x|] eqn:Hx, (m !! p) as [y|] eqn:Hy; try done.
  intros Hdx Hdy. cbn. by rewrite (Hpl p x y).
Qed.

Lemma different_independent P : plain_dirs -> (forall q, q ∈ P -> different q) -> independent ms m P.
Proof using Hs Ht.
  intros Hpl HP p q Hp Hq Hw Hin. destruct (decide (p = q)) as [|Hne]; [done|]. exfalso.
  pose proof (different_good q (HP q Hq)) as Hgq. pose proof (different_good p (HP p Hp)) as Hgp.
  destruct (HP q Hq) as (_ & Hseen & _). unfold seen2 in Hseen. apply andb_true_iff in Hseen as [Hds Hdt].
  assert (Hpar : within p (parent_path q)) by (by apply (below_parent p q Hgq)).
  rewrite dirs_not_whole in Hw; [done|done|by apply good_path_nonempty| |].
  - by apply (dir_above s p (parent_path q)).
  - by apply (dir_above t p (parent_path q)).
Qed.

Context (K L : list path).
Context (Hplain : plain_dirs) (Hnd : NoDup (K ++ L)) (Hdiff : forall q, q ∈ K ++ L <-> different q).
Context (Hm' : model t' = foldl (settle ms m) m L).

Lemma left_independent : independent ms m (K ++ L).
Proof using Hs Ht Hplain Hdiff. apply different_independent; [done|]. intros q. apply Hdiff. Qed.

Lemma left_lookup q :
  model t' !! q =
  if decide (Exists (fun p => whole (ms !! p) (m !! p) = true /\ within p q) L) then ms !! q
  else if decide (q ∈ L) then
    match ms !! q, m !! q with Some x, Some y => Some (dressed x y) | _, _ => None end
  else m !! q.
Proof using Hs Ht Hplain Hdiff Hm'.
  rewrite Hm'. apply settled_lookup. intros p q' Hp Hq. apply left_independent; apply elem_of_app; by right.
Qed.

Lemma part_not_whole q :
  q ∈ L -> ~ Exists (fun p => whole (ms !! p) (m !! p) = true /\ within p q) L ->
  exists x y, ms !! q = Some x /\ m !! q = Some y /\ compare x y (content_opt x y) = true.
Proof.
  intros Hq HE. destruct (whole (ms !! q) (m !! q)) eqn:Hw.
  - destruct HE. apply Exists_exists. eauto using within_refl.
  - destruct (settle_part ms m m q Hw) as (x & y & ? & ? & ? & _). eauto.
Qed.

(** directories that are not taken over stay directories *)
Lemma left_dirs r :
  ~ Exists (fun p => whole (ms !! p) (m !! p) = true /\ within p r) L ->
  is_dir_at (model t') r = is_dir_at m r.
Proof using Hs Ht Hplain Hdiff Hm'.
  intros HE. unfold is_dir_at. f_equal. rewrite left_lookup, decide_False by done.
  case_decide as Hr; [|done]. destruct (part_not_whole r Hr HE) as (x & y & -> & -> & _). done.
Qed.

Lemma kept_not_taken q : q ∈ K -> ~ Exists (fun p => whole (ms !! p) (m !! p) = true /\ within p q) L /\ q ∉ L.
Proof using Hs Ht Hplain Hdiff Hnd.
  intros Hq. apply NoDup_app in Hnd as (_ & Hkl & _). split; [|by apply Hkl].
  intros (p & Hp & Hw & Hin)%Exists_exists. apply (Hkl q Hq).
  rewrite <-(left_independent p q); [done|apply elem_of_app; by right|apply elem_of_app; by left|done|done].
Qed.

Lemma taken_above p q : within p (parent_path q) -> good_path q = true -> within p q.
Proof. intros Hw Hg. by apply (below_parent p q Hg) in Hw as [? _]. Qed.

Lemma left_members q :
  q ∈ List.filter (fun q => seen2 ms (model t') q && differ all_opts (ms !! q) (model t' !! q))
        (elements (dom ms ∪ dom (model t'))) <-> q ∈ K.
Proof using Hs Ht Ht' Hplain Hdiff Hm' Hnd.
  rewrite elem_of_filter_bool, elem_of_elements, elem_of_union, !elem_of_dom, andb_true_iff.
  assert (Hpar : good_path q = true ->
    ~ Exists (fun p => whole (ms !! p) (m !! p) = true /\ within p q) L ->
    is_dir_at (model t') (parent_path q) = is_dir_at m (parent_path q)).
  { intros Hg HE. apply left_dirs. intros Hx. apply HE. apply (Exists_impl _ _ _ Hx).
    intros p [? ?]. split; [done|]. by apply taken_above. }
  split.
  - intros (Hsome & Hseen & Hd). rewrite left_lookup in Hd, Hsome.
    destruct (decide (Exists _ L)) as [|HE]; [by rewrite differ_refl in Hd|].
    destruct (decide (q ∈ L)) as [Hq|Hq].
    + destruct (part_not_whole q Hq HE) as (x & y & Hx & Hy & Hc). rewrite Hx, Hy in Hd. cbn [differ] in Hd.
      unfold content_opt in Hc. by rewrite (compare_dressed x y _ Hc) in Hd.
    + assert (Hdq : different q).
      { split; [done|]. split; [|done]. unfold seen2 in *. rewrite <-Hpar; [done| |done].
        destruct Hsome; [by apply (inv_good_path s Hs)|by apply (inv_good_path t Ht)]. }
      apply Hdiff, elem_of_app in Hdq as [|]; done.
  - intros Hq. destruct (kept_not_taken q Hq) as [HE Hn].
    assert (Hdq : different q) by (apply Hdiff, elem_of_app; by left).
    pose proof (different_good q Hdq) as Hg. destruct Hdq as (Hsome & Hseen & Hd).
    rewrite left_lookup, decide_False, decide_False by done. unfold seen2 in *. by rewrite Hpar.
Qed.

Lemma left_differences : reference2 ms (model t') all_opts ≡ₚ (fun q => (ms !! q, m !! q)) <$> K.
Proof using Hs Ht Ht' Hplain Hdiff Hm' Hnd.
  unfold reference2. transitivity ((fun q => (ms !! q, model t' !! q)) <$> K).
  - apply fmap_Permutation, NoDup_Permutation.
    + apply NoDup_filter_bool, NoDup_elements.
    + by apply NoDup_app in Hnd as [? _].
    + apply left_members.
  - assert (E : (fun q => (ms !! q, model t' !! q)) <$> K = (fun q => (ms !! q, m !! q)) <$> K); [|by rewrite E].
    apply list_fmap_ext. intros i q Hq%list_elem_of_lookup_2. destruct (kept_not_taken q Hq) as [HE Hn].
    by rewrite left_lookup, decide_False, decide_False.
Qed.
End left_over.
