(* ===== verification/BackupRun.v ===== *)
(** * Running a backup

    [backupImpl] keeps the backup tree in step with its directory, and leaves
    exactly the differences that it skips: those that look like bit rot in the
    source, and those where the backup is newer and the user declines. *)

From S2P Require Import Prelude CxxPath CxxTime CxxStream Element Node Tree TreeInv TreeOps TreeCopy TreeIO TreeLoad Diff DiffSpec Diff3Spec FileSystem FsSpec TreeFs ScanSpec FsData SyncSpec SyncOps SyncCopy Backup BackupSpec.

(** ** Answers *)

(** the answers in an input *)
Fixpoint answers (s : string) : list bool :=
  match s with
  | "" => []
  | String c rest =>
      if bool_decide (tolower c = "y"%char) then true :: answers rest
      else if bool_decide (tolower c = "n"%char) then false :: answers rest
      else answers rest
  end.

Lemma read_answer_spec s :
  match answers s with
  | [] => read_answer s = None
  | b :: l => exists rest, read_answer s = Some (b, rest) /\ answers rest = l
  end.
Proof.
  induction s as [|c s IH]; [done|]. cbn [answers read_answer].
  case_bool_decide; [eauto|]. case_bool_decide; [eauto|]. done.
Qed.

(** ** Agreement of maps *)

Lemma agree_swap ms p m m' o : agree o m m' -> agree o (swap ms p m) (swap ms p m').
Proof.
  intros H q. rewrite !swap_lookup. case_decide; [apply differ_refl|apply H].
Qed.

Lemma agree_alter f p m m' o :
  (forall e e', compare e e' o = true -> compare (f e) (f e') o = true) ->
  agree o m m' -> agree o (alter f p m) (alter f p m').
Proof.
  intros Hf H q. specialize (H q). rewrite !lookup_alter. case_decide as E; [subst q|done].
  destruct (m !! p), (m' !! p); cbn in *; try done. apply negb_false_iff in H. by rewrite Hf.
Qed.

Lemma agree_present o m m' p : agree o m m' -> is_Some (m !! p) <-> is_Some (m' !! p).
Proof.
  intros H. specialize (H p). destruct (m !! p), (m' !! p); cbn in H; try done; split; eauto.
Qed.

(** a property of elements that allows to exchange permissions, owner and time *)
Definition mixable (Q : FilesystemElement -> Prop) : Prop :=
  forall x y, Q x -> Q y ->
    Q (setPermissions (per x) y) /\ Q (setGroup (gs x) (setUser (us x) y)) /\ Q (setMtime (mt x) y).

Lemma every_swap (Q : FilesystemElement -> Prop) ms p m : every Q ms -> every Q m -> every Q (swap ms p m).
Proof. intros Hs Hm q e. rewrite swap_lookup. case_decide; [apply Hs|apply Hm]. Qed.

(** [Q] is a property of all elements, [srt] says if there is a metadata tree
    that is sorted, and [J] which hashes it may have besides those of the files *)
Section run.
Context (sha1 : string -> string) (st top : path) (s : DirectoryTree) (Q : FilesystemElement -> Prop) (srt : Prop).
Context (J : path -> string -> string -> Prop).
Context (R : Rights) (Hapart : apart st top) (Hsup : map_Forall (fun _ e => supported R e) (model s)).
Context (HQ : mixable Q) (HQs : every Q (model s)).

Abbreviation ms := (model s).

(** every hash is that of the file at its path, or is known otherwise *)
Definition accounted (m : gmap path FilesystemElement) (fs : FS) : Prop :=
  forall q e i, m !! q = Some e -> ty e = regular -> fileHash e <> "" ->
    inodes fs !! (locate top ++ comps q) = Some i -> fileHash e = sha1 (i_data i) \/ J q (fileHash e) (i_data i).

(** source, backup and metadata while a backup runs *)
Record working (d : Desk) : Prop := {
  k_src : bound sha1 st s (files d);
  k_dst : bound sha1 top (dst d) (files d);
  k_rights : rights (files d) = R;
  k_every : every Q (model (dst d));
  k_some : srt -> is_Some (meta d);
  k_meta : forall mtree, meta d = Some mtree ->
    tree_inv mtree /\ agree all_opts (model (dst d)) (model mtree) /\ every Q (model mtree) /\
    (srt -> tree_sorted mtree) /\ accounted (model mtree) (files d) }.

Lemma working_step d : working d -> fs_step top (files d) (files d).
Proof. intros [_ [] _ _ _ _]. by apply fs_step_refl. Qed.

(** a step of the backup that changes tree, directory and metadata alike *)
Definition advances (m : desk_method unit) (d : Desk) (F : gmap path FilesystemElement -> gmap path FilesystemElement)
    : Prop :=
  exists d', m d = (Ok tt, d') /\ working d' /\ model (dst d') = F (model (dst d)) /\ input d' = input d /\
    fs_step top (files d) (files d').

(** [F] takes over entries of the paths [D] with their hashes, and sets the others *)
Definition local_to (D : path -> Prop) (F : gmap path FilesystemElement -> gmap path FilesystemElement) : Prop :=
  forall m q e, F m !! q = Some e ->
    (D q /\ exists e0, m !! q = Some e0 /\ ty e = ty e0 /\ fileHash e = fileHash e0) \/ forall m', F m' !! q = Some e.

Definition places_of (D : path -> Prop) (l : location) : Prop := exists q, l = locate top ++ comps q /\ D q.

Lemma accounted_next D F t t' m fs fs' :
  bound sha1 top t fs -> agree all_opts (model t) m -> bound sha1 top t' fs' -> model t' = F (model t) ->
  content_kept (places_of D) fs fs' -> local_to D F -> accounted m fs -> accounted (F m) fs'.
Proof.
  intros [It _ _ _ Hs] Hag [It' _ _ _ Hs'] Hm Hk HF Ha q e i He Hr Hh Hi.
  destruct (HF m q e He) as [(HD & e0 & He0 & Ht & Eh)|Hall].
  - destruct (proj2 (agree_present _ _ _ q Hag) ltac:(eauto)) as [e1 He1].
    destruct (in_sync_inode sha1 top t fs q e1 Hs He1) as (i0 & Hi0 & _);
      [eapply good_path_nonempty, (inv_good_path t It); eauto|].
    destruct (Hk _ i0 ltac:(by exists q) Hi0) as (i' & Hi' & _ & Ed & _). rewrite Hi in Hi'. injection Hi' as <-.
    rewrite Ed, Eh. apply (Ha q e0 i0); congruence.
  - left. specialize (Hall (model t)). rewrite <-Hm in Hall.
    destruct (in_sync_inode sha1 top t' fs' q e Hs' Hall) as (i' & Hi' & _ & _ & _ & _ & _ & Hreg & _);
      [eapply good_path_nonempty, (inv_good_path t' It'); eauto|].
    rewrite Hi in Hi'. injection Hi' as <-. by destruct (Hreg Hr) as [_ [?|?]].
Qed.

Lemma alter_local f p : (forall e, ty (f e) = ty e /\ fileHash (f e) = fileHash e) -> local_to (fun _ => True) (alter f p).
Proof.
  intros Hf m q e. rewrite lookup_alter. case_decide as E; [subst q|]; [|intros He; left; eauto].
  destruct (m !! p) as [e0|]; cbn; [|done]. intros [= <-]. left. split; [done|]. exists e0. by destruct (Hf e0).
Qed.

Lemma swap_local p : local_to (fun q => ~ within p q) (swap ms p).
Proof.
  intros m q e. rewrite swap_lookup. destruct (decide (within p q)) as [Hw|Hw]; intros He; [right|left; eauto].
  intros m'. by rewrite swap_lookup, decide_True.
Qed.

Lemma paired {A} D d (opd : world_method A) opm F a :
  working d ->
  stepped sha1 top (dst d, files d) (opd (dst d, files d)) a (F (model (dst d))) ->
  (forall mtree, meta d = Some mtree ->
     exists t', opm mtree = (Ok tt, t') /\ tree_inv t' /\ model t' = F (model mtree) /\
       (tree_sorted mtree -> tree_sorted t')) ->
  (forall m : gmap path FilesystemElement, every Q m -> every Q (F m)) ->
  (forall m', agree all_opts (model (dst d)) m' -> agree all_opts (F (model (dst d))) (F m')) ->
  content_kept (places_of D) (files d) (opd (dst d, files d)).2.2 -> local_to D F ->
  advances (_ ← on_dst opd; on_meta opm) d F.
Proof using Hapart.
  intros [Hs Hd Hc Hev Hso Hm] (t' & fs' & E & Hb & Hst & Hmod) Hopm HFQ HF Hk Hloc. cbn [snd] in Hst.
  rewrite E in Hk. cbn [snd] in Hk.
  unfold advances, mbind, method_bind, on_dst, on_meta. rewrite E. cbn [meta dst files input].
  assert (Hs' : bound sha1 st s fs') by (by eapply bound_elsewhere).
  assert (Hc' : rights fs' = R) by (by destruct Hst as [_ _ -> _]).
  destruct (meta d) as [mtree|] eqn:Em.
  - destruct (Hopm mtree eq_refl) as (mt' & -> & Hinv & Hmm & Hsd). destruct (Hm mtree eq_refl) as (? & ? & ? & ? & ?).
    eexists. split; [done|]. split; [|done]. split; [done..|cbn; rewrite Hmod; by apply HFQ|by eauto|].
    cbn. intros ? [= <-]. split; [done|]. rewrite Hmod, Hmm. split; [by apply HF|]. split; [by apply HFQ|]. split; [auto|].
    by apply (accounted_next D F (dst d) t' _ (files d)).
  - eexists. split; [done|]. split; [|done]. split; [done..|cbn; rewrite Hmod; by apply HFQ|done|done].
Qed.

(** ** Updating metadata *)

(** an attribute of the entry at [p], in the backup and in the metadata tree *)
Lemma piece d p e (c : bool) opd op where_ f `{!Attribute op where_ f} `{Hsp : !Spares (places_of (fun _ => True)) opd} :
  working d -> model (dst d) !! p = Some e ->
  (c = true -> stepped sha1 top (dst d, files d) (opd (dst d, files d)) tt (alter f p (model (dst d)))) ->
  (c = false -> f e = e) -> (forall e, Q e -> Q (f e)) ->
  advances (when c (_ ← on_dst opd; on_meta (op p))) d (alter f p).
Proof using Hapart.
  intros Hw He Hopd Hid HfQ. destruct c; cbn [when].
  - eapply (paired (fun _ => True) d opd (op p) (alter f p) tt); [done|by apply Hopd| | | |exact (Hsp (dst d, files d))|apply alter_local, attr_hash].
    + intros mtree Em. destruct (k_meta d Hw mtree Em) as (Hinv & Hag & _).
      pose proof (attribute_spec op where_ f mtree p Hinv) as H.
      destruct (proj1 (agree_present _ _ _ p Hag) ltac:(eauto)) as [e' He']. rewrite He' in H.
      destruct H as (t' & ? & ? & ? & ? & _). by exists t'.
    + intros m. by apply every_alter.
    + intros m' Hm'. apply agree_alter; [|done]. apply attr_compare.
  - exists d. split; [done|]. split; [done|]. split; [|split; [done|by apply working_step]].
    symmetry. apply alter_id.
    intros e' He'. rewrite He in He'. injection He' as <-. auto.
Qed.

Lemma same_owner_spec x y : same_owner x y = true <-> us x = us y /\ gs x = gs y.
Proof. unfold same_owner. by rewrite andb_true_iff, !bool_decide_eq_true. Qed.

(** links have the same permissions everywhere *)
Lemma link_perm tp (t : DirectoryTree) fs q e :
  bound sha1 tp t fs -> model t !! q = Some e -> ty e = symlink_ -> per e = 511%Z.
Proof.
  intros [Ht _ Hwf _ Hs] He Hl.
  destruct (in_sync_inode sha1 tp t fs q e Hs He) as (i & Hi & Hd);
    [eapply good_path_nonempty, (inv_good_path t Ht); eauto|].
  pose proof (depicts_type sha1 e i Hd) as Hti. destruct Hd as (_ & -> & _).
  apply (proj2 (Hwf _ i Hi)). rewrite Hti; [done|]. by right; right.
Qed.

Lemma updateMetadata_ok d p x y :
  working d -> ms !! p = Some x -> model (dst d) !! p = Some y -> rp x = p ->
  compare x y (content_opt x y) = true -> advances (updateMetadata x y) d <[p := dressed x y]>.
Proof using Hapart Hsup HQ HQs.
  intros Hw Hx Hy Hrp Hc. apply compare_spec in Hc as (Hty & _). pose proof (HQs p x Hx) as Qx.
  destruct (piece d p y (negb (bool_decide (per x = per y)))
    (modifyPermissionsInTreeAndFilesystem p (per x)) (fun p => modifyPermissionsInTree p (per x)) _ _)
    as (d1 & E1 & Hw1 & Hm1 & Hi1 & Hst1); [done|done| | | |].
  { intros Hne%negb_true_iff%bool_decide_eq_false_1. eapply modifyPermissions_sync; [apply Hw|done|].
    intros Hl. apply Hne. rewrite (link_perm top (dst d) (files d) p y) by (done || apply Hw).
    apply (link_perm st s (files d) p); [apply Hw|done|congruence]. }
  { intros He%negb_false_iff%bool_decide_eq_true_1. rewrite He. by destruct y. }
  { intros e Qe. by apply HQ. }
  assert (Hy1 : model (dst d1) !! p = Some (setPermissions (per x) y)) by (by rewrite Hm1, lookup_alter_eq, Hy).
  destruct (piece d1 p _ (negb (same_owner x y))
    (modifyOwnerInTreeAndFilesystem p (us x) (gs x)) (fun p => modifyOwnerInTree p (us x) (gs x)) _ _ Hw1 Hy1) as (d2 & E2 & Hw2 & Hm2 & Hi2 & Hst2).
  { intros _. destruct (Hsup p x Hx) as (_ & Hown & Hk). eapply modifyOwner_sync; [apply Hw1| | |done].
    - rewrite (k_rights d1 Hw1). exact Hown.
    - cbn. by rewrite <-Hty. }
  { intros [Hu Hg]%negb_false_iff%same_owner_spec. rewrite Hu, Hg. by destruct y. }
  { intros e Qe. by apply HQ. }
  assert (Hy2 : model (dst d2) !! p = Some (setGroup (gs x) (setUser (us x) (setPermissions (per x) y))))
    by (by rewrite Hm2, lookup_alter_eq, Hy1).
  destruct (piece d2 p _ (negb (bool_decide (mt x = mt y)))
    (modifyMtimeInTreeAndFilesystem p (mt x)) (fun p => modifyMtimeInTree p (mt x)) _ _ Hw2 Hy2)
    as (d3 & E3 & Hw3 & Hm3 & Hi3 & Hst3).
  { intros _. eapply modifyMtime_sync; [apply Hw2|done]. }
  { intros He%negb_false_iff%bool_decide_eq_true_1. rewrite He. by destruct y. }
  { intros e Qe. by apply HQ. }
  exists d3. split_and!; [|done| |congruence|by eauto using fs_step_trans].
  - unfold updateMetadata. rewrite Hrp. unfold mbind at 1, method_bind at 1. rewrite E1.
    unfold mbind at 1, method_bind at 1. by rewrite E2.
  - apply map_eq. intros q. rewrite Hm3, Hm2, Hm1. destruct (decide (q = p)) as [->|Hne].
    + by rewrite !lookup_alter_eq, lookup_insert_eq, Hy.
    + by rewrite !lookup_alter_ne, lookup_insert_ne by congruence.
Qed.

(** ** Taking over a subtree *)

(** nothing is below a path that is not there *)
Lemma absent_below (t : DirectoryTree) p q :
  tree_inv t -> p <> "" -> model t !! p = None -> within p q -> model t !! q = None.
Proof.
  intros Ht Hp Hn Hw. apply eq_None_not_Some. intros Hq.
  destruct (model_ancestor t p q Ht Hq Hw Hp) as [e He]. congruence.
Qed.

Lemma swap_removed (t : DirectoryTree) p :
  tree_inv s -> p <> "" -> ms !! p = None -> prune p (model t) = swap ms p (model t).
Proof.
  intros Hs Hp Hn. apply map_eq. intros q. rewrite swap_lookup, prune_lookup. case_decide; [|done].
  symmetry. by apply (absent_below s p).
Qed.

Lemma swap_copied (t : DirectoryTree) p :
  tree_inv s -> tree_inv t -> good_path p = true -> model t !! p = None ->
  graft (parent_path p) (parent_path p) p ms ∪ model t = swap ms p (model t).
Proof.
  intros Hs Ht Hg Hn. rewrite graft_same; [|by auto| |].
  - unfold swap. f_equal. apply map_eq. intros q. rewrite prune_lookup. case_decide; [|done].
    apply (absent_below t p); [done|by apply good_path_nonempty|done|done].
  - intros k e Hk. split; [apply (inv_good_path s Hs); eauto|].
    by destruct (inv_model s Hs k e Hk) as (_ & _ & _ & _ & ?).
  - rewrite (comps_parent p Hg). by apply prefix_app_r.
Qed.

(** a copy to the same place is possible below a common directory *)
Lemma can_copy_here (t : DirectoryTree) p x :
  ms !! p = Some x -> good_path p = true -> is_dir_at (model t) (parent_path p) = true -> model t !! p = None ->
  can_copy s t p (parent_path p).
Proof.
  intros Hx Hg Hd Hn. split; [by eauto|]. rewrite parent_filename by done. split; [|done].
  revert Hd. unfold is_dir_at. destruct (str_empty (parent_path p)) eqn:Hp; [left; by apply str_empty_true|].
  cbn [orb]. destruct (model t !! parent_path p) as [de|]; [|done]. right. eauto.
Qed.

Lemma removed_meta t p :
  tree_inv t -> is_Some (model t !! p) ->
  exists t', removeFromTree p t = (Ok tt, t') /\ tree_inv t' /\ model t' = prune p (model t) /\
    (tree_sorted t -> tree_sorted t').
Proof.
  intros Ht [e He]. pose proof (removeFromTree_spec t p Ht) as H. rewrite He in H.
  destruct H as (t' & E & Hinv & Hm & Hso & _). eauto.
Qed.

Lemma copied_meta t p x :
  tree_inv s -> tree_inv t -> ms !! p = Some x -> good_path p = true ->
  is_dir_at (model t) (parent_path p) = true -> model t !! p = None ->
  exists t', copyFromTree s p (parent_path p) t = (Ok tt, t') /\ tree_inv t' /\
    model t' = swap ms p (model t) /\ (tree_sorted t -> tree_sorted t').
Proof.
  intros Hs Ht Hx Hg Hd Hn.
  destruct (copyFromTree_spec s t p (parent_path p) Hs Ht) as (t' & E & Hinv & Hm & Hso & _);
    [by eapply can_copy_here|]. exists t'. split; [done|]. split; [done|]. split; [by rewrite Hm, swap_copied|done].
Qed.

Lemma agree_dir (m m' : gmap path FilesystemElement) p :
  agree all_opts m m' -> is_dir_at m p = is_dir_at m' p.
Proof. intros H. eapply is_dir_at_agree, H. Qed.

(** files that are not below [p] stay when [p] is removed *)
Lemma remove_elsewhere d p :
  working d -> good_path p = true ->
  content_kept (places_of (fun q => ~ within p q)) (files d) (removeFromTreeAndFilesystem p (dst d, files d)).2.2.
Proof using Type.
  intros [_ [Ht Htop _ _ _] _ _ _ _] Hg. eapply remove_kept; [done|].
  intros l (q & -> & Hw). rewrite locate_entry by (by apply good_path_dir). by rewrite loc_within.
Qed.

Lemma removeLine_ok d p y :
  working d -> ms !! p = None -> model (dst d) !! p = Some y ->
  advances (_ ← on_dst (removeFromTreeAndFilesystem p); on_meta (removeFromTree p)) d (swap ms p).
Proof using Hapart HQs.
  intros Hw Hx Hy. pose proof Hw as [[Hs _ _ _ _] Hd _ _ _ Hm]. pose proof Hd as [Ht _ _ _ _].
  assert (Hg : good_path p = true) by (apply (inv_good_path _ Ht); eauto).
  pose proof (good_path_nonempty p Hg) as Hp.
  eapply (paired (fun q => ~ within p q)); [done| | | | | |apply swap_local].
  - rewrite <-(swap_removed (dst d) p Hs Hp Hx). by eapply removeFromTree_sync.
  - intros mtree Em. destruct (Hm mtree Em) as (Hinv & Hag & _).
    rewrite <-(swap_removed mtree p Hs Hp Hx). destruct (removed_meta mtree p Hinv) as (m' & ? & ? & ? & ?);
      [apply (agree_present _ _ _ _ Hag); eauto|by exists m'].
  - intros m. by apply every_swap.
  - intros m' Hm'. by apply agree_swap.
  - by apply remove_elsewhere.
Qed.

Lemma copyLine_ok d p x :
  working d -> ms !! p = Some x -> model (dst d) !! p = None ->
  is_dir_at (model (dst d)) (parent_path p) = true ->
  advances (_ ← on_dst (copyFromTreeAndFilesystem s p (parent_path p));
            on_meta (copyFromTree s p (parent_path p))) d (swap ms p).
Proof using Hapart Hsup HQ HQs.
  intros Hw Hx Hy Hdir. pose proof Hw as [Hsb Hd Hc _ _ Hm]. pose proof Hd as [Ht _ _ _ _].
  pose proof Hsb as [Hs _ _ _ _].
  assert (Hg : good_path p = true) by (apply (inv_good_path s Hs); eauto).
  eapply (paired (fun q => ~ within p q)); [done| | | | |exact (spares_copy _ s p (parent_path p) (dst d, files d))|apply swap_local].
  - rewrite <-(swap_copied (dst d) p Hs Ht Hg Hy).
    eapply copyFromTree_sync; [done|done|done|by eapply can_copy_here|].
    intros q e _ Hq. rewrite Hc. exact (Hsup q e Hq).
  - intros mtree Em. destruct (Hm mtree Em) as (Hinv & Hag & _).
    destruct (copied_meta mtree p x) as (m' & ? & ? & ? & ?); try done; [by rewrite <-(agree_dir _ _ _ Hag)| |by exists m'].
    apply eq_None_not_Some. rewrite <-(agree_present _ _ _ _ Hag), Hy. by intros [? ?].
  - intros m. by apply every_swap.
  - intros m' Hm'. by apply agree_swap.
Qed.

Lemma swap_pruned p m : swap ms p (prune p m) = swap ms p m.
Proof.
  apply map_eq. intros q. rewrite !swap_lookup, prune_lookup. by case_decide.
Qed.

Lemma parent_pruned m p : good_path p = true -> is_dir_at (prune p m) (parent_path p) = is_dir_at m (parent_path p).
Proof.
  intros Hg. unfold is_dir_at. rewrite prune_lookup, decide_False; [done|].
  intros Hw%(below_parent p p Hg). by destruct Hw.
Qed.

Lemma replaceEntry_eq p d :
  replaceEntry s p d =
  (_ ← on_dst (_ ← removeFromTreeAndFilesystem p; copyFromTreeAndFilesystem s p (parent_path p));
   on_meta (_ ← removeFromTree p; copyFromTree s p (parent_path p))) d.
Proof.
  unfold replaceEntry, on_dst, on_meta, mbind, method_bind. destruct d as [t m fs i]. cbn [dst files meta input].
  destruct (removeFromTreeAndFilesystem p (t, fs)) as [[a|err] [t1 fs1]]; cbn; [|done].
  destruct (copyFromTreeAndFilesystem s p (parent_path p) (t1, fs1)) as [[[]|err] [t2 fs2]]; cbn; [|done].
  destruct m as [mtree|]; cbn; [|done].
  destruct (removeFromTree p mtree) as [[[]|err] mt1]; cbn; [|done].
  by destruct (copyFromTree s p (parent_path p) mt1).
Qed.

Lemma replaceLine_ok d p x y :
  working d -> ms !! p = Some x -> model (dst d) !! p = Some y ->
  is_dir_at (model (dst d)) (parent_path p) = true -> advances (replaceEntry s p) d (swap ms p).
Proof using Hapart Hsup HQ HQs.
  intros Hw Hx Hy Hdir. pose proof Hw as [Hsb Hd Hc _ _ Hm]. pose proof Hsb as [Hs _ _ _ _].
  assert (Hg : good_path p = true) by (apply (inv_good_path s Hs); eauto).
  assert (Hgone : forall m : gmap path FilesystemElement, prune p m !! p = None)
    by (intros m; by rewrite prune_lookup, decide_True).
  unfold advances. rewrite (replaceEntry_eq p d).
  destruct (removeFromTree_sync sha1 top (dst d) (files d) p y Hd Hy) as (t1 & fs1 & E1 & Hb1 & Hst1 & Hm1).
  cbn [snd] in Hst1. eapply (paired (fun q => ~ within p q) d _ _ (swap ms p) tt); [done| | | | | |apply swap_local].
  - destruct (copyFromTree_sync sha1 st s top t1 fs1 p (parent_path p)) as (t2 & fs2 & E2 & Hb2 & Hst2 & Hm2).
    + by eapply bound_elsewhere.
    + done.
    + done.
    + eapply can_copy_here; [done|done|by rewrite Hm1, parent_pruned|by rewrite Hm1].
    + intros q e _ Hq. destruct Hst1 as [_ _ -> _]. rewrite Hc. exact (Hsup q e Hq).
    + exists t2, fs2. split_and!; [|done|by eapply fs_step_trans|].
      * unfold mbind, method_bind. rewrite E1. exact E2.
      * rewrite Hm2, swap_copied, Hm1; [apply swap_pruned|done|by destruct Hb1|done|by rewrite Hm1].
  - intros mtree Em. destruct (Hm mtree Em) as (Hinv & Hag & _).
    destruct (removed_meta mtree p Hinv) as (mt1 & Er & Hinv1 & Hmm1 & Hso1); [apply (agree_present _ _ _ _ Hag); eauto|].
    destruct (copied_meta mt1 p x) as (mt2 & Ec & Hinv2 & Hmm2 & Hso2); [done|done|done|done| |by rewrite Hmm1|].
    { by rewrite Hmm1, parent_pruned, <-(agree_dir _ _ _ Hag). }
    exists mt2. split; [unfold mbind, method_bind; by rewrite Er|]. split; [done|].
    split; [by rewrite Hmm2, Hmm1, swap_pruned|auto].
  - intros m. by apply every_swap.
  - intros m' Hm'. by apply agree_swap.
  - pose proof (remove_elsewhere d p Hw Hg) as Hk. rewrite E1 in Hk. unfold mbind, method_bind. rewrite E1.
    etrans; [exact Hk|]. exact (spares_copy _ s p (parent_path p) (t1, fs1)).
Qed.

(** ** One difference *)

(** the content differs although type, permissions, owner and time agree *)
Definition rotten (x y : option FilesystemElement) : bool :=
  match x, y with
  | Some x, Some y => negb (compare x y (content_opt x y)) && compare x y metadata_opt
  | _, _ => false
  end.

(** the content differs and the entry of the backup is newer *)
Definition newer (x y : option FilesystemElement) : bool :=
  match x, y with
  | Some x, Some y => negb (compare x y (content_opt x y)) && (mt x <? mt y)%Z
  | _, _ => false
  end.

Lemma settle_now m0 m p : m !! p = m0 !! p -> settle ms m0 m p = settle ms m m p.
Proof. intros E. unfold settle. by rewrite E. Qed.

Definition line_of_path (m : gmap path FilesystemElement) (p : path) : DirectoryDiffLine2 := (ms !! p, m !! p).

(** A difference that looks like bit rot is skipped; one with a newer entry in the
    backup is settled or skipped as the next answer says; all others are settled. *)
Lemma backupLine_ok d p :
  working d -> different s (dst d) p ->
  (newer (ms !! p) (model (dst d) !! p) = true -> answers (input d) <> []) ->
  let settled d' := model (dst d') = settle ms (model (dst d)) (model (dst d)) p in
  exists d', backupLine s (line_of_path (model (dst d)) p) d
      = (Ok (rotten (ms !! p) (model (dst d) !! p)), d') /\ working d' /\ fs_step top (files d) (files d') /\
    if rotten (ms !! p) (model (dst d) !! p) then d' = d
    else if newer (ms !! p) (model (dst d) !! p) then
      exists b rest, answers (input d) = b :: rest /\ answers (input d') = rest /\ if b : bool then settled d' else dst d' = dst d
    else settled d' /\ answers (input d') = answers (input d).
Proof using Hapart Hsup HQ HQs.
  intros Hw (Hsome & Hseen & Hdiff) Hans settled. unfold settled. apply andb_true_iff in Hseen as [_ Hdir].
  pose proof Hw as [[Hs _ _ _ _] [Ht _ _ _ _] _ _ _ _].
  unfold line_of_path, settle, rotten, newer. 
  destruct (ms !! p) as [x|] eqn:Hx, (model (dst d) !! p) as [y|] eqn:Hy; cbn [backupLine].
  - assert (Hrp : rp x = p) by (by destruct (inv_model s Hs p x Hx) as (_ & _ & _ & _ & ?)).
    destruct (compare x y (content_opt x y)) eqn:Hc; cbn [negb andb].
    + destruct (updateMetadata_ok d p x y Hw Hx Hy Hrp Hc) as (d' & E & Hw' & Hm & Hi & Hst).
      exists d'. unfold mbind at 1, method_bind at 1. by rewrite E, Hi, Hm.
    + destruct (compare x y metadata_opt) eqn:Hr; [exists d; split; [done|]; split; [done|]; split; [by apply working_step|]; done|].
      rewrite Hrp.
      assert (Hrep : forall d1, working d1 -> dst d1 = dst d -> advances (replaceEntry s p) d1 (swap ms p)).
      { intros d1 Hw1 E. apply (replaceLine_ok d1 p x y); by rewrite ?E. }
      destruct (mt x <? mt y)%Z eqn:Hmt.
      * pose proof (read_answer_spec (input d)) as Hra. destruct (answers (input d)) as [|b l]; [destruct Hans; [cbn; by rewrite Hc, Hmt|done]|].
        destruct Hra as (rest & Hra & Hrest).
        set (d1 := mkDesk (dst d) (meta d) (files d) rest).
        assert (Hw1 : working d1) by (destruct Hw; by split).
        assert (Eask : ask d = (Ok b, d1)) by (unfold ask, askYesNo; by rewrite Hra).
        unfold mbind at 1, method_bind at 1. rewrite Eask. destruct b.
        -- destruct (Hrep d1 Hw1 eq_refl) as (d' & E & Hw' & Hm & Hi & Hst). exists d'.
           unfold mbind at 1, method_bind at 1. cbn [when]. rewrite E. do 3 (split; [done|]).
           exists true, l. by rewrite Hi, Hm.
        -- exists d1. split; [done|]. split; [done|]. split; [by apply (working_step d)|]. by exists false, l.
      * destruct (Hrep d Hw eq_refl) as (d' & E & Hw' & Hm & Hi & Hst). exists d'.
        unfold mbind at 1, method_bind at 1. unfold mret, method_ret. cbn [when].
        unfold mbind at 1, method_bind at 1. by rewrite E, Hi, Hm.
  - assert (Hrp : rp x = p) by (by destruct (inv_model s Hs p x Hx) as (_ & _ & _ & _ & ?)). rewrite Hrp.
    destruct (copyLine_ok d p x Hw Hx Hy Hdir) as (d' & E & Hw' & Hm & Hi & Hst). exists d'. rewrite Hi, Hm.
    split; [|by auto]. revert E. unfold mbind, method_bind. intros E.
    destruct (on_dst _ d) as [[[]|err] d1]; [|done]. destruct (on_meta _ d1) as [[[]|err] d2]; [|done].
    injection E as <-. done.
  - assert (Hrp : rp y = p) by (by destruct (inv_model _ Ht p y Hy) as (_ & _ & _ & _ & ?)). rewrite Hrp.
    destruct (removeLine_ok d p y Hw Hx Hy) as (d' & E & Hw' & Hm & Hi & Hst). exists d'. rewrite Hi, Hm.
    split; [|by auto]. revert E. unfold mbind, method_bind. intros E.
    destruct (on_dst _ d) as [[a|err] d1]; [|done]. destruct (on_meta _ d1) as [[[]|err] d2]; [|done].
    injection E as <-. done.
  - by destruct Hsome as [[? ?]|[? ?]].
Qed.

(** ** All differences *)

(** directories have nothing that counts as content *)
Lemma working_plain d : working d -> plain_dirs s (dst d).
Proof.
  intros [[Hs _ _ _ Hss] [Ht _ _ _ Hts] _ _ _ _] q x y Hx Hy Hdx Hdy.
  assert (Hrp : rp x = q /\ rp y = q).
  { destruct (inv_model s Hs q x Hx) as (? & ? & _ & _ & ?).
    by destruct (inv_model (dst d) Ht q y Hy) as (? & ? & _ & _ & ?). }
  destruct Hrp as [Hrx Hry].
  assert (Hq : q <> "") by (eapply good_path_nonempty, (inv_good_path s Hs); eauto).
  unfold isDirectory in Hdx, Hdy. apply bool_decide_eq_true_1 in Hdx, Hdy.
  destruct (in_sync_inode sha1 st s _ q x Hss Hx Hq) as (i & _ & _ & _ & _ & _ & _ & _ & Hsx & Hlx).
  destruct (in_sync_inode sha1 top (dst d) _ q y Hts Hy Hq) as (j & _ & _ & _ & _ & _ & _ & _ & Hsy & Hly).
  rewrite Hdx in Hsx, Hlx. rewrite Hdy in Hsy, Hly. cbn in Hlx, Hly.
  destruct (Hsx ltac:(done)) as [Hzx Hhx]. destruct (Hsy ltac:(done)) as [Hzy Hhy].
  unfold content_opt. rewrite Hdx, Hdy, bool_decide_false by done. cbn [negb orb].
  apply compare_spec. cbn. unfold hashes_agree. rewrite Hhx, Hhy, Hzx, Hzy, Hlx, Hly, Hrx, Hry, Hdx, Hdy. done.
Qed.

(** settling one difference leaves the other differences as they are *)
Lemma settle_keeps d p q m' :
  working d -> different s (dst d) p -> different s (dst d) q -> p <> q ->
  m' = settle ms (model (dst d)) (model (dst d)) p ->
  m' !! q = model (dst d) !! q /\ is_dir_at m' (parent_path q) = is_dir_at (model (dst d)) (parent_path q).
Proof.
  intros Hw Hp Hq Hne ->. pose proof Hw as [[Hs _ _ _ _] [Ht _ _ _ _] _ _ _ _].
  pose proof (different_good s (dst d) Hs Ht q Hq) as Hgq.
  pose proof (different_independent s (dst d) Hs Ht [p; q] (working_plain d Hw)) as Hind.
  assert (Hin : forall r, r ∈ [p; q] -> different s (dst d) r).
  { intros r [->|[->|?%not_elem_of_nil]%elem_of_cons]%elem_of_cons; done. }
  specialize (Hind Hin p q (list_elem_of_here _ _) (list_elem_of_further _ _ _ (list_elem_of_here _ _))).
  destruct (whole (ms !! p) (model (dst d) !! p)) eqn:Hwh.
  - rewrite settle_whole by done. unfold is_dir_at. rewrite !swap_lookup.
    rewrite decide_False by (intros Hwi; apply Hne; auto).
    rewrite decide_False; [done|]. intros Hwi. apply Hne, Hind; [done|]. by apply taken_above.
  - destruct (settle_part ms (model (dst d)) (model (dst d)) p Hwh) as (x & y & Hx & Hy & _ & ->).
    rewrite lookup_insert_ne by done. split; [done|]. unfold is_dir_at. f_equal.
    destruct (decide (p = parent_path q)) as [E|E]; [|by rewrite lookup_insert_ne].
    rewrite <-E, lookup_insert_eq, Hy. done.
Qed.

Lemma different_kept d d' q :
  different s (dst d) q -> model (dst d') !! q = model (dst d) !! q ->
  is_dir_at (model (dst d')) (parent_path q) = is_dir_at (model (dst d)) (parent_path q) ->
  different s (dst d') q.
Proof. unfold different, seen2. intros H -> ->. done. Qed.

(** what is skipped: the rotten ones, and those for which the answer is no *)
Fixpoint skipped {A} (rot asked : A -> bool) (l : list A) (ans : list bool) : list A :=
  match l with
  | [] => []
  | x :: l' =>
      if rot x then x :: skipped rot asked l' ans
      else if asked x then (match head ans with Some false => [x] | _ => [] end) ++ skipped rot asked l' (tail ans)
      else skipped rot asked l' ans
  end.

Abbreviation is_rotten m0 := (fun p => rotten (ms !! p) (m0 !! p)).
Abbreviation is_newer m0 := (fun p => newer (ms !! p) (m0 !! p)).

(** an entry that looks rotten has the same time *)
Lemma rotten_not_newer x y : rotten x y = true -> newer x y = false.
Proof using Type.
  destruct x as [x|], y as [y|]; try done. cbn. intros [_ Hc]%andb_true_iff.
  apply compare_spec in Hc as (_ & _ & _ & _ & Hm & _). rewrite (Hm eq_refl), Z.ltb_irrefl. apply andb_false_r.
Qed.

Lemma backupLines_ok P : forall d m0 bit,
  working d -> NoDup P -> (forall p, p ∈ P -> different s (dst d) p /\ model (dst d) !! p = m0 !! p) ->
  length (List.filter (is_newer m0) P) <= length (answers (input d)) ->
  exists L d', backupLines s (line_of_path m0 <$> P) bit d = (Ok (bit || existsb (is_rotten m0) P), d') /\ working d' /\
    fs_step top (files d) (files d') /\
    P ≡ₚ skipped (is_rotten m0) (is_newer m0) P (answers (input d)) ++ L /\
    model (dst d') = foldl (settle ms m0) (model (dst d)) L /\
    answers (input d') = drop (length (List.filter (is_newer m0) P)) (answers (input d)).
Proof using Hapart Hsup HQ HQs.
  induction P as [|p P IH]; intros d m0 bit Hw Hnd HR Hans.
  { exists [], d. cbn. rewrite orb_false_r. split_and!; try done. by apply working_step. }
  apply NoDup_cons in Hnd as [Hp Hnd]. destruct (HR p (list_elem_of_here _ _)) as [Hdp Hmp].
  destruct (backupLine_ok d p Hw Hdp) as (d1 & E & Hw1 & Hst1 & Hfate);
    [rewrite Hmp; intros Hn Ha; cbn [List.filter] in Hans; rewrite Hn, Ha in Hans; simpl in Hans; lia|].
  assert (HR1 : dst d1 = dst d \/ model (dst d1) = settle ms (model (dst d)) (model (dst d)) p ->
    forall q, q ∈ P -> different s (dst d1) q /\ model (dst d1) !! q = m0 !! q).
  { intros Hcase q Hq. destruct (HR q (list_elem_of_further _ _ _ Hq)) as [Hdq Hmq].
    assert (Hkeep : model (dst d1) !! q = model (dst d) !! q /\
      is_dir_at (model (dst d1)) (parent_path q) = is_dir_at (model (dst d)) (parent_path q)).
    { destruct Hcase as [->|Hm]; [done|]. apply (settle_keeps d p q); try done. by intros ->. }
    destruct Hkeep as [Hk1 Hk2]. split; [by apply (different_kept d)|congruence]. }
  assert (Hrun : forall d' bit', backupLines s (line_of_path m0 <$> P) (bit || rotten (ms !! p) (m0 !! p)) d1 = (Ok bit', d') ->
    backupLines s (line_of_path m0 <$> p :: P) bit d = (Ok bit', d')).
  { intros d' bit' E'. rewrite fmap_cons. cbn [backupLines]. unfold mbind, method_bind.
    unfold line_of_path at 1. rewrite <-Hmp. unfold line_of_path in E at 1. by rewrite E, Hmp. }
  cbn [skipped List.filter existsb] in *. rewrite Hmp in Hfate. specialize (IH d1 m0 (bit || rotten (ms !! p) (m0 !! p)) Hw1 Hnd).
  destruct (rotten (ms !! p) (m0 !! p)) eqn:Hr.
  { rewrite (rotten_not_newer _ _ Hr) in *. subst d1. destruct (IH (HR1 (or_introl eq_refl)) Hans) as (L & d' & E' & ? & ? & HL & ? & ?).
    exists L, d'. split; [apply Hrun; rewrite E'; by rewrite !orb_true_r|]. split_and!; try done. cbn [app]. by rewrite <-HL. }
  destruct (newer (ms !! p) (m0 !! p)) eqn:Hn; [|destruct Hfate as [Hset Ha]].
  - destruct Hfate as (b & rest & Ea & Ea1 & Hb). rewrite Ea in *. cbn [head tail length drop app] in *.
    rewrite <-Ea1 in *. destruct b.
    + destruct IH as (L & d' & E' & ? & Hst & HL & Hm & ?); [by apply HR1; right|cbn in Hans; lia|].
      exists (p :: L), d'. split; [apply Hrun; by rewrite E', <-orb_assoc|]. split_and!; try done.
      * by eapply fs_step_trans.
      * by rewrite <-Permutation_middle, <-HL.
      * cbn [foldl]. by rewrite Hm, Hb, (settle_now m0).
    + destruct IH as (L & d' & E' & ? & Hst & HL & Hm & ?); [by apply HR1; left|cbn in Hans; lia|].
      exists L, d'. split; [apply Hrun; by rewrite E', <-orb_assoc|]. split_and!; try done.
      * by eapply fs_step_trans.
      * cbn [app]. by rewrite <-HL.
      * by rewrite Hm, Hb.
  - destruct IH as (L & d' & E' & ? & Hst & HL & Hm & Hd); [by apply HR1; right|by rewrite Ha|].
    rewrite Ha in HL, Hd. exists (p :: L), d'. split; [apply Hrun; by rewrite E', <-orb_assoc|]. split_and!; try done.
    + by eapply fs_step_trans.
    + by rewrite <-Permutation_middle, <-HL.
    + cbn [foldl]. by rewrite Hm, Hset, (settle_now m0).
Qed.

(** ** The whole backup *)

Definition line_rotten (l : DirectoryDiffLine2) : bool := rotten l.1 l.2.
Definition line_newer (l : DirectoryDiffLine2) : bool := newer l.1 l.2.

Lemma existsb_fmap {A B} (f : B -> bool) (g : A -> B) l : existsb f (g <$> l) = existsb (fun x => f (g x)) l.
Proof. induction l as [|x l IH]; [done|]. cbn. by f_equal. Qed.

(** the differences of two trees, with their paths *)
Lemma diff2_paths order t :
  (forall x : gset string, order x ≡ₚ elements x) -> tree_inv s -> tree_inv t ->
  exists P, diff2 order s t all_opts = Ok (line_of_path (model t) <$> P) /\ NoDup P /\
    forall q, q ∈ P <-> different s t q.
Proof using Type.
  intros Ho Hs Ht. destruct (diff2_reference order Ho s t Hs Ht all_opts) as (r & E & Hr).
  unfold reference2 in Hr. apply Permutation_map_inv in Hr as (P & -> & HP).
  exists P. split; [exact E|]. split.
  - rewrite <-HP. apply NoDup_filter_bool, NoDup_elements.
  - intros q. rewrite <-HP, elem_of_filter_bool, elem_of_elements, elem_of_union, !elem_of_dom, andb_true_iff.
    unfold different. split; intros (? & ? & ?); done.
Qed.

Lemma skipped_fmap {A B} (rot asked : B -> bool) (g : A -> B) l ans :
  skipped rot asked (g <$> l) ans = g <$> skipped (fun x => rot (g x)) (fun x => asked (g x)) l ans.
Proof.
  revert ans. induction l as [|x l IH]; intros ans; [done|]. rewrite fmap_cons. cbn [skipped].
  destruct (rot (g x)); [by rewrite fmap_cons, IH|]. destruct (asked (g x)); [|done].
  rewrite fmap_app, IH. by destruct (head ans) as [[|]|].
Qed.

Lemma skipped_elem {A} (rot asked : A -> bool) l ans x :
  x ∈ skipped rot asked l ans -> rot x = true \/ asked x = true /\ false ∈ ans.
Proof.
  revert ans. induction l as [|y l IH]; intros ans; cbn [skipped]; [by intros ?%not_elem_of_nil|].
  destruct (rot y) eqn:Hr; [intros [->|H]%elem_of_cons; [by left|by apply IH]|].
  destruct (asked y) eqn:Ha; [|by apply IH]. rewrite elem_of_app. intros [H|H].
  - destruct ans as [|[|] ans]; try (by apply not_elem_of_nil in H). apply list_elem_of_singleton in H as ->.
    right. split; [done|left].
  - destruct (IH _ H) as [?|[? Hf]]; [by left|]. right. split; [done|].
    destruct ans; [done|by apply list_elem_of_further].
Qed.

Lemma skipped_rotten {A} (rot asked : A -> bool) l ans x : x ∈ l -> rot x = true -> x ∈ skipped rot asked l ans.
Proof.
  intros Hx Hr. revert ans. induction l as [|y l IH]; intros ans; [by apply not_elem_of_nil in Hx|]. cbn [skipped].
  apply elem_of_cons in Hx as [<-|Hx]; [rewrite Hr; left|]. specialize (IH Hx).
  destruct (rot y); [by apply list_elem_of_further|]. destruct (asked y); [|done]. apply elem_of_app. by right.
Qed.

Lemma filter_fmap_length {A B} (f : B -> bool) (g : A -> B) l :
  length (List.filter f (g <$> l)) = length (List.filter (fun x => f (g x)) l).
Proof. induction l as [|x l IH]; [done|]. rewrite fmap_cons. cbn. destruct (f (g x)); cbn; by rewrite IH. Qed.

(** the differences [r] that a backup leaves, with the answers [ans] *)
Definition backup_leaves (r : list DirectoryDiffLine2) (ans : list bool) : list DirectoryDiffLine2 :=
  skipped line_rotten line_newer r ans.

Lemma backupImpl_ok order d r :
  (forall x : gset string, order x ≡ₚ elements x) -> working d ->
  diff2 order s (dst d) all_opts = Ok r -> length (List.filter line_newer r) <= length (answers (input d)) ->
  exists d' left_, backupImpl order s d = (Ok (if existsb line_rotten r then 2 else 0)%Z, d') /\ working d' /\
    fs_step top (files d) (files d') /\
    diff2 order s (dst d') all_opts = Ok left_ /\ left_ ≡ₚ backup_leaves r (answers (input d)) /\ left_ ⊆+ r /\
    answers (input d') = drop (length (List.filter line_newer r)) (answers (input d)).
Proof using Hapart Hsup HQ HQs.
  intros Ho Hw Er Hans. pose proof Hw as [[Hs _ _ _ _] [Ht _ _ _ _] _ _ _ _].
  destruct (diff2_paths order (dst d) Ho Hs Ht) as (P & E & Hnd & HP). rewrite Er in E. injection E as ->.
  unfold backup_leaves. rewrite filter_fmap_length in *. rewrite skipped_fmap.
  destruct (backupLines_ok P d (model (dst d)) false Hw Hnd) as (L & d' & Erun & Hw' & Hst & HKL & Hm' & Ha);
    [intros p Hp; split; [by apply HP|done]|done|].
  set (K := skipped _ _ P _) in HKL |- *. pose proof Hw' as [_ [Ht' _ _ _ _] _ _ _ _].
  destruct (diff2_reference order Ho s (dst d') Hs Ht' all_opts) as (left_ & El & Hl).
  assert (Hleft : left_ ≡ₚ line_of_path (model (dst d)) <$> K).
  { rewrite Hl. apply (left_differences s (dst d) (dst d') Hs Ht Ht' K L (working_plain d Hw)); [by rewrite <-HKL| |done].
    intros q. by rewrite <-HKL. }
  exists d', left_. split_and!; [|done|done|done|done| |done].
  - unfold backupImpl, mbind, method_bind, get_state, lift_outcome. rewrite Er, Erun. by rewrite existsb_fmap.
  - rewrite Hleft, (fmap_Permutation _ _ _ HKL), fmap_app. by apply submseteq_inserts_r.
Qed.
End run.

(** ** Files *)

(** two files that a backup does not tell apart *)
Definition same_file (i j : Inode) : Prop :=
  kind (i_type i) = kind (i_type j) /\ i_perm i = i_perm j /\ i_user i = i_user j /\ i_group i = i_group j /\
  i_mtime i = i_mtime j /\
  (i_type i = regular -> String.length (i_data i) = String.length (i_data j)) /\
  (i_type i = symlink_ -> i_target i = i_target j).

Lemma depicts_same sha1 x y i j :
  depicts sha1 x i -> depicts sha1 y j -> compare x y all_opts = true -> same_file i j.
Proof.
  intros (Hti & Hpi & Hui & Hgi & Hmi & Hri & _ & Hli) (Htj & Hpj & Huj & Hgj & Hmj & Hrj & _ & Hlj).
  intros (Hty & _ & Hp & Ho & Hm & Hz & _ & Hl)%compare_spec. cbn in *.
  destruct (Ho eq_refl). unfold same_file. split_and!; try congruence; try (rewrite <-?Hti, <-?Htj; congruence).
  - rewrite <-Hpi, <-Hpj. auto.
  - rewrite <-Hmi, <-Hmj. auto.
  - intros Hr. rewrite Hr in Hti. cbn in Hti. destruct (Hri Hti) as [Hzi _].
    destruct (Hrj ltac:(congruence)) as [Hzj _]. specialize (Hz eq_refl). lia.
  - intros Hr. rewrite Hr in Hti. cbn in Hti. rewrite decide_True in Hli by done.
    rewrite decide_True in Hlj by congruence. rewrite <-Hli, <-Hlj. auto.
Qed.

(** trees without differences show directories with the same files *)
Lemma in_step_same sha1 st s top t fs :
  bound sha1 st s fs -> bound sha1 top t fs -> agree all_opts (model s) (model t) ->
  forall q, q <> "" -> both same_file (inodes fs !! (locate st ++ comps q)) (inodes fs !! (locate top ++ comps q)).
Proof.
  intros [_ _ _ _ Hs] [_ _ _ _ Ht] Hag q Hq. specialize (Hs q Hq). specialize (Ht q Hq). specialize (Hag q).
  unfold sync_at in *. destruct (model s !! q), (model t !! q), (inodes fs !! _), (inodes fs !! _);
    cbn in *; try done. apply negb_false_iff in Hag. by eapply depicts_same.
Qed.

Lemma scan_both_ok sha1 listing absolute fs src dst threads opt :
  (forall x : gset string, listing x ≡ₚ elements x) -> fs_wf fs ->
  good_top (absolute src) = true -> is_directory fs (absolute src) = true ->
  good_top (absolute dst) = true -> is_directory fs (absolute dst) = true ->
  exists s t, scanSourceTargetDir sha1 listing absolute fs src dst threads opt = Ok (s, t) /\
    bound sha1 (absolute src) s fs /\ bound sha1 (absolute dst) t fs.
Proof.
  intros Hl Hwf Hgs Hds Hgd Hdd.
  destruct (scan_bound sha1 listing absolute fs src opt emptyTree Hl Hwf Hgs Hds) as (s & Es & Hs).
  destruct (scan_bound sha1 listing absolute fs dst opt emptyTree Hl Hwf Hgd Hdd) as (t & Et & Ht).
  exists s, t. split; [|done]. unfold scanSourceTargetDir. rewrite Es, Et. by destruct threads.
Qed.

(** a file that can be backed up: its type is supported, its owner can be given to a
    copy, and this does not clear a set-ID bit *)
Definition preservable (r : Rights) (i : Inode) : Prop :=
  kind (i_type i) <> unknown /\ may_own r (i_user i) (i_group i) = true /\ chown_mode (i_type i) (i_perm i) = i_perm i.

#[global] Instance preservable_dec r i : Decision (preservable r i).
Proof. unfold preservable. apply _. Defined.

Lemma sync_supported sha1 top t fs :
  bound sha1 top t fs ->
  (forall q i, q <> "" -> inodes fs !! (locate top ++ comps q) = Some i -> preservable (rights fs) i) ->
  map_Forall (fun _ e => supported (rights fs) e) (model t).
Proof.
  intros [Ht _ _ _ Hs] Hall q e He.
  assert (Hq : q <> "") by (eapply good_path_nonempty, (inv_good_path t Ht); eauto).
  destruct (in_sync_inode sha1 top t fs q e Hs He Hq) as (i & Hi & Hty & Hp & Hu & Hg & _).
  destruct (Hall q i Hq Hi) as (Hk & Ho & Hm). unfold supported, copyable. rewrite Hp, Hu, Hg, Hty.
  split; [|split; [done|]]; destruct (i_type i); cbn in *; auto; done.
Qed.

(** no difference is newer in the backup if no file is *)
Lemma none_newer sha1 order st s top t fs r :
  (forall x : gset string, order x ≡ₚ elements x) ->
  bound sha1 st s fs -> bound sha1 top t fs ->
  (forall q i j, inodes fs !! (locate st ++ comps q) = Some i -> inodes fs !! (locate top ++ comps q) = Some j ->
     (i_mtime j <= i_mtime i)%Z) ->
  diff2 order s t all_opts = Ok r -> List.filter line_newer r = [].
Proof.
  intros Ho [Hs _ _ _ Hss] [Ht _ _ _ Hts] Hle E.
  destruct (diff2_paths s order t Ho Hs Ht) as (P & E' & _ & _). rewrite E in E'. injection E' as ->.
  clear E. induction P as [|p P IH]; [done|]. rewrite fmap_cons. cbn [List.filter].
  assert (line_newer (line_of_path s (model t) p) = false) as ->; [|apply IH].
  unfold line_newer, line_of_path, newer. cbn [fst snd].
  destruct (model s !! p) as [x|] eqn:Hx, (model t !! p) as [y|] eqn:Hy; try done.
  assert (Hp : p <> "") by (eapply good_path_nonempty, (inv_good_path s Hs); eauto).
  destruct (in_sync_inode sha1 st s fs p x Hss Hx Hp) as (i & Hi & _ & _ & _ & _ & Hmi & _).
  destruct (in_sync_inode sha1 top t fs p y Hts Hy Hp) as (j & Hj & _ & _ & _ & _ & Hmj & _).
  specialize (Hle p i j Hi Hj). rewrite (proj2 (Z.ltb_ge _ _)) by lia. apply andb_false_r.
Qed.

(** without bit rot and newer entries nothing is left *)
Lemma nothing_left (r left_ : list DirectoryDiffLine2) ans :
  left_ ≡ₚ backup_leaves r ans ->
  existsb line_rotten r = false -> List.filter line_newer r = [] -> left_ = [].
Proof.
  intros Hl Hrot Hnew. apply Permutation_nil_r. rewrite Hl. unfold backup_leaves. clear Hl. revert Hrot Hnew.
  induction r as [|l r IH]; [done|]. cbn. intros [-> Hr]%orb_false_iff. destruct (line_newer l); [done|]. auto.
Qed.
