(* ===== verification/Scrub.v ===== *)
(** * Scrubbing a backup (src/backup.cpp)

    A scrub compares the backup directory with two metadata files of it. Where
    two of the three agree the third is repaired, the backup directory itself
    only on request, with the help of the source directory if it is given.
    The messages are added in [ScrubTalk.v]. *)

From S2P Require Import Prelude CxxPath CxxTime CxxStream Element Node Tree TreeIO Diff FileSystem MetaFiles TreeFs Backup.

(** ** The tree manager *)

Record TreeManager := mkManager {
  srcTree : DirectoryTree;
  dstTree : DirectoryTree;
  meta1Tree : DirectoryTree;
  meta2Tree : DirectoryTree;
  meta1 : path;
  meta2 : path;
  srcTreePresent : bool;
  meta2TreePresent : bool;
  save : bool;
  meta1NeedsBackup : bool;
  meta2NeedsBackup : bool }.

(** the manager, the filesystem and the standard input *)
Record Session := mkSession { tm : TreeManager; disk : FS; cin : string }.

Abbreviation session_method := (method Session).

Definition set_dstTree (t : DirectoryTree) (m : TreeManager) : TreeManager :=
  mkManager (srcTree m) t (meta1Tree m) (meta2Tree m) (meta1 m) (meta2 m) (srcTreePresent m)
    (meta2TreePresent m) (save m) (meta1NeedsBackup m) (meta2NeedsBackup m).
Definition set_meta1Tree (t : DirectoryTree) (m : TreeManager) : TreeManager :=
  mkManager (srcTree m) (dstTree m) t (meta2Tree m) (meta1 m) (meta2 m) (srcTreePresent m)
    (meta2TreePresent m) (save m) (meta1NeedsBackup m) (meta2NeedsBackup m).
Definition set_meta2Tree (t : DirectoryTree) (m : TreeManager) : TreeManager :=
  mkManager (srcTree m) (dstTree m) (meta1Tree m) t (meta1 m) (meta2 m) (srcTreePresent m)
    (meta2TreePresent m) (save m) (meta1NeedsBackup m) (meta2NeedsBackup m).

(** [discardMeta2Tree] *)
Definition discardMeta2Tree (m : TreeManager) : TreeManager :=
  mkManager (srcTree m) (dstTree m) (meta1Tree m) (clear (meta2Tree m)).2 (meta1 m) (meta2 m)
    (srcTreePresent m) false (save m) (meta1NeedsBackup m) (meta2NeedsBackup m).

Definition saveMetadataOnExit (m : TreeManager) : TreeManager :=
  mkManager (srcTree m) (dstTree m) (meta1Tree m) (meta2Tree m) (meta1 m) (meta2 m) (srcTreePresent m)
    (meta2TreePresent m) true (meta1NeedsBackup m) (meta2NeedsBackup m).
Definition saveMeta1PreviousVersion (m : TreeManager) : TreeManager :=
  mkManager (srcTree m) (dstTree m) (meta1Tree m) (meta2Tree m) (meta1 m) (meta2 m) (srcTreePresent m)
    (meta2TreePresent m) (save m) true (meta2NeedsBackup m).
Definition saveMeta2PreviousVersion (m : TreeManager) : TreeManager :=
  mkManager (srcTree m) (dstTree m) (meta1Tree m) (meta2Tree m) (meta1 m) (meta2 m) (srcTreePresent m)
    (meta2TreePresent m) (save m) (meta1NeedsBackup m) true.

Definition change (f : TreeManager -> TreeManager) : session_method unit := fun s =>
  (Ok tt, mkSession (f (tm s)) (disk s) (cin s)).

Definition in_dst {A} (m : world_method A) : session_method A := fun s =>
  let '(r, (t, fs)) := m (dstTree (tm s), disk s) in (r, mkSession (set_dstTree t (tm s)) fs (cin s)).
Definition in_meta1 {A} (m : tree_method A) : session_method A := fun s =>
  let '(r, t) := m (meta1Tree (tm s)) in (r, mkSession (set_meta1Tree t (tm s)) (disk s) (cin s)).
Definition in_meta2 {A} (m : tree_method A) : session_method A := fun s =>
  let '(r, t) := m (meta2Tree (tm s)) in (r, mkSession (set_meta2Tree t (tm s)) (disk s) (cin s)).
Definition ask_user : session_method bool := fun s =>
  let '(r, i) := askYesNo (cin s) in (r, mkSession (tm s) (disk s) i).
Definition unless_ok {A} (b : bool) (fail : A) (m : session_method A) : session_method A :=
  if b then m else mret fail.

(** ** Repairing one entry *)

Inductive FixupResult :=
  | Failed | Success | SuccessDiffInvalidated | SuccessMetadataInvalidated
  | SuccessDiffMetadataInvalidated.

#[global] Instance FixupResult_eq_dec : EqDecision FixupResult.
Proof. solve_decision. Defined.

(** [operator==] on optional elements *)
Definition entry_eqb (x y : option FilesystemElement) : bool :=
  match x, y with
  | Some x, Some y => elem_eqb x y
  | None, None => true
  | _, _ => false
  end.

(** only the content *)
Definition content_only : CompareOpt := mkOpt false false false true true true.

(** the part that is repeated in the source: both metadata trees take over the
    entry of the source tree *)
Definition take_over_in_metadata (src : DirectoryTree) (p : path) : session_method unit :=
  _ ← in_meta1 (removeFromTree p);
  _ ← in_meta1 (copyFromTree src p (parent_path p));
  _ ← in_meta2 (removeFromTree p);
  in_meta2 (copyFromTree src p (parent_path p)).

Definition either (b : bool) : FixupResult * FixupResult -> FixupResult := fun '(x, y) => if b then x else y.

(** an entry that the metadata files have and the backup directory lacks *)
Definition fixMissing (srcTree : option DirectoryTree) (e : FilesystemElement) : session_method FixupResult :=
  let relPath := rp e in
  if bool_decide (ty e = symlink_) then
    _ ← in_dst (addSymlinkToTreeAndFilesystem e); mret Success
  else
    match srcTree with
    | None => mret Failed
    | Some src =>
        item ← lift_outcome (search relPath src);
        match item with
        | None => mret Failed
        | Some item =>
            if elem_eqb item e then
              _ ← in_dst (copyFromTreeAndFilesystem src relPath (parent_path relPath));
              mret (either (bool_decide (ty e = directory)) (SuccessDiffInvalidated, Success))
            else if compare item e content_only then
              _ ← in_dst (copyFromTreeAndFilesystem src relPath (parent_path relPath));
              _ ← (if negb (bool_decide (per item = per e)) then
                     _ ← in_meta1 (modifyPermissionsInTree relPath (per item));
                     in_meta2 (modifyPermissionsInTree relPath (per item))
                   else mret tt);
              _ ← (if negb (same_owner item e) then
                     _ ← in_meta1 (modifyOwnerInTree relPath (us item) (gs item));
                     in_meta2 (modifyOwnerInTree relPath (us item) (gs item))
                   else mret tt);
              _ ← (if negb (bool_decide (mt item = mt e)) then
                     _ ← in_meta1 (modifyMtimeInTree relPath (mt item));
                     in_meta2 (modifyMtimeInTree relPath (mt item))
                   else mret tt);
              mret (either (bool_decide (ty e = directory))
                      (SuccessDiffMetadataInvalidated, SuccessMetadataInvalidated))
            else
              _ ← in_dst (copyFromTreeAndFilesystem src relPath (parent_path relPath));
              _ ← take_over_in_metadata src relPath;
              mret (either (isDirectory item || isDirectory e)
                      (SuccessDiffMetadataInvalidated, SuccessMetadataInvalidated))
        end
    end.

(** an entry that the backup directory has and the metadata files lack *)
Definition fixExtra (e : FilesystemElement) : session_method FixupResult :=
  yes ← ask_user;
  unless_ok yes Failed
    (_ ← in_dst (removeFromTreeAndFilesystem (rp e));
     mret (either (bool_decide (ty e = directory)) (SuccessDiffInvalidated, Success))).

(** the entry [x] of the backup directory takes the metadata of [good], for the
    fields in which [good] and [other] differ *)
Definition updateBackup (relPath : path) (good other : FilesystemElement) : session_method unit :=
  _ ← (if negb (bool_decide (per good = per other))
       then in_dst (modifyPermissionsInTreeAndFilesystem relPath (per good)) else mret tt);
  _ ← (if negb (same_owner good other)
       then in_dst (modifyOwnerInTreeAndFilesystem relPath (us good) (gs good)) else mret tt);
  if negb (bool_decide (mt good = mt other))
  then in_dst (modifyMtimeInTreeAndFilesystem relPath (mt good)) else mret tt.

(** a question, unless the modification times show bit rot *)
Definition bitrot_or_ask (bitrot : bool) : session_method bool := if bitrot then mret true else ask_user.

(** an entry whose content differs in the backup directory ([x]) and in the
    metadata files ([e]): looking for it in the source directory *)
Definition fixFromSource (src : DirectoryTree) (x e : FilesystemElement) (bitrot : bool) : session_method FixupResult :=
  let relPath := rp e in
  item ← lift_outcome (search relPath src);
  match item with
  | None => mret Failed
  | Some item =>
      if elem_eqb item e then
        yes ← bitrot_or_ask bitrot;
        unless_ok yes Failed
          (_ ← in_dst (removeFromTreeAndFilesystem relPath);
           _ ← in_dst (copyFromTreeAndFilesystem src relPath (parent_path relPath));
           mret (either (bool_decide (ty e = directory) || isDirectory x)
                   (SuccessDiffInvalidated, Success)))
      else if elem_eqb item x then
        _ ← take_over_in_metadata src relPath;
        mret (either (isDirectory item || bool_decide (ty e = directory))
                (SuccessDiffMetadataInvalidated, SuccessMetadataInvalidated))
      else if compare item x content_only then
        _ ← updateBackup relPath item e;
        _ ← take_over_in_metadata src relPath;
        mret (either (bool_decide (ty e = directory) || isDirectory x)
                (SuccessDiffMetadataInvalidated, SuccessMetadataInvalidated))
      else
        yes ← ask_user;
        unless_ok yes Failed
          (_ ← in_dst (removeFromTreeAndFilesystem relPath);
           _ ← in_dst (copyFromTreeAndFilesystem src relPath (parent_path relPath));
           _ ← take_over_in_metadata src relPath;
           mret (either (bool_decide (ty e = directory) || isDirectory item || isDirectory x)
                   (SuccessDiffMetadataInvalidated, SuccessMetadataInvalidated)))
  end.

(** the same, links and the case without a source directory included *)
Definition fixContent (srcTree : option DirectoryTree) (x e : FilesystemElement) : session_method FixupResult :=
  let relPath := rp e in
  let bitrot := compare x e metadata_opt in
  if bool_decide (ty e = symlink_) && bool_decide (ty x = symlink_) then
    yes ← bitrot_or_ask bitrot;
    unless_ok yes Failed
      (_ ← in_dst (removeFromTreeAndFilesystem relPath);
       _ ← in_dst (addSymlinkToTreeAndFilesystem e);
       mret Success)
  else
    match srcTree with
    | None => mret Failed
    | Some src => fixFromSource src x e bitrot
    end.

(** [tryToFixBackupEntry] *)
Definition tryToFixBackupEntry (srcTree : option DirectoryTree) (d : DirectoryDiffLine3)
    : session_method FixupResult :=
  let '(d0, d1, d2) := d in
  _ ← lift_outcome (cassert (entry_eqb d1 d2) "tryToFixBackupEntry: d[1]==d[2]");
  match d0, d1 with
  | None, None => lift_outcome (Err (Throw "bad_optional_access"))
  | None, Some e => fixMissing srcTree e
  | Some x, None => fixExtra x
  | Some x, Some e =>
      if compare x e content_only then _ ← updateBackup (rp e) e x; mret Success
      else fixContent srcTree x e
  end.

(** [fixMetadataEntry], on the metadata tree to fix *)
Definition fixMetadataEntry (goodTree : DirectoryTree) (goodEntry badEntry : option FilesystemElement)
    : tree_method FixupResult :=
  _ ← (match badEntry with Some b => removeFromTree (rp b) | None => mret tt end);
  _ ← (match goodEntry with
       | Some g => copyFromTree goodTree (rp g) (parent_path (rp g))
       | None => mret tt
       end);
  mret (either (match goodEntry with Some g => isDirectory g | None => false end ||
                match badEntry with Some b => isDirectory b | None => false end)
          (SuccessDiffMetadataInvalidated, SuccessMetadataInvalidated)).

(** ** scrubImpl *)

Record ScrubFlags := mkFlags {
  unrecoverable : bool;
  maybeRecoverable : bool;
  redo : bool;
  updateMeta1 : bool;
  updateMeta2 : bool }.

Definition no_flags : ScrubFlags := mkFlags false false false false false.

(** what the result of [fixMetadataEntry] or [tryToFixBackupEntry] sets *)
Definition flag_metadata (r : FixupResult) (first : bool) (f : ScrubFlags) : ScrubFlags :=
  mkFlags (unrecoverable f) (maybeRecoverable f)
    (redo f || bool_decide (r = SuccessDiffMetadataInvalidated))
    (updateMeta1 f || first) (updateMeta2 f || negb first).

Definition flag_fixup (r : FixupResult) (f : ScrubFlags) : ScrubFlags :=
  match r with
  | Success => f
  | Failed => mkFlags true (maybeRecoverable f) (redo f) (updateMeta1 f) (updateMeta2 f)
  | SuccessDiffInvalidated => mkFlags (unrecoverable f) (maybeRecoverable f) true (updateMeta1 f) (updateMeta2 f)
  | SuccessMetadataInvalidated => mkFlags (unrecoverable f) (maybeRecoverable f) (redo f) true true
  | SuccessDiffMetadataInvalidated => mkFlags (unrecoverable f) (maybeRecoverable f) true true true
  end.

(** [getMeta2Tree], [getSrcTree] *)
Definition checkMeta2Tree : session_method unit := fun s =>
  (cassert (meta2TreePresent (tm s)) "getMeta2Tree: meta2TreePresent", s).

Definition sourceTree (m : TreeManager) : option DirectoryTree :=
  if srcTreePresent m then Some (srcTree m) else None.

(** the body of the loop over the differences *)
Definition scrubLine (fixup : bool) (d : DirectoryDiffLine3) (f : ScrubFlags) : session_method ScrubFlags :=
  let '(d0, d1, d2) := d in
  if entry_eqb d0 d1 && negb (entry_eqb d0 d2) then
    _ ← checkMeta2Tree;
    s ← get_state;
    r ← in_meta2 (fixMetadataEntry (dstTree (tm s)) d0 d2);
    mret (flag_metadata r false f)
  else if entry_eqb d0 d2 && negb (entry_eqb d0 d1) then
    s ← get_state;
    r ← in_meta1 (fixMetadataEntry (dstTree (tm s)) d0 d1);
    mret (flag_metadata r true f)
  else if entry_eqb d1 d2 && negb (entry_eqb d0 d1) then
    if fixup then
      _ ← checkMeta2Tree;
      s ← get_state;
      r ← tryToFixBackupEntry (sourceTree (tm s)) d;
      mret (flag_fixup r f)
    else mret (mkFlags (unrecoverable f) true (redo f) (updateMeta1 f) (updateMeta2 f))
  else if negb (entry_eqb d0 d1) && negb (entry_eqb d1 d2) then
    mret (mkFlags true (maybeRecoverable f) (redo f) (updateMeta1 f) (updateMeta2 f))
  else lift_outcome (Err (AssertFailed "scrubImpl: false")).

(** the loop over the differences; every [break] is taken with [redo] set *)
Fixpoint scrubLines (fixup : bool) (diff : list DirectoryDiffLine3) (f : ScrubFlags)
    : session_method ScrubFlags :=
  match diff with
  | [] => mret f
  | d :: diff' =>
      f' ← scrubLine fixup d f;
      if redo f' then mret f' else scrubLines fixup diff' f'
  end.

Section scrub.
Context (order : gset string -> list string).

Definition compareTrees : session_method (list DirectoryDiffLine3) :=
  _ ← checkMeta2Tree;
  s ← get_state;
  lift_outcome (diff3 order (dstTree (tm s)) (meta1Tree (tm s)) (meta2Tree (tm s)) all_opts).

(** the loop that starts again when a repair invalidates the differences;
    [rounds] bounds the number of turns *)
Fixpoint scrubRounds (rounds : nat) (fixup : bool) (diff : list DirectoryDiffLine3) (f : ScrubFlags)
    : session_method ScrubFlags :=
  match rounds with
  | O => lift_outcome (Err OutOfFuel)
  | S rounds' =>
      f' ← scrubLines fixup diff f;
      if redo f' then
        diff' ← compareTrees;
        scrubRounds rounds' fixup diff'
          (mkFlags (unrecoverable f') (maybeRecoverable f') false (updateMeta1 f') (updateMeta2 f'))
      else mret f'
  end.

Definition scrubImpl (rounds : nat) (fixup : bool) : session_method Z :=
  diff ← compareTrees;
  match diff with
  | [] => mret 0%Z
  | _ =>
      f ← scrubRounds rounds fixup diff no_flags;
      if negb (unrecoverable f) && negb (maybeRecoverable f) then
        _ ← change saveMetadataOnExit;
        _ ← (if updateMeta1 f then change saveMeta1PreviousVersion else mret tt);
        _ ← (if updateMeta2 f then change saveMeta2PreviousVersion else mret tt);
        mret 1%Z
      else mret 2%Z
  end.
End scrub.

(** ** Saving metadata *)

Section saving.
Context (absolute : path -> path).

Definition on_disk {A} (m : fs_method A) : session_method A := fun s =>
  let '(r, fs) := m (disk s) in (r, mkSession (tm s) fs (cin s)).

(** the destructor of the manager *)
Definition saveMetadata : session_method unit :=
  s ← get_state;
  let m := tm s in
  if negb (save m) then mret tt
  else
    _ ← on_disk (store absolute (meta1NeedsBackup m) (meta1Tree m) (meta1 m));
    on_disk (store absolute (meta2NeedsBackup m) (if meta2TreePresent m then meta2Tree m else meta1Tree m) (meta2 m)).

(** leaving the scope of the manager, normally or by an exception; an exception
    of the destructor ends the program *)
Definition leave_scope {A} (body : session_method A) : session_method A := fun s =>
  let '(r, s1) := body s in
  let finish :=
    match saveMetadata s1 with
    | (Ok _, s2) => (r, s2)
    | (Err (Throw what), s2) => (Err (Terminated what), s2)
    | (Err e, s2) => (Err e, s2)
    end in
  match r with
  | Ok _ | Err (Throw _) => finish
  | Err _ => (r, s1)
  end.
End saving.
