(* ===== verification/ScrubSpec.v ===== *)
(** * Scrubbing without repairing the backup directory

    Without --fixup a scrub only changes the metadata trees: where one of them
    agrees with the backup directory, the other takes over the entry of the
    directory with everything below it. This ends, and when it reports success
    both agree with the directory. *)

From S2P Require Import Prelude CxxPath CxxTime CxxStream Element Node Tree TreeInv TreeOps TreeCopy TreeIO TreeLoad Diff DiffSpec Diff3Spec FileSystem TreeFs SyncOps Backup BackupSpec BackupRun Scrub.

Lemma entry_eqb_differ x y : entry_eqb x y = negb (differ all_opts x y).
Proof.
  destruct x, y; try done. cbn. by rewrite negb_involutive, compare_all_opts.
Qed.

(** ** One entry *)

Definition is_dir_entry (x : option FilesystemElement) : bool :=
  match x with Some e => isDirectory e | None => false end.

(** [fixMetadataEntry] takes over the subtree of the good tree. *)
Lemma fixMetadataEntry_ok g b p :
  tree_inv g -> tree_inv b -> good_path p = true ->
  (is_Some (model g !! p) -> is_dir_at (model b) (parent_path p) = true) ->
  exists b', fixMetadataEntry g (model g !! p) (model b !! p) b =
      (Ok (either (is_dir_entry (model g !! p) || is_dir_entry (model b !! p))
             (SuccessDiffMetadataInvalidated, SuccessMetadataInvalidated)), b') /\
    tree_inv b' /\ model b' = swap (model g) p (model b) /\ (tree_sorted b -> tree_sorted b').
Proof.
  intros Hg Hb Hp Hpar. pose proof (good_path_nonempty p Hp) as Hne.
  assert (Hrm : exists b1, (match model b !! p with Some y => removeFromTree (rp y) | None => mret tt end) b = (Ok tt, b1) /\
    tree_inv b1 /\ model b1 = prune p (model b) /\ (tree_sorted b -> tree_sorted b1)).
  { destruct (model b !! p) as [y|] eqn:Hy.
    - assert (rp y = p) as -> by (by destruct (inv_model b Hb p y Hy) as (_ & _ & _ & _ & ?)).
      apply removed_meta; [done|eauto].
    - exists b. split; [done|]. split; [done|]. split; [|done]. apply map_eq. intros q. rewrite prune_lookup.
      case_decide; [|done]. by apply (absent_below b p). }
  destruct Hrm as (b1 & E1 & Hb1 & Hm1 & Hs1).
  assert (Hcp : exists b', (match model g !! p with
      | Some x => copyFromTree g (rp x) (parent_path (rp x)) | None => mret tt end) b1 = (Ok tt, b') /\
    tree_inv b' /\ model b' = swap (model g) p (model b) /\ (tree_sorted b1 -> tree_sorted b')).
  { destruct (model g !! p) as [x|] eqn:Hx.
    - assert (rp x = p) as -> by (by destruct (inv_model g Hg p x Hx) as (_ & _ & _ & _ & ?)).
      destruct (copied_meta g b1 p x) as (b' & E & Hb' & Hm' & Hs'); [done|done|done|done| | |].
      + rewrite Hm1, parent_pruned by done. by apply Hpar.
      + by rewrite Hm1, prune_lookup, decide_True.
      + exists b'. split; [done|]. split; [done|]. split; [by rewrite Hm', Hm1, swap_pruned|done].
    - exists b1. split; [done|]. split; [done|]. split; [rewrite Hm1; by apply swap_removed|done]. }
  destruct Hcp as (b' & E2 & Hb' & Hm' & Hs'). exists b'. split; [|by auto].
  unfold fixMetadataEntry, mbind, method_bind. rewrite E1, E2. done.
Qed.

(** *** Taking over an entry of the source directory *)

Lemma compare_weaker x y : compare x y all_opts = true -> compare x y content_only = true.
Proof. rewrite !compare_spec. cbn. naive_solver. Qed.

Lemma replaced_meta src t p :
  tree_inv src -> tree_inv t -> is_Some (model src !! p) -> is_Some (model t !! p) ->
  exists t1 t', removeFromTree p t = (Ok tt, t1) /\ copyFromTree src p (parent_path p) t1 = (Ok tt, t') /\
    tree_inv t' /\ model t' = swap (model src) p (model t).
Proof.
  intros Hs Ht [x Hx] Hp. destruct (present_parent t Ht p Hp) as [Hd Hg]. pose proof (good_path_nonempty p Hg) as Hne.
  destruct (removed_meta t p Ht Hp) as (t1 & E1 & I1 & M1 & _).
  destruct (copied_meta src t1 p x Hs I1 Hx Hg) as (t' & E2 & I2 & M2 & _).
  - by rewrite M1, parent_pruned.
  - by rewrite M1, prune_lookup, decide_True.
  - exists t1, t'. split_and!; [done..|]. by rewrite M2, M1, swap_pruned.
Qed.

Lemma take_over_ok src p s :
  tree_inv src -> tree_inv (meta1Tree (tm s)) -> tree_inv (meta2Tree (tm s)) -> is_Some (model src !! p) ->
  is_Some (model (meta1Tree (tm s)) !! p) -> is_Some (model (meta2Tree (tm s)) !! p) ->
  exists b c, take_over_in_metadata src p s = (Ok tt, mkSession (set_meta2Tree c (set_meta1Tree b (tm s))) (disk s) (cin s)) /\
    tree_inv b /\ tree_inv c /\
    model b = swap (model src) p (model (meta1Tree (tm s))) /\ model c = swap (model src) p (model (meta2Tree (tm s))).
Proof.
  intros Hs I1 I2 Hp P1 P2.
  destruct (replaced_meta src (meta1Tree (tm s)) p Hs I1 Hp P1) as (b1 & b & E1 & E2 & Ib & Mb).
  destruct (replaced_meta src (meta2Tree (tm s)) p Hs I2 Hp P2) as (c1 & c & E3 & E4 & Ic & Mc).
  exists b, c. split; [|done]. unfold take_over_in_metadata, mbind, method_bind, in_meta1, in_meta2.
  rewrite E1. cbn. rewrite E2. cbn. rewrite E3. cbn. rewrite E4. by destruct (tm s).
Qed.

(** an entry whose content is that of the source, where the source has the attributes
    of the metadata: the metadata takes over the source, the backup stays as it is *)
Lemma scrubLine_leaves src p x e item f s :
  tree_inv src -> tree_inv (meta1Tree (tm s)) -> tree_inv (meta2Tree (tm s)) ->
  meta2TreePresent (tm s) = true -> sourceTree (tm s) = Some src ->
  model src !! p = Some item -> model (meta1Tree (tm s)) !! p = Some e -> model (meta2Tree (tm s)) !! p = Some e ->
  ty e <> symlink_ -> ty e <> directory -> isDirectory x = false ->
  compare x e content_only = false -> elem_eqb item e = false -> elem_eqb item x = false ->
  compare item x content_only = true -> per item = per e -> us item = us e -> gs item = gs e -> mt item = mt e ->
  exists b c, scrubLine true (Some x, Some e, Some e) f s =
      (Ok (mkFlags (unrecoverable f) (maybeRecoverable f) (redo f) true true),
       mkSession (set_meta2Tree c (set_meta1Tree b (tm s))) (disk s) (cin s)) /\
    model b !! p = Some item /\ model c !! p = Some item.
Proof.
  intros Is I1 I2 P2 Hsrc Hi H1 H2 Hty Hdir Hx Hcx Hie Hix Hc Hp Hu Hg Hm.
  assert (rp e = p) as Ep by (by destruct (inv_model _ I1 p e H1) as (_ & _ & _ & _ & ?)).
  destruct (take_over_ok src p s Is I1 I2) as (b & c & E & _ & _ & Mb & Mc); [by eauto..|].
  exists b, c. rewrite Mb, Mc, !swap_lookup, !decide_True by done. split; [|done].
  assert (Hxe : elem_eqb x e = false).
  { apply not_true_iff_false. rewrite <-compare_all_opts. intros H. apply not_true_iff_false in Hcx. apply Hcx.
    by apply compare_weaker. }
  unfold scrubLine. cbn [entry_eqb]. rewrite Hxe, <-compare_all_opts, compare_refl. cbn [andb negb].
  unfold mbind at 1, method_bind at 1, checkMeta2Tree, cassert. rewrite P2.
  unfold mbind at 1, method_bind at 1, get_state. rewrite Hsrc.
  assert (Ef : tryToFixBackupEntry (Some src) (Some x, Some e, Some e) s =
    (Ok SuccessMetadataInvalidated, mkSession (set_meta2Tree c (set_meta1Tree b (tm s))) (disk s) (cin s))).
  { unfold tryToFixBackupEntry. cbn [entry_eqb]. rewrite <-compare_all_opts, compare_refl.
    unfold mbind at 1, method_bind at 1, lift_outcome at 1, cassert. rewrite Hcx. unfold fixContent.
    rewrite (bool_decide_false (ty e = symlink_)) by done. cbn [andb]. unfold fixFromSource. rewrite Ep.
    unfold mbind at 1, method_bind at 1, lift_outcome at 1. rewrite (search_model src Is), Hi, Hie, Hix, Hc.
    rewrite Hx, (bool_decide_false (ty e = directory)) by done.
    unfold updateBackup, same_owner. rewrite !bool_decide_true by done. cbn [negb andb]. unfold mbind, method_bind, mret, method_ret.
    by rewrite E. }
  unfold mbind, method_bind. rewrite Ef. done.
Qed.

Lemma hashed_swap g b b' p : hashed g -> hashed b -> model b' = swap (model g) p (model b) -> hashed b'.
Proof.
  intros Hg Hb Hm q e. rewrite Hm, swap_lookup. case_decide; [apply Hg|apply Hb].
Qed.

(** a directory that agrees with both metadata entries *)
Lemma scrubLine_aborts fixup x y z f s :
  entry_eqb x y = true -> entry_eqb x z = true ->
  scrubLine fixup (x, y, z) f s = (Err (AssertFailed "scrubImpl: false"), s).
Proof. intros E1 E2. unfold scrubLine. rewrite E1, E2. cbn. by rewrite andb_false_r. Qed.

(** ** Differences from the directory *)

Section bad.
Context (a : DirectoryTree).

(** the paths at which a metadata tree does not agree with the directory *)
Definition bad (b c : DirectoryTree) : gset path :=
  filter (fun q => differ all_opts (model a !! q) (model b !! q) = true \/
                   differ all_opts (model a !! q) (model c !! q) = true)
    (dom (model a) ∪ dom (model b) ∪ dom (model c)).

Lemma differ_present o x y : differ o x y = true -> is_Some x \/ is_Some y.
Proof. destruct x, y; cbn; eauto; done. Qed.

Lemma elem_of_bad b c q :
  q ∈ bad b c <-> differ all_opts (model a !! q) (model b !! q) = true \/
                  differ all_opts (model a !! q) (model c !! q) = true.
Proof.
  unfold bad. rewrite elem_of_filter, !elem_of_union, !elem_of_dom. split; [by intros [? _]|].
  intros H. split; [done|]. destruct H as [H|H]; apply differ_present in H as [H|H]; auto.
Qed.

(** a metadata tree only changes towards the directory *)
Definition towards (b b' : DirectoryTree) : Prop :=
  forall q, model b' !! q = model b !! q \/ model b' !! q = model a !! q.

Lemma towards_refl b : towards b b.
Proof. by left. Qed.

Lemma towards_trans b1 b2 b3 : towards b1 b2 -> towards b2 b3 -> towards b1 b3.
Proof. intros H1 H2 q. destruct (H2 q) as [->| ->]; auto. Qed.

Lemma towards_swap b b' p : model b' = swap (model a) p (model b) -> towards b b'.
Proof. intros E q. rewrite E, swap_lookup. case_decide; auto. Qed.

Lemma towards_differ b b' q :
  towards b b' -> differ all_opts (model a !! q) (model b' !! q) = true ->
  differ all_opts (model a !! q) (model b !! q) = true.
Proof. intros H. destruct (H q) as [->| ->]; [done|]. by rewrite differ_refl. Qed.

Lemma bad_towards b c b' c' : towards b b' -> towards c c' -> bad b' c' ⊆ bad b c.
Proof.
  intros Hb Hc q. rewrite !elem_of_bad. intros [H|H]; [left|right]; eapply towards_differ; eauto.
Qed.

Lemma bad_smaller b c b' c' p :
  towards b b' -> towards c c' -> p ∈ bad b c ->
  differ all_opts (model a !! p) (model b' !! p) = false ->
  differ all_opts (model a !! p) (model c' !! p) = false -> size (bad b' c') < size (bad b c).
Proof.
  intros Hb Hc Hp Eb Ec. apply subset_size. split; [by apply bad_towards|].
  intros H. specialize (H p Hp). rewrite elem_of_bad, Eb, Ec in H. by destruct H.
Qed.
End bad.

(** ** One difference *)

Lemma no_entry_below t p q :
  tree_inv t -> p <> "" -> is_dir_entry (model t !! p) = false -> within p q -> q <> p -> model t !! q = None.
Proof.
  intros Ht Hp Hd Hw Hne. destruct (model t !! q) as [e|] eqn:Hq; [|done].
  assert (Hg : good_path q = true) by (apply (inv_good_path t Ht); eauto).
  destruct (nothing_below t p q Ht) as [H _]; [|done|done|congruence].
  unfold is_dir_at. apply str_empty_false in Hp. rewrite Hp. exact Hd.
Qed.

(** only the entry at [p] changed, and not to or from a directory *)
Definition quiet (p : path) (b b' : DirectoryTree) : Prop :=
  (forall q, q <> p -> model b' !! q = model b !! q) /\
  (forall r, is_dir_at (model b') r = is_dir_at (model b) r).

Lemma quiet_refl p b : quiet p b b.
Proof. by split. Qed.

Lemma swap_quiet a b b' p :
  tree_inv a -> tree_inv b -> p <> "" -> is_dir_entry (model a !! p) = false ->
  is_dir_entry (model b !! p) = false -> model b' = swap (model a) p (model b) -> quiet p b b'.
Proof.
  intros Ha Hb Hp Da Db E.
  assert (Hq : forall q, q <> p -> model b' !! q = model b !! q).
  { intros q Hne. rewrite E, swap_lookup. case_decide as Hw; [|done].
    by rewrite (no_entry_below a p q), (no_entry_below b p q). }
  split; [done|]. intros r. unfold is_dir_at. f_equal. destruct (decide (r = p)) as [->|Hne]; [|by rewrite Hq].
  rewrite E, swap_lookup, decide_True by done. fold (is_dir_entry (model a !! p)).
  fold (is_dir_entry (model b !! p)). congruence.
Qed.

Section lines.
Context (a : DirectoryTree) (Ha : tree_inv a) (Hha : hashed a).

(** a path that [diff3] reports *)
Definition valid (b c : DirectoryTree) (p : path) : Prop :=
  present3 a b c p /\ (2 <=? dirs_at (model a) (model b) (model c) (parent_path p)) = true /\
  differ3 (model a) (model b) (model c) all_opts p = true.

Lemma valid_transitive b c p :
  hashed b -> differ all_opts (model a !! p) (model b !! p) = false ->
  differ all_opts (model a !! p) (model c !! p) = false ->
  differ all_opts (model b !! p) (model c !! p) = false.
Proof using Hha.
  intros Hb. destruct (model a !! p) as [x|] eqn:Ex, (model b !! p) as [y|] eqn:Ey, (model c !! p) as [z|] eqn:Ez;
    try done. cbn. intros Hxy%negb_false_iff Hxz%negb_false_iff. apply negb_false_iff.
  apply (hashed_transitive b a c all_opts (or_intror (conj Hb Hha)) p y x z Ey Ex Ez); [|done].
  by rewrite compare_sym.
Qed.

Lemma valid_cases b c p :
  tree_inv b -> tree_inv c -> hashed b -> valid b c p ->
  (differ all_opts (model a !! p) (model b !! p) = false /\ differ all_opts (model a !! p) (model c !! p) = true /\
    (is_Some (model a !! p) -> is_dir_at (model c) (parent_path p) = true)) \/
  (differ all_opts (model a !! p) (model b !! p) = true /\ differ all_opts (model a !! p) (model c !! p) = false /\
    (is_Some (model a !! p) -> is_dir_at (model b) (parent_path p) = true)) \/
  (differ all_opts (model a !! p) (model b !! p) = true /\ differ all_opts (model a !! p) (model c !! p) = true).
Proof using Ha Hha.
  intros Hb Hc Hhb (_ & _ & Hd).
  assert (Hpa : is_dir_at (model a) (parent_path p) = false -> model a !! p = None).
  { intros H. apply eq_None_not_Some. intros Hs. apply (present_parent a Ha) in Hs as [? _]. congruence. }
  assert (Hpb : is_dir_at (model b) (parent_path p) = false -> model b !! p = None).
  { intros H. apply eq_None_not_Some. intros Hs. apply (present_parent b Hb) in Hs as [? _]. congruence. }
  assert (Hpc : is_dir_at (model c) (parent_path p) = false -> model c !! p = None).
  { intros H. apply eq_None_not_Some. intros Hs. apply (present_parent c Hc) in Hs as [? _]. congruence. }
  pose proof (valid_transitive b c p Hhb) as Htr. unfold differ3 in Hd.
  destruct (is_dir_at (model a) (parent_path p)) eqn:Da; cbn [negb] in Hd; cycle 1.
  { rewrite Hpa in * by done.
    destruct (model b !! p), (model c !! p); cbn in *; [auto| | |done].
    - right. left. split_and!; [done|done|]. by intros [? ?].
    - left. split_and!; [done|done|]. by intros [? ?]. }
  destruct (is_dir_at (model b) (parent_path p)) eqn:Db; cbn [negb] in Hd; cycle 1.
  { rewrite Hpb in * by done.
    destruct (model a !! p); [auto|]. left. split_and!; [done|done|]. by intros [? ?]. }
  destruct (is_dir_at (model c) (parent_path p)) eqn:Dc; cbn [negb] in Hd; cycle 1.
  { rewrite Hpc in * by done. rewrite Hd. destruct (model a !! p); [auto|]. right. left. split_and!; auto. }
  destruct (differ all_opts (model a !! p) (model b !! p)), (differ all_opts (model a !! p) (model c !! p)); auto.
  by rewrite Htr in Hd by done.
Qed.

Abbreviation m1 s := (meta1Tree (tm s)).
Abbreviation m2 s := (meta2Tree (tm s)).
Abbreviation off t p := (differ all_opts (model a !! p) (model t !! p)).

(** a scrub of the directory [a] *)
Record watched (s : Session) : Prop := {
  h_dst : dstTree (tm s) = a;
  h_meta2 : meta2TreePresent (tm s) = true;
  h_inv1 : tree_inv (m1 s);
  h_inv2 : tree_inv (m2 s);
  h_hash1 : hashed (m1 s);
  h_hash2 : hashed (m2 s) }.

(** only the metadata trees changed, towards the directory *)
Record onward (s s' : Session) : Prop := {
  n_disk : disk s' = disk s;
  n_cin : cin s' = cin s;
  n_tm : tm s' = set_meta1Tree (m1 s') (set_meta2Tree (m2 s') (tm s));
  n_1 : towards a (m1 s) (m1 s');
  n_2 : towards a (m2 s) (m2 s');
  n_sort1 : tree_sorted (m1 s) -> tree_sorted (m1 s');
  n_sort2 : tree_sorted (m2 s) -> tree_sorted (m2 s') }.

Lemma onward_refl s : onward s s.
Proof. split; try done; [by destruct s as [[]]|apply towards_refl|apply towards_refl]. Qed.

Lemma onward_trans s1 s2 s3 : onward s1 s2 -> onward s2 s3 -> onward s1 s3.
Proof.
  intros [D1 C1 T1 A1 B1 ? ?] [D2 C2 T2 A2 B2 ? ?]. split; [congruence|congruence| | | |auto|auto].
  - rewrite T2, T1. cbn. by destruct (tm s1).
  - by eapply towards_trans.
  - by eapply towards_trans.
Qed.

(** a tree that took over the entry of the directory *)
Lemma fixed_entry b b' p :
  tree_inv b -> hashed b -> good_path p = true -> tree_inv b' -> model b' = swap (model a) p (model b) ->
  towards a b b' /\ hashed b' /\ off b' p = false /\
  (is_dir_entry (model a !! p) || is_dir_entry (model b !! p) = false -> quiet p b b').
Proof using Ha Hha.
  intros Hb Hh Hg Hb' E. split; [by eapply towards_swap|]. split; [by apply (hashed_swap a b b' p)|]. split.
  - rewrite E, swap_lookup, decide_True by done. apply differ_refl.
  - intros [Da Db]%orb_false_iff. apply (swap_quiet a); try done. by apply good_path_nonempty.
Qed.

(** the outcome of one difference *)
Definition stuck (p : path) (f f' : ScrubFlags) (s s' : Session) : Prop :=
  s' = s /\ off (m1 s) p = true /\ off (m2 s) p = true /\
  unrecoverable f' || maybeRecoverable f' = true /\ redo f' = redo f.

Definition fixed (p : path) (f f' : ScrubFlags) (s s' : Session) : Prop :=
  unrecoverable f' = unrecoverable f /\ maybeRecoverable f' = maybeRecoverable f /\
  off (m1 s') p = false /\ off (m2 s') p = false /\
  (redo f' = true \/ redo f' = redo f /\ quiet p (m1 s) (m1 s') /\ quiet p (m2 s) (m2 s')).

Lemma flag_result (b : bool) first f :
  redo (flag_metadata (either b (SuccessDiffMetadataInvalidated, SuccessMetadataInvalidated)) first f) = redo f || b.
Proof. by destruct b. Qed.

(** only the second metadata tree is off: it takes over all of the entry *)
Lemma scrubLine_second p f s :
  watched s -> good_path p = true -> off (m1 s) p = false -> off (m2 s) p = true ->
  (is_Some (model a !! p) -> is_dir_at (model (m2 s)) (parent_path p) = true) ->
  exists c', scrubLine false (model a !! p, model (m1 s) !! p, model (m2 s) !! p) f s =
      (Ok (flag_metadata (either (is_dir_entry (model a !! p) || is_dir_entry (model (m2 s) !! p))
             (SuccessDiffMetadataInvalidated, SuccessMetadataInvalidated)) false f),
       mkSession (set_meta2Tree c' (tm s)) (disk s) (cin s)) /\
    tree_inv c' /\ model c' = swap (model a) p (model (m2 s)) /\ (tree_sorted (m2 s) -> tree_sorted c').
Proof using Ha.
  intros [Hdst Hp2 _ H2 _ _] Hg E1 E2 Hpar.
  destruct (fixMetadataEntry_ok a (m2 s) p Ha H2 Hg Hpar) as (c' & E & Hinv & Hm & Hso).
  exists c'. split; [|done]. unfold scrubLine. rewrite !entry_eqb_differ, E1, E2. cbn [negb andb].
  unfold mbind, method_bind, checkMeta2Tree, get_state, in_meta2, cassert. rewrite Hp2, Hdst, E. done.
Qed.

Lemma scrubLine_ok p f s :
  watched s -> valid (m1 s) (m2 s) p ->
  exists f' s', scrubLine false (model a !! p, model (m1 s) !! p, model (m2 s) !! p) f s = (Ok f', s') /\
    watched s' /\ onward s s' /\ (stuck p f f' s s' \/ fixed p f f' s s').
Proof using Ha Hha.
  intros Hw Hv. pose proof Hw as [Hdst Hp2 H1 H2 Hh1 Hh2].
  assert (Hg : good_path p = true) by (by apply (present3_path a (m1 s) (m2 s) Ha H1 H2 p), Hv).
  destruct (valid_cases (m1 s) (m2 s) p H1 H2 Hh1 Hv) as [(E1 & E2 & Hpar)|Hcase].
  { destruct (scrubLine_second p f s Hw Hg E1 E2 Hpar) as (c' & E & Hinv & Hm & Hso).
    destruct (fixed_entry (m2 s) c' p H2 Hh2 Hg Hinv Hm) as (Htow & Hh' & Hoff & Hquiet).
    eexists _, (mkSession (set_meta2Tree c' (tm s)) (disk s) (cin s)). split; [exact E|].
    split; [by split|]. split; [split; try done; first [by destruct s as [[]]|apply towards_refl]|].
    right. split_and!; [done|done|done|done|]. rewrite flag_result. cbn.
    destruct (is_dir_entry (model a !! p) || is_dir_entry (model (m2 s) !! p)); [left; apply orb_true_r|].
    right. rewrite orb_false_r. split; [done|]. split; [apply quiet_refl|by apply Hquiet]. }
  unfold scrubLine. rewrite !entry_eqb_differ, !negb_involutive.
  destruct Hcase as [(E1 & E2 & Hpar)|[E1 E2]]; rewrite E1, E2; cbn [negb andb].
  - destruct (fixMetadataEntry_ok a (m1 s) p Ha H1 Hg Hpar) as (b' & E & Hinv & Hm & Hso).
    destruct (fixed_entry (m1 s) b' p H1 Hh1 Hg Hinv Hm) as (Htow & Hh' & Hoff & Hquiet).
    eexists _, (mkSession (set_meta1Tree b' (tm s)) (disk s) (cin s)). split.
    { unfold mbind, method_bind, get_state, in_meta1. rewrite Hdst, E. done. }
    split; [by split|]. split; [split; try done; first [by destruct s as [[]]|apply towards_refl]|].
    right. split_and!; [done|done|done|done|]. rewrite flag_result. cbn.
    destruct (is_dir_entry (model a !! p) || is_dir_entry (model (m1 s) !! p)); [left; apply orb_true_r|].
    right. rewrite orb_false_r. split; [done|]. split; [by apply Hquiet|apply quiet_refl].
  - rewrite !andb_true_r. destruct (differ all_opts (model (m1 s) !! p) (model (m2 s) !! p)) eqn:E3; cbn [negb andb].
    + eexists _, s. split; [done|]. split; [done|]. split; [apply onward_refl|]. left. by split_and!.
    + eexists _, s. split; [done|]. split; [done|]. split; [apply onward_refl|]. left.
      split_and!; try done. apply orb_true_r.
Qed.

(** ** All differences of one round *)

Definition line3_of (l1 l2 : gmap path FilesystemElement) (p : path) : DirectoryDiffLine3 :=
  (model a !! p, l1 !! p, l2 !! p).

Lemma valid_quiet b b' c c' p q :
  quiet p b b' -> quiet p c c' -> q <> p -> valid b c q -> valid b' c' q.
Proof.
  intros [Hb Db] [Hc Dc] Hne. unfold valid, present3, dirs_at, differ3. cbn [List.filter].
  rewrite !Hb, !Hc, !Db, !Dc by done.
  by destruct (is_dir_at (model a) _), (is_dir_at (model b) _), (is_dir_at (model c) _).
Qed.

Lemma valid_bad b c p : tree_inv b -> tree_inv c -> hashed b -> valid b c p -> p ∈ bad a b c.
Proof using Ha Hha.
  intros Hb Hc Hh Hv. apply elem_of_bad.
  destruct (valid_cases b c p Hb Hc Hh Hv) as [(_ & ? & _)|[(? & _)|[? _]]]; auto.
Qed.

Definition flagged (f : ScrubFlags) : bool := unrecoverable f || maybeRecoverable f.

(** a round that starts again has repaired an entry *)
Definition again (f' : ScrubFlags) (s s' : Session) : Prop :=
  redo f' = true /\ size (bad a (m1 s') (m2 s')) < size (bad a (m1 s) (m2 s)).

(** a round that ends has repaired what it did not flag, without a directory *)
Definition ended (P : list path) (f f' : ScrubFlags) (s s' : Session) : Prop :=
  redo f' = false /\
  (forall r, is_dir_at (model (m1 s')) r = is_dir_at (model (m1 s)) r /\
             is_dir_at (model (m2 s')) r = is_dir_at (model (m2 s)) r) /\
  (forall q, q ∉ P -> model (m1 s') !! q = model (m1 s) !! q /\ model (m2 s') !! q = model (m2 s) !! q) /\
  (flagged f' = false -> flagged f = false /\ forall p, p ∈ P -> off (m1 s') p = false /\ off (m2 s') p = false).

(** the flags come from an entry on which both metadata trees are off *)
Definition justified (f f' : ScrubFlags) (s : Session) : Prop :=
  flagged f' = true -> flagged f = true \/ exists p, off (m1 s) p = true /\ off (m2 s) p = true.

Lemma justified_onward f f1 f' s s1 :
  onward s s1 -> justified f f1 s -> justified f1 f' s1 -> justified f f' s.
Proof.
  intros [_ _ _ T1 T2 _ _] H1 H2 Hf. destruct (H2 Hf) as [Hf1|(p & E1 & E2)]; [by apply H1|].
  right. exists p. split; eapply towards_differ; eauto.
Qed.

Lemma fixed_justified p f f' s s' : fixed p f f' s s' -> justified f f' s.
Proof. intros (E1 & E2 & _) Hf. left. unfold flagged in *. by rewrite <-E1, <-E2. Qed.

Lemma ended_stuck p R f f1 f' s s' :
  stuck p f f1 s s -> p ∉ R -> ended R f1 f' s s' -> ended (p :: R) f f' s s'.
Proof.
  intros (_ & _ & _ & Hf1 & _) Hp (Hr & Hd & Hq & Hfl). split; [done|]. split; [done|]. split.
  - intros q [_ Hn]%not_elem_of_cons. by apply Hq.
  - intros Hf. destruct (Hfl Hf) as [E _]. unfold flagged in E. congruence.
Qed.

Lemma ended_fixed p R f f1 f' s s1 s' :
  fixed p f f1 s s1 -> quiet p (m1 s) (m1 s1) -> quiet p (m2 s) (m2 s1) -> p ∉ R ->
  ended R f1 f' s1 s' -> ended (p :: R) f f' s s'.
Proof.
  intros (F1 & F2 & O1 & O2 & _) [Q1 D1] [Q2 D2] Hp (Hr & Hd & Hq & Hfl). split; [done|]. split; [|split].
  - intros r. by rewrite !(proj1 (Hd r)), !(proj2 (Hd r)), D1, D2.
  - intros q [Hne Hn]%not_elem_of_cons. destruct (Hq q Hn) as [-> ->]. auto.
  - intros Hf. destruct (Hfl Hf) as [E Hall]. split; [unfold flagged in *; by rewrite <-F1, <-F2|].
    intros q [->|Hin]%elem_of_cons; [|by apply Hall]. destruct (Hq p Hp) as [-> ->]. done.
Qed.

Lemma scrubLines_ok P : forall l1 l2 f s,
  watched s -> NoDup P -> redo f = false ->
  (forall p, p ∈ P -> valid (m1 s) (m2 s) p /\ model (m1 s) !! p = l1 !! p /\ model (m2 s) !! p = l2 !! p) ->
  exists f' s', scrubLines false (line3_of l1 l2 <$> P) f s = (Ok f', s') /\ watched s' /\ onward s s' /\
    justified f f' s /\ (again f' s s' \/ ended P f f' s s').
Proof using Ha Hha.
  induction P as [|p R IH]; intros l1 l2 f s Hw Hnd Hrd HP.
  { exists f, s. split; [done|]. split; [done|]. split; [apply onward_refl|]. split; [by left|]. right.
    split_and!; try done. intros Hf. split; [done|]. by intros ? ?%not_elem_of_nil. }
  apply NoDup_cons in Hnd as [Hp Hnd].
  destruct (HP p (list_elem_of_here _ _)) as (Hv & E1 & E2).
  destruct (scrubLine_ok p f s Hw Hv) as (f1 & s1 & E & Hw1 & Hon & Hcase). rewrite E1, E2 in E.
  assert (Erun : scrubLines false (line3_of l1 l2 <$> p :: R) f s =
    if redo f1 then (Ok f1, s1) else scrubLines false (line3_of l1 l2 <$> R) f1 s1).
  { rewrite fmap_cons. cbn [scrubLines]. unfold mbind, method_bind, line3_of at 1. rewrite E. by destruct (redo f1). }
  rewrite Erun. clear Erun. destruct Hcase as [Hst|Hfx].
  - pose proof Hst as (-> & O1 & O2 & Hf1 & ->). rewrite Hrd.
    destruct (IH l1 l2 f1 s Hw Hnd) as (f' & s' & E' & Hw' & Hon' & Hj & Hres).
    { by destruct Hst as (_ & _ & _ & _ & ->). }
    { intros q Hq. by apply HP, list_elem_of_further. }
    exists f', s'. split; [done|]. split; [done|]. split; [done|]. split; [by right; exists p|].
    destruct Hres as [|Hend]; [by left|]. right. by eapply ended_stuck.
  - pose proof (fixed_justified _ _ _ _ _ Hfx) as Hj. pose proof Hfx as (_ & _ & O1 & O2 & Hq).
    destruct (redo f1) eqn:Hr1.
    { exists f1, s1. split; [done|]. split; [done|]. split; [done|]. split; [done|]. left. split; [done|].
      destruct Hw as [_ _ I1 I2 Hh1 _]. eapply bad_smaller; [apply Hon|apply Hon| |done|done].
      by apply valid_bad. }
    destruct Hq as [|(_ & Q1 & Q2)]; [done|].
    destruct (IH l1 l2 f1 s1 Hw1 Hnd Hr1) as (f' & s' & E' & Hw' & Hon' & Hj' & Hres).
    { intros q Hin. destruct (HP q (list_elem_of_further _ _ _ Hin)) as (Hvq & <- & <-).
      assert (Hne : q <> p) by (by intros ->).
      split; [by apply (valid_quiet (m1 s) (m1 s1) (m2 s) (m2 s1) p)|].
      destruct Q1 as [Q1 _], Q2 as [Q2 _]. auto. }
    exists f', s'. split; [done|]. split; [done|]. split; [by eapply onward_trans|].
    split; [by eapply justified_onward|]. destruct Hres as [[Hr Hsz]|Hend].
    + left. split; [done|]. eapply Nat.lt_le_trans; [done|]. apply subseteq_size, bad_towards; apply Hon.
    + right. by eapply ended_fixed.
Qed.

(** ** Rounds *)

Definition complete (P : list path) (b c : DirectoryTree) : Prop :=
  NoDup P /\ forall q, q ∈ P <-> valid b c q.

Context (order : gset string -> list string) (Horder : forall x : gset string, order x ≡ₚ elements x).

Lemma reported b c q :
  q ∈ List.filter (fun q => (2 <=? dirs_at (model a) (model b) (model c) (parent_path q)) &&
      differ3 (model a) (model b) (model c) all_opts q) (elements (dom (model a) ∪ dom (model b) ∪ dom (model c)))
  <-> valid b c q.
Proof using Type.
  rewrite elem_of_filter_bool, elem_of_elements, !elem_of_union, !elem_of_dom, andb_true_iff.
  unfold valid, present3. split; intros (H & ? & ?); (split; [|done]); tauto.
Qed.

Lemma diff3_paths b c :
  tree_inv b -> tree_inv c ->
  (forall q x y z, model a !! q = Some x -> model b !! q = Some y -> model c !! q = Some z ->
     compare x y all_opts = true -> compare y z all_opts = true -> compare x z all_opts = true) ->
  exists P, diff3 order a b c all_opts = Ok (line3_of (model b) (model c) <$> P) /\ complete P b c.
Proof using Ha Horder.
  intros Hb Hc Htr. destruct (diff3_reference order Horder a b c Ha Hb Hc all_opts Htr) as (r & E & Hr).
  unfold reference3 in Hr. apply Permutation_map_inv in Hr as (P & -> & HP).
  exists P. split; [exact E|]. split.
  - rewrite <-HP. apply NoDup_filter_bool, NoDup_elements.
  - intros q. rewrite <-HP. apply reported.
Qed.

Lemma compareTrees_ok s :
  watched s -> exists P, compareTrees order s = (Ok (line3_of (model (m1 s)) (model (m2 s)) <$> P), s) /\
    complete P (m1 s) (m2 s).
Proof using Ha Hha Horder.
  intros [Hdst Hp I1 I2 Hh1 _]. destruct (diff3_paths (m1 s) (m2 s) I1 I2) as (P & E & HP);
    [apply hashed_transitive; by right|].
  exists P. split; [|done]. unfold compareTrees, mbind, method_bind, checkMeta2Tree, get_state, lift_outcome, cassert.
  by rewrite Hp, Hdst, E.
Qed.

Lemma agreed b c :
  tree_inv b -> tree_inv c -> hashed b -> (forall q, ~ valid b c q) ->
  agree all_opts (model a) (model b) /\ agree all_opts (model a) (model c).
Proof using Ha Hha.
  intros Hb Hc Hh Hno.
  assert (Hnil : reference3 (model a) (model b) (model c) all_opts = []).
  { unfold reference3. destruct (List.filter _ _) as [|q l] eqn:E; [done|]. exfalso.
    apply (Hno q), reported. rewrite E. apply list_elem_of_here. }
  apply (reference3_nil a b c all_opts Ha Hb Hc) in Hnil as [Hab Hbc]. split; [done|].
  intros q. specialize (Hab q). specialize (Hbc q).
  destruct (model a !! q) as [x|] eqn:Ex, (model b !! q) as [y|] eqn:Ey, (model c !! q) as [z|] eqn:Ez; try done.
  cbn in *. apply negb_false_iff in Hab, Hbc. apply negb_false_iff.
  by apply (hashed_transitive a b c all_opts (or_intror (conj Hha Hh)) q x y z).
Qed.

Lemma ended_agrees P f f' s s' :
  watched s' -> complete P (m1 s) (m2 s) -> ended P f f' s s' -> flagged f' = false ->
  agree all_opts (model a) (model (m1 s')) /\ agree all_opts (model a) (model (m2 s')).
Proof using Ha Hha.
  intros [_ _ I1 I2 Hh1 Hh2] [_ HP] (_ & Hd & Hq & Hfl) Hf. destruct (Hfl Hf) as [_ Hall].
  apply agreed; [done..|]. intros q Hv. destruct (decide (q ∈ P)) as [Hin|Hin].
  - destruct (Hall q Hin) as [O1 O2].
    destruct (valid_cases (m1 s') (m2 s') q I1 I2 Hh1 Hv) as [(_ & ? & _)|[(? & _)|[? _]]]; congruence.
  - apply Hin, HP. destruct (Hq q Hin) as [E1 E2]. destruct (Hd (parent_path q)) as [D1 D2].
    revert Hv. unfold valid, present3, dirs_at, differ3. cbn [List.filter]. rewrite E1, E2, D1, D2.
    by destruct (is_dir_at (model a) _), (is_dir_at (model (m1 s)) _), (is_dir_at (model (m2 s)) _).
Qed.

Lemma scrubRounds_ok n : forall P f s,
  watched s -> redo f = false -> complete P (m1 s) (m2 s) -> size (bad a (m1 s) (m2 s)) < n ->
  exists f' s', scrubRounds order n false (line3_of (model (m1 s)) (model (m2 s)) <$> P) f s = (Ok f', s') /\
    watched s' /\ onward s s' /\ justified f f' s /\
    (flagged f' = false -> agree all_opts (model a) (model (m1 s')) /\ agree all_opts (model a) (model (m2 s'))).
Proof using Ha Hha Horder.
  induction n as [|n IH]; intros P f s Hw Hr HP Hn; [lia|].
  destruct (scrubLines_ok P (model (m1 s)) (model (m2 s)) f s Hw (proj1 HP) Hr) as
    (f1 & s1 & E & Hw1 & Hon & Hj & Hres); [intros p Hp; split; [by apply HP|done]|].
  cbn [scrubRounds]. unfold mbind at 1, method_bind at 1. rewrite E.
  destruct Hres as [[Hr1 Hsz]|Hend].
  - rewrite Hr1. destruct (compareTrees_ok s1 Hw1) as (P1 & E1 & HP1).
    unfold mbind at 1, method_bind at 1. rewrite E1.
    set (f2 := mkFlags (unrecoverable f1) (maybeRecoverable f1) false (updateMeta1 f1) (updateMeta2 f1)).
    destruct (IH P1 f2 s1 Hw1 eq_refl HP1) as (f' & s' & E' & Hw' & Hon' & Hj' & Hag); [lia|].
    exists f', s'. split; [done|]. split; [done|]. split; [by eapply onward_trans|]. split; [|done].
    by apply (justified_onward f f2 f' s s1).
  - pose proof Hend as [Hr1 _]. rewrite Hr1. exists f1, s1. split; [done|]. split; [done|]. split; [done|].
    split; [done|]. by apply (ended_agrees P f f1 s).
Qed.

(** what a scrub without --fixup returns and leaves *)
Inductive verdict (s s' : Session) : Z -> Prop :=
  | v_clean :
      s' = s -> agree all_opts (model a) (model (m1 s)) -> agree all_opts (model a) (model (m2 s)) ->
      verdict s s' 0
  | v_reconciled :
      agree all_opts (model a) (model (m1 s')) -> agree all_opts (model a) (model (m2 s')) ->
      save (tm s') = true -> verdict s s' 1
  | v_unrecovered p :
      off (m1 s) p = true -> off (m2 s) p = true -> save (tm s') = save (tm s) -> verdict s s' 2.

(** nothing but the metadata trees changed, each towards the directory *)
Record spared (s s' : Session) : Prop := {
  sp_watched : watched s';
  sp_disk : disk s' = disk s;
  sp_cin : cin s' = cin s;
  sp_src : srcTree (tm s') = srcTree (tm s);
  sp_meta1 : meta1 (tm s') = meta1 (tm s);
  sp_meta2 : meta2 (tm s') = meta2 (tm s);
  sp_1 : towards a (m1 s) (m1 s');
  sp_2 : towards a (m2 s) (m2 s');
  sp_sort1 : tree_sorted (m1 s) -> tree_sorted (m1 s');
  sp_sort2 : tree_sorted (m2 s) -> tree_sorted (m2 s') }.

Lemma finished_ok f s s' :
  watched s' -> onward s s' -> justified no_flags f s ->
  (flagged f = false -> agree all_opts (model a) (model (m1 s')) /\ agree all_opts (model a) (model (m2 s'))) ->
  exists code s'',
    (if negb (unrecoverable f) && negb (maybeRecoverable f) then
       _ ← change saveMetadataOnExit;
       _ ← (if updateMeta1 f then change saveMeta1PreviousVersion else mret tt);
       _ ← (if updateMeta2 f then change saveMeta2PreviousVersion else mret tt);
       mret 1%Z
     else mret 2%Z) s' = (Ok code, s'') /\ spared s s'' /\ verdict s s'' code.
Proof using Type.
  intros [W1 W2 W3 W4 W5 W6] [N1 N2 N3 N4 N5 N6 N7] Hj Hag. rewrite <-negb_orb. fold (flagged f).
  destruct (flagged f) eqn:Hf; cbn [negb].
  - exists 2%Z, s'. split; [done|]. split; [split; try done; by rewrite N3|].
    destruct (Hj Hf) as [[=]|(p & O1 & O2)]. apply (v_unrecovered s s' p); [done|done|]. by rewrite N3.
  - destruct (Hag eq_refl) as [A1 A2]. exists 1%Z.
    destruct (updateMeta1 f), (updateMeta2 f); eexists; (split; [reflexivity|]);
      (split; [split; [split|..]|apply v_reconciled]); try done; cbn; by rewrite N3.
Qed.

Lemma scrubImpl_ok rounds s :
  watched s -> size (bad a (m1 s) (m2 s)) < rounds ->
  exists code s', scrubImpl order rounds false s = (Ok code, s') /\ spared s s' /\ verdict s s' code.
Proof using Ha Hha Horder.
  intros Hw Hn. destruct (compareTrees_ok s Hw) as (P & E & HP).
  unfold scrubImpl. unfold mbind at 1, method_bind at 1. rewrite E.
  destruct (line3_of (model (m1 s)) (model (m2 s)) <$> P) as [|l ls] eqn:EP.
  { exists 0%Z, s. split; [done|]. split; [split; try done; apply towards_refl|].
    apply fmap_nil_inv in EP as ->. destruct HP as [_ HP].
    destruct (agreed (m1 s) (m2 s)) as [? ?]; [apply Hw..| |by constructor].
    intros q Hq%HP. by apply not_elem_of_nil in Hq. }
  rewrite <-EP. destruct (scrubRounds_ok rounds P no_flags s Hw eq_refl HP Hn) as (f & s' & E' & Hw' & Hon & Hj & Hag).
  unfold mbind at 1, method_bind at 1. rewrite E'. by apply finished_ok.
Qed.

(** a repair that invalidates the differences starts a new round *)
Lemma scrubRounds_redo n d rest f f1 s s1 ls :
  scrubLine false d f s = (Ok f1, s1) -> redo f1 = true -> compareTrees order s1 = (Ok ls, s1) ->
  scrubRounds order (S n) false (d :: rest) f s = scrubRounds order n false ls
    (mkFlags (unrecoverable f1) (maybeRecoverable f1) false (updateMeta1 f1) (updateMeta2 f1)) s1.
Proof using Type.
  intros E Hr Ec. cbn [scrubRounds scrubLines]. unfold mbind, method_bind. rewrite E, Hr.
  unfold mret, method_ret. by rewrite Hr, Ec.
Qed.

(** the first difference is a directory on which the second metadata tree is off *)
Lemma scrubImpl_takes_over n s g x b rest :
  watched s -> size (bad a (m1 s) (m2 s)) < n ->
  diff3 order a (m1 s) (m2 s) all_opts = Ok ((Some g, Some x, Some b) :: rest) ->
  elem_eqb g x = true -> elem_eqb g b = false -> isDirectory g = true ->
  (forall q, ~ within (rp g) q -> off (m2 s) q = false) ->
  exists s', scrubImpl order n false s = (Ok 1%Z, s') /\ disk s' = disk s /\ cin s' = cin s /\
    dstTree (tm s') = a /\ save (tm s') = true /\
    agree all_opts (model a) (model (m1 s')) /\ agree all_opts (model a) (model (m2 s')).
Proof using Ha Hha Horder.
  intros Hw Hn Ediff Egx Egb Hdir Hout. destruct (compareTrees_ok s Hw) as (P & E & Hnd & HP).
  pose proof Hw as [Hdst Hp2 I1 I2 Hh1 Hh2].
  assert (EP : line3_of (model (m1 s)) (model (m2 s)) <$> P = (Some g, Some x, Some b) :: rest).
  { revert E. unfold compareTrees, mbind, method_bind, checkMeta2Tree, get_state, lift_outcome, cassert.
    rewrite Hp2, Hdst, Ediff. congruence. }
  destruct P as [|p R]; [done|]. cbn [fmap list_fmap] in EP. unfold line3_of at 1 in EP. injection EP as Hg Hx Hb Erest.
  assert (Hv : valid (m1 s) (m2 s) p) by (apply HP; left).
  assert (Egp : rp g = p) by (by destruct (inv_model a Ha p g Hg) as (_ & _ & _ & _ & ?)). rewrite Egp in Hout.
  assert (O1 : off (m1 s) p = false) by (rewrite Hg, Hx; cbn; by rewrite compare_all_opts, Egx).
  assert (O2 : off (m2 s) p = true) by (rewrite Hg, Hb; cbn; by rewrite compare_all_opts, Egb).
  destruct (valid_cases (m1 s) (m2 s) p I1 I2 Hh1 Hv) as [(_ & _ & Hpar)|[[? _]|[? _]]]; [|congruence..].
  assert (Hgp : good_path p = true) by (apply (inv_good_path a Ha); eauto).
  destruct (scrubLine_second p no_flags s Hw Hgp O1 O2 Hpar) as (c' & El & Ic & Hm & _).
  destruct (fixed_entry (m2 s) c' p I2 Hh2 Hgp Ic Hm) as (Htow & Hhc & _).
  rewrite Hg in El. cbn [is_dir_entry orb] in El. rewrite Hdir in El. cbn [orb either] in El.
  set (s1 := mkSession (set_meta2Tree c' (tm s)) (disk s) (cin s)) in *.
  assert (Hw1 : watched s1) by (by split).
  assert (Hoff : forall q, off (m2 s1) q = false).
  { intros q. cbn. rewrite Hm, swap_lookup. case_decide; [apply differ_refl|by apply Hout]. }
  destruct n as [|n]; [lia|]. destruct (compareTrees_ok s1 Hw1) as (P1 & E1 & HP1).
  destruct (scrubRounds_ok n P1 (mkFlags false false false false true) s1 Hw1 eq_refl HP1) as (f' & s' & E' & Hw' & Hon & Hj & Hag).
  { eapply Nat.lt_le_trans; [apply (bad_smaller a (m1 s) (m2 s) (m1 s1) (m2 s1) p)|lia];
      [apply towards_refl|done|apply elem_of_bad; by right|done|apply Hoff]. }
  assert (Hf : flagged f' = false).
  { apply not_true_iff_false. intros Hf. destruct (Hj Hf) as [?|(q & _ & ?)]; [done|]. by rewrite Hoff in *. }
  destruct (Hag Hf) as [A1 A2]. unfold scrubImpl. unfold mbind at 1, method_bind at 1. rewrite E, fmap_cons. unfold line3_of at 1.
  rewrite Hg. unfold mbind at 1, method_bind at 1. rewrite (scrubRounds_redo n _ _ _ _ s s1 _ El eq_refl E1).
  cbn [flag_metadata unrecoverable maybeRecoverable updateMeta1 updateMeta2 no_flags orb negb]. rewrite E'.
  apply orb_false_iff in Hf as [-> ->]. cbn [negb andb]. destruct Hon as [D C _ _ _ _ _], Hw' as [W _ _ _ _ _].
  destruct (updateMeta1 f'), (updateMeta2 f'); (eexists; split; [reflexivity|]); by split_and!.
Qed.

(** the directory agrees with both metadata trees, which do not agree *)
Lemma scrubImpl_aborts n fixup s q :
  dstTree (tm s) = a -> meta2TreePresent (tm s) = true -> tree_inv (m1 s) -> tree_inv (m2 s) ->
  every (fun e => fileHash e = "") (model a) ->
  agree all_opts (model a) (model (m1 s)) -> agree all_opts (model a) (model (m2 s)) ->
  differ all_opts (model (m1 s) !! q) (model (m2 s) !! q) = true ->
  scrubImpl order (S n) fixup s = (Err (AssertFailed "scrubImpl: false"), s).
Proof using Ha Horder.
  intros Hdst P2 I1 I2 Hh A1 A2 Hq. destruct (diff3_paths (m1 s) (m2 s) I1 I2) as (P & E & Hnd & HP).
  { intros p x y z Hx _ _. apply compare_trans. right. right. exact (Hh p x Hx). }
  destruct P as [|p R].
  { assert (Hnil : reference3 (model a) (model (m1 s)) (model (m2 s)) all_opts = []).
    { unfold reference3. destruct (List.filter _ _) as [|r l] eqn:Ef; [done|]. exfalso.
      apply (not_elem_of_nil r), HP, reported. rewrite Ef. left. }
    apply (reference3_nil a (m1 s) (m2 s) all_opts Ha I1 I2) in Hnil as [_ H]. specialize (H q). congruence. }
  unfold scrubImpl. unfold mbind at 1, method_bind at 1, compareTrees at 1.
  unfold mbind, method_bind, checkMeta2Tree, get_state, lift_outcome at 1, cassert. rewrite P2, Hdst, E, fmap_cons.
  cbn [scrubRounds scrubLines]. unfold mbind, method_bind, line3_of at 1.
  rewrite scrubLine_aborts; [done|rewrite entry_eqb_differ; by rewrite A1|rewrite entry_eqb_differ; by rewrite A2].
Qed.

(** a scrub of trees that agree *)
Lemma scrubImpl_clean rounds s :
  watched s -> agree all_opts (model a) (model (m1 s)) -> agree all_opts (model a) (model (m2 s)) ->
  scrubImpl order rounds false s = (Ok 0%Z, s).
Proof using Ha Hha Horder.
  intros Hw A1 A2. destruct (compareTrees_ok s Hw) as (P & E & _ & HP).
  unfold scrubImpl, mbind, method_bind. rewrite E. destruct P as [|p P]; [done|].
  destruct Hw as [_ _ I1 I2 Hh1 _]. specialize (A1 p). specialize (A2 p).
  destruct (valid_cases (m1 s) (m2 s) p I1 I2 Hh1) as [(_ & ? & _)|[(? & _)|[? _]]]; [|congruence..].
  apply HP, list_elem_of_here.
Qed.
End lines.
