(* ===== verification/QuickSpec.v ===== *)
(** * Scrubbing without hashes

    A backup that omits hashes scans both directories without them, while the
    metadata files have them. Where the two metadata trees agree, the scrub before
    such a backup accepts the directory exactly if it has the files of the metadata,
    hashes aside; otherwise it refuses. *)

From S2P Require Import Prelude CxxPath CxxTime CxxStream Element Node Tree TreeInv TreeOps TreeCopy TreeIO TreeLoad Diff DiffSpec Diff3Spec FileSystem TreeFs SyncOps Backup BackupSpec BackupRun Scrub ScrubSpec.

Definition unhashed (t : DirectoryTree) : Prop := every (fun e => fileHash e = "") (model t).

(** an element without hash *)
Lemma unhashed_compare x y z :
  fileHash x = "" -> compare y z all_opts = true -> compare x y all_opts = compare x z all_opts.
Proof.
  intros Hx Hyz. apply eq_true_iff_eq. split; intros H.
  - apply (compare_trans x y z); [right; by right|done|done].
  - apply (compare_trans x z y); [right; by right|done|by rewrite compare_sym].
Qed.

Section quick.
Context (a : DirectoryTree) (Ha : tree_inv a) (Hu : unhashed a).
Context (order : gset string -> list string) (Horder : forall x : gset string, order x ≡ₚ elements x).

Abbreviation m1 s := (meta1Tree (tm s)).
Abbreviation m2 s := (meta2Tree (tm s)).

(** a scrub of the directory [a], which was scanned without hashes *)
Record unread (s : Session) : Prop := {
  x_dst : dstTree (tm s) = a;
  x_meta2 : meta2TreePresent (tm s) = true;
  x_inv1 : tree_inv (m1 s);
  x_inv2 : tree_inv (m2 s);
  x_agree : agree all_opts (model (m1 s)) (model (m2 s)) }.

Lemma differ_alike s p :
  unread s -> differ all_opts (model a !! p) (model (m1 s) !! p) = differ all_opts (model a !! p) (model (m2 s) !! p).
Proof using Hu.
  intros [_ _ _ _ Hag]. specialize (Hag p). destruct (model a !! p) as [x|] eqn:Hx; cycle 1.
  { by destruct (model (m1 s) !! p), (model (m2 s) !! p). }
  destruct (model (m1 s) !! p) as [y|], (model (m2 s) !! p) as [z|]; try done. cbn in *.
  apply negb_false_iff in Hag. f_equal. apply unhashed_compare; [exact (Hu p x Hx)|done].
Qed.

(** what is reported is a difference between directory and metadata *)
Lemma valid_unread s p :
  unread s -> valid a (m1 s) (m2 s) p -> differ all_opts (model a !! p) (model (m1 s) !! p) = true.
Proof using Type.
  intros [_ _ _ _ Hag] (_ & Hdirs & Hd). pose proof (Hag p) as Hp.
  pose proof (is_dir_at_agree all_opts (model (m1 s)) (model (m2 s)) (parent_path p) (Hag _)) as Hpar.
  unfold differ3 in Hd. unfold dirs_at in Hdirs. cbn [List.filter] in Hdirs. rewrite <-Hpar, Hp, orb_false_r in *.
  by destruct (is_dir_at (model a) _), (is_dir_at (model (m1 s)) _).
Qed.

Lemma compareTrees_unread s :
  unread s -> exists P, compareTrees order s = (Ok (line3_of a (model (m1 s)) (model (m2 s)) <$> P), s) /\
    complete a P (m1 s) (m2 s).
Proof using Ha Hu Horder.
  intros [Hdst Hp I1 I2 _]. destruct (diff3_paths a Ha order Horder (m1 s) (m2 s) I1 I2) as (P & E & HP).
  { intros q x y z Hx _ _. apply compare_trans. right. right. exact (Hu q x Hx). }
  exists P. split; [|done]. unfold compareTrees, mbind, method_bind, checkMeta2Tree, get_state, lift_outcome, cassert.
  by rewrite Hp, Hdst, E.
Qed.

Lemma scrubLines_unread s P f :
  unread s -> (forall p, p ∈ P -> differ all_opts (model a !! p) (model (m1 s) !! p) = true) -> redo f = false ->
  exists f', scrubLines false (line3_of a (model (m1 s)) (model (m2 s)) <$> P) f s = (Ok f', s) /\ redo f' = false /\
    (maybeRecoverable f = true \/ P <> [] -> maybeRecoverable f' = true).
Proof using Hu.
  intros Hs. revert f. induction P as [|p P IH]; intros f HP Hr.
  { exists f. split; [done|]. split; [done|]. by intros [?|?]. }
  pose proof (HP p (list_elem_of_here _ _)) as Hd. pose proof (differ_alike s p Hs) as Hd'.
  destruct (IH (mkFlags (unrecoverable f) true (redo f) (updateMeta1 f) (updateMeta2 f))) as (f' & E & Hr' & Hf').
  { intros q Hq. by apply HP, list_elem_of_further. }
  { done. }
  exists f'. split; [|split; [done|auto]]. rewrite fmap_cons. cbn [scrubLines]. unfold mbind, method_bind.
  unfold line3_of at 1, scrubLine. rewrite !entry_eqb_differ, <-Hd', Hd, (x_agree s Hs p). cbn [negb andb].
  unfold mret, method_ret. cbn [redo]. rewrite Hr. rewrite Hr in E. exact E.
Qed.

(** The scrub returns 0 if the directory agrees with the metadata, and 2 if not;
    nothing is changed. *)
Lemma scrubImpl_unread s rounds :
  unread s -> 0 < rounds ->
  exists code, scrubImpl order rounds false s = (Ok code, s) /\
    (code = 0%Z /\ agree all_opts (model a) (model (m1 s)) \/
     code = 2%Z /\ exists p, differ all_opts (model a !! p) (model (m1 s) !! p) = true).
Proof using Ha Hu Horder.
  intros Hs Hn. destruct (compareTrees_unread s Hs) as (P & E & HP). unfold scrubImpl. unfold mbind at 1, method_bind at 1.
  rewrite E. destruct (line3_of a (model (m1 s)) (model (m2 s)) <$> P) as [|l ls] eqn:EP.
  - exists 0%Z. split; [done|]. left. split; [done|]. apply fmap_nil_inv in EP as ->. destruct HP as [_ HP].
    destruct Hs as [_ _ I1 I2 _]. refine (proj1 (proj1 (reference3_nil a (m1 s) (m2 s) all_opts Ha I1 I2) _)).
    unfold reference3. destruct (List.filter _ _) as [|q k] eqn:Eq; [done|]. exfalso.
    apply (not_elem_of_nil q), HP, reported. rewrite Eq. apply list_elem_of_here.
  - rewrite <-EP. destruct P as [|p P]; [done|].
    assert (Hoff : forall q, q ∈ p :: P -> differ all_opts (model a !! q) (model (m1 s) !! q) = true).
    { intros q Hq. apply valid_unread; [done|]. by apply HP. }
    destruct (scrubLines_unread s (p :: P) no_flags Hs Hoff eq_refl) as (f & Ef & Hr & Hm).
    destruct rounds as [|rounds]; [lia|]. exists 2%Z.
    assert (Erounds : scrubRounds order (S rounds) false (line3_of a (model (m1 s)) (model (m2 s)) <$> p :: P) no_flags s = (Ok f, s))
      by (cbn [scrubRounds]; unfold mbind at 1, method_bind at 1; by rewrite Ef, Hr).
    unfold mbind at 1, method_bind at 1. rewrite Erounds,  Hm, andb_false_r by (by right).
    split; [done|]. right. split; [done|]. exists p. apply Hoff, list_elem_of_here.
Qed.
End quick.
