(* ===== verification/RepairSpec.v ===== *)
(** * Repairing the backup directory

    A scrub with --fixup, where the metadata files and the source directory
    agree, gives the backup directory what it lost, removes what was added to it,
    and replaces what was changed. Links that are missing or lead elsewhere are
    left out here: [addSymlinkToTreeAndFilesystem] does not enter them into the
    index of the tree. *)

From S2P Require Import Prelude CxxPath CxxTime CxxStream Element Node Tree TreeInv TreeOps TreeCopy TreeIO TreeLoad Diff DiffSpec Diff3Spec FileSystem FsSpec TreeFs ScanSpec SyncSpec SyncOps SyncCopy Backup BackupSpec BackupRun Scrub ScrubSpec.

(** ** The repair as a backup without metadata tree *)

Definition desk_of (S : Session) : Desk := mkDesk (dstTree (tm S)) None (disk S) (cin S).

Definition put (d : Desk) (S : Session) : Session := mkSession (set_dstTree (dst d) (tm S)) (files d) (input d).

(** the session does to its directory what [n] does to a desk *)
Definition mirrors {A} (m : session_method A) (n : desk_method A) : Prop :=
  forall S, m S = ((n (desk_of S)).1, put (n (desk_of S)).2 S) /\ meta (n (desk_of S)).2 = None.

Lemma put_desk_of S : put (desk_of S) S = S.
Proof. by destruct S as [[]]. Qed.

Lemma desk_of_put d S : meta d = None -> desk_of (put d S) = d.
Proof. destruct d. cbn. by intros ->. Qed.

Lemma mirrors_ret {A} (a : A) : mirrors (mret a) (mret a).
Proof. intros S. split; [|done]. cbn. by rewrite put_desk_of. Qed.

Lemma mirrors_bind {A B} (m : session_method A) n (f : A -> session_method B) g :
  mirrors m n -> (forall a, mirrors (f a) (g a)) -> mirrors (mbind f m) (mbind g n).
Proof.
  intros Hm Hf S. destruct (Hm S) as [E Hn]. unfold mbind, method_bind. rewrite E.
  destruct (n (desk_of S)) as [[a|err] d]; cbn [fst snd] in *; [|done].
  destruct (Hf a (put d S)) as [E' Hn']. rewrite (desk_of_put d S Hn) in E', Hn'. by rewrite E'.
Qed.

Lemma mirrors_dst {A} (m : world_method A) : mirrors (in_dst m) (on_dst m).
Proof. intros S. unfold in_dst, on_dst. cbn. by destruct (m _) as [r [t fs]]. Qed.

Lemma mirrors_ask : mirrors ask_user ask.
Proof. intros S. unfold ask_user, ask. cbn. destruct (askYesNo _) as [r i]. split; [|done]. by destruct S as [[]]. Qed.

(** without metadata tree nothing is done to it *)
Lemma mirrors_meta m : mirrors (mret tt) (on_meta m).
Proof. intros S. split; [|done]. cbn. by rewrite put_desk_of. Qed.

Lemma mret_bind_r {A} (m : session_method A) S : (m ≫= mret) S = m S.
Proof. unfold mbind, method_bind. by destruct (m S) as [[]]. Qed.

Lemma mirrors_ext {A} (m m' : session_method A) n : (forall S, m S = m' S) -> mirrors m' n -> mirrors m n.
Proof. intros E H S. rewrite E. apply H. Qed.

Lemma mirrors_both (o : world_method unit) o' : mirrors (in_dst o) (_ ← on_dst o; on_meta o').
Proof.
  eapply mirrors_ext, (mirrors_bind (in_dst o) _ (fun _ => mret tt)); [|apply mirrors_dst|intros _; apply mirrors_meta].
  intros S. unfold mbind, method_bind. by destruct (in_dst o S) as [[[]|]].
Qed.

Lemma mirrors_when (c : bool) o n : mirrors o n -> mirrors (if c then o else mret tt) (when c n).
Proof. destruct c; [done|]. intros _. apply mirrors_ret. Qed.

Lemma mirrors_update p x y : rp x = p -> mirrors (updateBackup p x y) (updateMetadata x y).
Proof.
  intros <-. unfold updateBackup, updateMetadata.
  repeat (apply mirrors_bind; [|intros _]); apply mirrors_when, mirrors_both.
Qed.

Lemma mirrors_replace s p :
  mirrors (_ ← in_dst (removeFromTreeAndFilesystem p); in_dst (copyFromTreeAndFilesystem s p (parent_path p)))
    (replaceEntry s p).
Proof.
  unfold replaceEntry. apply mirrors_bind; [apply mirrors_dst|intros _].
  eapply mirrors_ext, (mirrors_bind (in_dst (copyFromTreeAndFilesystem s p (parent_path p))) _ (fun _ => mret tt ≫= fun _ => mret tt));
    [|apply mirrors_dst|intros _; apply mirrors_bind; [|intros _]; apply mirrors_meta].
  intros S. unfold mbind, method_bind. by destruct (in_dst _ S) as [[[]|]].
Qed.

(** ** Elements with their hashes *)

(** regular files have a hash, and nothing else has *)
Definition hashed_element (e : FilesystemElement) : Prop := ty e = regular <-> fileHash e <> "".

Lemma hashed_mixable : mixable hashed_element.
Proof. intros x y _ Hy. done. Qed.

(** hashes are compared for the content, not times *)
Lemma content_hashed x y : hashed_element x -> hashed_element y -> content_opt x y = content_only.
Proof.
  intros Hx Hy. unfold content_opt, content_only. f_equal.
  destruct (decide (ty x = regular)) as [Ex|Ex]; [|by rewrite (bool_decide_false (ty x = regular))].
  destruct (decide (ty y = regular)) as [Ey|Ey];
    [|rewrite (bool_decide_false (ty y = regular)) by done; by rewrite orb_true_r].
  rewrite !bool_decide_true by done. apply Hx, str_empty_false in Ex. apply Hy, str_empty_false in Ey.
  by rewrite Ex, Ey.
Qed.

Lemma update_alike x x' y : compare x x' all_opts = true -> updateMetadata x' y = updateMetadata x y.
Proof.
  intros (_ & Hrp & Hp & Ho & Hm & _)%compare_spec. cbn in *. destruct (Ho eq_refl) as [Hu Hg].
  specialize (Hp eq_refl). specialize (Hm eq_refl). unfold updateMetadata, same_owner. by rewrite Hrp, Hp, Hm, Hu, Hg.
Qed.

(** ** One difference *)

Abbreviation any_hash := (fun (_ : path) (_ _ : string) => True).

Section repair.
Context (sha1 : string -> string) (st top : path) (s b c : DirectoryTree).
Context (R : Rights) (Hapart : apart st top) (Hsup : map_Forall (fun _ e => supported R e) (model s)).
Context (Hhs : hashed s) (Hhb : hashed b) (Hhc : hashed c) (Hb : tree_inv b) (Hc : tree_inv c).
Context (Hsb : agree all_opts (model s) (model b)) (Hbc : agree all_opts (model b) (model c)).

Abbreviation backup_tree S := (dstTree (tm S)).
Abbreviation working_on := (working sha1 st top s hashed_element False any_hash R).
Abbreviation off t p := (differ all_opts (model t !! p) (model b !! p)).

(** no link of the metadata is missing or leads elsewhere in the backup *)
Definition links_sound (t : DirectoryTree) : Prop :=
  forall q e, model b !! q = Some e -> ty e = symlink_ -> is_dir_at (model t) (parent_path q) = true ->
    exists x, model t !! q = Some x /\ (ty x = symlink_ -> compare x e content_only = true).

(** a scrub with source directory and agreeing metadata trees *)
Record mending (S : Session) : Prop := {
  g_work : working_on (desk_of S);
  g_src : srcTree (tm S) = s;
  g_present : srcTreePresent (tm S) = true;
  g_meta1 : meta1Tree (tm S) = b;
  g_meta2 : meta2Tree (tm S) = c;
  g_meta2present : meta2TreePresent (tm S) = true;
  g_links : links_sound (backup_tree S) }.

Lemma in_source q e : model b !! q = Some e -> exists i, model s !! q = Some i /\ compare i e all_opts = true.
Proof using Hsb.
  intros E. specialize (Hsb q). rewrite E in Hsb. destruct (model s !! q) as [i|]; [|done].
  exists i. split; [done|]. by apply negb_false_iff.
Qed.

Lemma not_in_source q : model b !! q = None -> model s !! q = None.
Proof using Hsb. intros E. specialize (Hsb q). rewrite E in Hsb. by destruct (model s !! q). Qed.

Lemma links_swapped t t' p :
  links_sound t -> model t' = swap (model s) p (model t) -> links_sound t'.
Proof using Hb Hsb.
  intros Hl E q e Hq Hty Hd. destruct (in_source q e Hq) as (i & Hi & Hie).
  assert (Hg : good_path q = true) by (apply (inv_good_path b Hb); eauto).
  rewrite E, swap_lookup. case_decide as Hw.
  - exists i. split; [done|]. intros _. by apply compare_weaker.
  - apply (Hl q e Hq Hty). revert Hd. unfold is_dir_at. rewrite E, swap_lookup.
    rewrite decide_False; [done|]. intros Hw'. by apply Hw, taken_above.
Qed.

Lemma insert_dirs (m : gmap path FilesystemElement) p x y r :
  m !! p = Some y -> is_dir_at (<[p := dressed x y]> m) r = is_dir_at m r.
Proof using Type.
  intros Hy. unfold is_dir_at. f_equal. destruct (decide (p = r)) as [<-|Hne]; [|by rewrite lookup_insert_ne].
  by rewrite lookup_insert_eq, Hy.
Qed.

Lemma links_dressed t t' p x y :
  links_sound t -> model t !! p = Some y -> model t' = <[p := dressed x y]> (model t) -> links_sound t'.
Proof using Type.
  intros Hl Hy E q e Hq Hty. rewrite E, (insert_dirs _ p x y) by done. intros Hd.
  destruct (Hl q e Hq Hty Hd) as (z & Hz & Hcmp). destruct (decide (p = q)) as [<-|Hne].
  - rewrite lookup_insert_eq. exists (dressed x y). split; [done|]. rewrite Hy in Hz. injection Hz as <-. exact Hcmp.
  - rewrite lookup_insert_ne by done. eauto.
Qed.

(** the backup tree only changes towards agreement with the metadata *)
Definition approaches (t t' : DirectoryTree) : Prop :=
  forall q, model t' !! q = model t !! q \/ off t' q = false.

(** only the backup directory changed *)
Record mends (S S' : Session) : Prop := {
  e_mending : mending S';
  e_step : fs_step top (disk S) (disk S');
  e_tm : tm S' = set_dstTree (backup_tree S') (tm S);
  e_towards : approaches (backup_tree S) (backup_tree S') }.

Lemma mends_refl S : mending S -> mends S S.
Proof using Type.
  intros H. split; [done| |by destruct S as [[]]|by left]. eapply (working_step _ _ _ _ _ _ _ _ (desk_of S)). apply H.
Qed.

Lemma mends_trans S1 S2 S3 : mends S1 S2 -> mends S2 S3 -> mends S1 S3.
Proof using Type.
  intros [_ F1 T1 A1] [M2 F2 T2 A2]. split; [done|by eapply fs_step_trans| |].
  - rewrite T2, T1. by destruct (tm S1).
  - intros q. destruct (A2 q) as [->|]; [|auto]. apply A1.
Qed.

(** the entry at [p] is mended, with a new comparison of the trees if a directory
    was replaced *)
Record mended (p : path) (S S' : Session) : Prop := {
  d_mends : mends S S';
  d_fixed : off (backup_tree S') p = false }.

Lemma from_source S p : mending S -> lift_outcome (search p s) S = (Ok (model s !! p), S).
Proof using Type. intros [[[Hs _ _ _ _] _ _ _ _ _] _ _ _ _ _ _]. unfold lift_outcome. by rewrite (search_model s Hs p). Qed.

(** a step of a backup without metadata tree, done by a scrub *)
Lemma carried m n S F :
  mending S -> mirrors m n -> advances sha1 st top s hashed_element False any_hash R n (desk_of S) F ->
  exists S', m S = (Ok tt, S') /\ working_on (desk_of S') /\ model (backup_tree S') = F (model (backup_tree S)) /\
    cin S' = cin S /\ fs_step top (disk S) (disk S') /\ tm S' = set_dstTree (backup_tree S') (tm S).
Proof using Type.
  intros HS Hm (d' & E & Hw & Hmod & Hin & Hst). destruct (Hm S) as [Em Hn]. rewrite E in Em, Hn. cbn in Em, Hn.
  exists (put d' S). rewrite (desk_of_put d' S Hn). split; [done|]. by destruct d'.
Qed.

(** only the backup tree and the directory differ *)
Lemma mending_kept S S' :
  mending S -> working_on (desk_of S') -> links_sound (backup_tree S') ->
  tm S' = set_dstTree (backup_tree S') (tm S) -> mending S'.
Proof using Type. intros [_ G1 G2 G3 G4 G5 _] Hw Hl E. split; try done; by rewrite E. Qed.

Lemma swapped_mended m n S p :
  mending S -> mirrors m n -> advances sha1 st top s hashed_element False any_hash R n (desk_of S) (swap (model s) p) ->
  exists S', m S = (Ok tt, S') /\ mended p S S' /\ cin S' = cin S /\
    model (backup_tree S') = swap (model s) p (model (backup_tree S)).
Proof using Hb Hsb.
  intros HS Hm Ha. destruct (carried m n S _ HS Hm Ha) as (S' & E & Hw & Hmod & Hin & Hst & Htm).
  exists S'. split; [done|]. split; [|done]. split; [split; [|done|done|]|].
  - apply (mending_kept S); try done. eapply links_swapped; [apply HS|done].
  - intros q. rewrite Hmod, swap_lookup. case_decide; [right; apply Hsb|by left].
  - rewrite Hmod, swap_lookup, decide_True by done. apply Hsb.
Qed.

Lemma agrees_dressed i e x :
  hashed_element i -> hashed_element x -> compare i e all_opts = true -> compare i x content_only = true ->
  compare (dressed i x) e all_opts = true.
Proof using Type.
  intros Hi Hx Hie Hix%compare_dressed. rewrite compare_sym in Hix.
  refine (compare_trans (dressed i x) i e all_opts _ Hix Hie). right.
  destruct (decide (fileHash i = "")) as [E|]; [right|by left].
  apply compare_spec in Hix as (Ht & _). cbn in *. destruct (decide (fileHash x = "")) as [|Hn]; [done|].
  apply Hx in Hn. rewrite Hn in Ht. symmetry in Ht. by apply Hi in Ht.
Qed.

Lemma updated_mended S p e x :
  mending S -> model b !! p = Some e -> model (backup_tree S) !! p = Some x -> compare x e content_only = true ->
  exists S', updateBackup (rp e) e x S = (Ok tt, S') /\ mended p S S' /\ cin S' = cin S /\
    quiet p (backup_tree S) (backup_tree S').
Proof using Hsup Hapart Hhs Hhb Hsb.
  intros HS He Hx Hcmp. destruct (in_source p e He) as (i & Hi & Hie). pose proof HS as [Hw _ _ _ _ _ Hl].
  pose proof (Hhs p i Hi) as Qi. pose proof (Hhb p e He) as Qe. pose proof (k_every _ _ _ _ _ _ _ _ _ Hw p x Hx) as Qx.
  cbn in Qi, Qe, Qx. pose proof Hw as [[Hs _ _ _ _] _ _ _ _ _].
  assert (Hrp : rp i = p) by (by destruct (inv_model s Hs p i Hi) as (_ & _ & _ & _ & ?)).
  assert (Hix : compare i x content_only = true).
  { rewrite compare_sym in Hcmp. refine (compare_trans i e x content_only _ (compare_weaker _ _ Hie) Hcmp). right.
    apply compare_spec in Hie as (Ht & _). destruct (decide (ty i = regular)) as [Er|Er].
    - left. apply Qe. congruence.
    - right. destruct (decide (fileHash i = "")) as [|Hn]; [done|]. by apply Qi in Hn. }
  assert (Hadv : advances sha1 st top s hashed_element False any_hash R (updateMetadata e x) (desk_of S) <[p := dressed i x]>).
  { rewrite (update_alike i e x Hie). apply (updateMetadata_ok sha1 st top s hashed_element False any_hash R Hapart Hsup hashed_mixable Hhs);
      try done. by rewrite content_hashed. }
  destruct (carried (updateBackup (rp e) e x) _ S _ HS (mirrors_update (rp e) e x eq_refl) Hadv)
    as (S' & E & Hw' & Hmod & Hin & Hst & Htm).
  assert (Hoff : compare (dressed i x) e all_opts = true) by (by apply agrees_dressed).
  assert (Hne : forall q, q <> p -> model (backup_tree S') !! q = model (backup_tree S) !! q)
    by (intros q Hq; by rewrite Hmod, lookup_insert_ne).
  assert (Hp : off (backup_tree S') p = false) by (rewrite Hmod, lookup_insert_eq, He; cbn; by rewrite Hoff).
  exists S'. split; [done|]. split; [split; [split; [|done|done|]|done]|split; [done|split; [done|]]].
  - apply (mending_kept S); try done. by eapply (links_dressed (backup_tree S)).
  - intros q. destruct (decide (q = p)) as [->|Hq]; [by right|left; auto].
  - intros r. rewrite Hmod. by apply insert_dirs.
Qed.

(** how a repair of the entry at [p] ends *)
Definition success (p : path) (r : FixupResult) (S S' : Session) : Prop :=
  mended p S S' /\ (r = SuccessDiffInvalidated \/ r = Success /\ quiet p (backup_tree S) (backup_tree S')).

Lemma source_dir e i : compare i e all_opts = true -> isDirectory i = bool_decide (ty e = directory).
Proof using Type. intros (Ht & _)%compare_spec. unfold isDirectory. by rewrite Ht. Qed.

Lemma swap_success S S' p (dir : bool) :
  mending S -> mended p S S' -> model (backup_tree S') = swap (model s) p (model (backup_tree S)) -> p <> "" ->
  (dir = false -> is_dir_entry (model s !! p) = false /\ is_dir_entry (model (backup_tree S) !! p) = false) ->
  success p (either dir (SuccessDiffInvalidated, Success)) S S'.
Proof using Type.
  intros [[[Hs _ _ _ _] [Ht _ _ _ _] _ _ _ _] _ _ _ _ _ _] Hmd Hmod Hp Hd. split; [done|].
  destruct dir; [by left|right]. destruct (Hd eq_refl). split; [done|]. by apply (swap_quiet s).
Qed.

Lemma path_of_entry p e : model b !! p = Some e -> rp e = p /\ p <> "".
Proof using Hb.
  intros He. split; [by destruct (inv_model b Hb p e He) as (_ & _ & _ & _ & ?)|].
  eapply good_path_nonempty, (inv_good_path b Hb); eauto.
Qed.

Lemma missing_mended S p e :
  mending S -> is_dir_at (model (backup_tree S)) (parent_path p) = true ->
  model b !! p = Some e -> model (backup_tree S) !! p = None ->
  exists r S', fixMissing (Some s) e S = (Ok r, S') /\ success p r S S' /\ cin S' = cin S.
Proof using Hapart Hsup Hhs Hb Hsb.
  intros HS Hdir He Hx. destruct (in_source p e He) as (i & Hi & Hie). destruct (path_of_entry p e He) as [Hrp Hp].
  pose proof HS as [Hw _ _ _ _ _ Hl].
  destruct (swapped_mended _ _ S p HS (mirrors_both _ _)
    (copyLine_ok sha1 st top s hashed_element False any_hash R Hapart Hsup hashed_mixable Hhs (desk_of S) p i Hw Hi Hx Hdir))
    as (S' & E & Hmd & Hin & Hmod).
  unfold fixMissing. rewrite Hrp, bool_decide_false.
  - unfold mbind at 1, method_bind at 1. rewrite (from_source S p HS), Hi, <-compare_all_opts, Hie.
    unfold mbind at 1, method_bind at 1. rewrite E. eexists _, S'. split; [done|]. split; [|done].
    apply swap_success; try done. intros Hd. rewrite Hi, Hx. cbn. by rewrite (source_dir e i Hie).
  - intros Hty. destruct (Hl p e He Hty Hdir) as (x & ? & _). congruence.
Qed.

(** an answer *)
Lemma ask_ok S l : mending S -> answers (cin S) = true :: l ->
  exists S1, ask_user S = (Ok true, S1) /\ mends S S1 /\ tm S1 = tm S /\ answers (cin S1) = l.
Proof using Type.
  intros HS Ha. pose proof (read_answer_spec (cin S)) as H. rewrite Ha in H. destruct H as (rest & E & Hr).
  exists (mkSession (tm S) (disk S) rest). split; [unfold ask_user, askYesNo; by rewrite E|].
  split; [|done]. destruct (mends_refl S HS) as [[Hw ? ? ? ? ? ?] ? ? ?].
  split; [split; try done|done|done|done]. by destruct Hw.
Qed.

Lemma bind_done {A B} (m : session_method A) (x : B) S S' :
  (_ ← m; mret tt) S = (Ok tt, S') -> (_ ← m; mret x) S = (Ok x, S').
Proof using Type. unfold mbind, method_bind. destruct (m S) as [[a|] S1]; [|done]. by intros [= ->]. Qed.

Lemma extra_mended S p x l :
  mending S -> model b !! p = None -> model (backup_tree S) !! p = Some x -> answers (cin S) = true :: l ->
  exists r S', fixExtra x S = (Ok r, S') /\ success p r S S' /\ answers (cin S') = l.
Proof using Hapart Hhs Hb Hsb.
  intros HS He Hx Ha. destruct (ask_ok S l HS Ha) as (S1 & Eask & Hm1 & Htm & Ha1).
  pose proof (not_in_source p He) as Hi. pose proof (e_mending _ _ Hm1) as HS1.
  pose proof HS1 as [Hw _ _ _ _ _ _]. pose proof Hw as [_ [Ht _ _ _ _] _ _ _ _]. cbn [desk_of dst] in Ht.
  assert (Hx1 : model (backup_tree S1) !! p = Some x) by (by rewrite Htm).
  assert (Hrp : rp x = p) by (by destruct (inv_model _ Ht p x Hx1) as (_ & _ & _ & _ & ?)).
  assert (Hp : p <> "") by (eapply good_path_nonempty, (inv_good_path _ Ht); eauto).
  destruct (swapped_mended (_ ← in_dst (removeFromTreeAndFilesystem p); mret tt) _ S1 p HS1
    (mirrors_bind _ _ _ _ (mirrors_dst _) (fun _ => mirrors_meta _))
    (removeLine_ok sha1 st top s hashed_element False any_hash R Hapart Hhs (desk_of S1) p x Hw Hi Hx1))
    as (S' & E & [Hmd Hfix] & Hin & Hmod).
  unfold fixExtra. unfold mbind at 1, method_bind at 1. rewrite Eask, Hrp. cbn [unless_ok].
  rewrite (bind_done _ _ S1 S' E). eexists _, S'. split; [done|]. split; [|by rewrite Hin].
  apply swap_success; try done; [|by rewrite Hmod, Htm|].
  - split; [by eapply mends_trans|done].
  - intros Hd. by rewrite Hi, Hx.
Qed.

Lemma bitrot_ok S l bitrot : mending S -> answers (cin S) = true :: l ->
  exists S1, bitrot_or_ask bitrot S = (Ok true, S1) /\ mends S S1 /\ tm S1 = tm S /\
    (answers (cin S1) = true :: l \/ answers (cin S1) = l).
Proof using Type.
  intros HS Ha. destruct bitrot; cbn [bitrot_or_ask].
  - exists S. split; [done|]. split; [by apply mends_refl|]. auto.
  - destruct (ask_ok S l HS Ha) as (S1 & ? & ? & ? & ?). exists S1. auto.
Qed.

Lemma then_done {A B} (m : session_method A) (n : session_method unit) (x : B) S S' :
  (_ ← m; n) S = (Ok tt, S') -> (_ ← m; _ ← n; mret x) S = (Ok x, S').
Proof using Type.
  unfold mbind, method_bind. destruct (m S) as [[a|] S1]; [|done]. destruct (n S1) as [[[]|] S2]; [|done].
  by intros [= ->].
Qed.

Lemma content_mended S p e x l :
  mending S -> is_dir_at (model (backup_tree S)) (parent_path p) = true ->
  model b !! p = Some e -> model (backup_tree S) !! p = Some x -> compare x e content_only = false ->
  answers (cin S) = true :: l ->
  exists r S', fixContent (Some s) x e S = (Ok r, S') /\ success p r S S' /\
    (answers (cin S') = true :: l \/ answers (cin S') = l).
Proof using Hapart Hsup Hhs Hb Hsb.
  intros HS Hdir He Hx Hcmp Ha. destruct (in_source p e He) as (i & Hi & Hie).
  destruct (path_of_entry p e He) as [Hrp Hp].
  destruct (bitrot_ok S l (compare x e metadata_opt) HS Ha) as (S1 & Eask & Hm1 & Htm & Ha1).
  pose proof (e_mending _ _ Hm1) as HS1. pose proof (g_work _ HS1) as Hw.
  destruct (swapped_mended _ _ S1 p HS1 (mirrors_replace s p)
    (replaceLine_ok sha1 st top s hashed_element False any_hash R Hapart Hsup hashed_mixable Hhs (desk_of S1) p i x Hw Hi
      ltac:(by cbn; rewrite Htm) ltac:(by cbn; rewrite Htm))) as (S' & E & [Hmd Hfix] & Hin & Hmod).
  assert (Hnl : bool_decide (ty e = symlink_) && bool_decide (ty x = symlink_) = false).
  { apply not_true_iff_false. intros [Hle%bool_decide_eq_true_1 Hlx%bool_decide_eq_true_1]%andb_true_iff.
    destruct (g_links _ HS p e He Hle Hdir) as (x' & Hx' & Hc'). rewrite Hx in Hx'. injection Hx' as <-.
    rewrite Hc' in Hcmp by done. done. }
  unfold fixContent, fixFromSource. rewrite Hnl, Hrp. unfold mbind at 1, method_bind at 1.
  rewrite (from_source S p HS), Hi, <-compare_all_opts, Hie. unfold mbind at 1, method_bind at 1. rewrite Eask.
  cbn [unless_ok]. rewrite (then_done _ _ _ S1 S' E). eexists _, S'. split; [done|]. split; [|by rewrite Hin].
  apply swap_success; try done; [split; [by eapply mends_trans|done]|by rewrite Hmod, Htm|].
  intros [Hd1 Hd2]%orb_false_iff. rewrite Hi, Hx. cbn. by rewrite (source_dir e i Hie).
Qed.

Lemma fixup_ok S p l :
  mending S -> is_dir_at (model (backup_tree S)) (parent_path p) = true -> off (backup_tree S) p = true ->
  answers (cin S) = true :: l ->
  exists r S', tryToFixBackupEntry (Some s) (model (backup_tree S) !! p, model b !! p, model c !! p) S = (Ok r, S') /\
    success p r S S' /\ (answers (cin S') = true :: l \/ answers (cin S') = l).
Proof using Hapart Hsup Hhs Hhb Hb Hsb Hbc.
  intros HS Hdir Hoff Ha. unfold tryToFixBackupEntry. rewrite entry_eqb_differ, (Hbc p). cbn [negb].
  unfold mbind at 1, method_bind at 1, lift_outcome at 1, cassert.
  destruct (model (backup_tree S) !! p) as [x|] eqn:Hx, (model b !! p) as [e|] eqn:He; [| | |done].
  - destruct (compare x e content_only) eqn:Hcmp.
    + destruct (updated_mended S p e x HS He Hx Hcmp) as (S' & E & Hmd & Hin & Hq).
      unfold mbind at 1, method_bind at 1. rewrite E. exists Success, S'. rewrite Hin. split; [done|].
      split; [split; [done|by right]|by left].
    + by apply content_mended.
  - destruct (extra_mended S p x l HS He Hx Ha) as (r & S' & E & Hs & Hans). exists r, S'. auto.
  - destruct (missing_mended S p e HS Hdir He Hx) as (r & S' & E & Hs & Hin). exists r, S'. rewrite Hin. auto.
Qed.

(** what [diff3] reports is a difference in a directory of the backup *)
Lemma reported_off t p : valid t b c p -> is_dir_at (model t) (parent_path p) = true /\ off t p = true.
Proof using Hbc.
  intros (_ & Hn & Hd). revert Hn Hd. unfold dirs_at, differ3. cbn [List.filter].
  rewrite <-(agree_dir _ _ (parent_path p) Hbc), (Hbc p), orb_false_r.
  destruct (is_dir_at (model t) (parent_path p)), (is_dir_at (model b) (parent_path p)); done.
Qed.

Lemma off_both t p : hashed t -> off t p = true -> differ all_opts (model t !! p) (model c !! p) = true.
Proof using Hhc Hbc.
  intros Ht Hoff. apply not_false_iff_true. intros Htc. specialize (Hbc p).
  destruct (model t !! p) as [x|] eqn:Ex, (model b !! p) as [y|] eqn:Ey, (model c !! p) as [z|] eqn:Ez; try done.
  cbn in *. apply negb_false_iff in Htc, Hbc. rewrite compare_sym in Hbc.
  by rewrite (hashed_transitive t c b all_opts (or_intror (conj Ht Hhc)) p x z y) in Hoff.
Qed.

Definition restart (f : ScrubFlags) : ScrubFlags :=
  mkFlags (unrecoverable f) (maybeRecoverable f) true (updateMeta1 f) (updateMeta2 f).

Lemma mending_hashed S : mending S -> hashed (backup_tree S).
Proof using Type. intros [Hw _ _ _ _ _ _]. apply Hw. Qed.

Lemma repairLine_ok S p l f :
  mending S -> valid (backup_tree S) b c p -> answers (cin S) = true :: l ->
  exists f' S', scrubLine true (model (backup_tree S) !! p, model b !! p, model c !! p) f S = (Ok f', S') /\
    mended p S S' /\ (answers (cin S') = true :: l \/ answers (cin S') = l) /\
    (f' = restart f \/ f' = f /\ quiet p (backup_tree S) (backup_tree S')).
Proof using Hapart Hsup Hhs Hhb Hhc Hb Hsb Hbc.
  intros HS Hv Ha. destruct (reported_off _ p Hv) as [Hdir Hoff].
  pose proof (off_both _ p (mending_hashed S HS) Hoff) as Hoff'.
  destruct (fixup_ok S p l HS Hdir Hoff Ha) as (r & S' & E & [Hmd Hr] & Hans).
  unfold scrubLine. rewrite !entry_eqb_differ, Hoff, Hoff', (Hbc p). cbn [negb andb].
  unfold mbind, method_bind, checkMeta2Tree, get_state, cassert. rewrite (g_meta2present _ HS).
  assert (sourceTree (tm S) = Some s) as ->
    by (unfold sourceTree; by rewrite (g_present _ HS), (g_src _ HS)).
  rewrite E. exists (flag_fixup r f), S'. split; [done|]. split; [done|]. split; [done|].
  destruct Hr as [->|[-> ?]]; [by left|by right].
Qed.

(** ** All differences of one round *)

(** the paths at which the backup does not agree with the metadata *)
Definition wrong (t : DirectoryTree) : gset path :=
  filter (fun q => off t q = true) (dom (model t) ∪ dom (model b)).

Lemma elem_of_wrong t q : q ∈ wrong t <-> off t q = true.
Proof using Type.
  unfold wrong. rewrite elem_of_filter, elem_of_union, !elem_of_dom. split; [by intros [? _]|].
  intros H. split; [done|]. by apply differ_present in H.
Qed.

Lemma wrong_approaches t t' : approaches t t' -> wrong t' ⊆ wrong t.
Proof using Type.
  intros H q. rewrite !elem_of_wrong. destruct (H q) as [->| ->]; done.
Qed.

Lemma wrong_smaller t t' p : approaches t t' -> off t p = true -> off t' p = false -> size (wrong t') < size (wrong t).
Proof using Type.
  intros H Hp Hp'. apply subset_size. split; [by apply wrong_approaches|].
  intros Hsub. apply elem_of_wrong, Hsub, elem_of_wrong in Hp. congruence.
Qed.

(** enough answers, all of them yes *)
Definition consents (S : Session) : Prop :=
  Forall (fun a => a = true) (answers (cin S)) /\ size (wrong (backup_tree S)) <= length (answers (cin S)).

Lemma consents_some S p : consents S -> off (backup_tree S) p = true -> exists l, answers (cin S) = true :: l.
Proof using Type.
  intros [Hall Hlen] Hp%elem_of_wrong. destruct (answers (cin S)) as [|a l].
  - cbn in Hlen. assert (E : size (wrong (backup_tree S)) = 0) by lia.
    apply size_empty_inv in E. by apply E in Hp.
  - apply Forall_cons in Hall as [-> _]. eauto.
Qed.

Lemma consents_after S S' p l :
  consents S -> answers (cin S) = true :: l -> answers (cin S') = true :: l \/ answers (cin S') = l ->
  off (backup_tree S) p = true -> mended p S S' -> consents S'.
Proof using Type.
  intros [Hall Hlen] Ha Ha' Hp [Hm Hfix]. pose proof (wrong_smaller _ _ p (e_towards _ _ Hm) Hp Hfix) as Hsz.
  rewrite Ha in Hall, Hlen. simpl in Hlen. unfold consents.
  destruct Ha' as [->| ->]; (split; [|simpl; lia]); [done|by apply Forall_cons in Hall as [_ ?]].
Qed.

(** a round that starts again has repaired an entry *)
Definition repaired_some (f f' : ScrubFlags) (S S' : Session) : Prop :=
  f' = restart f /\ size (wrong (backup_tree S')) < size (wrong (backup_tree S)).

(** a round that ends has repaired everything, without a directory *)
Definition repaired_all (P : list path) (f f' : ScrubFlags) (S S' : Session) : Prop :=
  f' = f /\ (forall r, is_dir_at (model (backup_tree S')) r = is_dir_at (model (backup_tree S)) r) /\
  (forall q, q ∉ P -> model (backup_tree S') !! q = model (backup_tree S) !! q) /\
  (forall p, p ∈ P -> off (backup_tree S') p = false).

Definition repair_line (m0 : gmap path FilesystemElement) (p : path) : DirectoryDiffLine3 :=
  (m0 !! p, model b !! p, model c !! p).

(** the entry and its directory are as before *)
Lemma valid_same t t' q :
  model t' !! q = model t !! q -> is_dir_at (model t') (parent_path q) = is_dir_at (model t) (parent_path q) ->
  valid t b c q <-> valid t' b c q.
Proof using Type.
  unfold valid, present3, dirs_at, differ3. cbn [List.filter]. intros -> ->. by destruct (is_dir_at (model t) _).
Qed.

Lemma valid_after t t' p q : quiet p t t' -> q <> p -> valid t b c q -> valid t' b c q.
Proof using Type. intros [Hq Hd] Hne. by apply (valid_same t t' q); auto. Qed.

Lemma repaired_cons p ps f f' S S1 S' :
  mended p S S1 -> quiet p (backup_tree S) (backup_tree S1) -> p ∉ ps ->
  repaired_all ps f f' S1 S' -> repaired_all (p :: ps) f f' S S'.
Proof using Type.
  intros [_ Hfix] [Q D] Hp (-> & HD & Hsame & Hall). split; [done|]. split; [|split].
  - intros r. by rewrite HD, D.
  - intros q [Hne Hn]%not_elem_of_cons. by rewrite Hsame, Q.
  - intros q [->|Hq]%elem_of_cons; [by rewrite Hsame|by apply Hall].
Qed.

Lemma repairLines_ok P : forall m0 f S,
  mending S -> NoDup P -> redo f = false -> consents S ->
  (forall p, p ∈ P -> valid (backup_tree S) b c p /\ model (backup_tree S) !! p = m0 !! p) ->
  exists f' S', scrubLines true (repair_line m0 <$> P) f S = (Ok f', S') /\ mends S S' /\ consents S' /\
    (repaired_some f f' S S' \/ repaired_all P f f' S S').
Proof using Hapart Hsup Hhs Hhb Hhc Hb Hsb Hbc.
  induction P as [|p ps IH]; intros m0 f S HS Hnd Hrd Hco HP.
  { exists f, S. split; [done|]. split; [by apply mends_refl|]. split; [done|]. right. split_and!; try done.
    by intros ? ?%not_elem_of_nil. }
  apply NoDup_cons in Hnd as [Hp Hnd]. destruct (HP p (list_elem_of_here _ _)) as [Hv E0].
  destruct (reported_off _ p Hv) as [_ Hoff]. destruct (consents_some S p Hco Hoff) as (l & Ha).
  destruct (repairLine_ok S p l f HS Hv Ha) as (f1 & S1 & E & Hmd & Ha1 & Hf1). rewrite E0 in E.
  pose proof (consents_after S S1 p l Hco Ha Ha1 Hoff Hmd) as Hco1. pose proof Hmd as [Hm1 Hfix].
  pose proof (wrong_smaller _ _ p (e_towards _ _ Hm1) Hoff Hfix) as Hsz.
  assert (Erun : scrubLines true (repair_line m0 <$> p :: ps) f S =
    if redo f1 then (Ok f1, S1) else scrubLines true (repair_line m0 <$> ps) f1 S1).
  { rewrite fmap_cons. cbn [scrubLines]. unfold mbind, method_bind, repair_line at 1. rewrite E. by destruct (redo f1). }
  rewrite Erun. clear Erun. destruct Hf1 as [->|[-> Hq]].
  { eexists _, S1. split; [done|]. split; [done|]. split; [done|]. left. by split. }
  rewrite Hrd. destruct (IH m0 f S1 (e_mending _ _ Hm1) Hnd Hrd Hco1) as (f' & S' & E' & Hm' & Hco' & Hres).
  { intros q Hin. destruct (HP q (list_elem_of_further _ _ _ Hin)) as [Hvq <-].
    assert (Hne : q <> p) by (by intros ->). split; [by eapply valid_after|]. destruct Hq as [Hq _]. auto. }
  exists f', S'. split; [done|]. split; [by eapply mends_trans|]. split; [done|]. destruct Hres as [[-> Hlt]|Hall].
  - left. split; [done|]. lia.
  - right. by eapply repaired_cons.
Qed.

(** ** Rounds *)

Context (order : gset string -> list string) (Horder : forall x : gset string, order x ≡ₚ elements x).

Lemma repairPaths S :
  mending S -> exists P, compareTrees order S = (Ok (repair_line (model (backup_tree S)) <$> P), S) /\
    complete (backup_tree S) P b c.
Proof using Hhb Hb Hc Horder.
  intros HS. pose proof (mending_hashed S HS) as Hht. destruct HS as [[_ [Ht _ _ _ _] _ _ _ _] _ _ G3 G4 G5 _].
  destruct (diff3_paths (backup_tree S) Ht order Horder b c Hb Hc) as (P & E & HP);
    [apply hashed_transitive; by right|]. exists P. split; [|done].
  unfold compareTrees, mbind, method_bind, checkMeta2Tree, get_state, lift_outcome, cassert.
  by rewrite G5, G3, G4, E.
Qed.

Definition restored (S : Session) : Prop :=
  agree all_opts (model (backup_tree S)) (model b) /\ agree all_opts (model (backup_tree S)) (model c).

Lemma no_report_agrees S : mending S -> (forall q, ~ valid (backup_tree S) b c q) -> restored S.
Proof using Hhb Hb Hc.
  intros HS Hno. pose proof (mending_hashed S HS) as Hht. destruct HS as [[_ [Ht _ _ _ _] _ _ _ _] _ _ _ _ _ _].
  by apply (agreed (backup_tree S) Ht Hht b c).
Qed.

Lemma repaired_all_agrees P f f' S S' :
  mending S' -> complete (backup_tree S) P b c -> repaired_all P f f' S S' -> restored S'.
Proof using Hhb Hb Hc Hbc.
  intros HS' [_ HP] (_ & Hd & Hsame & Hall). apply no_report_agrees; [done|]. intros q Hv.
  destruct (decide (q ∈ P)) as [Hin|Hin].
  - destruct (reported_off _ q Hv) as [_ Hoff]. rewrite Hall in Hoff by done. done.
  - apply Hin, HP. by apply (valid_same (backup_tree S) (backup_tree S')); auto.
Qed.

Lemma repairRounds_ok n : forall P f S,
  mending S -> redo f = false -> consents S -> complete (backup_tree S) P b c -> size (wrong (backup_tree S)) < n ->
  exists S', scrubRounds order n true (repair_line (model (backup_tree S)) <$> P) f S = (Ok f, S') /\
    mends S S' /\ restored S'.
Proof using Hapart Hsup Hhs Hhb Hhc Hb Hc Hsb Hbc Horder.
  induction n as [|n IH]; intros P f S HS Hr Hco HP Hn; [lia|].
  destruct (repairLines_ok P (model (backup_tree S)) f S HS (proj1 HP) Hr Hco) as (f1 & S1 & E & Hm1 & Hco1 & Hres);
    [intros p Hp; split; [by apply HP|done]|].
  cbn [scrubRounds]. unfold mbind at 1, method_bind at 1. rewrite E. pose proof (e_mending _ _ Hm1) as HS1.
  destruct Hres as [[-> Hlt]|Hall].
  - cbn [redo restart]. destruct (repairPaths S1 HS1) as (P1 & E1 & HP1).
    unfold mbind at 1, method_bind at 1. rewrite E1. cbn [restart unrecoverable maybeRecoverable updateMeta1 updateMeta2].
    destruct (IH P1 f S1 HS1 Hr Hco1 HP1) as (S' & E' & Hm' & Hag); [lia|].
    exists S'. split; [|split; [by eapply mends_trans|done]]. destruct f as [u m r k1 k2]. cbn in *. by subst r.
  - pose proof Hall as [-> _]. rewrite Hr. exists S1. split; [done|]. split; [done|].
    by eapply (repaired_all_agrees P).
Qed.

(** nothing but the backup directory, its tree and the answers changed *)
Record repaired (S S' : Session) : Prop := {
  r_bound : bound sha1 top (backup_tree S') (disk S');
  r_source : bound sha1 st s (disk S');
  r_step : fs_step top (disk S) (disk S');
  r_hashed : hashed (backup_tree S');
  r_agree : restored S';
  r_meta1 : meta1Tree (tm S') = b;
  r_meta2 : meta2Tree (tm S') = c }.

Lemma mends_repaired S S' : mends S S' -> restored S' -> repaired S S'.
Proof using Type. intros [[[Hs Ht _ Hev _ _] _ _ G3 G4 _ _] Hst _ _] Hag. by split. Qed.

(** A scrub with --fixup restores the backup directory. *)
Lemma repairImpl_ok rounds S :
  mending S -> consents S -> size (wrong (backup_tree S)) < rounds ->
  exists code S', scrubImpl order rounds true S = (Ok code, S') /\ repaired S S' /\
    (code = 0%Z /\ S' = S \/ code = 1%Z /\ tm S' = saveMetadataOnExit (set_dstTree (backup_tree S') (tm S))).
Proof using Hapart Hsup Hhs Hhb Hhc Hb Hc Hsb Hbc Horder.
  intros HS Hco Hn. destruct (repairPaths S HS) as (P & E & HP).
  unfold scrubImpl. unfold mbind at 1, method_bind at 1. rewrite E.
  destruct (repair_line (model (backup_tree S)) <$> P) as [|ln ls] eqn:EP.
  { exists 0%Z, S. split; [done|]. split; [|by left]. apply mends_repaired; [by apply mends_refl|]. apply no_report_agrees; [done|].
    apply fmap_nil_inv in EP as ->. destruct HP as [_ HP]. intros q Hq%HP. by apply not_elem_of_nil in Hq. }
  rewrite <-EP. destruct (repairRounds_ok rounds P no_flags S HS eq_refl Hco HP Hn) as (S' & E' & Hm & Hag).
  unfold mbind at 1, method_bind at 1. rewrite E'. cbn [no_flags unrecoverable maybeRecoverable negb andb updateMeta1 updateMeta2].
  exists 1%Z, (mkSession (saveMetadataOnExit (tm S')) (disk S') (cin S')). split; [done|]. split.
  - pose proof (mends_repaired S S' Hm Hag) as [? ? ? ? ? ? ?]. by split.
  - right. split; [done|]. cbn [tm]. f_equal. exact (e_tm _ _ Hm).
Qed.
End repair.
