(* ===== verification/Commands.v ===== *)
(** * The commands (src/backup.cpp, src/core.h, src/main.cpp)

    [scrub] and [backup] with metadata files, and the commands of the program
    with their exit codes. Parsing of the command line is that of the Boost
    library: a command starts from the options it finds. *)

From S2P Require Import Prelude CxxPath CxxTime CxxStream Element Node Tree TreeIO Diff FileSystem MetaFiles TreeFs Backup Scrub.

(** ** Values of options (Boost) *)

(** the types that options are declared with, and their values *)
Inductive semantic := s_flag | s_string | s_strings.
Inductive any_value := a_flag | a_string (s : string) | a_strings (l : list string).
#[global] Instance semantic_eq_dec : EqDecision semantic.
Proof. solve_decision. Defined.

Abbreviation variables_map := (gmap string any_value).

Definition vm_count (vm : variables_map) (name : string) : bool := bool_decide (is_Some (vm !! name)).

Definition bad_any_cast : error := Throw "boost::bad_any_cast: failed conversion using boost::any_cast".
Definition as_string (x : any_value) : outcome string :=
  match x with a_string s => Ok s | _ => Err bad_any_cast end.
Definition as_strings (x : any_value) : outcome (list string) :=
  match x with a_strings l => Ok l | _ => Err bad_any_cast end.

(** [if(vm.count(name)) vm[name].as<T>()] *)
Definition value_of {A} (vm : variables_map) (name : string) (as_ : any_value -> outcome A) : outcome (option A) :=
  match vm !! name with
  | None => Ok None
  | Some x => v ← as_ x; Ok (Some v)
  end.

Section commands.
Context (sha1 : string -> string) (listing order : gset string -> list string) (absolute : path -> path).

(** the filesystem and the standard input *)
Abbreviation Env := (FS * string)%type.
Abbreviation env_method := (method Env).

(** ** Construction of the manager *)

Definition loadMetadataFiles (fs : FS) (m1 m2 : path) : outcome (DirectoryTree * DirectoryTree) :=
  let '(r1, t1) := tree_readFrom_file (read_file absolute fs) m1 emptyTree in
  _ ← r1;
  let '(r2, t2) := tree_readFrom_file (read_file absolute fs) m2 emptyTree in
  _ ← r2;
  Ok (t1, t2).

(** with a source directory *)
Definition newManager (fs : FS) (src dst m1 m2 : path) (opt : ScanOpt) (threads : bool) : outcome TreeManager :=
  '(t1, t2) ← loadMetadataFiles fs m1 m2;
  '(s, d) ← scanSourceTargetDir sha1 listing absolute fs src dst threads opt;
  Ok (mkManager s d t1 t2 m1 m2 true true false false false).

(** without *)
Definition newManagerNoSource (fs : FS) (dst m1 m2 : path) (opt : ScanOpt) : outcome TreeManager :=
  '(t1, t2) ← loadMetadataFiles fs m1 m2;
  let '(r, d) := scanDirectory sha1 listing absolute fs dst opt emptyTree in
  _ ← r;
  Ok (mkManager emptyTree d t1 t2 m1 m2 false true false false false).

(** a function body with a manager as local object *)
Definition with_manager {A} (new : FS -> outcome TreeManager) (body : session_method A) : env_method A :=
  fun '(fs, inp) =>
  match new fs with
  | Err e => (Err e, (fs, inp))
  | Ok m => let '(r, s) := leave_scope absolute body (mkSession m fs inp) in (r, (disk s, cin s))
  end.

(** ** scrub *)

Definition scrub (rounds : nat) (dst m1 m2 : path) (fixup : bool) : env_method Z :=
  with_manager (fun fs => newManagerNoSource fs dst m1 m2 ComputeHash) (scrubImpl order rounds fixup).

Definition scrub_source (rounds : nat) (src dst m1 m2 : path) (fixup threads : bool) : env_method Z :=
  with_manager (fun fs => newManager fs src dst m1 m2 ComputeHash threads) (scrubImpl order rounds fixup).

(** ** backup *)

(** [backupImpl] on the trees of the manager *)
Definition backupManaged : session_method Z := fun s =>
  let m := tm s in
  let '(r, d) := backupImpl order (srcTree m) (mkDesk (dstTree m) (Some (meta1Tree m)) (disk s) (cin s)) in
  let t1 := match meta d with Some t => t | None => meta1Tree m end in
  (r, mkSession (set_meta1Tree t1 (set_dstTree (dst d) m)) (files d) (input d)).

(** the part of [backup] after the scrub *)
Definition backupScrubbed (dst : path) (hashAllFiles : bool) (result : Z) : session_method Z :=
  _ ← change discardMeta2Tree;
  _ ← change saveMetadataOnExit;
  result2 ← backupManaged;
  let result := if bool_decide (result2 = 0%Z) then result else result2 in
  _ ← (if hashAllFiles then mret tt
       else
         _ ← in_meta1 (bindToTopPath absolute dst);
         s ← get_state;
         in_meta1 (computeMissingHashes (hashFile sha1 (disk s))));
  mret result.

Definition backupBody (rounds : nat) (dst : path) (fixup hashAllFiles : bool) : session_method Z :=
  result ← scrubImpl order rounds fixup;
  if bool_decide (result = 1%Z) then
    yes ← ask_user;
    if yes : bool then backupScrubbed dst hashAllFiles result else mret result
  else if bool_decide (result = 2%Z) then mret result
  else backupScrubbed dst hashAllFiles result.

Definition backup (rounds : nat) (src dst m1 m2 : path) (fixup hashAllFiles threads : bool) : env_method Z :=
  with_manager
    (fun fs => newManager fs src dst m1 m2 (if hashAllFiles then ComputeHash else OmitHash) threads)
    (backupBody rounds dst fixup hashAllFiles).

(** [DirectoryTree::fromPath] *)
Definition fromPath (fs : FS) (inputPath : path) (opt : ScanOpt) : tree_method unit :=
  if is_directory fs (absolute inputPath) then scanDirectory sha1 listing absolute fs inputPath opt
  else tree_readFrom_file (read_file absolute fs) inputPath.

(** a tree that is a local variable *)
Definition new_tree (m : tree_method unit) : outcome DirectoryTree :=
  let '(r, t) := m emptyTree in _ ← r; Ok t.

(** ** The command line *)

(** the options of a command line, as the commands ask for them *)
Record Options := mkOptions {
  o_help : bool;
  o_command : option string;
  o_source : option string;
  o_target : option string;
  o_ignore : option string;
  o_output : option string;
  o_nohash : bool;
  o_fixup : bool;
  o_singlethread : bool;
  o_input : list string }.

Definition given {A} (x : option A) : bool := bool_decide (is_Some x).

(** a command: its exit code and what it writes to its output *)
Abbreviation command := (env_method (Z * string)).

Definition usage : command := mret (100%Z, "").

Definition scan_opt (v : Options) : ScanOpt := if o_nohash v then OmitHash else ComputeHash.

Definition lsCmd (v : Options) : command := fun env =>
  if o_help v || given (o_source v) || given (o_target v) || given (o_ignore v) || o_fixup v
     || (1 <? length (o_input v)) then usage env
  else
    let top := match o_input v with [] => "." | p :: _ => p end in
    (dt ← new_tree (scanDirectory sha1 listing absolute env.1 top (scan_opt v));
     out ← tree_writeTo dt;
     Ok (0%Z, out), env).

Definition diff_code {L} (diff : list L) : Z := if is_nil diff then 0 else 1.

Definition diffCmd (v : Options) : command := fun env =>
  if o_help v || given (o_source v) || given (o_target v) || o_fixup v then usage env
  else
    let from p := new_tree (fromPath env.1 p (scan_opt v)) in
    let copt := match o_ignore v with Some s => CompareOpt_of_string s | None => Ok all_opts end in
    match o_input v with
    | [pa; pb] =>
        (o ← copt; a ← from pa; b ← from pb;
         diff ← diff2 order a b o;
         out ← show_diff show_line2 diff;
         Ok (diff_code diff, out), env)
    | [pa; pb; pc] =>
        (o ← copt; a ← from pa; b ← from pb; c ← from pc;
         diff ← diff3 order a b c o;
         out ← show_diff show_line3 diff;
         Ok (diff_code diff, out), env)
    | _ => usage env
    end.

(** a command that writes nothing to its output *)
Definition silent (m : env_method Z) : command := c ← m; mret (c, "").

Definition scrubCmd (rounds : nat) (v : Options) : command :=
  if o_help v || given (o_ignore v) || o_nohash v then usage
  else
    match o_source v, o_target v, o_input v with
    | Some src, Some dst, [m1; m2] =>
        silent (scrub_source rounds src dst m1 m2 (o_fixup v) (negb (o_singlethread v)))
    | None, None, [dst; m1; m2] => silent (scrub rounds dst m1 m2 (o_fixup v))
    | _, _, _ => usage
    end.

Definition backupCmd (rounds : nat) (v : Options) : command :=
  if o_help v || given (o_ignore v) then usage
  else
    match o_source v, o_target v, o_input v with
    | Some src, Some dst, [m1; m2] =>
        silent (backup rounds src dst m1 m2 (o_fixup v) (negb (o_nohash v)) (negb (o_singlethread v)))
    | Some src, Some dst, [] =>
        silent (backup_plain sha1 listing absolute order src dst (negb (o_singlethread v)))
    | _, _, _ => usage
    end.

(** [operations] *)
Definition operations (rounds : nat) (name : string) : option (Options -> command) :=
  if str_eqb name "ls" then Some lsCmd
  else if str_eqb name "diff" then Some diffCmd
  else if str_eqb name "scrub" then Some (scrubCmd rounds)
  else if str_eqb name "backup" then Some (backupCmd rounds)
  else None.

Definition on_files {A} (m : fs_method A) : env_method A := fun '(fs, inp) =>
  let '(r, fs') := m fs in (r, (fs', inp)).

(** the handler around [main]: an exception is an error message and exit code 10 *)
Definition catch_exceptions (m : command) : command := fun env =>
  match m env with
  | (Err (Throw _), env') => (Ok (10%Z, ""), env')
  | r => r
  end.

(** the command, whose output goes to the file [o], or to the terminal *)
Definition redirect (o : option path) (m : command) : command := fun env =>
  match o with
  | None => m env
  | Some p =>
      if file_exists absolute env.1 p then (Ok (10%Z, ""), env)
      else
        match on_files (write_file absolute (Throw "") p "") env with
        | (Err _, env') => (Ok (10%Z, ""), env')
        | (Ok _, env') =>
            ('(code, out) ← m;
             _ ← (if str_empty out then mret tt
                  else on_files (write_file absolute (Throw "") p out));
             mret (code, "")) env'
        end
  end.

(** [main], after the command line was parsed: the exit code and the output on
    the terminal. [help] ends the program with 100, also after the output file
    was created *)
Definition main_parsed (rounds : nat) (v : Options) : command :=
  match o_command v with
  | None => usage
  | Some name =>
      redirect (o_output v)
        (match operations rounds name with Some cmd => cmd v | None => usage end)
  end.

(** ** Parsing the command line *)

(** [command_line_parser(argc,argv).options(desc).positional(p).run()], [store] and
    [notify] of Boost *)
Context (parser : list (string * semantic) -> list (string * Z) -> list string -> outcome variables_map).

(** the descriptions of the options and of the positional arguments *)
Definition desc : list (string * semantic) :=
  [("help,h", s_flag); ("command", s_string); ("source,s", s_string); ("target,t", s_string);
   ("ignore,i", s_string); ("output,o", s_string); ("nohash,n", s_flag); ("fixup", s_flag);
   ("singlethread", s_flag); ("input", s_strings)].
Definition positional : list (string * Z) := [("command", 1%Z); ("input", (-1)%Z)].

Definition parse (argv : list string) : outcome Options :=
  vm ← parser desc positional argv;
  command ← value_of vm "command" as_string;
  source ← value_of vm "source" as_string;
  target ← value_of vm "target" as_string;
  ignore ← value_of vm "ignore" as_string;
  output ← value_of vm "output" as_string;
  input ← value_of vm "input" as_strings;
  Ok (mkOptions (vm_count vm "help") command source target ignore output (vm_count vm "nohash") (vm_count vm "fixup")
        (vm_count vm "singlethread") (default [] input)).

Definition main (rounds : nat) (argv : list string) : command :=
  catch_exceptions (fun env =>
    match parse argv with
    | Err e => (Err e, env)
    | Ok v => main_parsed rounds v env
    end).
End commands.
