(* ===== verification/CommandsSpec.v ===== *)
(** * What the commands return *)

From S2P Require Import Prelude CxxPath CxxTime CxxStream Element Node Tree TreeIO Diff FileSystem MetaFiles TreeFs Backup Scrub Commands.

(** ** Results of methods *)

(** all results that a method can return satisfy [P] *)
Definition returns {S A} (P : A -> Prop) (m : method S A) : Prop :=
  forall s x s', m s = (Ok x, s') -> P x.

Lemma returns_ret {S A} (P : A -> Prop) (x : A) : P x -> returns P (mret x : method S A).
Proof. by intros H s y s' [= <- _]. Qed.

Lemma returns_bind {S A B} (P : B -> Prop) (m : method S A) (k : A -> method S B) :
  (forall x, returns P (k x)) -> returns P (m ≫= k).
Proof.
  intros H s y s'. unfold mbind, method_bind. destruct (m s) as [[x|e] s1]; [apply H|done].
Qed.

Lemma returns_bind_with {S A B} (Q : A -> Prop) (P : B -> Prop) (m : method S A) (k : A -> method S B) :
  returns Q m -> (forall x, Q x -> returns P (k x)) -> returns P (m ≫= k).
Proof.
  intros Hm H s y s'. unfold mbind, method_bind. destruct (m s) as [[x|e] s1] eqn:E; [|done].
  apply H. by eapply Hm.
Qed.

(** ** Codes *)

(** 0 if nothing was wrong, 1 if it was repaired, 2 if it was not *)
Definition verdict_code (c : Z) : Prop := c = 0%Z \/ c = 1%Z \/ c = 2%Z.

Lemma scrubImpl_code order rounds fixup : returns verdict_code (scrubImpl order rounds fixup).
Proof.
  unfold scrubImpl, verdict_code. apply returns_bind. intros [|l diff]; [apply returns_ret; auto|].
  apply returns_bind. intros f. destruct (_ && _); [|apply returns_ret; auto].
  do 3 (apply returns_bind; intros _). apply returns_ret; auto.
Qed.

Lemma backupImpl_code order srcTree : returns verdict_code (backupImpl order srcTree).
Proof.
  unfold backupImpl, verdict_code. do 2 (apply returns_bind; intros ?).
  apply returns_bind. intros [|]; apply returns_ret; auto.
Qed.

Lemma backup_plain_code sha1 listing absolute order src dst threads :
  returns verdict_code (backup_plain sha1 listing absolute order src dst threads).
Proof.
  intros [fs inp] c env'. unfold backup_plain.
  destruct (scanSourceTargetDir _ _ _ _ _ _ _ _) as [[s d]|e]; [|done].
  destruct (backupImpl order s _) as [r k] eqn:E. intros [= -> _]. by eapply backupImpl_code.
Qed.

Lemma leave_scope_returns {A} (P : A -> Prop) absolute (body : session_method A) :
  returns P body -> returns P (leave_scope absolute body).
Proof.
  intros H s x s'. unfold leave_scope. destruct (body s) as [r s1] eqn:E.
  assert (Hr : forall y, r = Ok y -> P y) by (intros y ->; by eapply H).
  destruct r as [y|[]]; try done; destruct (saveMetadata absolute s1) as [[?|[]] ?]; intros [=]; subst; auto.
Qed.

Lemma with_manager_returns {A} (P : A -> Prop) absolute new (body : session_method A) :
  returns P body -> returns P (with_manager absolute new body).
Proof.
  intros H [fs inp] x env'. unfold with_manager. destruct (new fs) as [m|e]; [|done].
  destruct (leave_scope absolute body _) as [r s] eqn:E. intros [= -> _]. by eapply leave_scope_returns.
Qed.

Lemma backupBody_code sha1 order absolute rounds dst fixup hashAllFiles :
  returns verdict_code (backupBody sha1 order absolute rounds dst fixup hashAllFiles).
Proof.
  assert (Hrest : forall c, verdict_code c -> returns verdict_code (backupScrubbed sha1 order absolute dst hashAllFiles c)).
  { intros c Hc. unfold backupScrubbed. do 2 (apply returns_bind; intros _).
    apply (returns_bind_with verdict_code).
    - intros s c' s'. unfold backupManaged. destruct (backupImpl _ _ _) as [r d] eqn:E. intros [= -> _].
      by eapply backupImpl_code.
    - intros c' Hc'. apply returns_bind. intros _. apply returns_ret. by case_bool_decide. }
  apply (returns_bind_with verdict_code); [apply scrubImpl_code|]. intros c Hc.
  repeat case_bool_decide; [|by apply returns_ret|by apply Hrest].
  apply returns_bind. intros [|]; [by apply Hrest|by apply returns_ret].
Qed.

(** ** Exit codes *)

Definition exit_code (r : Z * string) : Prop :=
  verdict_code r.1 \/ r.1 = 10%Z \/ r.1 = 100%Z.

Lemma usage_code : returns exit_code usage.
Proof. apply returns_ret. right. by right. Qed.

Lemma silent_code m : returns verdict_code m -> returns exit_code (silent m).
Proof. intros H. eapply returns_bind_with; [exact H|]. intros c Hc. apply returns_ret. by left. Qed.

Lemma catch_code m : returns exit_code m -> returns exit_code (catch_exceptions m).
Proof.
  intros H env r env'. unfold catch_exceptions. destruct (m env) as [[x|[]] env1] eqn:E; try done;
    intros [= <- <-]; [by eapply H|]. right. by left.
Qed.

Lemma catch_no_throw m env what env' : catch_exceptions m env <> (Err (Throw what), env').
Proof. unfold catch_exceptions. by destruct (m env) as [[?|[]] ?]. Qed.

Lemma redirect_code absolute o m : returns exit_code m -> returns exit_code (redirect absolute o m).
Proof.
  intros H env r env'. destruct o as [p|]; [|apply H]. unfold redirect.
  assert (Hten : exit_code (10%Z, "")) by (right; by left).
  destruct (file_exists absolute env.1 p); [by intros [= <- _]|].
  destruct (on_files _ env) as [[[]|e] env1]; [|by intros [= <- _]].
  revert env1 r env'. apply (returns_bind_with exit_code); [exact H|]. intros [code out] Hc.
  apply returns_bind. intros _. by apply returns_ret.
Qed.

Section codes.
Context (sha1 : string -> string) (listing order : gset string -> list string) (absolute : path -> path).

Lemma lsCmd_code v : returns exit_code (lsCmd sha1 listing absolute v).
Proof.
  intros env r env'. unfold lsCmd. case_match; [apply usage_code|].
  destruct (new_tree _) as [t|e]; [|done]. cbn. destruct (tree_writeTo t); [|done]. intros [= <- _]. by left; left.
Qed.

Lemma diff_code_verdict {L} (l : list L) out : exit_code (diff_code l, out).
Proof. left. unfold verdict_code, diff_code. cbn. destruct (is_nil l); auto. Qed.

(** an outcome with the environment as it was *)
Lemma unchanged_code (r : outcome (Z * string)) (env env' : FS * string) x :
  (forall y, r = Ok y -> exit_code y) -> (r, env) = (Ok x, env') -> exit_code x.
Proof. intros H [= -> _]. by apply H. Qed.

Lemma diffCmd_code v : returns exit_code (diffCmd sha1 listing order absolute v).
Proof.
  intros env r env'. unfold diffCmd. case_match; [apply usage_code|].
  destruct (o_input v) as [|pa [|pb [|pc [|? ?]]]]; try apply usage_code; apply unchanged_code;
    intros y Hy; repeat (apply bind_ok in Hy as (? & _ & Hy)); injection Hy as <-; apply diff_code_verdict.
Qed.

Lemma scrubCmd_code rounds v : returns exit_code (scrubCmd sha1 listing order absolute rounds v).
Proof.
  unfold scrubCmd. destruct (_ || _); [apply usage_code|].
  destruct (o_source v), (o_target v), (o_input v) as [|? [|? [|? [|? ?]]]]; try apply usage_code;
    apply silent_code, with_manager_returns, scrubImpl_code.
Qed.

Lemma backupCmd_code rounds v : returns exit_code (backupCmd sha1 listing order absolute rounds v).
Proof.
  unfold backupCmd. destruct (_ || _); [apply usage_code|].
  destruct (o_source v), (o_target v), (o_input v) as [|? [|? [|? ?]]]; try apply usage_code; apply silent_code.
  - apply backup_plain_code.
  - apply with_manager_returns, backupBody_code.
Qed.

Lemma main_parsed_code rounds v : returns exit_code (main_parsed sha1 listing order absolute rounds v).
Proof.
  unfold main_parsed. destruct (o_command v) as [name|]; [|apply usage_code]. apply redirect_code.
  unfold operations. repeat case_match; try apply usage_code; simplify_eq;
    [apply lsCmd_code|apply diffCmd_code|apply scrubCmd_code|apply backupCmd_code].
Qed.

Lemma operations_help rounds name cmd v env :
  operations sha1 listing order absolute rounds name = Some cmd ->
  name ∈ ["ls"; "diff"; "scrub"; "backup"] /\ (o_help v = true -> cmd v env = usage env).
Proof using Type.
  unfold operations. repeat (case_match eqn:Hn; [apply bool_decide_eq_true_1 in Hn as ->; intros [= <-]; split; [set_solver|];
    intros Hh; unfold lsCmd, diffCmd, scrubCmd, backupCmd; by rewrite Hh|clear Hn]). done.
Qed.

(** ** The command line *)

(** what Boost promises of its parser: a problem is reported by an exception, and a
    value has the type that its option was declared with *)
Definition semantic_of (x : any_value) : semantic :=
  match x with a_flag => s_flag | a_string _ => s_string | a_strings _ => s_strings end.

(** "name,n" declares the name and its abbreviation *)
Definition declares (name : string) (d : string * semantic) : Prop :=
  d.1 = name \/ exists c, d.1 = name +:+ String "," (String c "").

Class BoostParser (parser : list (string * semantic) -> list (string * Z) -> list string -> outcome variables_map) : Prop := {
  parser_throws ds ps argv e : parser ds ps argv = Err e -> exists what, e = Throw what;
  parser_typed ds ps argv vm name x : parser ds ps argv = Ok vm -> vm !! name = Some x ->
    exists d, d ∈ ds /\ declares name d /\ semantic_of x = d.2 }.

Section parsing.
Context parser `{Hparser : !BoostParser parser}.

Lemma declared_once ds ps argv vm name x t :
  parser ds ps argv = Ok vm -> vm !! name = Some x -> (forall d, d ∈ ds -> declares name d -> d.2 = t) ->
  semantic_of x = t.
Proof using Hparser.
  intros E Hx Ht. destruct (parser_typed ds ps argv vm name x E Hx) as (d & Hd & Hn & ->). by apply Ht.
Qed.

Ltac declared := intros d Hd Hn;
  repeat (apply elem_of_cons in Hd as [->|Hd];
    [first [reflexivity|destruct Hn as [Hn|[c Hn]]; cbn in Hn; discriminate Hn]|]); by apply not_elem_of_nil in Hd.

Lemma string_value argv vm name :
  parser desc positional argv = Ok vm -> name ∈ ["command"; "source"; "target"; "ignore"; "output"] ->
  exists o, value_of vm name as_string = Ok o /\ (fun s => a_string s) <$> o = vm !! name.
Proof using Hparser.
  intros E Hname. unfold value_of. destruct (vm !! name) as [x|] eqn:Hx; [|by exists None].
  assert (Ht : semantic_of x = s_string).
  { eapply declared_once; [exact E|exact Hx|].
    repeat (apply elem_of_cons in Hname as [->|Hname]; [declared|]). by apply not_elem_of_nil in Hname. }
  destruct x as [|s|l]; try done. by exists (Some s).
Qed.

Lemma strings_value argv vm :
  parser desc positional argv = Ok vm ->
  exists o, value_of vm "input" as_strings = Ok o /\ (fun l => a_strings l) <$> o = vm !! "input".
Proof using Hparser.
  intros E. unfold value_of. destruct (vm !! "input") as [x|] eqn:Hx; [|by exists None].
  assert (Ht : semantic_of x = s_strings) by (eapply declared_once; [exact E|exact Hx|declared]).
  destruct x as [|s|l]; try done. by exists (Some l).
Qed.

(** a command line that the parser accepts is understood *)
Lemma parse_ok argv vm :
  parser desc positional argv = Ok vm ->
  exists v, parse parser argv = Ok v /\ (fun s => a_string s) <$> o_command v = vm !! "command" /\
    (fun s => a_string s) <$> o_output v = vm !! "output" /\ o_help v = vm_count vm "help".
Proof using Hparser.
  intros E. unfold parse. rewrite E. cbn [mbind outcome_bind].
  destruct (string_value argv vm "command" E) as (c & -> & Hc); [set_solver|].
  destruct (string_value argv vm "source" E) as (s & -> & _); [set_solver|].
  destruct (string_value argv vm "target" E) as (t & -> & _); [set_solver|].
  destruct (string_value argv vm "ignore" E) as (g & -> & _); [set_solver|].
  destruct (string_value argv vm "output" E) as (o & -> & Ho); [set_solver|].
  destruct (strings_value argv vm E) as (i & -> & _). by eexists.
Qed.

Lemma main_code rounds argv : returns exit_code (main sha1 listing order absolute parser rounds argv).
Proof.
  apply catch_code. intros env r env'. destruct (parse parser argv) as [v|e]; [apply main_parsed_code|done].
Qed.

Lemma main_refuses rounds argv env e :
  parser desc positional argv = Err e -> main sha1 listing order absolute parser rounds argv env = (Ok (10%Z, ""), env).
Proof using Hparser.
  intros E. destruct (parser_throws _ _ _ _ E) as [what ->]. unfold main, catch_exceptions, parse. by rewrite E.
Qed.

(** help, and commands that do not exist *)
Lemma main_helps rounds argv vm env :
  parser desc positional argv = Ok vm ->
  vm !! "command" = None \/ vm !! "output" = None /\
    (vm_count vm "help" = true \/
     forall name, vm !! "command" = Some (a_string name) -> name ∉ ["ls"; "diff"; "scrub"; "backup"]) ->
  main sha1 listing order absolute parser rounds argv env = (Ok (100%Z, ""), env).
Proof using Hparser.
  intros E Hv. destruct (parse_ok argv vm E) as (v & Ep & Hc & Ho & Hh).
  unfold main, catch_exceptions. rewrite Ep. unfold main_parsed. destruct (o_command v) as [name|]; [|done].
  destruct Hv as [Hn|[Hno Hv]]; [by rewrite Hn in Hc|]. rewrite Hno in Ho. destruct (o_output v); [done|]. cbn [redirect].
  rewrite <-Hh in Hv. destruct (operations _ _ _ _ rounds name) as [cmd|] eqn:Hop; [|done].
  destruct (operations_help rounds name cmd v env Hop) as [Hin Hcmd]. destruct Hv as [Hv|Hv]; [by rewrite Hcmd|].
  by destruct (Hv name (eq_sym Hc)).
Qed.
End parsing.
End codes.
