(* ===== verification/CommandsRun.v ===== *)
(** * The commands, from file to file

    A scrub loads the metadata files, scans the backup directory, reconciles
    the three trees and saves the metadata; a listing is written to a file that a
    diff reads. Here the parts are put together. *)

From S2P Require Import Prelude CxxPath CxxTime CxxStream Element Node Tree TreeInv TreeOps TreeCopy TreeIO TreeLoad Diff DiffSpec Diff3Spec FileSystem FsSpec MetaFiles MetaSpec TreeFs ScanSpec Backup BackupSpec Scrub ScrubSpec Commands CommandsSpec.

(** ** Scanned elements in metadata files *)

(** a file whose metadata fits on a line: owners that are words, a year of four digits,
    none of the set-ID and sticky bits, names and target without a line break, a size
    within [off_t] *)
Definition storable (l : location) (i : Inode) : bool :=
  is_token (i_user i) && is_token (i_group i) && four_digit_year (i_mtime i) && negb (i_mtime i =? -1)%Z &&
  bool_decide (Z.land (i_perm i) 511 = i_perm i) && forallb one_line l && one_line (i_target i) &&
  (Z.of_nat (String.length (i_data i)) <? 2 ^ 63)%Z.

(** what SHA1 gives: 40 hexadecimal digits *)
Definition sha1_text (sha1 : string -> string) : Prop :=
  forall d, is_token (sha1 d) = true /\ String.length (sha1 d) = 40.

Lemma one_line_join l : forallb one_line l = true -> one_line (join_sep l) = true.
Proof.
  induction l as [|n [|n' l] IH]; [done|by cbn; rewrite andb_true_r|].
  intros Hl. change (forallb one_line (n :: n' :: l)) with (one_line n && forallb one_line (n' :: l)) in Hl.
  apply andb_true_iff in Hl as [Hn Hl].
  change (join_sep (n :: n' :: l)) with (n +:+ String "/" (join_sep (n' :: l))).
  rewrite one_line_app, Hn. exact (IH Hl).
Qed.

Lemma one_line_comps q : forallb one_line (comps q) = true -> one_line q = true.
Proof. destruct q as [|c q]; [done|]. intros H. rewrite <-(join_split (String c q)). by apply one_line_join. Qed.

Lemma storable_keepable sha1 o top q i :
  sha1_text sha1 -> storable (top ++ comps q) i = true -> keepable (elem_of_inode sha1 o q i).
Proof.
  intros Hsha Hs. unfold storable in Hs. rewrite forallb_app in Hs. split_andb.
  assert (Hq : one_line q = true) by (by apply one_line_comps). destruct (Hsha (i_data i)) as [Htok Hlen]. split.
  - unfold file_wf, line_wf, elem_of_inode. cbn [us gs mt ty sz fileHash rp symlink].
    split_andb; try done.
    + destruct (i_type i); try done. rewrite bool_decide_true by done. split_andb; [apply Z.leb_le; lia|done|].
      destruct o; [|done]. rewrite Htok, bool_decide_true by done. apply orb_true_r.
    + by destruct (i_type i).
  - unfold as_read, elem_of_inode. cbn [ty per us gs mt sz fileHash rp symlink]. 
    repeat match goal with H : bool_decide _ = true |- _ => apply bool_decide_eq_true in H end.
    f_equal; try done; by destruct (i_type i).
Qed.

Section scan.
Context (sha1 : string -> string) (listing : gset string -> list string) (absolute : path -> path).
Context (Hlisting : forall x : gset string, listing x ≡ₚ elements x) (Hsha : sha1_text sha1).

(** a directory whose files have metadata that fits *)
Record scannable (fs : FS) (dst : path) : Prop := {
  sc_wf : fs_wf fs;
  sc_top : good_top (absolute dst) = true;
  sc_dir : is_directory fs (absolute dst) = true;
  sc_fit : forall l i, locate (absolute dst) `prefix_of` l -> inodes fs !! l = Some i -> storable l i = true }.

Definition scanned_as (fs : FS) (dst : path) (o : ScanOpt) (d : DirectoryTree) : Prop :=
  scanDirectory sha1 listing absolute fs dst o emptyTree = (Ok tt, d) /\ tree_inv d /\ tree_sorted d /\
  (o = ComputeHash -> hashed d) /\
  forall q, model d !! q = if decide (q = "") then None else scan_at sha1 fs (absolute dst) o q.

Lemma sha1_nonempty d : sha1 d <> "".
Proof using Hsha. intros E. destruct (Hsha d) as [_ H]. by rewrite E in H. Qed.

Lemma scan_any fs dst o :
  fs_wf fs -> good_top (absolute dst) = true -> is_directory fs (absolute dst) = true ->
  exists d, scanned_as fs dst o d.
Proof using Hlisting Hsha.
  intros Hwf Htop Hdir.
  destruct (scanDirectory_spec sha1 listing Hlisting fs Hwf (absolute dst) Htop o absolute dst emptyTree eq_refl Hdir)
    as (d & E & Hinv & Hso & _ & _ & Hm).
  exists d. split; [done|]. split; [done|]. split; [done|]. split; [|done]. intros -> q e. rewrite Hm.
  case_decide; [done|]. unfold scan_at. intros (i & _ & ->)%fmap_Some_1. cbn.
  pose proof (sha1_nonempty (i_data i)). by destruct (i_type i).
Qed.

Lemma scan_ok fs dst o : scannable fs dst -> exists d, scanned_as fs dst o d.
Proof using Hlisting Hsha. intros [Hwf Htop Hdir _]. by apply scan_any. Qed.

Lemma scan_keepable fs dst o d : scannable fs dst -> scanned_as fs dst o d -> keepable_tree d.
Proof using Hsha.
  intros [_ _ _ Hfit] (_ & _ & _ & _ & Hm) q e. rewrite Hm. case_decide; [done|].
  unfold scan_at. intros (i & Hi & ->)%fmap_Some_1. apply (storable_keepable sha1 o (locate (absolute dst))); [done|].
  eapply Hfit; [|done]. by apply prefix_app_r.
Qed.

Lemma scannable_keeps K fs fs' dst :
  keeps K fs fs' -> away (locate (absolute dst)) K -> scannable fs dst -> scannable fs' dst.
Proof using Type.
  intros Hk Ha [Hwf Htop Hdir Hfit]. pose proof Hk as [Hd _ _ Hw]. split; [by apply Hw|done| |].
  - unfold is_directory. by rewrite Hd.
  - intros l i Hl. rewrite (keeps_away K fs fs' (locate (absolute dst)) _ Hk Ha) by done. by apply Hfit.
Qed.

Lemma scan_again K fs fs' dst o d :
  keeps K fs fs' -> away (locate (absolute dst)) K -> scannable fs dst -> scanned_as fs dst o d ->
  exists d', scanned_as fs' dst o d' /\ model d' = model d.
Proof using Hlisting Hsha.
  intros Hk Ha Hs (_ & _ & _ & _ & Hm). destruct (scan_ok fs' dst o) as (d' & H); [by eapply scannable_keeps|].
  exists d'. split; [done|]. destruct H as (_ & _ & _ & _ & Hm'). apply map_eq. intros q.
  rewrite Hm, Hm'. case_decide; [done|]. unfold scan_at.
  by rewrite (keeps_away K fs fs' (locate (absolute dst)) _ Hk Ha) by apply prefix_app_r, reflexivity.
Qed.
End scan.

(** ** Loading and saving *)

Section files.
Context (absolute : path -> path).

(** a metadata file with a tree that can be written again *)
Record metadata_file (fs : FS) (p : path) (t : DirectoryTree) : Prop := {
  mf_read : tree_readFrom_file (read_file absolute fs) p emptyTree = (Ok tt, t);
  mf_inv : tree_inv t;
  mf_sorted : tree_sorted t;
  mf_hashed : hashed t;
  mf_fits : keepable_tree t }.

Lemma load_both fs p1 p2 t1 t2 :
  metadata_file fs p1 t1 -> metadata_file fs p2 t2 -> loadMetadataFiles absolute fs p1 p2 = Ok (t1, t2).
Proof. intros [E1 _ _ _ _] [E2 _ _ _ _]. unfold loadMetadataFiles. by rewrite E1, E2. Qed.

Lemma load_saved fs p text t :
  regular_at fs (locate (absolute p)) text -> loads text t ->
  exists t', tree_readFrom_file (read_file absolute fs) p emptyTree = (Ok tt, t') /\ tree_inv t' /\ tree_sorted t' /\
    model t' = as_read <$> model t.
Proof.
  intros Hr Hl. unfold tree_readFrom_file, mbind, method_bind, clear, lift_outcome.
  rewrite (read_regular absolute fs p text Hr). cbn [from_option_err]. apply Hl.
Qed.

(** two metadata files, away from the directory [dst] *)
Record slots (fs : FS) (dst p1 p2 : path) : Prop := {
  ss_1 : slot absolute fs p1;
  ss_2 : slot absolute fs p2;
  ss_12 : locate (absolute p1) ∉ places absolute p2;
  ss_21 : locate (absolute p2) ∉ places absolute p1;
  ss_away : away (locate (absolute dst)) (places absolute p1 ++ places absolute p2) }.

Lemma saveMetadata_ok s text1 text2 dst :
  save (tm s) = true -> tree_writeTo (meta1Tree (tm s)) = Ok text1 ->
  tree_writeTo (if meta2TreePresent (tm s) then meta2Tree (tm s) else meta1Tree (tm s)) = Ok text2 ->
  slots (disk s) dst (meta1 (tm s)) (meta2 (tm s)) ->
  exists fs', saveMetadata absolute s = (Ok tt, mkSession (tm s) fs' (cin s)) /\
    keeps (places absolute (meta1 (tm s)) ++ places absolute (meta2 (tm s))) (disk s) fs' /\
    regular_at fs' (locate (absolute (meta1 (tm s)))) text1 /\ regular_at fs' (locate (absolute (meta2 (tm s)))) text2.
Proof.
  intros Hs H1 H2 [S1 S2 N1 N2 _].
  destruct (store_both absolute (meta1NeedsBackup (tm s)) (meta2NeedsBackup (tm s)) _ _ _ _ _ _ _ H1 H2 S1 S2 N1 N2)
    as (fs1 & fs2 & E1 & E2 & Hk & R1 & R2).
  exists fs2. split; [|done]. unfold saveMetadata, mbind, method_bind, get_state. rewrite Hs. cbn [negb].
  unfold on_disk. rewrite E1. cbn [disk tm cin]. by rewrite E2.
Qed.
End files.

(** ** The command *)

Section scrub.
Context (sha1 : string -> string) (listing order : gset string -> list string) (absolute : path -> path).
Context (Hlisting : forall x : gset string, listing x ≡ₚ elements x).
Context (Horder : forall x : gset string, order x ≡ₚ elements x) (Hsha : sha1_text sha1).

Abbreviation scanned_here := (scanned_as sha1 listing absolute).
Abbreviation scrub_here := (scrub sha1 listing order absolute).

(** the session that a scrub of trees starts from *)
Definition start (d t1 t2 : DirectoryTree) (p1 p2 : path) (fs : FS) (inp : string) : Session :=
  mkSession (mkManager emptyTree d t1 t2 p1 p2 false true false false false) fs inp.

Lemma scrub_starts {fixup} rounds dst p1 p2 d t1 t2 fs inp :
  loadMetadataFiles absolute fs p1 p2 = Ok (t1, t2) -> scanned_here fs dst ComputeHash d ->
  scrub_here rounds dst p1 p2 fixup (fs, inp) =
  let '(r, s) := leave_scope absolute (scrubImpl order rounds fixup) (start d t1 t2 p1 p2 fs inp) in (r, (disk s, cin s)).
Proof using Type.
  intros El (E & _). unfold scrub, with_manager, newManagerNoSource. rewrite El. cbn [mbind outcome_bind].
  by rewrite E.
Qed.

Lemma start_watched d t1 t2 p1 p2 fs inp :
  tree_inv t1 -> tree_inv t2 -> hashed t1 -> hashed t2 -> watched d (start d t1 t2 p1 p2 fs inp).
Proof using Type. by split. Qed.

(** without [save] nothing is written *)
Lemma leave_unsaved {A} (body : session_method A) s c s' :
  body s = (Ok c, s') -> save (tm s') = false -> leave_scope absolute body s = (Ok c, s').
Proof using Type.
  intros E Hs. unfold leave_scope. rewrite E. unfold saveMetadata, mbind, method_bind, get_state. by rewrite Hs.
Qed.

Lemma scrub_clean rounds dst p1 p2 d t1 t2 fs inp :
  loadMetadataFiles absolute fs p1 p2 = Ok (t1, t2) -> scanned_here fs dst ComputeHash d ->
  tree_inv t1 -> tree_inv t2 -> hashed t1 -> hashed t2 ->
  agree all_opts (model d) (model t1) -> agree all_opts (model d) (model t2) ->
  scrub_here rounds dst p1 p2 false (fs, inp) = (Ok 0%Z, (fs, inp)).
Proof using Horder.
  intros El Hd I1 I2 H1 H2 A1 A2. rewrite (scrub_starts _ _ _ _ _ _ _ _ _ El Hd).
  destruct Hd as (_ & Hinv & _ & Hh & _).
  rewrite (leave_unsaved _ _ 0%Z (start d t1 t2 p1 p2 fs inp)); [done| |done].
  apply (scrubImpl_clean d Hinv (Hh eq_refl) order Horder); [by apply start_watched|done|done].
Qed.

(** the trees after the scrub still fit *)
Lemma keepable_towards d t t' : keepable_tree d -> keepable_tree t -> towards d t t' -> keepable_tree t'.
Proof using Type. intros Hd Ht H q e. destruct (H q) as [->| ->]; [apply Ht|apply Hd]. Qed.

(** metadata that is saved after the trees were made to agree *)
Lemma saved_ok dst p1 p2 d t1 t2 s fs inp :
  scannable absolute fs dst -> slots absolute fs dst p1 p2 -> scanned_here fs dst ComputeHash d ->
  spared d (start d t1 t2 p1 p2 fs inp) s -> save (tm s) = true ->
  keepable_tree t1 -> keepable_tree t2 -> tree_sorted t1 -> tree_sorted t2 ->
  agree all_opts (model d) (model (meta1Tree (tm s))) -> agree all_opts (model d) (model (meta2Tree (tm s))) ->
  exists fs', saveMetadata absolute s = (Ok tt, mkSession (tm s) fs' inp) /\
    keeps (places absolute p1 ++ places absolute p2) fs fs' /\
    forall rounds inp', scrub_here rounds dst p1 p2 false (fs', inp') = (Ok 0%Z, (fs', inp')).
Proof using Hlisting Horder Hsha.
  intros Hsc Hsl Hd [[_ Hp2 I1 I2 Hh1 Hh2] Edisk Ecin _ P1 P2 T1 T2 O1 O2] Hsave K1 K2 S1 S2 A1 A2.
  cbn [start tm disk cin meta1 meta2 meta1Tree meta2Tree] in *. pose proof (scan_keepable sha1 listing absolute Hsha fs dst _ d Hsc Hd) as Kd.
  pose proof (keepable_towards d _ _ Kd K1 T1) as K1'. pose proof (keepable_towards d _ _ Kd K2 T2) as K2'.
  destruct (keepable_loads _ I1 (O1 S1) K1') as (text1 & W1 & L1).
  destruct (keepable_loads _ I2 (O2 S2) K2') as (text2 & W2 & L2).
  destruct (saveMetadata_ok absolute s text1 text2 dst) as (fs' & E & Hk & R1 & R2); [done|done|by rewrite Hp2|congruence|].
  rewrite P1, P2, Ecin, Edisk in *. exists fs'. split; [done|]. split; [done|]. intros rounds inp'.
  destruct (scan_again sha1 listing absolute Hlisting Hsha _ _ _ _ _ _ Hk (ss_away _ _ _ _ _ Hsl) Hsc Hd)
    as (d' & Hd' & Hmd).
  destruct (load_saved absolute fs' p1 text1 _ R1 L1) as (u1 & E1 & J1 & _ & M1).
  destruct (load_saved absolute fs' p2 text2 _ R2 L2) as (u2 & E2 & J2 & _ & M2).
  apply (scrub_clean rounds dst p1 p2 d' u1 u2 fs' inp'); [|done|done|done| | | |].
  - unfold loadMetadataFiles. by rewrite E1, E2.
  - by apply (hashed_kept (meta1Tree (tm s)) u1).
  - by apply (hashed_kept (meta2Tree (tm s)) u2).
  - rewrite M1, Hmd. by apply agree_kept.
  - rewrite M2, Hmd. by apply agree_kept.
Qed.

Lemma scrub_ok rounds dst p1 p2 d t1 t2 fs inp :
  scannable absolute fs dst -> slots absolute fs dst p1 p2 ->
  metadata_file absolute fs p1 t1 -> metadata_file absolute fs p2 t2 ->
  scanned_here fs dst ComputeHash d -> size (bad d t1 t2) < rounds ->
  exists code fs', scrub_here rounds dst p1 p2 false (fs, inp) = (Ok code, (fs', inp)) /\
    keeps (places absolute p1 ++ places absolute p2) fs fs' /\
    ((code = 2%Z /\ fs' = fs) \/
     (code = 0%Z \/ code = 1%Z) /\
     forall rounds' inp', scrub_here rounds' dst p1 p2 false (fs', inp') = (Ok 0%Z, (fs', inp'))).
Proof using Hlisting Horder Hsha.
  intros Hsc Hsl F1 F2 Hd Hn. pose proof (load_both absolute fs p1 p2 t1 t2 F1 F2) as El.
  destruct F1 as [_ I1 S1 H1 K1], F2 as [_ I2 S2 H2 K2]. pose proof Hd as (_ & Hinv & _ & Hh & _).
  destruct (scrubImpl_ok d Hinv (Hh eq_refl) order Horder rounds (start d t1 t2 p1 p2 fs inp)) as (code & s & E & Hsp & Hv);
    [by apply start_watched|done|].
  assert (disk s = fs /\ cin s = inp) as [Edisk Ecin] by (by destruct Hsp).
  rewrite (scrub_starts _ _ _ _ _ _ _ _ _ El Hd). destruct Hv as [Es A1 A2|A1 A2 Hsave|p _ _ Hsave].
  - rewrite (leave_unsaved _ _ _ _ E), Edisk, Ecin by (by rewrite Es). exists 0%Z, fs. split; [done|].
    split; [apply keeps_refl|]. right. split; [by left|]. intros rounds' inp'.
    by apply (scrub_clean rounds' dst p1 p2 d t1 t2).
  - destruct (saved_ok dst p1 p2 d t1 t2 s fs inp) as (fs' & Esave & Hk & Hagain); try done.
    exists 1%Z, fs'. split; [|split; [done|right; by auto]]. unfold leave_scope. rewrite E, Esave. done.
  - rewrite (leave_unsaved _ _ _ _ E Hsave), Edisk, Ecin. exists 2%Z, fs. split; [done|].
    split; [apply keeps_refl|]. by left.
Qed.
End scrub.

(** ** Listing a directory and comparing it with the list *)

Section list_and_compare.
Context (sha1 : string -> string) (listing order : gset string -> list string) (absolute : path -> path).
Context (Hlisting : forall x : gset string, listing x ≡ₚ elements x).
Context (Horder : forall x : gset string, order x ≡ₚ elements x) (Hsha : sha1_text sha1).

Definition ls_options (nohash : bool) (dir met : path) : Options :=
  mkOptions false (Some "ls") None None None (Some met) nohash false false [dir].
Definition diff_options (nohash : bool) (dir met : path) : Options :=
  mkOptions false (Some "diff") None None None None nohash false false [dir; met].

Lemma scan_new fs dir o d :
  scanned_as sha1 listing absolute fs dir o d -> new_tree (scanDirectory sha1 listing absolute fs dir o) = Ok d.
Proof. intros (E & _). unfold new_tree. by rewrite E. Qed.

Lemma lsCmd_ok (nohash : bool) dir met fs d text inp :
  scanned_as sha1 listing absolute fs dir (if nohash then OmitHash else ComputeHash) d -> tree_writeTo d = Ok text ->
  lsCmd sha1 listing absolute (ls_options nohash dir met) (fs, inp) = (Ok (0%Z, text), (fs, inp)).
Proof using Type.
  intros Hd W. unfold lsCmd, scan_opt.
  cbn [ls_options o_help o_source o_target o_ignore o_fixup o_input o_nohash length fst].
  rewrite (scan_new fs dir _ d Hd). cbn [mbind outcome_bind]. by rewrite W.
Qed.

Lemma ls_ok rounds (nohash : bool) dir met fs inp :
  scannable absolute fs dir -> vacant fs (locate (absolute met)) ->
  away (locate (absolute dir)) [locate (absolute met)] ->
  exists fs' d text, main_parsed sha1 listing order absolute rounds (ls_options nohash dir met) (fs, inp) = (Ok (0%Z, ""), (fs', inp)) /\
    keeps [locate (absolute met)] fs fs' /\ regular_at fs' (locate (absolute met)) text /\
    scanned_as sha1 listing absolute fs' dir (if nohash then OmitHash else ComputeHash) d /\ loads text d.
Proof using Hlisting Hsha.
  intros Hsc Hv Ha. set (o := if nohash then OmitHash else ComputeHash).
  destruct (write_vacant absolute (Throw "") met "" fs Hv) as (fs1 & E1 & K1 & R1).
  pose proof (scannable_keeps absolute _ _ _ _ K1 Ha Hsc) as Hsc1.
  destruct (scan_ok sha1 listing absolute Hlisting Hsha fs1 dir o Hsc1) as (d1 & Hd1).
  pose proof Hd1 as (_ & I1 & S1 & _). pose proof (scan_keepable sha1 listing absolute Hsha fs1 dir o d1 Hsc1 Hd1) as P1. destruct (keepable_loads d1 I1 S1 P1) as (text & W & L).
  assert (Hw : exists fs', (if str_empty text then (Ok tt, fs1) else write_file absolute (Throw "") met text fs1) = (Ok tt, fs') /\
    keeps [locate (absolute met)] fs1 fs' /\ regular_at fs' (locate (absolute met)) text).
  { destruct (str_empty text) eqn:Et.
    - exists fs1. apply str_empty_true in Et as ->. split; [done|]. split; [apply keeps_refl|done].
    - by eapply write_regular. }
  destruct Hw as (fs' & E2 & K2 & R2).
  destruct (scan_again sha1 listing absolute Hlisting Hsha _ _ _ _ _ _ K2 Ha Hsc1 Hd1) as (d & Hd & Hm).
  exists fs', d, text. split; [|split; [by eapply keeps_trans|split; [done|split; [done|]]]].
  - unfold main_parsed, redirect, on_files. cbn [ls_options o_command o_output fst].
    assert (file_exists absolute fs met = false) as ->.
    { unfold file_exists. rewrite (follow_here absolute fs met "") by auto. destruct Hv as [-> _]. done. }
    rewrite E1. change (operations sha1 listing order absolute rounds "ls") with (Some (lsCmd sha1 listing absolute)).
    unfold mbind, method_bind. cbv iota. rewrite (lsCmd_ok nohash dir met fs1 d1 text inp Hd1 W).
    destruct (str_empty text); [by injection E2 as <-|]. by rewrite E2.
  - intros file t0. destruct (L file t0) as (t' & ? & ? & ? & Ht'). exists t'. by rewrite Hm.
Qed.

Lemma agree_itself o (m : gmap path FilesystemElement) : agree o m m.
Proof using Type. intros q. apply differ_refl. Qed.

Lemma diff_ok rounds (nohash : bool) dir met fs text d inp :
  scanned_as sha1 listing absolute fs dir (if nohash then OmitHash else ComputeHash) d ->
  scannable absolute fs dir -> regular_at fs (locate (absolute met)) text -> loads text d ->
  main_parsed sha1 listing order absolute rounds (diff_options nohash dir met) (fs, inp) = (Ok (0%Z, ""), (fs, inp)).
Proof using Horder Hsha.
  intros Hd Hsc Hr Hl. destruct (load_saved absolute fs met text d Hr Hl) as (u & E & Iu & _ & Mu).
  pose proof Hd as (_ & Id & _). pose proof (scan_keepable sha1 listing absolute Hsha fs dir _ d Hsc Hd) as Kd.
  pose proof (sc_dir _ _ _ Hsc) as Hdir. unfold main_parsed. cbn [diff_options o_command o_output redirect].
  change (operations sha1 listing order absolute rounds "diff") with (Some (diffCmd sha1 listing order absolute)).
  unfold diffCmd, scan_opt. cbn [diff_options o_help o_source o_target o_ignore o_fixup o_input o_nohash fst].
  assert (new_tree (fromPath sha1 listing absolute fs dir (if nohash then OmitHash else ComputeHash)) = Ok d) as ->
    by (unfold fromPath; rewrite Hdir; by apply scan_new).
  assert (new_tree (fromPath sha1 listing absolute fs met (if nohash then OmitHash else ComputeHash)) = Ok u) as ->.
  { unfold fromPath, is_directory. rewrite (regular_not_dir fs (locate (absolute met)) text Hr). unfold new_tree. by rewrite E. }
  cbn [mbind outcome_bind orb given]. 
  assert (diff2 order d u all_opts = Ok []) as ->; [|done].
  apply diff2_nil; [done|done|done|]. rewrite Mu. apply agree_kept; [done|]. apply agree_itself.
Qed.
End list_and_compare.
