(* ===== verification/BackupCommand.v ===== *)
(** * The command ddm backup with metadata files

    A backup with metadata files first scrubs the backup directory, then brings
    it up to date together with the metadata, which is saved to both files at the
    end. Here the scrub, the backup and the files are put together, for a backup
    that hashes all files. *)

From S2P Require Import Prelude CxxPath CxxTime CxxStream Element Node Tree TreeInv TreeOps TreeCopy TreeIO TreeLoad Diff DiffSpec Diff3Spec FileSystem FsSpec MetaFiles MetaSpec TreeFs ScanSpec SyncSpec SyncOps SyncCopy Backup BackupSpec BackupRun Scrub ScrubSpec Commands CommandsSpec CommandsRun.

(** ** Elements *)

(** elements that survive a metadata file, with a hash if they are regular files *)
Definition storable_element (e : FilesystemElement) : Prop :=
  keepable e /\ (ty e = regular <-> fileHash e <> "").

Lemma keepable_mixable : mixable keepable.
Proof.
  intros x y [Wx Rx] [Wy Ry].
  unfold file_wf, line_wf in Wx, Wy. split_andb. unfold as_read in Rx, Ry.
  injection Rx as _ Px _ _ _. injection Ry as Ty Py Zy Hhy Sy.
  split_and!; split; unfold file_wf, line_wf, as_read;
    cbn [setPermissions setUser setGroup setMtime ty per us gs mt sz fileHash rp symlink];
    (split_andb || f_equal); done.
Qed.

Lemma storable_mixable : mixable storable_element.
Proof. intros x y [Kx _] [Ky Hy]. destruct (keepable_mixable x y Kx Ky) as (? & ? & ?). split_and!; (split; [done|exact Hy]). Qed.

Lemma storable_tree t : keepable_tree t -> hashed t -> every storable_element (model t).
Proof. intros Hk Hh q e He. split; [exact (Hk q e He)|exact (Hh q e He)]. Qed.

Lemma storable_keepable_tree t : every storable_element (model t) -> keepable_tree t /\ hashed t.
Proof. intros H. split; intros q e He; by destruct (H q e He). Qed.

(** a fresh scan agrees with what a tree in step with the directory agrees with *)
Lemma depicts_scan sha1 o q e i x :
  depicts sha1 e i -> rp e = q -> (ty e = regular -> fileHash e <> "") ->
  compare e x all_opts = true -> compare (elem_of_inode sha1 o q i) x all_opts = true.
Proof.
  intros (Ht & Hp & Hu & Hg & Hm & Hr & Hn & Hl) Hrp Hh (Ct & Crp & Cp & Co & Cm & Cs & Ch & Cl)%compare_spec.
  apply compare_spec. unfold elem_of_inode, hashes_agree in *. cbn in *.
  assert (Hk : match i_type i with regular => regular | directory => directory | symlink_ => symlink_ | _ => unknown end
    = ty e) by (rewrite Ht; by destruct (i_type i)).
  rewrite Hk, <-Hp, <-Hu, <-Hg, <-Hm, <-Hrp. split_and!; try done.
  - intros _. rewrite <-(Cs eq_refl). destruct (decide (ty e = regular)) as [Hreg|Hreg].
    + rewrite bool_decide_true by done. by destruct (Hr Hreg).
    + rewrite bool_decide_false by done. by destruct (Hn Hreg).
  - intros _. specialize (Ch eq_refl). destruct (decide (ty e = regular)) as [Hreg|Hreg];
      [rewrite (bool_decide_true (ty e = regular)) by done|by rewrite (bool_decide_false (ty e = regular))].
    destruct o; [|done]. destruct (Hr Hreg) as [_ [He|He]]; [by destruct (Hh Hreg)|by rewrite <-He].
  - intros _. rewrite <-(Cl eq_refl), Hl. case_decide; [by rewrite bool_decide_true|by rewrite bool_decide_false].
Qed.

Lemma bound_scan sha1 listing absolute fs dst o d t m :
  bound sha1 (absolute dst) t fs -> hashed t ->
  scanned_as sha1 listing absolute fs dst o d -> agree all_opts (model t) m -> agree all_opts (model d) m.
Proof.
  intros [Ht _ _ _ Hs] Hev (_ & Hi & _ & _ & Hm) Hag q. specialize (Hag q). rewrite Hm.
  destruct (decide (q = "")) as [->|Hq].
  { assert (Hn : model t !! "" = None) by (apply eq_None_not_Some; intros Hx%(inv_good_path t Ht); done).
    by rewrite Hn in Hag. }
  specialize (Hs q Hq). unfold sync_at in Hs. unfold scan_at.
  destruct (model t !! q) as [e|] eqn:He, (inodes fs !! _) as [i|]; cbn in *; try done.
  destruct (m !! q) as [x|]; cbn in *; [|done]. apply negb_false_iff in Hag. apply negb_false_iff.
  apply (depicts_scan sha1 o q e i x); [done| |by apply (Hev q e He)|done].
  by destruct (inv_model t Ht q e He) as (_ & _ & _ & _ & ?).
Qed.

(** ** Files outside of the directories *)

Lemma bound_keeps sha1 K top t fs fs' :
  keeps K fs fs' -> away (locate top) K -> bound sha1 top t fs -> bound sha1 top t fs'.
Proof.
  intros Hk Ha [Hi Ht Hwf Hd Hs]. pose proof Hk as [Hdirs _ _ Hw]. split; [done|done|by apply Hw|by rewrite Hdirs|].
  intros q Hq. unfold sync_at. rewrite (keeps_away K fs fs' (locate top) _ Hk Ha) by (by apply prefix_app_r).
  by apply Hs.
Qed.

Lemma step_dir top fs fs' l : fs_step top fs fs' -> ~ locate top `prefix_of` l -> is_dir_loc fs' l = is_dir_loc fs l.
Proof. intros [_ _ _ F] Hl. unfold is_dir_loc. by rewrite F. Qed.

Lemma slot_step absolute top fs fs' p :
  fs_step top fs fs' -> away (locate top) (places absolute p) -> slot absolute fs p -> slot absolute fs' p.
Proof.
  intros Hst [Hp [Hb _]%Forall_cons]%Forall_cons [[text F] D N B BD BN O].
  assert (Hdir : forall l, ~ locate top `prefix_of` l -> ~ locate top `prefix_of` dir_loc l).
  { intros l Hl Hd. apply Hl. etrans; [exact Hd|apply dir_loc_prefix]. }
  split; try done; [| | |].
  - exists text. destruct F as (i & Hi & ?). exists i. split; [|done]. destruct Hst as [_ _ _ Fr]. by rewrite Fr.
  - rewrite (step_dir top fs) by auto. done.
  - rewrite (step_dir top fs) by auto. done.
  - rewrite (step_dir top fs) by auto. done.
Qed.

Lemma slots_step absolute fs fs' dst p1 p2 :
  fs_step (absolute dst) fs fs' -> slots absolute fs dst p1 p2 -> slots absolute fs' dst p1 p2.
Proof.
  intros Hst [S1 S2 N1 N2 Ha]. pose proof Ha as [Ha1 Ha2]%Forall_app. split; try done; by eapply slot_step.
Qed.

(** ** The command *)

Section command.
Context (sha1 : string -> string) (listing order : gset string -> list string) (absolute : path -> path).
Context (Hlisting : forall x : gset string, listing x ≡ₚ elements x).
Context (Horder : forall x : gset string, order x ≡ₚ elements x) (Hsha : sha1_text sha1).
Context (src dst p1 p2 : path).

Abbreviation at_src := (absolute src).
Abbreviation at_dst := (absolute dst).

(** directories and metadata files that the commands can work with *)
Record arranged (fs : FS) : Prop := {
  pr_src : scannable absolute fs src;
  pr_dst : scannable absolute fs dst;
  pr_apart : apart at_src at_dst;
  pr_chown : forall q i, q <> "" -> inodes fs !! (locate at_src ++ comps q) = Some i ->
    may_own (rights fs) (i_user i) (i_group i) = true;
  pr_types : forall q i, q <> "" -> inodes fs !! (locate at_src ++ comps q) = Some i -> kind (i_type i) <> unknown;
  pr_slots : slots absolute fs dst p1 p2;
  pr_away : away (locate at_src) (places absolute p1 ++ places absolute p2) }.

Lemma arranged_preservable fs q i :
  arranged fs -> q <> "" -> inodes fs !! (locate at_src ++ comps q) = Some i -> preservable (rights fs) i.
Proof using Type.
  intros Har Hq Hi. split; [by eapply (pr_types fs Har)|]. split; [by eapply (pr_chown fs Har)|].
  pose proof (sc_fit _ _ _ (pr_src fs Har) _ i ltac:(by apply prefix_app_r) Hi) as Hs. unfold storable in Hs. split_andb.
  apply nine_bits_kept. by eapply bool_decide_eq_true_1.
Qed.

(** with nothing newer in the backup *)
Record prepared (fs : FS) : Prop := {
  pr_arranged : arranged fs;
  pr_times : forall q i j, inodes fs !! (locate at_src ++ comps q) = Some i ->
    inodes fs !! (locate at_dst ++ comps q) = Some j -> (i_mtime j <= i_mtime i)%Z }.

Lemma scanned_bound_to fs p o t :
  scannable absolute fs p -> scanned_as sha1 listing absolute fs p o t -> bound sha1 (absolute p) t fs.
Proof using Hlisting.
  intros [Hwf Htop Hdir _] (E & _).
  destruct (scan_bound sha1 listing absolute fs p o emptyTree Hlisting Hwf Htop Hdir) as (t' & E' & Hb). congruence.
Qed.

(** a metadata tree that agrees with the backup and can be saved *)
Record current (d t : DirectoryTree) : Prop := {
  c_inv : tree_inv t;
  c_agree : agree all_opts (model d) (model t);
  c_every : every storable_element (model t);
  c_sorted : tree_sorted t }.

(** the state at the end of a backup of [s], which started with the files [fs] *)
Record backed_up (s : DirectoryTree) (fs : FS) (s2 : Session) : Prop := {
  u_src : bound sha1 at_src s (disk s2);
  u_dst : bound sha1 at_dst (dstTree (tm s2)) (disk s2);
  u_every : every storable_element (model (dstTree (tm s2)));
  u_meta : current (dstTree (tm s2)) (meta1Tree (tm s2));
  u_step : fs_step at_dst fs (disk s2);
  u_save : save (tm s2) = true;
  u_one : meta2TreePresent (tm s2) = false;
  u_name1 : meta1 (tm s2) = p1;
  u_name2 : meta2 (tm s2) = p2 }.

Lemma backupScrubbed_ok s d s1 result :
  prepared (disk s1) -> scanned_as sha1 listing absolute (disk s1) src ComputeHash s ->
  scanned_as sha1 listing absolute (disk s1) dst ComputeHash d ->
  srcTree (tm s1) = s -> dstTree (tm s1) = d -> meta1 (tm s1) = p1 -> meta2 (tm s1) = p2 ->
  current d (meta1Tree (tm s1)) ->
  exists code s2, backupScrubbed sha1 order absolute dst true result s1 = (Ok code, s2) /\ backed_up s (disk s1) s2 /\
    (code = result /\ agree all_opts (model s) (model (dstTree (tm s2))) \/ code = 2%Z).
Proof using Hlisting Horder Hsha.
  intros [Par Pmt] Hs Hd Es Ed E1 E2 [Ci Ca Ce Cs]. pose proof Par as [Psrc Pdst Pap _ _ _ _].
  pose proof (scanned_bound_to _ _ _ _ Psrc Hs) as Bs. pose proof (scanned_bound_to _ _ _ _ Pdst Hd) as Bd.
  assert (Qs : every storable_element (model s)).
  { apply storable_tree; [by apply (scan_keepable sha1 listing absolute Hsha _ _ _ _ Psrc Hs)|by apply Hs]. }
  assert (Qd : every storable_element (model d)).
  { apply storable_tree; [by apply (scan_keepable sha1 listing absolute Hsha _ _ _ _ Pdst Hd)|by apply Hd]. }
  pose proof Bs as [Is _ _ _ _]. pose proof Bd as [Id _ _ _ _].
  destruct (diff2_paths s order d Horder Is Id) as (P & Er & _). set (r := line_of_path s (model d) <$> P) in *.
  pose proof (none_newer sha1 order _ s _ d (disk s1) r Horder Bs Bd Pmt Er) as Hnn.
  destruct (backupImpl_ok sha1 at_src at_dst s storable_element True (fun _ _ _ => True) (rights (disk s1)) Pap
    (sync_supported sha1 _ s _ Bs (fun q i => arranged_preservable _ q i Par))
    storable_mixable Qs order (mkDesk d (Some (meta1Tree (tm s1))) (disk s1) (cin s1)) r Horder)
    as (k & left_ & E & [Ks Kd _ Kq Kh Km] & Hst & El & Hlft & _);
    [split; try done; intros ? [= <-]; split_and!; try done; by right|done|rewrite Hnn; simpl; lia|].
  destruct (Kh I) as [t1 Et1]. destruct (Km t1 Et1) as (Ti & Ta & Te & Ts & _). cbn [files] in *.
  eexists _, _. split; [|split].
  - unfold backupScrubbed, mbind, method_bind, change, backupManaged, mret, method_ret.
    cbn [tm srcTree dstTree meta1Tree disk cin discardMeta2Tree saveMetadataOnExit]. rewrite Es, Ed, E, Et1. reflexivity.
  - split; cbn; try done. split; auto.
  - cbn. destruct (existsb line_rotten r) eqn:Hrot; [right; done|]. left. split; [done|].
    rewrite (nothing_left r left_ _ Hlft Hrot Hnn) in El. destruct Kd as [Ik _ _ _ _].
    by apply (diff2_nil order s (Backup.dst k) all_opts Horder Is Ik).
Qed.

(** a scrub of files whose metadata agrees with the directory *)
Lemma clean_later fs t m1 m2 text1 text2 :
  good_top at_dst = true -> bound sha1 at_dst t fs -> hashed t ->
  regular_at fs (locate (absolute p1)) text1 -> regular_at fs (locate (absolute p2)) text2 ->
  loads text1 m1 -> loads text2 m2 -> keepable_tree m1 -> keepable_tree m2 -> hashed m1 -> hashed m2 ->
  agree all_opts (model t) (model m1) -> agree all_opts (model t) (model m2) ->
  forall rounds inp, scrub sha1 listing order absolute rounds dst p1 p2 false (fs, inp) = (Ok 0%Z, (fs, inp)).
Proof using Hlisting Horder Hsha.
  intros Htop Bd Ht R1 R2 L1 L2 K1 K2 H1 H2 A1 A2 rounds inp. pose proof Bd as [_ _ Hwf Hdir _].
  destruct (scan_any sha1 listing absolute Hlisting Hsha fs dst ComputeHash Hwf Htop Hdir) as (d & Hd).
  destruct (load_saved absolute fs p1 text1 _ R1 L1) as (v1 & E1 & J1 & _ & M1).
  destruct (load_saved absolute fs p2 text2 _ R2 L2) as (v2 & E2 & J2 & _ & M2).
  pose proof (fun m => bound_scan sha1 listing absolute fs dst _ d t m Bd Ht Hd) as Hag.
  apply (scrub_clean sha1 listing order absolute Horder rounds dst p1 p2 d v1 v2); [|done|done|done| | | |].
  - unfold loadMetadataFiles. by rewrite E1, E2.
  - by apply (hashed_kept m1 v1).
  - by apply (hashed_kept m2 v2).
  - rewrite M1. apply agree_kept; auto.
  - rewrite M2. apply agree_kept; auto.
Qed.

(** what is left of the files when the metadata was saved *)
Record saved (fs fs' : FS) : Prop := {
  v_clean_later : forall rounds inp, scrub sha1 listing order absolute rounds dst p1 p2 false (fs', inp) = (Ok 0%Z, (fs', inp));
  v_outside : forall l, ~ locate at_dst `prefix_of` l -> l ∉ places absolute p1 ++ places absolute p2 ->
    l ∉ dir_loc <$> places absolute p1 ++ places absolute p2 -> inodes fs' !! l = inodes fs !! l }.

Lemma saved_backup s fs s2 :
  prepared fs -> backed_up s fs s2 ->
  exists fs', saveMetadata absolute s2 = (Ok tt, mkSession (tm s2) fs' (cin s2)) /\ saved fs fs' /\
    (agree all_opts (model s) (model (dstTree (tm s2))) -> forall q, q <> "" ->
       both same_file (inodes fs' !! (locate at_src ++ comps q)) (inodes fs' !! (locate at_dst ++ comps q))).
Proof using Hlisting Horder Hsha.
  intros [[Psrc Pdst _ _ _ Psl Paw] _] [Us Ud Uq [Ci Ca Ce Cs] Ust Usv Uone N1 N2].
  destruct (storable_keepable_tree _ Ce) as [Kk Kh].
  destruct (keepable_loads _ Ci Cs Kk) as (text & W & L).
  pose proof (slots_step absolute fs (disk s2) dst p1 p2 Ust Psl) as Hsl.
  destruct (saveMetadata_ok absolute s2 text text dst) as (fs' & E & Hk & R1 & R2); [done|done|by rewrite Uone|by rewrite N1, N2|].
  rewrite N1, N2 in *. pose proof (ss_away _ _ _ _ _ Hsl) as Haw.
  pose proof (bound_keeps sha1 _ _ _ _ _ Hk Haw Ud) as Bd. pose proof (bound_keeps sha1 _ _ _ _ _ Hk Paw Us) as Bs.
  exists fs'. split; [done|]. split; [split|].
  - destruct (storable_keepable_tree _ Uq) as [_ Hh].
    by apply (clean_later fs' (dstTree (tm s2)) (meta1Tree (tm s2)) (meta1Tree (tm s2)) text text (sc_top _ _ _ Pdst)).
  - intros l Hl Hn1 Hn2. destruct Hk as [_ _ Hrest _], Ust as [_ _ _ Hframe]. rewrite Hrest by done. by apply Hframe.
  - intros Hag. by apply (in_step_same sha1 _ s _ (dstTree (tm s2))).
Qed.

(** ** From the command to its end *)

Definition begin (s d t1 t2 : DirectoryTree) (fs : FS) (inp : string) : Session :=
  mkSession (mkManager s d t1 t2 p1 p2 true true false false false) fs inp.

Lemma backup_begins (hashAll : bool) rounds threads s d t1 t2 fs inp :
  let o := if hashAll then ComputeHash else OmitHash in
  loadMetadataFiles absolute fs p1 p2 = Ok (t1, t2) ->
  scanned_as sha1 listing absolute fs src o s -> scanned_as sha1 listing absolute fs dst o d ->
  backup sha1 listing order absolute rounds src dst p1 p2 false hashAll threads (fs, inp) =
  let '(r, s') := leave_scope absolute (backupBody sha1 order absolute rounds dst false hashAll) (begin s d t1 t2 fs inp) in
  (r, (disk s', cin s')).
Proof using Type.
  intros o El (Es & _) (Ed & _). unfold backup, with_manager, newManager. fold o. rewrite El. cbn [mbind outcome_bind].
  unfold scanSourceTargetDir. rewrite Es, Ed. by destruct threads.
Qed.

(** the backup proper and the destructor *)
Lemma backup_finishes (body : session_method Z) s d s0 s1 result :
  prepared (disk s1) -> scanned_as sha1 listing absolute (disk s1) src ComputeHash s ->
  scanned_as sha1 listing absolute (disk s1) dst ComputeHash d ->
  srcTree (tm s1) = s -> dstTree (tm s1) = d -> meta1 (tm s1) = p1 -> meta2 (tm s1) = p2 ->
  current d (meta1Tree (tm s1)) -> result <> 2%Z ->
  body s0 = backupScrubbed sha1 order absolute dst true result s1 ->
  exists code s', leave_scope absolute body s0 = (Ok code, s') /\ saved (disk s1) (disk s') /\
    (code = result \/ code = 2%Z) /\
    (code <> 2%Z -> forall q, q <> "" ->
       both same_file (inodes (disk s') !! (locate at_src ++ comps q)) (inodes (disk s') !! (locate at_dst ++ comps q))).
Proof using Hlisting Horder Hsha.
  intros Hpr Hs Hd Es Ed N1 N2 Hc Hres Ebody.
  destruct (backupScrubbed_ok s d s1 result Hpr Hs Hd Es Ed N1 N2 Hc) as (code & s2 & E & Hup & Hcode).
  destruct (saved_backup s (disk s1) s2 Hpr Hup) as (fs' & Esave & Hsaved & Hsame).
  exists code, (mkSession (tm s2) fs' (cin s2)). split; [unfold leave_scope; by rewrite Ebody, E, Esave|].
  split; [done|]. split; [naive_solver|]. intros Hne. apply Hsame. by destruct Hcode as [[_ ?]|?].
Qed.

Lemma backup_ok rounds threads d t1 t2 fs inp :
  prepared fs -> metadata_file absolute fs p1 t1 -> metadata_file absolute fs p2 t2 ->
  scanned_as sha1 listing absolute fs dst ComputeHash d -> size (bad d t1 t2) < rounds ->
  head (answers inp) = Some true ->
  exists code fs' inp',
    backup sha1 listing order absolute rounds src dst p1 p2 false true threads (fs, inp) = (Ok code, (fs', inp')) /\
    ((code = 2%Z /\ fs' = fs /\ exists q, differ all_opts (model d !! q) (model t1 !! q) = true /\
        differ all_opts (model d !! q) (model t2 !! q) = true) \/
     (code = 0%Z \/ code = 1%Z \/ code = 2%Z) /\ saved fs fs' /\
     (code <> 2%Z -> forall q, q <> "" ->
        both same_file (inodes fs' !! (locate at_src ++ comps q)) (inodes fs' !! (locate at_dst ++ comps q)))).
Proof using Hlisting Horder Hsha.
  intros Hpr F1 F2 Hd Hn Hans. pose proof (load_both absolute fs p1 p2 t1 t2 F1 F2) as El.
  destruct (scan_ok sha1 listing absolute Hlisting Hsha fs src ComputeHash (pr_src fs (pr_arranged fs Hpr))) as (s & Hs).
  rewrite (backup_begins true rounds threads s d t1 t2 fs inp El Hs Hd). set (s0 := begin s d t1 t2 fs inp).
  destruct F1 as [_ I1 S1 H1 K1], F2 as [_ I2 S2 H2 K2]. pose proof Hd as (_ & Hinv & _ & Hh & _).
  pose proof (scan_keepable sha1 listing absolute Hsha fs dst _ d (pr_dst fs (pr_arranged fs Hpr)) Hd) as Kd.
  destruct (scrubImpl_ok d Hinv (Hh eq_refl) order Horder rounds s0) as (result & s1 & E & Hsp & Hv); [by split|done|].
  pose proof Hsp as [[_ _ J1 _ G1 _] Edisk Ecin Esrc N1 N2 T1 _ O1 _].
  assert (Hcur : agree all_opts (model d) (model (meta1Tree (tm s1))) -> current d (meta1Tree (tm s1))).
  { intros Hag. split; [done|done| |by apply O1]. apply storable_tree; [|done]. by apply (keepable_towards d t1). }
  cbn [s0 begin tm disk cin srcTree meta1 meta2 meta1Tree] in Edisk, Ecin, Esrc, N1, N2.
  assert (Hgo : forall result s', result <> 2%Z -> tm s' = tm s1 -> disk s' = fs ->
    agree all_opts (model d) (model (meta1Tree (tm s1))) ->
    backupBody sha1 order absolute rounds dst false true s0 = backupScrubbed sha1 order absolute dst true result s' ->
    exists code s2, leave_scope absolute (backupBody sha1 order absolute rounds dst false true) s0 = (Ok code, s2) /\
      (code = result \/ code = 2%Z) /\ saved fs (disk s2) /\
      (code <> 2%Z -> forall q, q <> "" ->
         both same_file (inodes (disk s2) !! (locate at_src ++ comps q)) (inodes (disk s2) !! (locate at_dst ++ comps q)))).
  { intros res s' Hne Etm Edk Hag Eb.
    destruct (backup_finishes (backupBody sha1 order absolute rounds dst false true) s d s0 s' res) as (code & s2 & E2 & Hsv & Hc & Hsame);
      rewrite ?Etm, ?Edk in *; try done; [by destruct Hsp as [[-> _ _ _ _ _] _ _ _ _ _ _ _ _ _]|by apply Hcur|].
    exists code, s2. auto. }
  destruct Hv as [Es A1 A2|A1 A2 Hsave|q O1' O2' Hsave].
  - destruct (Hgo 0%Z s1) as (code & s2 & E2 & Hc & Hsv & Hsame); [done|done|done|by rewrite Es|
      unfold backupBody, mbind at 1, method_bind at 1; by rewrite E|].
    rewrite E2. exists code, (disk s2), (cin s2). split; [done|]. right. split; [|done]. naive_solver.
  - pose proof (read_answer_spec inp) as Hra. destruct (answers inp) as [|b l]; [done|]. injection Hans as ->.
    destruct Hra as (rest & Hra & _).
    destruct (Hgo 1%Z (mkSession (tm s1) (disk s1) rest)) as (code & s2 & E2 & Hc & Hsv & Hsame); [done|done|done|done| |].
    { unfold backupBody, mbind, method_bind. rewrite E. rewrite bool_decide_true by done. unfold ask_user, askYesNo. by rewrite Ecin, Hra. }
    rewrite E2. exists code, (disk s2), (cin s2). split; [done|]. right. split; [|done]. naive_solver.
  - rewrite (leave_unsaved absolute _ s0 2%Z s1); [|unfold backupBody, mbind, method_bind; by rewrite E|done].
    exists 2%Z, (disk s1), (cin s1). split; [done|]. left. split; [done|]. split; [done|]. by exists q.
Qed.
End command.
