(* ===== verification/QuickBackup.v ===== *)
(** * The command ddm backup --nohash

    Without hashing all files, a backup compares the directories by size and time,
    and takes the hashes of the files it does not touch from the metadata; the
    missing ones are computed at the end. Here it is shown that the metadata it
    saves describes the backup directory, and where its hashes come from. *)

From S2P Require Import Prelude CxxPath CxxTime CxxStream Element Node Tree TreeInv TreeOps TreeCopy TreeIO TreeLoad TreeHash Diff DiffSpec Diff3Spec FileSystem FsSpec MetaFiles MetaSpec TreeFs ScanSpec FsData SyncSpec SyncOps SyncCopy Backup BackupSpec BackupRun Scrub ScrubSpec QuickSpec Commands CommandsSpec CommandsRun BackupCommand.

(** ** Elements with other hashes *)

(** everything but the hash of a regular file *)
Definition depicts_but_hash (e : FilesystemElement) (i : Inode) : Prop := depicts (fun _ => fileHash e) e i.

Lemma keepable_plain e : keepable e -> ty e <> regular -> fileHash e = "".
Proof.
  intros [_ H] Hr. unfold as_read in H. injection H as Ht _ _ <- _. rewrite Ht, bool_decide_false by done. done.
Qed.

(** what agrees with an element that depicts a file depicts it, hash aside *)
Lemma agrees_depicts sha1 e x i :
  depicts sha1 e i -> compare e x all_opts = true -> keepable x -> depicts_but_hash x i.
Proof.
  intros (Ht & Hp & Hu & Hg & Hm & Hr & Hn & Hl) (Ct & Crp & Cp & Co & Cm & Cs & _ & Cl)%compare_spec Kx.
  cbn in *. destruct (Co eq_refl) as [Cu Cg]. specialize (Cp eq_refl). specialize (Cm eq_refl). specialize (Cs eq_refl).
  specialize (Cl eq_refl). unfold depicts_but_hash, depicts. rewrite <-Ct, <-Cp, <-Cu, <-Cg, <-Cm, <-Cs, <-Cl.
  split_and!; try done.
  - intros Hreg. split; [by destruct (Hr Hreg)|by right].
  - intros Hreg. split; [by destruct (Hn Hreg)|]. apply keepable_plain; [done|congruence].
Qed.

Lemma but_hash_set h e i : ty e = regular -> depicts_but_hash e i -> depicts_but_hash (setHash h e) i.
Proof.
  intros Hr (Ht & Hp & Hu & Hg & Hm & Hreg & Hn & Hl). unfold depicts_but_hash, depicts. cbn. split_and!; try done.
  intros _. destruct (Hreg Hr) as [-> _]. auto.
Qed.

Lemma but_hash_right sha1 e i :
  depicts_but_hash e i -> (ty e = regular -> fileHash e = sha1 (i_data i)) -> depicts sha1 e i.
Proof.
  intros (Ht & Hp & Hu & Hg & Hm & Hreg & Hn & Hl) Hh. split_and!; try done. intros Hr. destruct (Hreg Hr) as [-> _]. auto.
Qed.

Lemma but_hash_read e i : keepable e -> depicts_but_hash e i -> depicts_but_hash (as_read e) i.
Proof. intros [_ E] H. rewrite E. done. Qed.

Lemma as_read_keepable e : keepable e -> keepable (as_read e).
Proof. intros [W R]. split; rewrite R; [exact W|]. unfold as_read in *. cbn. injection R as -> -> -> -> ->. done. Qed.

Lemma hashed_storable sha1 e data :
  sha1_text sha1 -> keepable e -> ty e = regular -> storable_element (setHash (sha1 data) e).
Proof.
  intros Hsha [W R] Hr. destruct (Hsha data) as [Htok Hlen]. split.
  - split.
    + unfold file_wf, line_wf in *. cbn. rewrite Hr in *. split_andb; try done. rewrite Htok, Hlen. apply orb_true_r.
    + unfold as_read in *. cbn. rewrite Hr in *. cbn in *. injection R as -> ->. done.
  - cbn. split; [|done]. intros _ E. by rewrite E in Hlen.
Qed.

(** ** The metadata of a directory *)

Section described.
Context (sha1 : string -> string) (top : path) (K : path -> string -> string -> Prop).

(** the tree has the files of the directory; the hash of a regular file is that of
    its content, or satisfies [K] *)
Definition described (fs : FS) (t : DirectoryTree) : Prop :=
  forall q, q <> "" -> both (fun e i => depicts_but_hash e i /\
      (ty e = regular -> fileHash e = sha1 (i_data i) \/ K q (fileHash e) (i_data i)))
    (model t !! q) (inodes fs !! (locate top ++ comps q)).

(** with [K] only for right hashes, this is to depict the directory *)
Lemma described_bound fs t :
  tree_inv t -> topPath t = Some top -> hashed t -> fs_wf fs -> is_dir_loc fs (locate top) = true ->
  (forall q h data, h <> "" -> K q h data -> h = sha1 data) -> described fs t -> bound sha1 top t fs.
Proof.
  intros Ht Htop Hh Hwf Hd HK H. split; try done. intros q Hq. specialize (H q Hq). unfold sync_at.
  destruct (model t !! q) as [e|] eqn:He, (inodes fs !! _) as [i|]; cbn in *; try done. destruct H as [H1 H2].
  apply but_hash_right; [done|]. intros Hr. destruct (H2 Hr) as [?|?]; [done|].
  eapply HK; [|done]. by apply (Hh q e He).
Qed.

Lemma described_read fs t t' :
  keepable_tree t -> model t' = as_read <$> model t -> described fs t -> described fs t'.
Proof.
  intros Hk Hm H q Hq. specialize (H q Hq). rewrite Hm, lookup_fmap. destruct (model t !! q) as [e|] eqn:He; [|done].
  destruct (inodes fs !! _) as [i|]; [|done]. cbn [both fmap option_fmap option_map] in *.
  destruct H as [H1 H2]. pose proof (Hk q e He) as Ke.
  split; [by apply but_hash_read|]. unfold keepable in Ke. destruct Ke as [_ E]. by rewrite E.
Qed.

Lemma described_keeps L fs fs' t : keeps L fs fs' -> away (locate top) L -> described fs t -> described fs' t.
Proof.
  intros Hk Ha H q Hq. rewrite (keeps_away L fs fs' (locate top) _ Hk Ha) by (by apply prefix_app_r). by apply H.
Qed.

(** an entry of a metadata tree that agrees with the tree [d] of the directory *)
Lemma entry_shown fs d m q e :
  bound sha1 top d fs -> agree all_opts (model d) m -> every keepable m -> q <> "" -> m !! q = Some e ->
  exists i, inodes fs !! (locate top ++ comps q) = Some i /\ depicts_but_hash e i.
Proof.
  intros [Id _ _ _ Hs] Hag Hk Hq He. specialize (Hs q Hq). specialize (Hag q). unfold sync_at in Hs. rewrite He in Hag.
  destruct (model d !! q) as [x|]; [|done]. destruct (inodes fs !! _) as [i|]; [|done]. exists i. split; [done|].
  cbn in *. apply negb_false_iff in Hag. eapply agrees_depicts; [done|done|exact (Hk q e He)].
Qed.

Lemma shown_regular e i : ty e = regular -> depicts_but_hash e i -> i_type i = regular.
Proof. intros Hr H. rewrite (depicts_type _ e i H); [done|]. by left. Qed.

(** computing the missing hashes of such a tree *)
Lemma hashes_completed fs d t :
  sha1_text sha1 -> bound sha1 top d fs -> tree_inv t -> tree_sorted t -> topPath t = Some top ->
  agree all_opts (model d) (model t) -> every keepable (model t) -> accounted sha1 top K (model t) fs ->
  exists t', computeMissingHashes (hashFile sha1 fs) t = (Ok tt, t') /\ tree_inv t' /\ tree_sorted t' /\
    topPath t' = Some top /\ every storable_element (model t') /\ described fs t'.
Proof.
  intros Hsha Hb It St Htop Hag Hk Hacc.
  assert (Hne : forall q, is_Some (model t !! q) -> q <> "") by (intros q Hq; by eapply good_path_nonempty, (inv_good_path t It)).
  assert (Hloc : forall q, is_Some (model t !! q) -> locate (top // q) = locate top ++ comps q)
    by (intros q Hq; by apply locate_entry, good_path_dir, (inv_good_path t It)).
  assert (Hfile : forall q e i, model t !! q = Some e -> ty e = regular -> depicts_but_hash e i ->
    inodes fs !! (locate top ++ comps q) = Some i -> hashFile sha1 fs (top // q) = Ok (sha1 (i_data i))).
  { intros q e i He Hr Hd Hi. unfold hashFile. rewrite Hloc, Hi by eauto.
    by rewrite (shown_regular e i Hr Hd). }
  destruct (computeMissingHashes_spec (hashFile sha1 fs) t top Htop It) as (t' & E & Hi' & Hs' & Hf & Hval & Hdom).
  { intros q e He Hr _. destruct (entry_shown fs d (model t) q e) as (i & Hi & Hd); try done; [eauto|].
    exists (sha1 (i_data i)). by eapply Hfile. }
  assert (Hent : forall q e', model t' !! q = Some e' -> exists i, inodes fs !! (locate top ++ comps q) = Some i /\
    depicts_but_hash e' i /\ storable_element e' /\
    (ty e' = regular -> fileHash e' = sha1 (i_data i) \/ K q (fileHash e') (i_data i))).
  { intros q e' He'. assert (is_Some (model t !! q)) as [e He].
    { apply elem_of_dom. rewrite <-Hdom. apply elem_of_dom. eauto. }
    destruct (entry_shown fs d (model t) q e) as (i & Hi & Hd); try done; [eauto|]. exists i. split; [done|].
    destruct (Hval q e He) as [V1 V2]. pose proof (Hk q e He) as Ke. cbn in Ke.
    destruct (decide (ty e = regular /\ fileHash e = "")) as [[Hr Hn]|Hno].
    - destruct (V1 Hr Hn) as (h & Hh & Hm). rewrite (Hfile q e i) in Hh by done. injection Hh as <-.
      rewrite Hm in He'. injection He' as <-. split; [by apply but_hash_set|]. split; [by apply hashed_storable|by left].
    - rewrite V2 in He' by (destruct (decide (ty e = regular)); [right|left]; naive_solver). injection He' as <-.
      split; [done|]. split; [split; [done|]|].
      + split; [naive_solver|]. intros Hh. destruct (decide (ty e = regular)) as [|Hr]; [done|]. by rewrite keepable_plain in Hh.
      + intros Hr. apply (Hacc q e i); naive_solver. }
  exists t'. split; [done|]. split; [done|]. split; [auto|]. split; [by destruct Hf as (-> & _)|]. split.
  - intros q e' He'. by destruct (Hent q e' He') as (i & _ & _ & ? & _).
  - intros q Hq. destruct (model t' !! q) as [e'|] eqn:He'.
    + destruct (Hent q e' He') as (i & -> & ? & _ & ?). done.
    + apply (not_elem_of_dom (D := gset path)) in He'. rewrite Hdom in He'. apply not_elem_of_dom in He'.
      destruct Hb as [_ _ _ _ Hs]. specialize (Hs q Hq). specialize (Hag q). unfold sync_at in Hs. rewrite He' in Hag.
      destruct (model d !! q); [done|]. by destruct (inodes fs !! _).
Qed.
End described.

(** ** The command *)

Section command.
Context (sha1 : string -> string) (listing order : gset string -> list string) (absolute : path -> path).
Context (Hlisting : forall x : gset string, listing x ≡ₚ elements x).
Context (Horder : forall x : gset string, order x ≡ₚ elements x) (Hsha : sha1_text sha1).
Context (src dst p1 p2 : path).

Abbreviation at_src := (absolute src).
Abbreviation at_dst := (absolute dst).
Abbreviation ready := (prepared absolute src dst p1 p2).

(** a hash that the metadata [t] had for a file whose content is the same as in [fs] *)
Definition hash_known (t : DirectoryTree) (fs : FS) (q : path) (h data : string) : Prop :=
  exists e i, model t !! q = Some e /\ fileHash e = h /\
    inodes fs !! (locate at_dst ++ comps q) = Some i /\ i_data i = data.

(** the state at the end of a backup of [s] that started with the metadata [t]
    and the files [fs] *)
Record carried_over (s t : DirectoryTree) (fs : FS) (s2 : Session) : Prop := {
  o_src : bound sha1 at_src s (disk s2);
  o_dst : bound sha1 at_dst (dstTree (tm s2)) (disk s2);
  o_inv : tree_inv (meta1Tree (tm s2));
  o_sorted : tree_sorted (meta1Tree (tm s2));
  o_top : topPath (meta1Tree (tm s2)) = Some at_dst;
  o_every : every storable_element (model (meta1Tree (tm s2)));
  o_described : described sha1 at_dst (hash_known t fs) (disk s2) (meta1Tree (tm s2));
  o_step : fs_step at_dst fs (disk s2);
  o_save : save (tm s2) = true;
  o_one : meta2TreePresent (tm s2) = false;
  o_name1 : meta1 (tm s2) = p1;
  o_name2 : meta2 (tm s2) = p2 }.

Lemma quickScrubbed_ok s d t s1 result :
  ready (disk s1) -> scanned_as sha1 listing absolute (disk s1) src OmitHash s ->
  scanned_as sha1 listing absolute (disk s1) dst OmitHash d ->
  srcTree (tm s1) = s -> dstTree (tm s1) = d -> meta1Tree (tm s1) = t -> meta1 (tm s1) = p1 -> meta2 (tm s1) = p2 ->
  tree_inv t -> tree_sorted t -> keepable_tree t -> agree all_opts (model d) (model t) ->
  exists code s2, backupScrubbed sha1 order absolute dst false result s1 = (Ok code, s2) /\
    carried_over s t (disk s1) s2 /\
    (code = result /\ agree all_opts (model s) (model (dstTree (tm s2))) \/ code = 2%Z).
Proof using Hlisting Horder Hsha.
  intros [Par Pmt] Hs Hd Es Ed Et E1 E2 It St Kt Hag. pose proof Par as [Psrc Pdst Pap _ _ _ _].
  pose proof (scanned_bound_to sha1 listing absolute Hlisting _ _ _ _ Psrc Hs) as Bs.
  pose proof (scanned_bound_to sha1 listing absolute Hlisting _ _ _ _ Pdst Hd) as Bd.
  pose proof Bs as [Is _ _ _ _]. pose proof Bd as [Id _ _ _ _].
  destruct (diff2_paths s order d Horder Is Id) as (P & Er & _). set (r := line_of_path s (model d) <$> P) in *.
  pose proof (none_newer sha1 order _ s _ d (disk s1) r Horder Bs Bd Pmt Er) as Hnn.
  destruct (backupImpl_ok sha1 at_src at_dst s keepable True (hash_known t (disk s1)) (rights (disk s1)) Pap
    (sync_supported sha1 _ s _ Bs (fun q i => arranged_preservable _ _ _ _ _ _ q i Par))
    keepable_mixable (scan_keepable sha1 listing absolute Hsha _ _ _ _ Psrc Hs) order
    (mkDesk d (Some t) (disk s1) (cin s1)) r Horder)
    as (k & left_ & E & [Ks Kd _ Kq Kh Km] & Hst & El & Hlft & _).
  { split; try done; [by apply (scan_keepable sha1 listing absolute Hsha _ _ _ _ Pdst Hd)|]. intros ? [= <-].
    split_and!; try done. intros q e i He _ _ Hi. right. by exists e, i. }
  { done. }
  { rewrite Hnn. simpl. lia. }
  destruct (Kh I) as [t1 Et1]. destruct (Km t1 Et1) as (Ti & Ta & Te & Ts & Tacc). cbn [files] in *.
  set (tb := mkTree (topContent t1) (index t1) (Some at_dst) (opt t1) (next t1) (warnings t1)).
  destruct (hashes_completed sha1 at_dst (hash_known t (disk s1)) (files k) (Backup.dst k) tb) as
    (t2 & Eh & I2 & S2 & Top2 & Q2 & D2); try done; [by apply Ts|].
  eexists _, _. split; [|split].
  - unfold backupScrubbed, mbind, method_bind, change, backupManaged, mret, method_ret, in_meta1, get_state.
    cbn [tm srcTree dstTree meta1Tree disk cin discardMeta2Tree saveMetadataOnExit set_meta1Tree].
    rewrite Es, Ed, Et, E, Et1. unfold bindToTopPath, set_topPath.
    cbn [tm srcTree dstTree meta1Tree disk cin set_meta1Tree set_dstTree]. fold tb. rewrite Eh. reflexivity.
  - split; done.
  - cbn. destruct (existsb line_rotten r) eqn:Hrot; [right; done|]. left. split; [done|].
    rewrite (nothing_left r left_ _ Hlft Hrot Hnn) in El. destruct Kd as [Ik _ _ _ _].
    by apply (diff2_nil order s (Backup.dst k) all_opts Horder Is Ik).
Qed.

(** what a backup that started with [t] and [fs] leaves *)
Record passed_on (t : DirectoryTree) (fs fs' : FS) : Prop := {
  p_files : forall p, p = p1 \/ p = p2 -> exists t', metadata_file absolute fs' p t' /\
    described sha1 at_dst (hash_known t fs) fs' t';
  p_outside : forall l, ~ locate at_dst `prefix_of` l -> l ∉ places absolute p1 ++ places absolute p2 ->
    l ∉ dir_loc <$> places absolute p1 ++ places absolute p2 -> inodes fs' !! l = inodes fs !! l;
  p_clean : (forall q e i, model t !! q = Some e -> fileHash e <> "" ->
      inodes fs !! (locate at_dst ++ comps q) = Some i -> fileHash e = sha1 (i_data i)) ->
    forall rounds inp, scrub sha1 listing order absolute rounds dst p1 p2 false (fs', inp) = (Ok 0%Z, (fs', inp)) }.

Lemma loaded_file fs p text t :
  regular_at fs (locate (absolute p)) text -> loads text t -> keepable_tree t -> hashed t ->
  exists t', metadata_file absolute fs p t' /\ model t' = as_read <$> model t.
Proof using Type.
  intros Hr Hl Hk Hh. destruct (load_saved absolute fs p text t Hr Hl) as (t' & E & I & S & M). exists t'. split; [|done].
  split; try done; [by apply (hashed_kept t t')|]. intros q e. rewrite M, lookup_fmap.
  intros (e0 & He & ->)%fmap_Some_1. apply as_read_keepable. exact (Hk q e0 He).
Qed.

Lemma saved_quick s t fs s2 :
  ready fs -> carried_over s t fs s2 ->
  exists fs', saveMetadata absolute s2 = (Ok tt, mkSession (tm s2) fs' (cin s2)) /\ passed_on t fs fs' /\
    (agree all_opts (model s) (model (dstTree (tm s2))) -> forall q, q <> "" ->
       both same_file (inodes fs' !! (locate at_src ++ comps q)) (inodes fs' !! (locate at_dst ++ comps q))).
Proof using Hlisting Horder Hsha.
  intros [[Psrc Pdst _ _ _ Psl Paw] _] [Us Ud Oi Os Ot Oe Od Ust Usv Uone N1 N2].
  destruct (storable_keepable_tree _ Oe) as [Kk Kh]. destruct (keepable_loads _ Oi Os Kk) as (text & W & L).
  pose proof (slots_step absolute fs (disk s2) dst p1 p2 Ust Psl) as Hsl.
  destruct (saveMetadata_ok absolute s2 text text dst) as (fs' & E & Hk & R1 & R2); [done|done|by rewrite Uone|by rewrite N1, N2|].
  rewrite N1, N2 in *. pose proof (ss_away _ _ _ _ _ Hsl) as Haw.
  pose proof (bound_keeps sha1 _ _ _ _ _ Hk Haw Ud) as Bd. pose proof (bound_keeps sha1 _ _ _ _ _ Hk Paw Us) as Bs.
  pose proof (described_keeps sha1 at_dst _ _ _ _ _ Hk Haw Od) as Dd.
  exists fs'. split; [done|]. split; [split|].
  - intros p Hp. assert (Hr : regular_at fs' (locate (absolute p)) text) by (by destruct Hp as [->| ->]).
    destruct (loaded_file fs' p text _ Hr L Kk Kh) as (t' & Hf & M). exists t'. split; [done|].
    by apply (described_read sha1 at_dst _ fs' (meta1Tree (tm s2))).
  - intros l Hl Hn1 Hn2. destruct Hk as [_ _ Hrest _], Ust as [_ _ _ Hframe]. rewrite Hrest by done. by apply Hframe.
  - intros Hright.
    assert (Bm : bound sha1 at_dst (meta1Tree (tm s2)) fs').
    { destruct Bd as [_ _ Hwf Hdir _]. eapply described_bound; try done.
      intros q h data Hh (e & i & He & <- & Hi & <-). by apply (Hright q e i). }
    apply (clean_later sha1 listing order absolute Hlisting Horder Hsha dst p1 p2 fs' (meta1Tree (tm s2)) (meta1Tree (tm s2))
      (meta1Tree (tm s2)) text text (sc_top _ _ _ Pdst)); try done; apply agree_itself.
  - intros Hag. by apply (in_step_same sha1 _ s _ (dstTree (tm s2))).
Qed.

Lemma quick_ok rounds threads d t1 t2 fs inp :
  ready fs -> metadata_file absolute fs p1 t1 -> metadata_file absolute fs p2 t2 -> agree all_opts (model t1) (model t2) ->
  scanned_as sha1 listing absolute fs dst OmitHash d -> 0 < rounds ->
  exists code fs' inp',
    backup sha1 listing order absolute rounds src dst p1 p2 false false threads (fs, inp) = (Ok code, (fs', inp')) /\
    ((code = 2%Z /\ fs' = fs /\ exists q, differ all_opts (model d !! q) (model t1 !! q) = true) \/
     (code = 0%Z \/ code = 2%Z) /\ agree all_opts (model d) (model t1) /\ passed_on t1 fs fs' /\
     (code <> 2%Z -> forall q, q <> "" ->
        both same_file (inodes fs' !! (locate at_src ++ comps q)) (inodes fs' !! (locate at_dst ++ comps q)))).
Proof using Hlisting Horder Hsha.
  intros Hpr F1 F2 H12 Hd Hn. pose proof (load_both absolute fs p1 p2 t1 t2 F1 F2) as El.
  destruct (scan_ok sha1 listing absolute Hlisting Hsha fs src OmitHash (pr_src _ _ _ _ _ _ (pr_arranged _ _ _ _ _ _ Hpr))) as (s & Hs).
  rewrite (backup_begins sha1 listing order absolute src dst p1 p2 false rounds threads s d t1 t2 fs inp El Hs Hd).
  set (s0 := begin p1 p2 s d t1 t2 fs inp).
  destruct F1 as [_ I1 S1 H1 K1], F2 as [_ I2 S2 H2 K2]. pose proof Hd as (_ & Id & _ & _ & Hm).
  assert (Hu : unhashed d).
  { intros q e. rewrite Hm. case_decide; [done|]. unfold scan_at. intros (i & _ & ->)%fmap_Some_1. cbn. by destruct (i_type i). }
  destruct (scrubImpl_unread d Id Hu order Horder s0 rounds) as (code & E & Hcase); [by split|done|].
  destruct Hcase as [[-> Hag]|[-> Hq]].
  - destruct (quickScrubbed_ok s d t1 s0 0%Z) as (code & s2 & Eb & Hco & Hcode); try done.
    destruct (saved_quick s t1 fs s2 Hpr Hco) as (fs' & Esave & Hp & Hsame). exists code, fs', (cin s2).
    split; [|right; split; [naive_solver|split; [done|split; [done|]]]].
    + unfold leave_scope, backupBody, mbind at 1, method_bind at 1. rewrite E.
      rewrite !bool_decide_false by done. by rewrite Eb, Esave.
    + intros Hne. apply Hsame. by destruct Hcode as [[_ ?]|?].
  - rewrite (leave_unsaved absolute _ s0 2%Z s0); [|unfold backupBody, mbind, method_bind; by rewrite E|done].
    exists 2%Z, fs, inp. split; [done|]. by left.
Qed.
End command.
