(* ===== verification/RepairCommand.v ===== *)
(** * The command ddm scrub --fixup with a source directory

    The metadata files are loaded, both directories are scanned, the backup
    directory is repaired from the source directory and the metadata files are
    written again. *)

From S2P Require Import Prelude CxxPath CxxTime CxxStream Element Node Tree TreeInv TreeOps TreeCopy TreeIO TreeLoad Diff DiffSpec Diff3Spec FileSystem FsSpec MetaFiles MetaSpec TreeFs ScanSpec SyncSpec SyncOps SyncCopy Backup BackupSpec BackupRun Scrub ScrubSpec RepairSpec Commands CommandsSpec CommandsRun BackupCommand.

(** ** Content *)

Lemma agree_transitive a b c :
  hashed a -> hashed b -> agree all_opts (model a) (model b) -> agree all_opts (model b) (model c) ->
  agree all_opts (model a) (model c).
Proof.
  intros Ha Hb Hab Hbc q. specialize (Hab q). specialize (Hbc q).
  destruct (model a !! q) as [x|] eqn:Ex, (model b !! q) as [y|] eqn:Ey, (model c !! q) as [z|] eqn:Ez; try done.
  cbn in *. apply negb_false_iff in Hab, Hbc. apply negb_false_iff.
  by apply (hashed_transitive a b c all_opts (or_intror (conj Ha Hb)) q x y z).
Qed.

Lemma agree_symmetric o (m m' : gmap path FilesystemElement) : agree o m m' -> agree o m' m.
Proof.
  intros H q. specialize (H q). destruct (m !! q), (m' !! q); try done. cbn in *. by rewrite compare_sym.
Qed.

(** two files with the same metadata whose contents have the same hash *)
Definition same_content (sha1 : string -> string) (i j : Inode) : Prop :=
  same_file i j /\ (i_type i = regular -> sha1 (i_data i) = sha1 (i_data j)).

Lemma depicts_content sha1 x y i j :
  depicts sha1 x i -> depicts sha1 y j -> hashed_element x -> hashed_element y -> compare x y all_opts = true ->
  same_content sha1 i j.
Proof.
  intros Hx Hy Qx Qy Hc. split; [by eapply depicts_same|]. intros Hr.
  destruct Hx as (Tx & _ & _ & _ & _ & Rx & _), Hy as (Ty & _ & _ & _ & _ & Ry & _).
  apply compare_spec in Hc as (Ht & _ & _ & _ & _ & _ & Hh & _). specialize (Hh eq_refl).
  rewrite Hr in Tx. cbn in Tx. assert (Ty' : ty y = regular) by congruence.
  destruct (Rx Tx) as [_ [E|E]]; [by apply Qx in Tx|]. destruct (Ry Ty') as [_ [E'|E']]; [by apply Qy in Ty'|].
  unfold hashes_agree in Hh. apply Qx in Tx. apply Qy in Ty'. rewrite <-E, <-E'.
  rewrite (proj2 (str_empty_false _) Tx), (proj2 (str_empty_false _) Ty') in Hh. cbn in Hh.
  by apply bool_decide_eq_true_1 in Hh.
Qed.

Lemma in_step_content sha1 st s top t fs :
  bound sha1 st s fs -> bound sha1 top t fs -> hashed s -> hashed t -> agree all_opts (model s) (model t) ->
  forall q, q <> "" ->
    both (same_content sha1) (inodes fs !! (locate st ++ comps q)) (inodes fs !! (locate top ++ comps q)).
Proof.
  intros [_ _ _ _ Hs] [_ _ _ _ Ht] Qs Qt Hag q Hq. specialize (Hs q Hq). specialize (Ht q Hq). specialize (Hag q).
  unfold sync_at in *. destruct (model s !! q) as [x|] eqn:Ex, (model t !! q) as [y|] eqn:Ey, (inodes fs !! _), (inodes fs !! _);
    cbn in *; try done. apply negb_false_iff in Hag.
  by apply (depicts_content sha1 x y); [| |apply (Qs q)|apply (Qt q)|].
Qed.

(** ** The command *)

Section command.
Context (sha1 : string -> string) (listing order : gset string -> list string) (absolute : path -> path).
Context (Hlisting : forall x : gset string, listing x ≡ₚ elements x).
Context (Horder : forall x : gset string, order x ≡ₚ elements x) (Hsha : sha1_text sha1).
Context (src dst p1 p2 : path).

Abbreviation at_src := (absolute src).
Abbreviation at_dst := (absolute dst).
Abbreviation arranged_here := (arranged absolute src dst p1 p2).

Lemma repair_begins rounds threads s d t1 t2 fs inp :
  loadMetadataFiles absolute fs p1 p2 = Ok (t1, t2) ->
  scanned_as sha1 listing absolute fs src ComputeHash s -> scanned_as sha1 listing absolute fs dst ComputeHash d ->
  scrub_source sha1 listing order absolute rounds src dst p1 p2 true threads (fs, inp) =
  let '(r, s') := leave_scope absolute (scrubImpl order rounds true) (begin p1 p2 s d t1 t2 fs inp) in
  (r, (disk s', cin s')).
Proof using Type.
  intros El (Es & _) (Ed & _). unfold scrub_source, with_manager, newManager. rewrite El. cbn [mbind outcome_bind].
  unfold scanSourceTargetDir. rewrite Es, Ed. by destruct threads.
Qed.

(** the source directory and both metadata files agree *)
Record undisputed (s t1 t2 : DirectoryTree) : Prop := {
  ud_source : agree all_opts (model s) (model t1);
  ud_meta : agree all_opts (model t1) (model t2) }.

Lemma begin_mending fs inp s d t1 t2 :
  arranged_here fs -> scanned_as sha1 listing absolute fs src ComputeHash s ->
  scanned_as sha1 listing absolute fs dst ComputeHash d -> links_sound t1 d ->
  mending sha1 at_src at_dst s t1 t2 (rights fs) (begin p1 p2 s d t1 t2 fs inp).
Proof using Hlisting.
  intros [Psrc Pdst _ _ _ _ _] Hs Hd Hl. split; try done. split; try done; cbn.
  - by apply (scanned_bound_to sha1 listing absolute Hlisting _ _ _ _ Psrc Hs).
  - by apply (scanned_bound_to sha1 listing absolute Hlisting _ _ _ _ Pdst Hd).
  - by apply Hd.
Qed.

(** the metadata files are written again *)
Lemma saved_repair s t1 t2 fs S S' :
  arranged_here fs -> disk S = fs -> repaired sha1 at_src at_dst s t1 t2 S S' ->
  save (tm S') = true -> meta2TreePresent (tm S') = true -> meta1 (tm S') = p1 -> meta2 (tm S') = p2 ->
  metadata_file absolute fs p1 t1 -> metadata_file absolute fs p2 t2 ->
  exists fs', saveMetadata absolute S' = (Ok tt, mkSession (tm S') fs' (cin S')) /\
    saved sha1 listing order absolute dst p1 p2 fs fs' /\
    bound sha1 at_src s fs' /\ bound sha1 at_dst (dstTree (tm S')) fs'.
Proof using Hlisting Horder Hsha.
  intros [_ Pdst _ _ _ Psl Paw] <- [Bt Bs Hst Hh [A1 A2] E1 E2] Hsv H2 N1 N2 [_ I1 O1 Q1 K1] [_ I2 O2 Q2 K2].
  destruct (keepable_loads _ I1 O1 K1) as (text1 & W1 & L1). destruct (keepable_loads _ I2 O2 K2) as (text2 & W2 & L2).
  pose proof (slots_step absolute _ _ dst p1 p2 Hst Psl) as Hsl.
  destruct (saveMetadata_ok absolute S' text1 text2 dst) as (fs' & E & Hk & R1 & R2);
    [done|by rewrite E1|by rewrite H2, E2|by rewrite N1, N2|].
  rewrite N1, N2 in *. pose proof (ss_away _ _ _ _ _ Hsl) as Haw.
  pose proof (bound_keeps sha1 _ _ _ _ _ Hk Haw Bt) as Bd. pose proof (bound_keeps sha1 _ _ _ _ _ Hk Paw Bs) as Bs'.
  exists fs'. split; [done|]. split; [split|done].
  - by apply (clean_later sha1 listing order absolute Hlisting Horder Hsha dst p1 p2 fs' (dstTree (tm S')) t1 t2 text1 text2 (sc_top _ _ _ Pdst)).
  - intros l Hl Hn1 Hn2. destruct Hk as [_ _ Hrest _], Hst as [_ _ _ Hframe]. rewrite Hrest by done. by apply Hframe.
Qed.

Lemma repair_ok rounds threads s d t1 t2 fs inp :
  arranged_here fs -> metadata_file absolute fs p1 t1 -> metadata_file absolute fs p2 t2 ->
  scanned_as sha1 listing absolute fs src ComputeHash s -> scanned_as sha1 listing absolute fs dst ComputeHash d ->
  undisputed s t1 t2 -> links_sound t1 d -> size (wrong t1 d) < rounds ->
  Forall (fun a => a = true) (answers inp) -> size (wrong t1 d) <= length (answers inp) ->
  exists code fs' inp',
    scrub_source sha1 listing order absolute rounds src dst p1 p2 true threads (fs, inp) = (Ok code, (fs', inp')) /\
    (code = 0%Z /\ fs' = fs \/ code = 1%Z) /\ saved sha1 listing order absolute dst p1 p2 fs fs' /\
    forall q, q <> "" ->
      both (same_content sha1) (inodes fs' !! (locate at_src ++ comps q)) (inodes fs' !! (locate at_dst ++ comps q)).
Proof using Hlisting Horder Hsha.
  intros Har F1 F2 Hs Hd [Hst1 Ht12] Hl Hn Hyes Hlen. pose proof (load_both absolute fs p1 p2 t1 t2 F1 F2) as El.
  rewrite (repair_begins rounds threads s d t1 t2 fs inp El Hs Hd). set (S0 := begin p1 p2 s d t1 t2 fs inp).
  pose proof Hs as (_ & _ & _ & Hhs & _). specialize (Hhs eq_refl). pose proof F1 as [_ I1 _ H1 _]. pose proof F2 as [_ I2 _ H2 _].
  pose proof (begin_mending fs inp s d t1 t2 Har Hs Hd Hl) as HS0.
  assert (Hsup : map_Forall (fun _ e => supported (rights fs) e) (model s)).
  { eapply (sync_supported sha1 _ s fs); [apply HS0|]. intros q i. by apply (arranged_preservable absolute src dst p1 p2). }
  destruct (repairImpl_ok sha1 at_src at_dst s t1 t2 (rights fs) (pr_apart _ _ _ _ _ _ Har) Hsup Hhs H1 H2 I1 I2 Hst1 Ht12 order Horder
    rounds S0) as (code & S' & E & Hrep & Hcode); [done|by split|done|].
  pose proof Hrep as [Bt Bs _ Hh [A1 A2] _ _].
  assert (Hag : agree all_opts (model s) (model (dstTree (tm S')))).
  { apply (agree_transitive s t1); [done|done|done|]. by apply agree_symmetric. }
  destruct Hcode as [[-> ->]|[-> Etm]].
  - rewrite (leave_unsaved absolute _ S0 0%Z S0 E) by done. exists 0%Z, fs, inp. split; [done|].
    split; [by left|]. split; [split; [|done]|by apply (in_step_content sha1 _ s _ d)].
    intros rounds' inp'. by apply (scrub_clean sha1 listing order absolute Horder rounds' dst p1 p2 d t1 t2).
  - destruct (saved_repair s t1 t2 fs S0 S') as (fs' & Esave & Hsv & Bs' & Bt'); try done; try (by rewrite Etm).
    unfold leave_scope. rewrite E, Esave. exists 1%Z, fs', (cin S'). split; [done|]. split; [by right|]. split; [done|].
    by apply (in_step_content sha1 _ s _ (dstTree (tm S'))).
Qed.
End command.
