(* ===== verification/TouchUp.v ===== *)
(** * The command ddm scrub --fixup without a source directory

    Without a source directory a scrub can still repair what the metadata files
    know: permissions, owner and modification time of an entry whose content is
    right. *)

From S2P Require Import Prelude CxxPath CxxTime CxxStream Element Node Tree TreeInv TreeOps TreeCopy TreeIO TreeLoad Diff DiffSpec Diff3Spec FileSystem FsSpec MetaFiles MetaSpec TreeFs ScanSpec FsData SyncSpec SyncOps SyncCopy Backup BackupSpec BackupRun Scrub ScrubSpec RepairSpec Commands CommandsSpec CommandsRun BackupCommand QuickBackup RepairCommand.

Section touch.
Context (sha1 : string -> string) (top : path).

Abbreviation backup_tree S := (dstTree (tm S)).

(** ** Steps that keep the content of all files *)

Record touched (S S' : Session) : Prop := {
  w_bound : bound sha1 top (backup_tree S') (disk S');
  w_step : fs_step top (disk S) (disk S');
  w_content : content_kept (fun _ => True) (disk S) (disk S');
  w_cin : cin S' = cin S;
  w_tm : tm S' = set_dstTree (backup_tree S') (tm S) }.

Lemma touched_refl S : bound sha1 top (backup_tree S) (disk S) -> touched S S.
Proof. intros H. pose proof H as [_ _ Hwf Hd _]. split; [done|by apply fs_step_refl|reflexivity|done|by destruct S as [[]]]. Qed.

Lemma touched_trans S1 S2 S3 : touched S1 S2 -> touched S2 S3 -> touched S1 S3.
Proof.
  intros [_ F1 C1 I1 T1] [B2 F2 C2 I2 T2]. split; [done|by eapply fs_step_trans|by etrans|congruence|].
  rewrite T2, T1. by destruct (tm S1).
Qed.

(** one attribute of the entry at [p], if it differs *)
Lemma touch_one S p x (c : bool) opd f `{Hsp : !Spares (fun _ => True) opd} :
  bound sha1 top (backup_tree S) (disk S) -> model (backup_tree S) !! p = Some x ->
  (c = true -> stepped sha1 top (backup_tree S, disk S) (opd (backup_tree S, disk S)) tt (alter f p (model (backup_tree S)))) ->
  (c = false -> f x = x) ->
  exists S', (if c then in_dst opd else mret tt) S = (Ok tt, S') /\ touched S S' /\
    model (backup_tree S') = alter f p (model (backup_tree S)).
Proof.
  intros Hb Hx Hop Hid. destruct c.
  - destruct (Hop eq_refl) as (t' & fs' & E & Hb' & Hst & Hm). pose proof (Hsp (backup_tree S, disk S)) as Hk.
    rewrite E in Hk. eexists. split; [unfold in_dst; by rewrite E|]. by split; [split|].
  - exists S. split; [done|]. split; [by apply touched_refl|]. symmetry. apply alter_id.
    intros y Hy. rewrite Hx in Hy. injection Hy as <-. auto.
Qed.

Lemma updateBackup_ok S p e x :
  bound sha1 top (backup_tree S) (disk S) -> model (backup_tree S) !! p = Some x ->
  may_own (rights (disk S)) (us e) (gs e) = true -> chown_mode (ty x) (per e) = per e ->
  (ty x = symlink_ -> per e = 511%Z) ->
  exists S', updateBackup p e x S = (Ok tt, S') /\ touched S S' /\
    model (backup_tree S') = <[p := dressed e x]> (model (backup_tree S)).
Proof.
  intros Hb Hx Hc Hk Hl.
  destruct (touch_one S p x (negb (bool_decide (per e = per x))) (modifyPermissionsInTreeAndFilesystem p (per e))
    (setPermissions (per e)) Hb Hx) as (S1 & E1 & T1 & M1).
  { intros Hne%negb_true_iff%bool_decide_eq_false_1. eapply modifyPermissions_sync; [done|done|].
    intros Hlk. apply Hne. rewrite (link_perm sha1 top _ _ p x Hb Hx Hlk). auto. }
  { intros He%negb_false_iff%bool_decide_eq_true_1. rewrite He. by destruct x. }
  assert (H1 : model (backup_tree S1) !! p = Some (setPermissions (per e) x)) by (by rewrite M1, lookup_alter_eq, Hx).
  destruct (touch_one S1 p _ (negb (same_owner e x)) (modifyOwnerInTreeAndFilesystem p (us e) (gs e))
    (fun y => setGroup (gs e) (setUser (us e) y)) (w_bound _ _ T1) H1) as (S2 & E2 & T2 & M2).
  { intros _. apply (modifyOwner_sync sha1 top _ _ p (setPermissions (per e) x)); [apply T1|by destruct T1 as [_ [_ _ -> _] _ _ _]|done|done]. }
  { intros [Hu Hg]%negb_false_iff%same_owner_spec. rewrite Hu, Hg. by destruct x. }
  assert (H2 : model (backup_tree S2) !! p = Some (setGroup (gs e) (setUser (us e) (setPermissions (per e) x))))
    by (by rewrite M2, lookup_alter_eq, H1).
  destruct (touch_one S2 p _ (negb (bool_decide (mt e = mt x))) (modifyMtimeInTreeAndFilesystem p (mt e))
    (setMtime (mt e)) (w_bound _ _ T2) H2) as (S3 & E3 & T3 & M3).
  { intros _. eapply modifyMtime_sync; [apply T2|done]. }
  { intros He%negb_false_iff%bool_decide_eq_true_1. rewrite He. by destruct x. }
  exists S3. split; [|split; [by eauto using touched_trans|]].
  - unfold updateBackup. unfold mbind at 1, method_bind at 1. rewrite E1. unfold mbind at 1, method_bind at 1. by rewrite E2.
  - apply map_eq. intros q. rewrite M3, M2, M1. destruct (decide (q = p)) as [->|Hne].
    + by rewrite !lookup_alter_eq, lookup_insert_eq, Hx.
    + by rewrite !lookup_alter_ne, lookup_insert_ne by congruence.
Qed.

(** ** Differences in attributes *)

Context (b c : DirectoryTree) (Hb : tree_inv b) (Hc : tree_inv c) (Hhb : hashed b) (Hhc : hashed c).
Context (Hbc : agree all_opts (model b) (model c)).
Context (R : Rights) (Hlinks : every (fun e => ty e = symlink_ -> per e = 511%Z) (model b)).
Context (Hown : every (fun e => may_own R (us e) (gs e) = true /\ chown_mode (ty e) (per e) = per e) (model b)).

Abbreviation off t p := (differ all_opts (model t !! p) (model b !! p)).

(** a scrub without source directory *)
Record touching (S : Session) : Prop := {
  i_bound : bound sha1 top (backup_tree S) (disk S);
  i_rights : rights (disk S) = R;
  i_hashed : hashed (backup_tree S);
  i_source : srcTreePresent (tm S) = false;
  i_meta1 : meta1Tree (tm S) = b;
  i_meta2 : meta2Tree (tm S) = c;
  i_present : meta2TreePresent (tm S) = true;
  i_contents : agree content_only (model (backup_tree S)) (model b) }.

(** every difference is reported *)
Lemma off_reported S p : touching S -> off (backup_tree S) p = true -> valid (backup_tree S) b c p.
Proof using Hb Hbc.
  intros HS Hoff. pose proof (i_contents S HS) as Hcs. pose proof (Hcs p) as Hp.
  assert (Hpar : is_dir_at (model b) (parent_path p) = true).
  { destruct (model b !! p) as [e|] eqn:He; [by apply (present_parent b Hb p); eauto|].
    by destruct (model (backup_tree S) !! p). }
  pose proof (agree_dir _ _ (parent_path p) Hbc) as Hdc. pose proof (is_dir_at_agree _ _ _ (parent_path p) (Hcs _)) as Hdt.
  split; [|split].
  - destruct (model (backup_tree S) !! p) eqn:Hx; [left; by rewrite Hx|]. by destruct (model b !! p).
  - unfold dirs_at. cbn [List.filter]. by rewrite Hdt, Hpar.
  - unfold differ3. by rewrite Hdt, <-Hdc, Hpar, Hoff.
Qed.

Lemma touching_dressed S S' p e x :
  touching S -> model b !! p = Some e -> model (backup_tree S) !! p = Some x -> touched S S' ->
  model (backup_tree S') = <[p := dressed e x]> (model (backup_tree S)) ->
  touching S' /\ off (backup_tree S') p = false /\
  forall q, q <> p -> model (backup_tree S') !! q = model (backup_tree S) !! q.
Proof using Type.
  intros [Hbd Hch Hh Hs M1 M2 Hp2 Hcs] He Hx [B F C I T] Hm. pose proof (Hcs p) as Hp. rewrite Hx, He in Hp. cbn in Hp. apply negb_false_iff in Hp.
  assert (Hne : forall q, q <> p -> model (backup_tree S') !! q = model (backup_tree S) !! q)
    by (intros q Hq; by rewrite Hm, lookup_insert_ne).
  split; [split; try (rewrite T; done)|split; [|done]].
  - by destruct F as [_ _ -> _].
  - intros q y. rewrite Hm. destruct (decide (q = p)) as [->|Hq].
    + rewrite lookup_insert_eq. intros [= <-]. exact (Hh p x Hx).
    + rewrite lookup_insert_ne by done. apply Hh.
  - intros q. rewrite Hm. destruct (decide (q = p)) as [->|Hq]; [|rewrite lookup_insert_ne by done; apply Hcs].
    rewrite lookup_insert_eq, He. cbn. by apply negb_false_iff.
  - rewrite Hm, lookup_insert_eq, He. cbn. rewrite compare_sym in Hp. apply compare_dressed in Hp.
    by rewrite compare_sym, Hp.
Qed.

Lemma touchLine_ok S p f :
  touching S -> off (backup_tree S) p = true ->
  exists S', scrubLine true (model (backup_tree S) !! p, model b !! p, model c !! p) f S = (Ok f, S') /\
    touching S' /\ touched S S' /\ off (backup_tree S') p = false /\
    forall q, q <> p -> model (backup_tree S') !! q = model (backup_tree S) !! q.
Proof using Hown Hb Hhc Hbc Hlinks.
  intros HS Hoff. pose proof (off_both b c Hhc Hbc _ p (i_hashed S HS) Hoff) as Hoff'.
  pose proof (i_contents S HS p) as Hp. unfold scrubLine. rewrite !entry_eqb_differ, Hoff, Hoff', (Hbc p). cbn [negb andb].
  destruct (model (backup_tree S) !! p) as [x|] eqn:Hx, (model b !! p) as [e|] eqn:He; try done. cbn in Hp. apply negb_false_iff in Hp.
  assert (Hrp : rp e = p) by (by destruct (inv_model b Hb p e He) as (_ & _ & _ & _ & ?)).
  destruct (Hown p e He) as [Hoe Hke].
  destruct (updateBackup_ok S p e x (i_bound S HS) Hx) as (S' & E & T & M);
    [by rewrite (i_rights S HS)|apply compare_spec in Hp as [-> _]; done| |].
  { intros Hl. apply (Hlinks p e He). apply compare_spec in Hp as [<- _]. done. }
  destruct (touching_dressed S S' p e x HS He Hx T M) as (HS' & Hfix & Hne).
  exists S'. split; [|split; [done|]; split; [done|]; split; [by rewrite <-He|exact Hne]]. unfold mbind, method_bind, checkMeta2Tree, get_state, cassert. rewrite (i_present S HS).
  unfold sourceTree. rewrite (i_source S HS). unfold tryToFixBackupEntry.
  assert (entry_eqb (Some e) (model c !! p) = true) as -> by (rewrite entry_eqb_differ, <-He, (Hbc p); done).
  unfold mbind, method_bind, lift_outcome, cassert. rewrite Hp, Hrp, E. done.
Qed.

Lemma touchLines_ok P : forall m0 f S,
  touching S -> NoDup P -> redo f = false ->
  (forall p, p ∈ P -> off (backup_tree S) p = true /\ model (backup_tree S) !! p = m0 !! p) ->
  exists S', scrubLines true (repair_line b c m0 <$> P) f S = (Ok f, S') /\ touching S' /\ touched S S' /\
    (forall p, p ∈ P -> off (backup_tree S') p = false) /\
    forall q, q ∉ P -> model (backup_tree S') !! q = model (backup_tree S) !! q.
Proof using Hown Hb Hhc Hbc Hlinks.
  induction P as [|p ps IH]; intros m0 f S HS Hnd Hrd HP.
  { exists S. split; [done|]. split; [done|]. split; [apply touched_refl, HS|]. split; [by intros ? ?%not_elem_of_nil|done]. }
  apply NoDup_cons in Hnd as [Hp Hnd]. destruct (HP p (list_elem_of_here _ _)) as [Hoff E0].
  destruct (touchLine_ok S p f HS Hoff) as (S1 & E & HS1 & T1 & Hfix & Hne). rewrite E0 in E.
  destruct (IH m0 f S1 HS1 Hnd Hrd) as (S' & E' & HS' & T' & Hall & Hsame).
  { intros q Hq. assert (Hqp : q <> p) by (by intros ->). rewrite (Hne q Hqp). by apply HP, list_elem_of_further. }
  exists S'. split; [|split; [done|split; [by eapply touched_trans|split]]].
  - rewrite fmap_cons. cbn [scrubLines]. unfold mbind, method_bind, repair_line at 1. by rewrite E, Hrd.
  - intros q [->|Hq]%elem_of_cons; [by rewrite Hsame|by apply Hall].
  - intros q [Hqp Hq]%not_elem_of_cons. by rewrite Hsame, Hne.
Qed.

(** ** The scrub *)

Context (order : gset string -> list string) (Horder : forall x : gset string, order x ≡ₚ elements x).

Lemma touchImpl_ok rounds S :
  touching S -> 0 < rounds ->
  exists code S', scrubImpl order rounds true S = (Ok code, S') /\ touching S' /\
    agree all_opts (model (backup_tree S')) (model b) /\ touched S (mkSession (set_dstTree (backup_tree S') (tm S)) (disk S') (cin S')) /\
    (code = 0%Z /\ S' = S \/ code = 1%Z /\ tm S' = saveMetadataOnExit (set_dstTree (backup_tree S') (tm S))).
Proof using Hown Hb Hc Hhb Hhc Hbc Hlinks Horder.
  intros HS Hn. pose proof (i_bound S HS) as [It _ _ _ _].
  destruct (diff3_paths (backup_tree S) It order Horder b c Hb Hc) as (P & E & Hnd & HP);
    [apply hashed_transitive; right; split; [apply HS|done]|].
  assert (Ecmp : compareTrees order S = (Ok (repair_line b c (model (backup_tree S)) <$> P), S)).
  { unfold compareTrees, mbind, method_bind, checkMeta2Tree, get_state, lift_outcome, cassert.
    by rewrite (i_present S HS), (i_meta1 S HS), (i_meta2 S HS), E. }
  assert (HPoff : forall p, p ∈ P <-> off (backup_tree S) p = true).
  { intros p. rewrite HP. split; [by intros [_ ?]%(reported_off b c Hbc)|by apply off_reported]. }
  unfold scrubImpl. unfold mbind at 1, method_bind at 1. rewrite Ecmp.
  destruct (repair_line b c (model (backup_tree S)) <$> P) as [|ln ls] eqn:EP.
  { apply fmap_nil_inv in EP as ->. exists 0%Z, S. split; [done|]. split; [done|]. split; [|split; [|by left]].
    - intros q. apply not_true_iff_false. intros Hq%HPoff. by apply not_elem_of_nil in Hq.
    - assert (mkSession (set_dstTree (backup_tree S) (tm S)) (disk S) (cin S) = S) as -> by (by destruct S as [[]]).
      apply touched_refl, HS. }
  rewrite <-EP. destruct (touchLines_ok P (model (backup_tree S)) no_flags S HS Hnd eq_refl) as (S1 & E1 & HS1 & T1 & Hall & Hsame).
  { intros p Hp. split; [by apply HPoff|done]. }
  destruct rounds as [|rounds]; [lia|].
  assert (Er : scrubRounds order (Datatypes.S rounds) true (repair_line b c (model (backup_tree S)) <$> P) no_flags S = (Ok no_flags, S1))
    by (cbn [scrubRounds]; unfold mbind at 1, method_bind at 1; by rewrite E1).
  unfold mbind at 1, method_bind at 1. rewrite Er. cbn [no_flags unrecoverable maybeRecoverable negb andb updateMeta1 updateMeta2].
  exists 1%Z, (mkSession (saveMetadataOnExit (tm S1)) (disk S1) (cin S1)). split; [done|]. pose proof T1 as [? ? ? ? Etm].
  split; [destruct HS1; by split|]. split; [|split].
  - intros q. cbn. destruct (decide (q ∈ P)) as [Hq|Hq]; [by apply Hall|]. rewrite Hsame by done.
    apply not_true_iff_false. by rewrite <-HPoff.
  - cbn. by split.
  - right. split; [done|]. cbn. by f_equal.
Qed.
End touch.

(** ** The command *)

Section command.
Context (sha1 : string -> string) (listing order : gset string -> list string) (absolute : path -> path).
Context (Hlisting : forall x : gset string, listing x ≡ₚ elements x).
Context (Horder : forall x : gset string, order x ≡ₚ elements x) (Hsha : sha1_text sha1).
Context (dst p1 p2 : path).

Abbreviation at_dst := (absolute dst).

(** what is below the backup directory *)
Definition inside_dst (l : location) : Prop := locate at_dst `prefix_of` l.

(** the attributes of the files are those of the metadata *)
Definition attributes_of (t : DirectoryTree) (fs : FS) : Prop :=
  forall q e, q <> "" -> model t !! q = Some e -> exists i, inodes fs !! (locate at_dst ++ comps q) = Some i /\
    i_perm i = per e /\ i_user i = us e /\ i_group i = gs e /\ i_mtime i = mt e.

Lemma bound_attributes d t fs :
  bound sha1 at_dst d fs -> agree all_opts (model d) (model t) -> keepable_tree t -> attributes_of t fs.
Proof using Type.
  intros Hb Hag Hk q e Hq He.
  destruct (entry_shown sha1 at_dst fs d (model t) q e) as (i & Hi & Hd); [done..|].
  exists i. split; [done|]. destruct Hd as (_ & Hp & Hu & Hg & Hm & _). by rewrite Hp, Hu, Hg, Hm.
Qed.

Lemma content_saved L fs fs1 fs2 :
  content_kept (fun _ => True) fs fs1 -> keeps L fs1 fs2 -> away (locate at_dst) L -> content_kept inside_dst fs fs2.
Proof using Type.
  intros H Hk Ha l i Hl Hi. destruct (H l i I Hi) as (i' & Hi' & Hm). exists i'. split; [|done].
  by rewrite (keeps_away L fs1 fs2 (locate at_dst) _ Hk Ha) by exact Hl.
Qed.

Lemma touch_ok rounds d t1 t2 fs inp :
  scannable absolute fs dst -> slots absolute fs dst p1 p2 ->
  metadata_file absolute fs p1 t1 -> metadata_file absolute fs p2 t2 -> agree all_opts (model t1) (model t2) ->
  every (fun e => ty e = symlink_ -> per e = 511%Z) (model t1) ->
  every (fun e => may_own (rights fs) (us e) (gs e) = true) (model t1) ->
  scanned_as sha1 listing absolute fs dst ComputeHash d -> agree content_only (model d) (model t1) -> 0 < rounds ->
  exists code fs', scrub sha1 listing order absolute rounds dst p1 p2 true (fs, inp) = (Ok code, (fs', inp)) /\
    (code = 0%Z /\ fs' = fs \/ code = 1%Z) /\ saved sha1 listing order absolute dst p1 p2 fs fs' /\
    content_kept inside_dst fs fs' /\ attributes_of t1 fs'.
Proof using Hlisting Horder Hsha.
  intros Hsc Hsl F1 F2 H12 Hl Hw Hd Hcs Hn. pose proof (load_both absolute fs p1 p2 t1 t2 F1 F2) as El.
  destruct F1 as [_ I1 O1 H1 K1], F2 as [_ I2 O2 H2 K2]. pose proof Hd as (_ & Id & _ & Hh & _). specialize (Hh eq_refl).
  pose proof (scanned_bound_to sha1 listing absolute Hlisting _ _ _ _ Hsc Hd) as Bd.
  set (S0 := start d t1 t2 p1 p2 fs inp).
  assert (Hown : every (fun e => may_own (rights fs) (us e) (gs e) = true /\ chown_mode (ty e) (per e) = per e) (model t1)).
  { intros q e He. split; [exact (Hw q e He)|]. apply nine_bits_kept. destruct (K1 q e He) as [_ Hk].
    apply (f_equal per) in Hk. exact Hk. }
  destruct (touchImpl_ok sha1 at_dst t1 t2 I1 I2 H1 H2 H12 (rights fs) Hl Hown order Horder rounds S0) as (code & S' & E & HS' & Hag & T & Hcode);
    [by split|done|].
  rewrite (scrub_starts sha1 listing order absolute rounds dst p1 p2 d t1 t2 fs inp El Hd). fold S0.
  destruct Hcode as [[-> ->]|[-> Etm]].
  - rewrite (leave_unsaved absolute _ S0 0%Z S0 E) by done. exists 0%Z, fs. split; [done|]. split; [by left|].
    cbn [S0 start tm dstTree] in Hag.
    assert (Hag2 : agree all_opts (model d) (model t2)) by (by apply (agree_transitive d t1)).
    split; [split; [|done]|split; [reflexivity|by apply (bound_attributes d)]].
    intros rounds' inp'. by apply (scrub_clean sha1 listing order absolute Horder rounds' dst p1 p2 d t1 t2).
  - destruct T as [_ Hst Hck Hcin _]. cbn [disk cin S0 start] in Hst, Hck, Hcin. destruct HS' as [Bt _ Ht _ E1 E2 P2 _].
    destruct (keepable_loads _ I1 O1 K1) as (text1 & W1 & L1). destruct (keepable_loads _ I2 O2 K2) as (text2 & W2 & L2).
    pose proof (slots_step absolute _ _ dst p1 p2 Hst Hsl) as Hsl'.
    destruct (saveMetadata_ok absolute S' text1 text2 dst) as (fs' & Es & Hk & R1 & R2);
      [by rewrite Etm|by rewrite E1|by rewrite P2, E2|by rewrite Etm|].
    assert (meta1 (tm S') = p1 /\ meta2 (tm S') = p2) as [N1 N2] by (by rewrite Etm). rewrite N1, N2 in *.
    pose proof (ss_away _ _ _ _ _ Hsl') as Haw. pose proof (bound_keeps sha1 _ _ _ _ _ Hk Haw Bt) as Bt'.
    unfold leave_scope. rewrite E, Es. exists 1%Z, fs'. split; [cbn; by rewrite Hcin|]. split; [by right|].
    assert (Hag2 : agree all_opts (model (dstTree (tm S'))) (model t2)) by (by apply (agree_transitive _ t1)).
    split; [split|split; [by eapply content_saved|by apply (bound_attributes (dstTree (tm S')))]].
    + by apply (clean_later sha1 listing order absolute Hlisting Horder Hsha dst p1 p2 fs' (dstTree (tm S')) t1 t2 text1 text2 (sc_top _ _ _ Hsc)).
    + intros l Hl' Hn1 Hn2. destruct Hk as [_ _ Hrest _], Hst as [_ _ _ Hframe]. rewrite Hrest by done. by apply Hframe.
Qed.
End command.
