(* ===== verification/Dated.v ===== *)
(** * Times that can be printed

    [writeTo] fails for a time whose year does not fit. The trees of the program
    get their times from each other, from metadata lines and from the filesystem:
    if all of them can be printed at the start, this stays so through all
    operations, on any tree ([KeepsDates]), and the diffs show only such
    elements. *)

From S2P Require Import Prelude CxxPath CxxTime CxxStream Element Node Tree Diff FileSystem TreeFs.

Definition printable (mtime : Z) : Prop := is_Some (gmtime_r mtime).
Definition dated (e : FilesystemElement) : Prop := printable (mt e).

Definition all_dated (l : list DirectoryNode) : Prop := Forall (fun x => dated x.2) (forest l).
Definition dated_tree (t : DirectoryTree) : Prop := all_dated (topContent t).
Definition dated_entry (x : option FilesystemElement) : Prop := forall e, x = Some e -> dated e.

#[global] Instance printable_dec t : Decision (printable t).
Proof. unfold printable. apply _. Defined.
#[global] Instance dated_dec e : Decision (dated e) := printable_dec (mt e).
#[global] Instance dated_tree_dec t : Decision (dated_tree t).
Proof. unfold dated_tree, all_dated. apply _. Defined.

Lemma writeTo_dated e : dated e -> exists s, writeTo e = Ok s.
Proof. intros [t Ht]. unfold writeTo. rewrite Ht. by eexists. Qed.

(** ** Nodes *)

Lemma all_dated_cons i e c l : all_dated (mkNode i e c :: l) <-> dated e /\ all_dated c /\ all_dated l.
Proof. unfold all_dated. rewrite forest_cons, Forall_cons, Forall_app. done. Qed.

Lemma all_dated_node n l : all_dated (n :: l) <-> all_dated [n] /\ all_dated l.
Proof. unfold all_dated. by rewrite !forest_node, !Forall_app; cbn; rewrite Forall_nil; naive_solver. Qed.

Lemma all_dated_app l k : all_dated (l ++ k) <-> all_dated l /\ all_dated k.
Proof. unfold all_dated. by rewrite forest_app, Forall_app. Qed.

Lemma all_dated_nil : all_dated [].
Proof. constructor. Qed.

Lemma all_dated_one n : all_dated [n] <-> dated (elem n) /\ all_dated (content n).
Proof. destruct n as [i e c]. rewrite all_dated_cons. pose proof all_dated_nil. naive_solver. Qed.

Lemma all_dated_sort lt l : all_dated l -> all_dated (list_sort lt l).
Proof. unfold all_dated. by rewrite list_sort_perm. Qed.

Lemma all_dated_filter f l : all_dated l -> all_dated (List.filter f l).
Proof.
  induction l as [|n l IH]; [done|]. rewrite all_dated_node. intros [Hn Hl]. cbn. destruct (f n); [|auto].
  apply all_dated_node. auto.
Qed.

Lemma all_dated_find i l n : all_dated l -> find_in i l = Some n -> all_dated [n].
Proof.
  unfold all_dated. intros Hl Hn%find_in_entries. rewrite forest_node. cbn. rewrite app_nil_r.
  apply Forall_forall. intros x Hx. rewrite Forall_forall in Hl. auto.
Qed.

Lemma all_dated_update i f l :
  (forall n, all_dated [n] -> all_dated [f n]) -> all_dated l -> all_dated (update_in i f l).
Proof.
  intros Hf. induction l as [|j e c l IHc IHl] using forest_ind; [done|]. rewrite all_dated_cons. intros (He & Hc & Hl).
  rewrite update_in_cons, all_dated_node. split; [|auto]. case_bool_decide.
  - apply Hf, all_dated_one. done.
  - apply all_dated_one. auto.
Qed.

Lemma for_each_ind {A St} (P : St -> Prop) (body : A -> St -> outcome St) l s s' :
  (forall x s s', x ∈ l -> P s -> body x s = Ok s' -> P s') -> P s -> for_each body l s = Ok s' -> P s'.
Proof.
  revert s. induction l as [|x l IH]; intros s Hb Hs; cbn [for_each]; [by intros [= <-]|].
  intros (s1 & E & H)%bind_ok. apply (IH s1); [|by eapply Hb; [apply list_elem_of_here|..]|done].
  intros y u u' Hy. apply Hb. by apply list_elem_of_further.
Qed.

Lemma all_dated_elem l n : all_dated l -> n ∈ l -> all_dated [n].
Proof.
  induction l as [|m l IH]; [by intros _ ?%not_elem_of_nil|]. rewrite all_dated_node.
  intros [Hm Hl] [->|Hn]%elem_of_cons; auto.
Qed.

Lemma push_dated n m : all_dated [n] -> all_dated [m] -> all_dated [pushContent n m].
Proof. rewrite !all_dated_one. cbn. rewrite all_dated_app, (all_dated_one m). naive_solver. Qed.

Lemma sortContent_dated n : all_dated [n] -> all_dated [sortContent n].
Proof. rewrite !all_dated_one. cbn. intros [? ?]. split; [done|]. by apply all_dated_sort. Qed.

Lemma recursiveAdd_dated src : forall d k d' i k',
  all_dated [src] -> all_dated [d] -> recursiveAdd src d k = Ok (d', i, k') -> all_dated [d'].
Proof.
  induction src as [j se sc IH] using node_ind'. intros d k d' i k' Hs Hd. cbn [recursiveAdd].
  apply all_dated_cons in Hs as (Hse & Hsc & _).
  intros (_ & _ & (_ & _ & ([n k1] & E & H)%bind_ok)%bind_ok)%bind_ok. injection H as <- <- <-.
  apply push_dated; [done|]. apply sortContent_dated.
  apply (for_each_ind (fun x => all_dated [x.1])) in E; [done| |].
  - intros m [d0 k0] [d1 k2] Hm Hd0 ([[d2 i2] k3] & E1 & [= <- <-])%bind_ok. rewrite Forall_forall in IH.
    eapply (IH m Hm); [|exact Hd0|exact E1]. exact (all_dated_elem sc m Hsc Hm).
  - apply all_dated_one. split; [exact Hse|apply all_dated_nil].
Qed.

Lemma addToDirectoryContent_dated src d k d' i k' :
  all_dated [src] -> all_dated [d] -> addToDirectoryContent src d k = Ok (d', i, k') -> all_dated [d'].
Proof.
  intros Hs Hd. unfold addToDirectoryContent. intros (_ & _ & ([[d1 i1] k1] & E & [= <- <- <-])%bind_ok)%bind_ok.
  apply sortContent_dated. exact (recursiveAdd_dated src d k _ _ _ Hs Hd E).
Qed.

Lemma copyToTop_dated src name k n k' : all_dated [src] -> copyToTop src name k = Ok (n, k') -> all_dated [n].
Proof.
  intros [He Hc]%all_dated_one E. unfold copyToTop in E.
  apply (for_each_ind (fun x => all_dated [x.1])) in E; [done| |].
  - intros m [d0 k0] [d1 k2] Hm Hd0 ([[d2 i2] k3] & E1 & [= <- <-])%bind_ok.
    eapply addToDirectoryContent_dated; [|exact Hd0|exact E1]. exact (all_dated_elem _ m Hc Hm).
  - apply all_dated_one. split; [exact He|apply all_dated_nil].
Qed.

(** ** Operations on trees *)

Class KeepsDates {A} (m : tree_method A) := keeps_dates t : dated_tree t -> dated_tree (m t).2.

#[global] Instance keeps_dates_ret {A} (a : A) : KeepsDates (mret a).
Proof. by intros t. Qed.
#[global] Instance keeps_dates_lift {A} (r : outcome A) : KeepsDates (lift_outcome r).
Proof. by intros t. Qed.
#[global] Instance keeps_dates_get : KeepsDates get_state.
Proof. by intros t. Qed.
#[global] Instance keeps_dates_bind {A B} (m : tree_method A) (k : A -> tree_method B) :
  KeepsDates m -> (forall a, KeepsDates (k a)) -> KeepsDates (m ≫= k).
Proof.
  intros Hm Hk t Ht. unfold mbind, method_bind. specialize (Hm t Ht). destruct (m t) as [[a|e] t']; [|done].
  by apply (Hk a t').
Qed.
#[export] Hint Extern 1 (KeepsDates (match ?x with _ => _ end)) => destruct x : typeclass_instances.
#[global] Instance keeps_dates_check w : KeepsDates (checkTopPath w).
Proof. intros t Ht. unfold checkTopPath. by destruct (topPath t). Qed.
#[global] Instance keeps_dates_search p w : KeepsDates (searchNode p w).
Proof. by intros t. Qed.
#[global] Instance keeps_dates_deref i : KeepsDates (deref i).
Proof. by intros t. Qed.
#[global] Instance keeps_dates_set_index ix : KeepsDates (set_index ix).
Proof. by intros t. Qed.
#[global] Instance keeps_dates_set_next k : KeepsDates (set_next k).
Proof. by intros t. Qed.
#[global] Instance keeps_dates_warn w : KeepsDates (warn w).
Proof. by intros t. Qed.
Lemma keeps_dates_set_top l : all_dated l -> KeepsDates (set_top l).
Proof. by intros Hl t. Qed.
Lemma keeps_dates_mutate i f : (forall n, all_dated [n] -> all_dated [f n]) -> KeepsDates (mutate i f).
Proof. intros Hf t Ht. unfold mutate. destruct (find_in i (topContent t)); [|done]. by apply all_dated_update. Qed.

#[global] Instance keeps_dates_permissions p perm : KeepsDates (modifyPermissionsInTree p perm).
Proof. apply keeps_dates_bind; [apply _|]. intros i. apply keeps_dates_mutate. intros n. by rewrite !all_dated_one. Qed.
#[global] Instance keeps_dates_owner p u g : KeepsDates (modifyOwnerInTree p u g).
Proof. apply keeps_dates_bind; [apply _|]. intros i. apply keeps_dates_mutate. intros n. by rewrite !all_dated_one. Qed.
Lemma keeps_dates_mtime p t : printable t -> KeepsDates (modifyMtimeInTree p t).
Proof.
  intros Ht. apply keeps_dates_bind; [apply _|]. intros i. apply keeps_dates_mutate. intros n. rewrite !all_dated_one.
  by intros [_ Hc].
Qed.

(** what is known of a value when it is used *)
Lemma keeps_dates_get_bind {A} (k : DirectoryTree -> tree_method A) :
  (forall t, dated_tree t -> KeepsDates (k t)) -> KeepsDates (get_state ≫= k).
Proof. intros Hk t Ht. by apply (Hk t Ht t). Qed.

Lemma keeps_dates_deref_bind {A} i (k : DirectoryNode -> tree_method A) :
  (forall n, all_dated [n] -> KeepsDates (k n)) -> KeepsDates (deref i ≫= k).
Proof.
  intros Hk t Ht. unfold mbind, method_bind, deref. destruct (find_in i (topContent t)) as [n|] eqn:E; [|done].
  apply (Hk n); [|done]. by eapply all_dated_find.
Qed.

Lemma keeps_dates_lift_bind {A B} (r : outcome A) (k : A -> tree_method B) :
  (forall a, r = Ok a -> KeepsDates (k a)) -> KeepsDates (lift_outcome r ≫= k).
Proof. intros Hk t Ht. unfold mbind, method_bind, lift_outcome. destruct r as [a|e]; [|done]. by apply (Hk a). Qed.

#[global] Instance keeps_dates_remove p : KeepsDates (removeFromTree p).
Proof.
  unfold removeFromTree. do 2 (apply keeps_dates_bind; [apply _|]; intros ?). apply keeps_dates_bind; [apply _|]. intros _.
  apply keeps_dates_bind; [|apply _]. destruct (negb _).
  - apply keeps_dates_bind; [apply _|]. intros j. apply keeps_dates_mutate. intros n. rewrite !all_dated_one. intros [He Hc].
    split; [done|]. by apply all_dated_filter.
  - apply keeps_dates_get_bind. intros t Ht. by apply keeps_dates_set_top, all_dated_filter.
Qed.

Lemma find_ok {A} (o : option A) e a : from_option_err e o = Ok a -> o = Some a.
Proof. destruct o; [|done]. by intros [= ->]. Qed.

Lemma keeps_dates_treeCopy s sp dp : dated_tree s -> KeepsDates (treeCopy s sp dp).
Proof.
  intros Hs. unfold treeCopy. apply keeps_dates_bind; [apply _|]. intros i. apply keeps_dates_lift_bind.
  intros src Hsrc%find_ok%all_dated_find; [|done]. destruct (negb _).
  - apply keeps_dates_bind; [apply _|]. intros d. apply keeps_dates_deref_bind. intros dst Hd. destruct (negb _); [apply _|].
    apply keeps_dates_bind; [apply _|]. intros t. apply keeps_dates_lift_bind. intros [[dst' j] k] E.
    apply addToDirectoryContent_dated in E; [|done..]. apply keeps_dates_bind; [apply _|]. intros _.
    apply keeps_dates_bind; [by apply keeps_dates_mutate|apply _].
  - apply keeps_dates_bind; [apply _|]. intros _. apply keeps_dates_get_bind. intros t Ht.
    apply keeps_dates_bind; [apply _|]. intros _. apply keeps_dates_lift_bind. intros [n k] E%copyToTop_dated; [|done].
    apply keeps_dates_bind; [apply _|]. intros _. apply keeps_dates_bind; [|apply _].
    apply keeps_dates_set_top, all_dated_sort, all_dated_app. done.
Qed.

Lemma keeps_dates_copyFromTree s sp dp : dated_tree s -> KeepsDates (copyFromTree s sp dp).
Proof. intros Hs. apply keeps_dates_bind; [by apply keeps_dates_treeCopy|apply _]. Qed.

Lemma keeps_dates_symlink e : dated e -> KeepsDates (addSymlinkToTree e).
Proof.
  intros He. assert (Hn : forall i, all_dated [mkNode i e []]) by (intros i; apply all_dated_one; split; [done|apply all_dated_nil]).
  unfold addSymlinkToTree. apply keeps_dates_bind; [apply _|]. intros _. apply keeps_dates_get_bind. intros t Ht.
  destruct (str_empty _).
  - apply keeps_dates_bind; [apply _|]. intros _. apply keeps_dates_set_top, all_dated_sort, all_dated_app. done.
  - apply keeps_dates_bind; [apply _|]. intros j. apply keeps_dates_deref_bind. intros n Hd. apply keeps_dates_lift_bind.
    intros [[n' i] k] E. apply addToDirectoryContent_dated in E; [|done..]. apply keeps_dates_bind; [apply _|]. intros _.
    by apply keeps_dates_mutate.
Qed.

Lemma mutate_each_dated (f : DirectoryNode -> outcome unit * DirectoryNode) l :
  Forall (fun n => all_dated [n] -> all_dated [(f n).2]) l -> all_dated l -> all_dated (mutate_each f l).2.
Proof.
  induction 1 as [|n l Hn _ IH]; [done|]. rewrite all_dated_node. intros [Hd Hl]. cbn [mutate_each].
  specialize (Hn Hd). specialize (IH Hl). destruct (f n) as [[[]|err] n']; [destruct (mutate_each f l)|]; by apply all_dated_node.
Qed.

Lemma node_hashes_dated hashFile top n : all_dated [n] -> all_dated [(node_computeMissingHashes hashFile top n).2].
Proof.
  induction n as [i e c IH] using node_ind'. intros Hn. cbn [node_computeMissingHashes].
  destruct (computeHashIfNeeded hashFile top e) as [e'|err] eqn:E; [|done].
  apply all_dated_one in Hn as [He Hc]. cbn in He, Hc. apply (mutate_each_dated _ _ IH) in Hc.
  assert (He' : dated e').
  { unfold computeHashIfNeeded in E. destruct (negb _ || negb _); [by injection E as <-|]. by apply bind_ok in E as (h & _ & [= <-]). }
  destruct (mutate_each _ c) as [r c']. by apply all_dated_one.
Qed.

#[global] Instance keeps_dates_hashes hashFile : KeepsDates (computeMissingHashes hashFile).
Proof.
  apply keeps_dates_bind; [apply _|]. intros _ t Ht. unfold hashAllMissing. destruct (topPath t) as [top|]; [|done].
  assert (Hc : all_dated (mutate_each (node_computeMissingHashes hashFile top) (topContent t)).2).
  { apply mutate_each_dated; [|done]. apply Forall_forall. intros n _. apply node_hashes_dated. }
  by destruct (mutate_each _ (topContent t)).
Qed.

(** ** Operations on tree and directory *)

Class KeepsTreeDates {A} (m : world_method A) := keeps_tree_dates w : dated_tree w.1 -> dated_tree (m w).2.1.

#[global] Instance tree_dates_ret {A} (a : A) : KeepsTreeDates (mret a).
Proof. by intros w. Qed.
#[global] Instance tree_dates_bind {A B} (m : world_method A) (k : A -> world_method B) :
  KeepsTreeDates m -> (forall a, KeepsTreeDates (k a)) -> KeepsTreeDates (m ≫= k).
Proof.
  intros Hm Hk w Hw. unfold mbind, method_bind. specialize (Hm w Hw). destruct (m w) as [[a|e] w']; [|done].
  by apply (Hk a w').
Qed.
#[export] Hint Extern 1 (KeepsTreeDates (match ?x with _ => _ end)) => destruct x : typeclass_instances.
#[global] Instance tree_dates_on_tree {A} (m : tree_method A) : KeepsDates m -> KeepsTreeDates (on_tree m).
Proof. intros Hm [t fs] Ht. unfold on_tree. specialize (Hm t Ht). by destruct (m t). Qed.
#[global] Instance tree_dates_on_fs {A} (m : fs_method A) : KeepsTreeDates (on_fs m).
Proof. intros [t fs] Ht. unfold on_fs. by destruct (m fs). Qed.
#[global] Instance tree_dates_top : KeepsTreeDates top_value.
Proof. by intros w. Qed.
#[global] Instance tree_dates_try m h : KeepsTreeDates m -> KeepsTreeDates h -> KeepsTreeDates (try_catch m h).
Proof. intros Hm Hh w Hw. unfold try_catch. specialize (Hm w Hw). destruct (m w) as [[a|[]] w']; try done. by apply Hh. Qed.
#[global] Instance tree_dates_fixup p : KeepsTreeDates (fixupParentMtime p).
Proof. unfold fixupParentMtime. apply _. Qed.
#[global] Instance tree_dates_own p u g : KeepsTreeDates (change_ownership_or_warn p u g).
Proof. unfold change_ownership_or_warn. apply _. Qed.

Lemma tree_dates_run_each {A} (body : A -> world_method unit) l :
  (forall x, x ∈ l -> KeepsTreeDates (body x)) -> KeepsTreeDates (run_each body l).
Proof.
  induction l as [|x l IH]; intros Hb; cbn [run_each]; [apply _|].
  pose proof (Hb x (list_elem_of_here _ _)). apply tree_dates_bind; [done|]. intros _. apply IH.
  intros y Hy. by apply Hb, list_elem_of_further.
Qed.

#[global] Instance tree_dates_recursive_copy st src dst : KeepsTreeDates (recursiveFilesystemCopy st src dst).
Proof.
  revert dst. induction src as [i se sc IH] using node_ind'. intros dst. cbn [recursiveFilesystemCopy].
  apply tree_dates_bind; [apply _|]. intros n. apply tree_dates_bind; [apply _|]. intros top.
  apply tree_dates_bind; [|intros; apply _]. destruct (ty (elem n)); try apply _.
  apply tree_dates_bind; [apply _|]. intros []; cbn [negb]; [|apply _]. apply tree_dates_bind; [|intros; apply _].
  apply tree_dates_run_each. intros m Hm. apply tree_dates_bind; [apply _|]. rewrite Forall_forall in IH. auto.
Qed.

#[global] Instance tree_dates_remove p : KeepsTreeDates (removeFromTreeAndFilesystem p).
Proof. unfold removeFromTreeAndFilesystem. apply _. Qed.
#[global] Instance tree_dates_permissions p perm : KeepsTreeDates (modifyPermissionsInTreeAndFilesystem p perm).
Proof. unfold modifyPermissionsInTreeAndFilesystem. apply _. Qed.
#[global] Instance tree_dates_owner p u g : KeepsTreeDates (modifyOwnerInTreeAndFilesystem p u g).
Proof. unfold modifyOwnerInTreeAndFilesystem. apply _. Qed.
Lemma tree_dates_mtime p t : printable t -> KeepsTreeDates (modifyMtimeInTreeAndFilesystem p t).
Proof. intros Ht. pose proof (keeps_dates_mtime p t Ht). unfold modifyMtimeInTreeAndFilesystem. apply _. Qed.
Lemma tree_dates_copy s sp dp : dated_tree s -> KeepsTreeDates (copyFromTreeAndFilesystem s sp dp).
Proof. intros Hs. pose proof (keeps_dates_treeCopy s sp dp Hs). unfold copyFromTreeAndFilesystem. apply _. Qed.
Lemma tree_dates_symlink e : dated e -> KeepsTreeDates (addSymlinkToTreeAndFilesystem e).
Proof. intros He. pose proof (keeps_dates_symlink e He). unfold addSymlinkToTreeAndFilesystem. apply _. Qed.

(** ** Diffs *)

Lemma search_dated p t e : dated_tree t -> search p t = Ok (Some e) -> dated e.
Proof.
  intros Ht. unfold search. destruct (index t !! p) as [i|]; [|done]. destruct (find_in i (topContent t)) as [n|] eqn:E; [|done].
  intros [= <-]. by eapply all_dated_find, all_dated_one in E as [? _].
Qed.

Lemma find_ptr_dated t p x : dated_tree t -> find_ptr t p = Ok x -> dated_entry (elem <$> x).
Proof.
  intros Ht. unfold find_ptr. destruct (index t !! p) as [i|]; [|by intros [= <-] e].
  intros (n & Hn%find_ok & [= <-])%bind_ok. apply all_dated_find in Hn; [|done]. intros e [= <-].
  by apply all_dated_one in Hn as [? _].
Qed.

Definition dated_line2 (d : DirectoryDiffLine2) : Prop := dated_entry d.1 /\ dated_entry d.2.
Definition dated_line3 (d : DirectoryDiffLine3) : Prop := dated_entry d.1.1 /\ dated_entry d.1.2 /\ dated_entry d.2.

Section diffs.
Context (order : gset string -> list string) (a b c : DirectoryTree) (o : CompareOpt).
Context (Ha : dated_tree a) (Hb : dated_tree b) (Hc : dated_tree c).

Lemma item2_dated a' b' itn r d : dated_tree a' -> dated_tree b' -> item2 a' b' o itn = Ok (r, d) -> Forall dated_line2 r.
Proof using Type.
  intros Ha' Hb'. unfold item2. intros (x & Hx & (y & Hy & H)%bind_ok)%bind_ok.
  apply find_ptr_dated in Hx, Hy; [|done..].
  destruct x as [x|], y as [y|]; [|injection H as <- <-; by repeat constructor..|done].
  injection H as <- _. destruct (compare _ _ _); by repeat constructor.
Qed.

Lemma compare2_dated a' b' fuel la lb r :
  dated_tree a' -> dated_tree b' -> recursiveCompare2 order fuel a' b' o la lb = Ok r -> Forall dated_line2 r.
Proof using Type.
  intros Ha' Hb'. revert la lb r. induction fuel as [|fuel IH]; intros la lb r; cbn [recursiveCompare2]; [done|].
  intros ([r0 ds] & E & H)%bind_ok.
  apply (for_each_ind (fun x => Forall dated_line2 x.1)) in E; [| |constructor].
  - eapply (for_each_ind (Forall dated_line2)); [|exact E|exact H]. intros dirs s s' _ Hs (r' & Er & [= <-])%bind_ok.
    apply Forall_app. split; [done|]. by eapply IH.
  - intros itn [s k] s' _ Hs ([r' d'] & Er & [= <-])%bind_ok. apply Forall_app. split; [done|]. exact (item2_dated a' b' itn _ _ Ha' Hb' Er).
Qed.

Lemma diff2_dated r : diff2 order a b o = Ok r -> Forall dated_line2 r.
Proof using Ha Hb. by apply compare2_dated. Qed.

Lemma item3_dated itn r d : item3 a b c o itn = Ok (r, d) -> Forall dated_line3 r.
Proof using Ha Hb Hc.
  unfold item3. intros (x & Hx & (y & Hy & (z & Hz & (_ & _ & H)%bind_ok)%bind_ok)%bind_ok)%bind_ok.
  apply find_ptr_dated in Hx, Hy, Hz; [|done..].
  destruct x as [x|], y as [y|], z as [z|]; try (by injection H as <- <-; repeat constructor).
  apply bind_ok in H as (r0 & Hr & [= <- _]). destruct (_ || _); [injection Hr as <-; by repeat constructor|].
  by apply bind_ok in Hr as (_ & _ & [= <-]).
Qed.

Lemma visit3_dated rec dirs r :
  (forall la lb lc r, rec la lb lc = Ok r -> Forall dated_line3 r) -> visit3 order rec a b c o dirs = Ok r -> Forall dated_line3 r.
Proof using Ha Hb Hc.
  intros Hrec. destruct dirs as [[[x|] [y|]] [z|]]; cbn [visit3]; try done; [apply Hrec|..];
    intros (r' & E & [= <-])%bind_ok; apply compare2_dated in E; try done; apply Forall_map; (eapply Forall_impl; [exact E|]);
    intros l [H1 H2]; by repeat split.
Qed.

Lemma diff3_dated r : diff3 order a b c o = Ok r -> Forall dated_line3 r.
Proof using Ha Hb Hc.
  unfold diff3. generalize (S (length (forest (topContent a)))) as fuel. generalize (topContent a) as la, (topContent b) as lb, (topContent c) as lc.
  intros la lb lc fuel. revert la lb lc r. induction fuel as [|fuel IH]; intros la lb lc r; cbn [recursiveCompare3]; [done|].
  intros ([r0 ds] & E & H)%bind_ok.
  apply (for_each_ind (fun x => Forall dated_line3 x.1)) in E; [| |constructor].
  - eapply (for_each_ind (Forall dated_line3)); [|exact E|exact H]. intros dirs s s' _ Hs (r' & Er & [= <-])%bind_ok.
    apply Forall_app. split; [done|]. by eapply visit3_dated.
  - intros itn [s k] s' _ Hs ([r' d'] & Er & [= <-])%bind_ok. apply Forall_app. split; [done|]. by eapply item3_dated.
Qed.
End diffs.
