(* ===== verification/DatedFiles.v ===== *)
(** * Times of scanned and loaded trees

    A scanned tree has the times of the files, and the time on a metadata line can
    always be printed again, because its year has four digits. *)

From S2P Require Import Prelude CxxPath CxxTime CxxStream Element Node Tree TreeIO Diff FileSystem TreeFs Dated.

(** ** Dates with four digits *)

Section calendar.
#[local] Ltac Zify.zify_post_hook ::= Z.to_euclidean_division_equations.
#[local] Open Scope Z_scope.

Lemma civil_year_bounds z y m d : civil_from_days z = (y, m, d) -> - 10 ^ 10 <= z <= 10 ^ 10 -> - 10 ^ 8 <= y <= 10 ^ 8.
Proof.
  unfold civil_from_days, days_per_era. intros H Hz. set (era := (z + 719468) / 146097) in *.
  assert (Hera : - 10 ^ 5 <= era <= 10 ^ 5) by lia. set (doe := (z + 719468) mod 146097) in *.
  destruct (year_of_era_bounds doe ltac:(lia)) as [Hy _].
  set (yoe := (doe - doe / 1460 + doe / 36524 - doe / 146096) / 365) in *.
  injection H as Ey _ _. revert Ey. clearbody yoe era. destruct (_ <=? 2); intros <-; lia.
Qed.

Lemma printable_bounds t : - 10 ^ 14 <= t <= 10 ^ 14 -> printable t.
Proof.
  intros Ht. unfold printable, gmtime_r, break_down. destruct (civil_from_days (t / 86400)) as [[y m] d] eqn:E.
  apply civil_year_bounds in E; [|lia]. cbn [tm_year].
  assert ((- 2 ^ 31 <=? y - 1900) && (y - 1900 <? 2 ^ 31) = true) as -> by lia. by eexists.
Qed.

Lemma read_field_bounds n lo hi s v r : read_field n lo hi s = Some (v, r) -> lo <= v <= hi.
Proof. unfold read_field. intros ([u k] & _ & H)%bind_Some. destruct (_ && _) eqn:E; [|done]. injection H as <- _. lia. Qed.

Lemma read_time_printable s t r : read_time s = Some (t, r) -> printable (timegm t).
Proof.
  unfold read_time. intros ([y s1] & Hy & (s2 & _ & ([mo s3] & Hmo & (s4 & _ & ([d s5] & Hd & ([h s6] & Hh & (s7 & _ &
    ([mi s8] & Hmi & (s9 & _ & ([sec s10] & Hsec & H)%bind_Some)%bind_Some)%bind_Some)%bind_Some)%bind_Some)%bind_Some)%bind_Some)%bind_Some)%bind_Some)%bind_Some.
  injection H as <- _. apply read_field_bounds in Hy, Hmo, Hd, Hh, Hmi, Hsec. apply printable_bounds.
  unfold timegm, days_from_civil, days_per_era. cbn [tm_year tm_mon tm_mday tm_hour tm_min tm_sec].
  destruct (mo <=? 2) eqn:E; lia.
Qed.
End calendar.

Lemma readFrom_dated line file n e : readFrom line file n = Ok e -> dated e.
Proof.
  unfold readFrom. intros ([perms s] & _ & H)%bind_ok. destruct perms as [|c perms]; [done|]. destruct (negb _); [done|].
  apply bind_ok in H as (t & _ & (pe & _ & ([u s1] & _ & ([g s2] & _ & ([tm s3] & Ht%find_ok & H)%bind_ok)%bind_ok)%bind_ok)%bind_ok).
  destruct (_ =? -1)%Z; [done|]. apply bind_ok in H as ([tz s4] & _ & H). destruct (negb _); [done|].
  apply bind_ok in H as ([[[z h] l] s5] & _ & ([p s6] & _ & H)%bind_ok). destruct (negb _); [done|]. injection H as <-.
  by eapply read_time_printable.
Qed.

(** ** Loading *)

#[global] Instance keeps_dates_clear : KeepsDates clear.
Proof. intros t _. apply all_dated_nil. Qed.

#[global] Instance keeps_dates_add_index fail p nodes : KeepsDates (add_index fail p nodes).
Proof. induction nodes as [|n nodes IH]; cbn [add_index]; unfold throw; apply _. Qed.

Lemma setDirectoryContent_dated nodes d d' :
  all_dated nodes -> all_dated [d] -> setDirectoryContent nodes d = Ok d' -> all_dated [d'].
Proof. intros Hn [Hd _]%all_dated_one (_ & _ & [= <-])%bind_ok. by apply all_dated_one. Qed.

(** nodes become the content of the directory with the pointer [i] *)
Lemma keeps_dates_fill i nodes : all_dated nodes -> KeepsDates (d ← deref i; d' ← lift_outcome (setDirectoryContent nodes d); mutate i (fun _ => d')).
Proof.
  intros Hn. apply keeps_dates_deref_bind. intros d Hd. apply keeps_dates_lift_bind.
  intros d' E. apply (setDirectoryContent_dated _ _ _ Hn Hd) in E. by apply keeps_dates_mutate.
Qed.

Lemma keeps_dates_add fail nodes : all_dated nodes -> KeepsDates (add fail nodes).
Proof.
  intros Hn. destruct nodes as [|n nodes]; cbn [add]; [apply _|]. pose proof (keeps_dates_set_top _ Hn).
  apply keeps_dates_bind; [apply _|]. intros _. apply keeps_dates_bind; [apply _|]. intros t. unfold throw.
  destruct (is_nil _); [apply _|]. destruct (index t !! _) as [i|]; [|apply _].
  apply keeps_dates_deref_bind. intros d Hd. destruct (negb _); [apply _|]. apply keeps_dates_lift_bind.
  intros d' E. apply (setDirectoryContent_dated _ _ _ Hn Hd) in E. by apply keeps_dates_mutate.
Qed.

Lemma keeps_dates_read file lines n nodes : all_dated nodes -> KeepsDates (read_lines file lines n nodes).
Proof.
  revert n nodes. induction lines as [|l lines IH]; intros n nodes Hn; cbn [read_lines]; [by apply keeps_dates_add|].
  destruct (str_empty l).
  - apply keeps_dates_bind; [by apply keeps_dates_add|]. intros _. apply IH, all_dated_nil.
  - apply keeps_dates_lift_bind. intros e He%readFrom_dated. apply keeps_dates_bind; [apply _|]. intros t.
    apply keeps_dates_bind; [apply _|]. intros _. apply IH, all_dated_app. split; [done|]. apply all_dated_one.
    split; [done|apply all_dated_nil].
Qed.

Lemma load_dated read_file p t : dated_tree t -> dated_tree (tree_readFrom_file read_file p t).2.
Proof.
  assert (Hl : forall text, KeepsDates (tree_readFrom text p)).
  { intros text. unfold tree_readFrom. apply keeps_dates_bind; [apply _|]. intros _. apply keeps_dates_read, all_dated_nil. }
  revert t. change (KeepsDates (tree_readFrom_file read_file p)). unfold tree_readFrom_file.
  apply keeps_dates_bind; [apply keeps_dates_clear|]. intros _. apply keeps_dates_bind; [apply keeps_dates_lift|exact Hl].
Qed.

(** ** Scanning *)

Definition dated_fs (fs : FS) : Prop := map_Forall (fun _ i => printable (i_mtime i)) (inodes fs).

#[global] Instance dated_fs_dec fs : Decision (dated_fs fs).
Proof. apply map_Forall_dec. intros l i. apply printable_dec. Defined.

Section scan.
Context (sha1 : string -> string) (order : gset string -> list string) (absolute : path -> path) (fs : FS) (Hfs : dated_fs fs).

Lemma element_at_dated p top o e : element_at sha1 fs p top o = Ok e -> dated e.
Proof using Hfs.
  unfold element_at. destruct (inodes fs !! locate p) as [i|] eqn:Hi; [|done].
  pose proof (Hfs _ _ Hi) as Hall. cbn beta in Hall. destruct (i_type i); try (by intros [= <-]). by intros (h & _ & [= <-])%bind_ok.
Qed.

Lemma scan_nodes_dated top o entries k ns k' : scan_nodes sha1 fs top o entries k = Ok (ns, k') -> all_dated ns.
Proof using Hfs.
  unfold scan_nodes. intros E. apply (for_each_ind (fun x => all_dated x.1)) in E; [done| |apply all_dated_nil].
  intros p [l j] [l' j'] _ Hl (e & He%element_at_dated & [= <- <-])%bind_ok. apply all_dated_app. split; [done|].
  apply all_dated_one. split; [done|apply all_dated_nil].
Qed.

#[local] Instance keeps_dates_index_nodes ns : KeepsDates (index_nodes ns).
Proof using Type. induction ns as [|n ns IH]; cbn [index_nodes]; apply _. Qed.

Lemma keeps_dates_run_each {A} (body : A -> tree_method unit) l : (forall x, KeepsDates (body x)) -> KeepsDates (run_each body l).
Proof using Type. intros Hb. induction l as [|x l IH]; cbn [run_each]; apply _. Qed.

Lemma keeps_dates_build fuel top p : KeepsDates (recursiveBuildFromPath sha1 order fuel fs top p).
Proof using Hfs.
  revert p. induction fuel as [|fuel IH]; intros p; cbn [recursiveBuildFromPath]; [apply _|].
  apply keeps_dates_bind; [apply _|]. intros t. apply keeps_dates_bind; [apply _|]. intros entries.
  apply keeps_dates_lift_bind. intros [ns k] Hns%scan_nodes_dated. apply (all_dated_sort node_ltb) in Hns.
  apply keeps_dates_bind; [apply _|]. intros _. apply keeps_dates_bind.
  - destruct (is_nil _); [by apply keeps_dates_set_top|]. apply keeps_dates_bind; [apply _|]. intros i. by apply keeps_dates_fill.
  - intros _. apply keeps_dates_bind; [apply _|]. intros _. apply keeps_dates_run_each. intros n. destruct (isDirectory _); apply _.
Qed.

Lemma scan_dated p o t : dated_tree t -> dated_tree (scanDirectory sha1 order absolute fs p o t).2.
Proof using Hfs.
  revert t. change (KeepsDates (scanDirectory sha1 order absolute fs p o)). unfold scanDirectory.
  apply keeps_dates_bind; [apply _|]. intros _. apply keeps_dates_bind; [by intros t|]. intros _.
  apply keeps_dates_bind; [by intros t|]. intros _. destruct (negb _); [apply _|apply keeps_dates_build].
Qed.
End scan.
