(* ===== verification/Console.v ===== *)
(** * The terminal (src/color.h, and std::cout and std::cin in src/backup.cpp)

    A program that talks to the user: besides its result and its effect on the
    state it has a log, the texts written to the standard output and the answers
    read from the standard input, in the order in which this happens. *)

From S2P Require Import Prelude CxxStream Element Diff.

(** ** Texts *)

Definition newline : string := String "010" "".

(** [std::string] literals that end a line *)
Definition line (s : string) : string := s +:+ newline.

Definition escape_code (n : string) : string := String "027" ("[" +:+ n +:+ "m").
Definition red : string := escape_code "31".
Definition green : string := escape_code "32".
Definition yellow : string := escape_code "33".
Definition redb : string := escape_code "41".
Definition greenb : string := escape_code "42".
Definition yellowb : string := escape_code "43".
Definition reset : string := escape_code "0".

(** ** Programs with a log *)

Inductive event :=
  | wrote (text : string)
  | got (answer : bool).

#[global] Instance event_eq_dec : EqDecision event.
Proof. solve_decision. Defined.

Definition spoken (S A : Type) : Type := S -> (outcome A * S) * list event.

#[global] Instance spoken_ret S : MRet (spoken S) := fun A a s => ((Ok a, s), []).
#[global] Instance spoken_bind S : MBind (spoken S) := fun A B k m s =>
  match m s with
  | ((Ok a, s'), l) => let '(r, l') := k a s' in (r, l ++ l')
  | ((Err e, s'), l) => ((Err e, s'), l)
  end.

(** what a method does without a message *)
Definition quiet {S A} (m : method S A) : spoken S A := fun s => (m s, []).

(** [cout<<text] *)
Definition say {S} (text : string) : spoken S unit := fun s => ((Ok tt, s), [wrote text]).

(** [cout<<x] where printing [x] may fail; what is written of [x] before that is not
    recorded *)
Definition print {S} (text : outcome string) : spoken S unit := fun s =>
  match text with
  | Ok t => say t s
  | Err e => ((Err e, s), [])
  end.

(** a text that starts with a difference, or has an element in it *)
Definition print_line3 {S} (d : DirectoryDiffLine3) (text : string) : spoken S unit :=
  print (t ← show_line3 d; Ok (t +:+ text)).
Definition print_line2 {S} (d : DirectoryDiffLine2) (text : string) : spoken S unit :=
  print (t ← show_line2 d; Ok (t +:+ text)).
Definition print_element {S} (before : string) (e : FilesystemElement) (after : string) : spoken S unit :=
  print (t ← writeTo e; Ok (before +:+ t +:+ after)).

(** [askYesNo()] by the method [m] *)
Definition answered {S} (m : method S bool) : spoken S bool := fun s =>
  (m s, match (m s).1 with Ok b => [got b] | Err _ => [] end).

(** [catch(exception& e)] that writes a text and throws again *)
Definition on_exception {S A} (handler : string -> string) (m : spoken S A) : spoken S A := fun s =>
  match m s with
  | ((Err (Throw what), s'), l) => ((Err (Throw what), s'), l ++ [wrote (handler what)])
  | r => r
  end.

(** all that was written *)
Definition text_of (e : event) : string := match e with wrote t => t | got _ => "" end.
Definition transcript (log : list event) : string := foldr (fun e s => text_of e +:+ s) "" log.

(** ** Logs of sequences *)

Lemma spoken_bind_ok {S A B} (p : spoken S A) (k : A -> spoken S B) s b s' log :
  (p ≫= k) s = ((Ok b, s'), log) ->
  exists a s1 l1 l2, p s = ((Ok a, s1), l1) /\ k a s1 = ((Ok b, s'), l2) /\ log = l1 ++ l2.
Proof.
  unfold mbind, spoken_bind. destruct (p s) as [[[a|e] s1] l1]; [|by intros [=]].
  destruct (k a s1) as [r l2] eqn:E. intros [= -> <-]. by exists a, s1, l1, l2.
Qed.
