(* ===== verification/BackupTalk.v ===== *)
(** * Backups with their messages (src/backup.cpp)

    [backupImpl] as it talks to the user. The methods of [Backup.v] are what it
    does apart from that. *)

From S2P Require Import Prelude CxxPath CxxTime CxxStream Element Node Tree Diff FileSystem TreeFs Backup Console.

Abbreviation desk_talk := (spoken Desk).

(** an entry with its type *)
Definition named (e : FilesystemElement) (p : path) : string := typeAsString e +:+ " " +:+ put_path p.

Definition backupLine_io (srcTree : DirectoryTree) (d : DirectoryDiffLine2) : desk_talk bool :=
  match d with
  | (None, None) => quiet (lift_outcome (Err (Throw "bad_optional_access")))
  | (None, Some y) =>
      _ ← say (line ("- Removing " +:+ named y (rp y) +:+ " from backup directory."));
      _ ← quiet (on_dst (removeFromTreeAndFilesystem (rp y)));
      _ ← quiet (on_meta (removeFromTree (rp y)));
      mret false
  | (Some x, None) =>
      _ ← say (line ("- Copying " +:+ named x (rp x) +:+ " to backup directory."));
      _ ← quiet (on_dst (copyFromTreeAndFilesystem srcTree (rp x) (parent_path (rp x))));
      _ ← quiet (on_meta (copyFromTree srcTree (rp x) (parent_path (rp x))));
      mret false
  | (Some x, Some y) =>
      if compare x y (content_opt x y) then
        _ ← say (line ("- Updating the metadata of the " +:+ named x (rp x) +:+ " in the backup directory."));
        _ ← quiet (updateMetadata x y);
        mret false
      else if compare x y metadata_opt then
        _ ← say (redb +:+ "Bit rot in the source directory detected." +:+ reset +:+
                 line (" The content of the " +:+ named x (rp x) +:+ " changed but the modified time did not.") +:+
                 line ("NOT backing up this " +:+ typeAsString x +:+ " as the backup copy may be good one."));
        mret true
      else
        replace ←
          (if (mt x <? mt y)%Z then
             _ ← print_line2 d (line ("The " +:+ named y (rp x) +:+ " in the backup directory is newer than the " +:+
               typeAsString x +:+ " in the source directory, (did you write something directly in the backup directory?)") +:+
               line ("Do you want me to DELETE the backup entry and REPLACE it with the entry in the source directory? [y/n]"));
             yes ← answered ask;
             if yes : bool then mret true
             else
               _ ← say (yellowb +:+ "Leaving backup inconsistent." +:+ reset +:+
                        " Note that you have to solve this manually, and consider that the " +:+ typeAsString x +:+
                        line " in the source directory is currently without a backup.");
               mret false
           else mret true);
        _ ← (if replace : bool then
               _ ← say (line ("- Replacing the " +:+ named y (rp x) +:+ " in the backup directory with the " +:+
                        typeAsString x +:+ " in the source directory."));
               quiet (replaceEntry srcTree (rp x))
             else mret tt);
        mret false
  end.

Fixpoint backupLines_io (srcTree : DirectoryTree) (diff : list DirectoryDiffLine2) (bitrot : bool) : desk_talk bool :=
  match diff with
  | [] => mret bitrot
  | d :: diff' => b ← backupLine_io srcTree d; backupLines_io srcTree diff' (bitrot || b)
  end.

(** the last message of a backup *)
Definition backup_verdict (bitrot : bool) : string :=
  if bitrot then
    redb +:+ "Bit rot was detected in the source directory." +:+ reset +:+
    " As this tool by design never writes into the source directory during a backup, you will have to fix this " +:+
    "manually. Review the listed files, and if bit rot is confirmed, then manually replace the rotten files in the " +:+
    line "source directory with the good copy in the backup directory." +:+
    line "I suggest also running a SMART check as your source disk may be unreliable."
  else greenb +:+ "Backup complete." +:+ line reset.

Definition done_ : string := line "Done.".

Section backup.
Context (order : gset string -> list string).

Definition backupImpl_io (srcTree : DirectoryTree) : desk_talk Z :=
  _ ← say (line "Performing backup." +:+ "Comparing source directory with backup directory... ");
  d ← quiet get_state;
  diff ← quiet (lift_outcome (diff2 order srcTree (dst d) all_opts));
  _ ← say done_;
  _ ← (if is_nil diff then say (line "No differences found.") else mret tt);
  bitrot ← backupLines_io srcTree diff false;
  _ ← say (backup_verdict bitrot);
  mret (if bitrot : bool then 2 else 0)%Z.
End backup.

(** ** Scanning *)

Section scan_both.
Context (sha1 : string -> string) (listing : gset string -> list string) (absolute : path -> path).

(** the filesystem and the standard input *)
Abbreviation env_talk := (spoken (FS * string)).

(** a computation that reads the filesystem *)
Definition reading {A} (f : FS -> outcome A) : env_talk A := fun env => ((f env.1, env), []).

Definition scanSourceTargetDir_io (src dst : path) (threads : bool) (opt : ScanOpt) : env_talk (DirectoryTree * DirectoryTree) :=
  _ ← say "Scanning source and backup directory... ";
  trees ← reading (fun fs => scanSourceTargetDir sha1 listing absolute fs src dst threads opt);
  _ ← say done_;
  mret trees.

(** the message that a backup starts with *)
Definition backing_up (src dst : path) : string :=
  line ("Backing up directory " +:+ put_path src) +:+ line ("to directory " +:+ put_path dst).

(** the backup of a tree without metadata *)
Definition at_desk {A} (dstTree : DirectoryTree) (p : desk_talk A) : env_talk A := fun '(fs, inp) =>
  let '((r, d), l) := p (mkDesk dstTree None fs inp) in ((r, (files d, input d)), l).

Definition backup_plain_io (order : gset string -> list string) (src dst : path) (threads : bool) : env_talk Z :=
  _ ← say (backing_up src dst);
  '(srcTree, dstTree) ← scanSourceTargetDir_io src dst threads OmitHash;
  at_desk dstTree (backupImpl_io order srcTree).
End scan_both.
