(* ===== verification/ScrubTalk.v ===== *)
(** * Scrubbing with its messages (src/backup.cpp)

    The repair of an entry, [scrubImpl] and the destructor of the tree manager as
    they talk to the user. The methods of [Scrub.v] are what they do apart from
    that. *)

From S2P Require Import Prelude CxxPath CxxTime CxxStream Element Node Tree TreeIO Diff FileSystem MetaFiles TreeFs Backup Scrub Console BackupTalk.

Abbreviation session_talk := (spoken Session).

(** a question and the answer *)
Definition question (text : string) : session_talk bool := _ ← say (line (text +:+ " [y/n]")); answered ask_user.

Definition unless_refused {A} (b : bool) (fail : A) (m : session_talk A) : session_talk A := if b then m else mret fail.

(** ** Messages that occur in several places *)

Definition no_source (type : string) : string :=
  line ("If you re-run the scrub giving me also the source directory (-s option) I may be able to help by looking for the " +:+
        type +:+ " there, but until then, there's nothing I can do.").

Definition looking_for (type : string) : string :=
  line ("Trying to see if I can find the missing " +:+ type +:+ " in the source directory.").

Definition not_found (type : string) : string :=
  "The " +:+ type +:+ " was not found. There's nothing I can do, but I recommend to double check the source directory " +:+
  "path. If it's wrong, please re-run the command with the correct path. If it's correct, please check the source " +:+
  "directory manually, if the " +:+ type +:+ " really isn't there maybe it was deleted manually both there and in the " +:+
  line "backup directory. If this is the only error you could delete and recreate the metadata files.".

Definition found_matching (type : string) : string :=
  line ("The " +:+ type +:+ " was found in the source directory and matches with the backup metadata.").

Definition say_other_found (item : FilesystemElement) (type : string) : session_talk unit :=
  print_element (line "An entry was found in the source directory however, its properties") item
    (newline +:+ line ("do not match the missing " +:+ type +:+ ".")).

Definition types_differ : string := yellowb +:+ "Also, the types differ!" +:+ line reset.

Definition about_bitrot : string :=
  yellowb +:+ "About the bit rot." +:+ reset +:+
  "Either you restored a backup and that explains why the source and backup directory are the same " +:+
  line "and in this case you overwrote the good file, or something strange happened to the mtime.".

Definition removed (cnt : Z) : string := "Removed " +:+ Z_to_string cnt +:+ " files or directories.".

Definition replacing (cnt : Z) : string :=
  line (removed cnt) +:+ line "Replacing the content of the backup directory with the one of the source directory.".

Definition delete_replace (x : FilesystemElement) (type : string) : string :=
  "Do you want to DELETE the " +:+ typeAsString x +:+ " in the backup directory and REPLACE it with the " +:+ type +:+
  " in the source directory?".

Definition say_when (b : bool) (text : string) : session_talk unit := if b then say text else mret tt.

(** ** Repairing one entry *)

Definition fixMissing_io (srcTree : option DirectoryTree) (e : FilesystemElement) : session_talk FixupResult :=
  let relPath := rp e in
  let type := typeAsString e in
  _ ← say (line ("The " +:+ named e relPath +:+
            " is missing in the backup directory but the metadata files agree it should be there."));
  if bool_decide (ty e = symlink_) then
    _ ← say (line "Creating the missing symbolic link.");
    _ ← quiet (in_dst (addSymlinkToTreeAndFilesystem e)); mret Success
  else
    match srcTree with
    | None => _ ← say (no_source type); mret Failed
    | Some src =>
        _ ← say (looking_for type);
        item ← quiet (lift_outcome (search relPath src));
        match item with
        | None => _ ← say (not_found type); mret Failed
        | Some item =>
            if elem_eqb item e then
              _ ← say (found_matching type +:+ line "Copying it back into the backup directory.");
              _ ← quiet (in_dst (copyFromTreeAndFilesystem src relPath (parent_path relPath)));
              mret (either (bool_decide (ty e = directory)) (SuccessDiffInvalidated, Success))
            else
              _ ← say_other_found item type;
              if compare item e content_only then
                _ ← say (line "However, the content is the same, updating backup.");
                _ ← quiet (in_dst (copyFromTreeAndFilesystem src relPath (parent_path relPath)));
                _ ← quiet (if negb (bool_decide (per item = per e)) then
                       _ ← in_meta1 (modifyPermissionsInTree relPath (per item));
                       in_meta2 (modifyPermissionsInTree relPath (per item))
                     else mret tt);
                _ ← quiet (if negb (same_owner item e) then
                       _ ← in_meta1 (modifyOwnerInTree relPath (us item) (gs item));
                       in_meta2 (modifyOwnerInTree relPath (us item) (gs item))
                     else mret tt);
                _ ← quiet (if negb (bool_decide (mt item = mt e)) then
                       _ ← in_meta1 (modifyMtimeInTree relPath (mt item));
                       in_meta2 (modifyMtimeInTree relPath (mt item))
                     else mret tt);
                mret (either (bool_decide (ty e = directory))
                        (SuccessDiffMetadataInvalidated, SuccessMetadataInvalidated))
              else
                _ ← say ("And the difference includes the entry content. However, as the entry in the backup is gone, and " +:+
                      line "the source directory has changed, the best I can do is copy the new entry to the backup.");
                _ ← quiet (in_dst (copyFromTreeAndFilesystem src relPath (parent_path relPath)));
                _ ← quiet (take_over_in_metadata src relPath);
                mret (either (isDirectory item || isDirectory e)
                        (SuccessDiffMetadataInvalidated, SuccessMetadataInvalidated))
        end
    end.

Definition fixExtra_io (e : FilesystemElement) : session_talk FixupResult :=
  yes ← question (line ("The " +:+ named e (rp e) +:+
          " is present in the backup directory but the metadata files agree it should not be there.") +:+
          "Do you want to DELETE it?");
  unless_refused yes Failed
    (_ ← say (line ("Removing the " +:+ typeAsString e +:+ "."));
     cnt ← quiet (in_dst (removeFromTreeAndFilesystem (rp e)));
     _ ← say (line (removed cnt));
     mret (either (bool_decide (ty e = directory)) (SuccessDiffInvalidated, Success))).

Definition bitrot_or_question (bitrot : bool) (text : string) : session_talk bool :=
  if bitrot then mret true else question text.

Definition fixFromSource_io (src : DirectoryTree) (x e : FilesystemElement) (bitrot : bool) : session_talk FixupResult :=
  let relPath := rp e in
  let type := typeAsString e in
  _ ← say (looking_for type);
  item ← quiet (lift_outcome (search relPath src));
  match item with
  | None => _ ← say (not_found type); mret Failed
  | Some item =>
      if elem_eqb item e then
        _ ← say (found_matching type);
        yes ← bitrot_or_question bitrot (delete_replace x type);
        unless_refused yes Failed
          (cnt ← quiet (in_dst (removeFromTreeAndFilesystem relPath));
           _ ← say (replacing cnt);
           _ ← quiet (in_dst (copyFromTreeAndFilesystem src relPath (parent_path relPath)));
           mret (either (bool_decide (ty e = directory) || isDirectory x)
                   (SuccessDiffInvalidated, Success)))
      else
        _ ← say_other_found item type;
        if elem_eqb item x then
          _ ← say (line "But the source directory matches with the backup directory." +:+
                "Did you do a backup without updating the backup metadata? " +:+
                line "Assuming the metadata is not up to date.");
          _ ← quiet (take_over_in_metadata src relPath);
          _ ← say (line "Metadata updated to reflect the source and backup.");
          _ ← say_when bitrot about_bitrot;
          mret (either (isDirectory item || bool_decide (ty e = directory))
                  (SuccessDiffMetadataInvalidated, SuccessMetadataInvalidated))
        else
          _ ← say_when (negb (bool_decide (ty item = ty e))) types_differ;
          if compare item x content_only then
            _ ← say (line "However, the content is the same, updating backup.");
            _ ← quiet (updateBackup relPath item e);
            _ ← say (line "Updating metadata files too.");
            _ ← quiet (take_over_in_metadata src relPath);
            _ ← say_when bitrot about_bitrot;
            mret (either (bool_decide (ty e = directory) || isDirectory x)
                    (SuccessDiffMetadataInvalidated, SuccessMetadataInvalidated))
          else
            yes ← question (line "And the difference includes the entry content." +:+ delete_replace x (typeAsString item));
            unless_refused yes Failed
              (cnt ← quiet (in_dst (removeFromTreeAndFilesystem relPath));
               _ ← say (replacing cnt);
               _ ← quiet (in_dst (copyFromTreeAndFilesystem src relPath (parent_path relPath)));
               _ ← quiet (take_over_in_metadata src relPath);
               mret (either (bool_decide (ty e = directory) || isDirectory item || isDirectory x)
                       (SuccessDiffMetadataInvalidated, SuccessMetadataInvalidated)))
  end.

Definition fixContent_io (srcTree : option DirectoryTree) (x e : FilesystemElement) : session_talk FixupResult :=
  let relPath := rp e in
  let bitrot := compare x e metadata_opt in
  _ ← say (line "And the difference includes the entry content.");
  _ ← say_when (negb (bool_decide (ty e = ty x))) types_differ;
  _ ← say_when bitrot (redb +:+ "Bit rot in the backup directory detected." +:+ reset +:+
        " The content of a file changed but the modified time did not. I suggest running a SMART check as your " +:+
        line "backup disk may be unreliable.");
  if bool_decide (ty e = symlink_) && bool_decide (ty x = symlink_) then
    yes ← bitrot_or_question bitrot "Do you want to UPDATE the symbolic link?";
    unless_refused yes Failed
      (_ ← say (line "First removing the old symbolic link.");
       cnt ← quiet (in_dst (removeFromTreeAndFilesystem relPath));
       _ ← say (line ("Removed " +:+ Z_to_string cnt +:+ " entry. Creating updated symbolic link."));
       _ ← quiet (in_dst (addSymlinkToTreeAndFilesystem e));
       mret Success)
  else
    match srcTree with
    | None => _ ← say (no_source (typeAsString e)); mret Failed
    | Some src => fixFromSource_io src x e bitrot
    end.

Definition tryToFixBackupEntry_io (srcTree : option DirectoryTree) (d : DirectoryDiffLine3) : session_talk FixupResult :=
  let '(d0, d1, d2) := d in
  _ ← quiet (lift_outcome (cassert (entry_eqb d1 d2) "tryToFixBackupEntry: d[1]==d[2]"));
  match d0, d1 with
  | None, None => quiet (lift_outcome (Err (Throw "bad_optional_access")))
  | None, Some e => fixMissing_io srcTree e
  | Some x, None => fixExtra_io x
  | Some x, Some e =>
      _ ← say (line ("The metadata files agree on the properties of the " +:+ named e (rp e) +:+
            " but the entry in the backup directory differs."));
      if compare x e content_only then
        _ ← say (line "However, the content is the same, updating backup directory.");
        _ ← quiet (updateBackup (rp e) e x);
        mret Success
      else fixContent_io srcTree x e
  end.

(** ** scrubImpl *)

Definition scrubLine_io (fixup : bool) (d : DirectoryDiffLine3) (f : ScrubFlags) : session_talk ScrubFlags :=
  let '(d0, d1, d2) := d in
  if entry_eqb d0 d1 && negb (entry_eqb d0 d2) then
    _ ← print_line3 d (line "Assuming metadata file 2 inconsistent in this case.");
    _ ← quiet checkMeta2Tree;
    s ← quiet get_state;
    r ← quiet (in_meta2 (fixMetadataEntry (dstTree (tm s)) d0 d2));
    mret (flag_metadata r false f)
  else if entry_eqb d0 d2 && negb (entry_eqb d0 d1) then
    _ ← print_line3 d (line "Assuming metadata file 1 inconsistent in this case.");
    s ← quiet get_state;
    r ← quiet (in_meta1 (fixMetadataEntry (dstTree (tm s)) d0 d1));
    mret (flag_metadata r true f)
  else if entry_eqb d1 d2 && negb (entry_eqb d0 d1) then
    _ ← print_line3 d (line "Metadata files are consistent between themselves but differ from backup directory content.");
    if fixup then
      _ ← say (line "Trying to fix this.");
      _ ← quiet checkMeta2Tree;
      s ← quiet get_state;
      r ← tryToFixBackupEntry_io (sourceTree (tm s)) d;
      mret (flag_fixup r f)
    else
      _ ← say (line "Not attempting to fix this because --fixup option not given.");
      mret (mkFlags (unrecoverable f) true (redo f) (updateMeta1 f) (updateMeta2 f))
  else if negb (entry_eqb d0 d1) && negb (entry_eqb d1 d2) then
    _ ← print_line3 d
          (line "Metadata files are inconsistent both among themselves and with backup directory content. Nothing can be done.");
    mret (mkFlags true (maybeRecoverable f) (redo f) (updateMeta1 f) (updateMeta2 f))
  else quiet (lift_outcome (Err (AssertFailed "scrubImpl: false"))).

(** an empty line after every difference that does not end the loop *)
Fixpoint scrubLines_io (fixup : bool) (diff : list DirectoryDiffLine3) (f : ScrubFlags) : session_talk ScrubFlags :=
  match diff with
  | [] => mret f
  | d :: diff' =>
      f' ← scrubLine_io fixup d f;
      if redo f' then mret f'
      else _ ← say newline; scrubLines_io fixup diff' f'
  end.

Definition comparing : string := "Comparing backup directory with metadata... ".

(** the last message of a scrub *)
Definition good_verdict : string :=
  greenb +:+ "Scrub complete." +:+ reset +:+ line " No differences found.".
Definition repaired_verdict : string :=
  yellowb +:+ "Inconsitencies found" +:+ reset +:+ line " but it was possible to automatically reconcile them." +:+
  line "Backup directory is now good.".
Definition unrecoverable_verdict : string :=
  redb +:+ "Unrecoverable inconsistencies found." +:+ reset +:+ line " You will need to manually fix the backup directory.".
Definition unrecovered_verdict : string :=
  redb +:+ "Unrecovered inconsistencies found." +:+ reset +:+
  " However it looks like it is possible to attempt recovering all inconsistencies automatically by running this " +:+
  line "command again and adding the --fixup option.".
Definition more_recoverable : string :=
  line "Some inconsistencies may be automatically recoverable by running again this command with the --fixup option.".
Definition want_source : string :=
  line "You may want to give me access to the source diectory as well (-s option)".

(** what follows the loop over the differences *)
Definition conclude_scrub (f : ScrubFlags) : session_talk Z :=
  if negb (unrecoverable f) && negb (maybeRecoverable f) then
    _ ← quiet (change saveMetadataOnExit);
    _ ← quiet (if updateMeta1 f then change saveMeta1PreviousVersion else mret tt);
    _ ← quiet (if updateMeta2 f then change saveMeta2PreviousVersion else mret tt);
    _ ← say repaired_verdict;
    mret 1%Z
  else if unrecoverable f then
    _ ← say unrecoverable_verdict;
    s ← quiet get_state;
    _ ← say_when (maybeRecoverable f) more_recoverable;
    _ ← say_when (maybeRecoverable f && negb (srcTreePresent (tm s))) want_source;
    mret 2%Z
  else
    _ ← say unrecovered_verdict;
    s ← quiet get_state;
    _ ← say_when (negb (srcTreePresent (tm s))) want_source;
    mret 2%Z.

Section scrub.
Context (order : gset string -> list string).

Fixpoint scrubRounds_io (rounds : nat) (fixup : bool) (diff : list DirectoryDiffLine3) (f : ScrubFlags)
    : session_talk ScrubFlags :=
  match rounds with
  | O => quiet (lift_outcome (Err OutOfFuel))
  | S rounds' =>
      f' ← scrubLines_io fixup diff f;
      if redo f' then
        _ ← say (newline +:+ "The fixup operation modified the backup directory content " +:+
              line "in a way that invalidated the list of inconsistencies. Rechecking." +:+ comparing);
        diff' ← quiet (compareTrees order);
        _ ← say done_;
        scrubRounds_io rounds' fixup diff'
          (mkFlags (unrecoverable f') (maybeRecoverable f') false (updateMeta1 f') (updateMeta2 f'))
      else mret f'
  end.

Definition scrubImpl_io (rounds : nat) (fixup : bool) : session_talk Z :=
  _ ← say comparing;
  diff ← quiet (compareTrees order);
  _ ← say done_;
  match diff with
  | [] => _ ← say good_verdict; mret 0%Z
  | _ =>
      _ ← say (yellowb +:+ "Inconsitencies found." +:+ reset +:+ line " Processing them one by one." +:+
            "Note: in the following diff a is the backup directory, b is metadata file 1 while c is metadata file 2" +:+ newline);
      f ← scrubRounds_io rounds fixup diff no_flags;
      _ ← say (line "Inconsistencies processed.");
      conclude_scrub f
  end.
End scrub.

(** ** Saving metadata *)

Section saving.
Context (absolute : path -> path).

(** the destructor of the manager *)
Definition saveMetadata_io : session_talk unit :=
  s ← quiet get_state;
  let m := tm s in
  if negb (save m) then mret tt
  else
    _ ← say (line "Updating metadata file 1");
    _ ← quiet (on_disk (store absolute (meta1NeedsBackup m) (meta1Tree m) (meta1 m)));
    _ ← say (line "Updating metadata file 2");
    quiet (on_disk (store absolute (meta2NeedsBackup m) (if meta2TreePresent m then meta2Tree m else meta1Tree m) (meta2 m))).

Definition leave_scope_io {A} (body : session_talk A) : session_talk A := fun s =>
  let '((r, s1), l) := body s in
  let finish :=
    match saveMetadata_io s1 with
    | ((Ok _, s2), l') => ((r, s2), l ++ l')
    | ((Err (Throw what), s2), l') => ((Err (Terminated what), s2), l ++ l')
    | ((Err e, s2), l') => ((Err e, s2), l ++ l')
    end in
  match r with
  | Ok _ | Err (Throw _) => finish
  | Err _ => ((r, s1), l)
  end.
End saving.
