(* ===== verification/CommandsTalk.v ===== *)
(** * The commands with their messages (src/backup.cpp, src/main.cpp)

    The program from the command line on, with what it writes to the standard
    output. Usage, warnings and error messages go to the standard error and are
    not part of the log. *)

From S2P Require Import Prelude CxxPath CxxTime CxxStream Element Node Tree TreeIO Diff FileSystem MetaFiles TreeFs Backup Scrub Commands Console BackupTalk ScrubTalk.

Section commands.
Context (sha1 : string -> string) (listing order : gset string -> list string) (absolute : path -> path).

Abbreviation env_talk := (spoken (FS * string)).

(** ** Construction of the manager *)

Definition cannot_load (what : string) : string :=
  line what +:+
  "It looks like at least one of the metadata files is corrupted to the point that it cannot be read. The cause may be " +:+
  "an unclean unmount of the filesystem (did you run an fsck?), you tried to edit a metadata file with a text editor or " +:+
  line "bit rot occurred in a metadata file." +:+
  redb +:+ "Unrecoverable inconsistencies found." +:+ reset +:+
  " You will need to manually fix the backup directory, possibly by " +:+
  line "recreating metadata files and replacing the corrupted one(s)." +:+
  line "the 'ddm diff' command may help to troubleshoot bad metadata.".

Definition loadMetadataFiles_io (m1 m2 : path) : env_talk (DirectoryTree * DirectoryTree) :=
  on_exception cannot_load
    (_ ← say "Loading metatata files... ";
     trees ← reading (fun fs => loadMetadataFiles absolute fs m1 m2);
     _ ← say done_;
     mret trees).

Definition newManager_io (src dst m1 m2 : path) (opt : ScanOpt) (threads : bool) : env_talk TreeManager :=
  '(t1, t2) ← loadMetadataFiles_io m1 m2;
  '(s, d) ← scanSourceTargetDir_io sha1 listing absolute src dst threads opt;
  mret (mkManager s d t1 t2 m1 m2 true true false false false).

Definition newManagerNoSource_io (dst m1 m2 : path) (opt : ScanOpt) : env_talk TreeManager :=
  '(t1, t2) ← loadMetadataFiles_io m1 m2;
  _ ← say "Scanning backup directory... ";
  d ← reading (fun fs => new_tree (scanDirectory sha1 listing absolute fs dst opt));
  _ ← say done_;
  mret (mkManager emptyTree d t1 t2 m1 m2 false true false false false).

Definition in_session {A} (m : TreeManager) (body : session_talk A) : env_talk A := fun '(fs, inp) =>
  let '((r, s), l) := leave_scope_io absolute body (mkSession m fs inp) in ((r, (disk s, cin s)), l).

(** ** scrub *)

Definition scrubbing (dst m1 m2 : path) : string :=
  line ("Scrubbing backup directory " +:+ put_path dst) +:+ line "by comparing it with metadata files:" +:+
  line ("- " +:+ put_path m1) +:+ line ("- " +:+ put_path m2).

Definition scrub_io (rounds : nat) (dst m1 m2 : path) (fixup : bool) : env_talk Z :=
  _ ← say (scrubbing dst m1 m2);
  tm ← newManagerNoSource_io dst m1 m2 ComputeHash;
  in_session tm (scrubImpl_io order rounds fixup).

Definition scrub_source_io (rounds : nat) (src dst m1 m2 : path) (fixup threads : bool) : env_talk Z :=
  _ ← say (scrubbing dst m1 m2 +:+ line ("and with source directory " +:+ put_path src));
  tm ← newManager_io src dst m1 m2 ComputeHash threads;
  in_session tm (scrubImpl_io order rounds fixup).

(** ** backup *)

(** [backupImpl] on the trees of the manager *)
Definition backupManaged_io : session_talk Z := fun s =>
  let m := tm s in
  let '((r, d), l) := backupImpl_io order (srcTree m) (mkDesk (dstTree m) (Some (meta1Tree m)) (disk s) (cin s)) in
  let t1 := match meta d with Some t => t | None => meta1Tree m end in
  ((r, mkSession (set_meta1Tree t1 (set_dstTree (dst d) m)) (files d) (input d)), l).

Definition hashes_missing : string :=
  redb +:+ "Warning:" +:+ reset +:+
  " an exception was thrown whilecomputing missing hashes. The metadata files may be corrupt" +:+
  "in a silent way. Open them and look for an * instead of anhash for some files. Bit rot protection will not work" +:+
  line "for those files.".

Definition backupScrubbed_io (dst : path) (hashAllFiles : bool) (result : Z) : session_talk Z :=
  _ ← quiet (change discardMeta2Tree);
  _ ← quiet (change saveMetadataOnExit);
  result2 ← backupManaged_io;
  let result := if bool_decide (result2 = 0%Z) then result else result2 in
  _ ← (if hashAllFiles then mret tt
       else
         _ ← say "Computing missing hashes in metadata files... ";
         _ ← quiet (in_meta1 (bindToTopPath absolute dst));
         s ← quiet get_state;
         _ ← on_exception (fun _ => hashes_missing) (quiet (in_meta1 (computeMissingHashes (hashFile sha1 (disk s)))));
         say done_);
  mret result.

Definition refusing : string :=
  redb +:+ "Refusing to perform backup to an inconsistent directory." +:+ line reset.

Definition backupBody_io (rounds : nat) (dst : path) (fixup hashAllFiles : bool) : session_talk Z :=
  _ ← say (line "Scrubbing backup directory.");
  result ← scrubImpl_io order rounds fixup;
  if bool_decide (result = 1%Z) then
    yes ← question "Do you want to continue with the backup?";
    if yes : bool then backupScrubbed_io dst hashAllFiles result else mret result
  else if bool_decide (result = 2%Z) then _ ← say refusing; mret result
  else backupScrubbed_io dst hashAllFiles result.

Definition backup_io (rounds : nat) (src dst m1 m2 : path) (fixup hashAllFiles threads : bool) : env_talk Z :=
  _ ← say (backing_up src dst +:+ line "and metadata files:" +:+ line ("- " +:+ put_path m1) +:+ line ("- " +:+ put_path m2));
  tm ← newManager_io src dst m1 m2 (if hashAllFiles then ComputeHash else OmitHash) threads;
  in_session tm (backupBody_io rounds dst fixup hashAllFiles).

(** ** The command line *)

(** a command: its exit code and what it writes to its output *)
Abbreviation command_talk := (env_talk (Z * string)).

Definition no_output (p : env_talk Z) : command_talk := c ← p; mret (c, "").

Definition scrubCmd_io (rounds : nat) (v : Options) : command_talk :=
  if o_help v || given (o_ignore v) || o_nohash v then quiet usage
  else
    match o_source v, o_target v, o_input v with
    | Some src, Some dst, [m1; m2] =>
        no_output (scrub_source_io rounds src dst m1 m2 (o_fixup v) (negb (o_singlethread v)))
    | None, None, [dst; m1; m2] => no_output (scrub_io rounds dst m1 m2 (o_fixup v))
    | _, _, _ => quiet usage
    end.

Definition backupCmd_io (rounds : nat) (v : Options) : command_talk :=
  if o_help v || given (o_ignore v) then quiet usage
  else
    match o_source v, o_target v, o_input v with
    | Some src, Some dst, [m1; m2] =>
        no_output (backup_io rounds src dst m1 m2 (o_fixup v) (negb (o_nohash v)) (negb (o_singlethread v)))
    | Some src, Some dst, [] =>
        no_output (backup_plain_io sha1 listing absolute order src dst (negb (o_singlethread v)))
    | _, _, _ => quiet usage
    end.

Definition operations_io (rounds : nat) (name : string) : option (Options -> command_talk) :=
  if str_eqb name "ls" then Some (fun v => quiet (lsCmd sha1 listing absolute v))
  else if str_eqb name "diff" then Some (fun v => quiet (diffCmd sha1 listing order absolute v))
  else if str_eqb name "scrub" then Some (scrubCmd_io rounds)
  else if str_eqb name "backup" then Some (backupCmd_io rounds)
  else None.

(** the output of the command goes to the file [o], or to the terminal after its
    messages; the exit code is left *)
Definition redirect_io (o : option path) (p : command_talk) : env_talk Z := fun env =>
  match o with
  | None => ('(code, out) ← p; _ ← (if str_empty out then mret tt else say out); mret code) env
  | Some f =>
      if file_exists absolute env.1 f then ((Ok 10%Z, env), [])
      else
        match on_files (write_file absolute (Throw "") f "") env with
        | (Err _, env') => ((Ok 10%Z, env'), [])
        | (Ok _, env') =>
            ('(code, out) ← p;
             _ ← quiet (if str_empty out then mret tt
                        else on_files (write_file absolute (Throw "") f out));
             mret code) env'
        end
  end.

Definition main_parsed_io (rounds : nat) (v : Options) : env_talk Z :=
  match o_command v with
  | None => mret 100%Z
  | Some name =>
      redirect_io (o_output v)
        (match operations_io rounds name with Some cmd => cmd v | None => quiet usage end)
  end.

Context (parser : list (string * semantic) -> list (string * Z) -> list string -> outcome variables_map).

Definition main_io (rounds : nat) (argv : list string) : env_talk Z := fun env =>
  match (v ← quiet (lift_outcome (parse parser argv)); main_parsed_io rounds v) env with
  | ((Err (Throw _), env'), l) => ((Ok 10%Z, env'), l)
  | r => r
  end.
End commands.
