(* ===== verification/TalkSpec.v ===== *)
(** * The messages change nothing

    A function with its messages does what the method without them does
    ([tells]), as long as all times can be printed, which every step keeps so. *)

From S2P Require Import Prelude CxxPath CxxTime CxxStream Element Node Tree TreeIO Diff FileSystem MetaFiles TreeFs Dated Backup Scrub Commands Console BackupTalk ScrubTalk CommandsTalk.

Create HintDb console.

(** ** The two programs side by side *)

Class Stays {S A} (I : S -> Prop) (m : method S A) := stays s : I s -> I (m s).2.

(** the same result and effect in all states [I], which are not left *)
Definition tells {S A} (I : S -> Prop) (p : spoken S A) (m : method S A) : Prop :=
  forall s, I s -> (p s).1 = m s /\ I (m s).2.

Section tells.
Context {S : Type} (I : S -> Prop).

Lemma tells_quiet {A} (m : method S A) : Stays I m -> tells I (quiet m) m.
Proof. intros Hm s Hs. split; [done|]. by apply Hm. Qed.

Lemma tells_ret {A} (a : A) : tells I (mret a) (mret a).
Proof. intros s Hs. done. Qed.

Lemma tells_answered (m : method S bool) : Stays I m -> tells I (answered m) m.
Proof. intros Hm s Hs. split; [done|]. by apply Hm. Qed.

Lemma tells_bind {A B} (p : spoken S A) (m : method S A) (k : A -> spoken S B) (h : A -> method S B) :
  tells I p m -> (forall a, tells I (k a) (h a)) -> tells I (p ≫= k) (m ≫= h).
Proof.
  intros Hp Hk s Hs. unfold mbind, spoken_bind, method_bind. destruct (Hp s Hs) as [E HI].
  destruct (p s) as [[r s'] l]; cbn in E. rewrite <-E in *. destruct r as [a|e]; [|done].
  destruct (Hk a s' HI) as [E' HI']. by destruct (k a s').
Qed.

(** a message before, or after *)
Lemma tells_say {A} t (k : unit -> spoken S A) m : tells I (k tt) m -> tells I (say t ≫= k) m.
Proof. intros Hk s Hs. destruct (Hk s Hs). unfold mbind, spoken_bind, say. by destruct (k tt s). Qed.

Lemma tells_before {A} (p : spoken S unit) (k : unit -> spoken S A) m :
  tells I p (mret tt) -> tells I (k tt) m -> tells I (p ≫= k) m.
Proof.
  intros Hp Hk s Hs. destruct (Hp s Hs) as [E _]. destruct (Hk s Hs) as [E' HI]. unfold mbind, spoken_bind.
  destruct (p s) as [[r s'] l]; cbn in E. injection E as -> ->. by destruct (k tt s).
Qed.

Lemma tells_then_ret {A} (p : spoken S A) (k : A -> spoken S A) m :
  tells I p m -> (forall a, tells I (k a) (mret a)) -> tells I (p ≫= k) m.
Proof.
  intros Hp Hk s Hs. destruct (Hp s Hs) as [E HI]. unfold mbind, spoken_bind. destruct (p s) as [[r s'] l]; cbn in E.
  rewrite <-E in *. destruct r as [a|e]; [|done]. destruct (Hk a s' HI) as [E' HI']. by destruct (k a s').
Qed.

Lemma tells_print {A} t (k : unit -> spoken S A) m :
  (exists u, t = Ok u) -> tells I (k tt) m -> tells I (print t ≫= k) m.
Proof. intros [u ->]. apply tells_say. Qed.

(** a value that is known when it is used *)
Lemma tells_lift_bind {A B} (r : outcome A) (k : A -> spoken S B) (h : A -> method S B) :
  (forall a, r = Ok a -> tells I (k a) (h a)) -> tells I (quiet (lift_outcome r) ≫= k) (lift_outcome r ≫= h).
Proof.
  intros Hk s Hs. unfold mbind, spoken_bind, method_bind, quiet, lift_outcome. destruct r as [a|e]; [|done].
  destruct (Hk a eq_refl s Hs). by destruct (k a s).
Qed.

Lemma tells_get_bind {A} (k : S -> spoken S A) (h : S -> method S A) :
  (forall s, I s -> tells I (k s) (h s)) -> tells I (quiet get_state ≫= k) (get_state ≫= h).
Proof.
  intros Hk s Hs. unfold mbind, spoken_bind, method_bind, quiet, get_state. destruct (Hk s Hs s Hs). by destruct (k s s).
Qed.

Lemma tells_get {A} (k : S -> spoken S A) m : (forall s, tells I (k s) m) -> tells I (quiet get_state ≫= k) m.
Proof. intros Hk s Hs. destruct (Hk s s Hs). unfold mbind, spoken_bind, quiet, get_state. by destruct (k s s). Qed.

Lemma tells_handler {A} h (p : spoken S A) m : tells I p m -> tells I (on_exception h p) m.
Proof. intros Hp s Hs. destruct (Hp s Hs). unfold on_exception. by destruct (p s) as [[[a|[]] s'] l]. Qed.

(** ** Texts with elements *)

Lemma show_side_dated mark d : dated_entry d -> exists u, show_side mark d = Ok u.
Proof.
  intros Hd. destruct d as [e|]; cbn; [|by eexists]. destruct (writeTo_dated e (Hd e eq_refl)) as [u ->]. by eexists.
Qed.

Lemma tells_line3 {A} d t (k : unit -> spoken S A) m :
  dated_line3 d -> tells I (k tt) m -> tells I (print_line3 d t ≫= k) m.
Proof.
  intros (Ha & Hb & Hc). apply tells_print. destruct d as [[a b] c]. unfold show_line3. cbn in Ha, Hb, Hc.
  destruct (show_side_dated "a" a Ha) as [u ->], (show_side_dated "b" b Hb) as [v ->], (show_side_dated "c" c Hc) as [w ->].
  by eexists.
Qed.

Lemma tells_line2 {A} d t (k : unit -> spoken S A) m :
  dated_line2 d -> tells I (k tt) m -> tells I (print_line2 d t ≫= k) m.
Proof.
  intros (Ha & Hb). apply tells_print. unfold show_line2.
  destruct (show_side_dated "-" d.1 Ha) as [u ->], (show_side_dated "+" d.2 Hb) as [v ->]. by eexists.
Qed.

Lemma tells_element {A} b e a (k : unit -> spoken S A) m :
  dated e -> tells I (k tt) m -> tells I (print_element b e a ≫= k) m.
Proof. intros He. apply tells_print. destruct (writeTo_dated e He) as [u ->]. by eexists. Qed.

#[global] Instance stays_ret {A} (a : A) : Stays I (mret a).
Proof. by intros s. Qed.
#[global] Instance stays_lift {A} (r : outcome A) : Stays I (lift_outcome r).
Proof. by intros s. Qed.
#[global] Instance stays_get : Stays I get_state.
Proof. by intros s. Qed.
#[global] Instance stays_bind {A B} (m : method S A) (k : A -> method S B) :
  Stays I m -> (forall a, Stays I (k a)) -> Stays I (m ≫= k).
Proof.
  intros Hm Hk s Hs. unfold mbind, method_bind. specialize (Hm s Hs). destruct (m s) as [[a|e] s']; [|done]. by apply Hk.
Qed.
End tells.
#[export] Hint Extern 1 (Stays _ (match ?x with _ => _ end)) => destruct x : typeclass_instances.

(** ** States whose times can be printed *)

Definition dated_desk (d : Desk) : Prop := dated_tree (dst d) /\ forall t, meta d = Some t -> dated_tree t.

Record dated_session (s : Session) : Prop := {
  da_src : dated_tree (srcTree (tm s));
  da_dst : dated_tree (dstTree (tm s));
  da_meta1 : dated_tree (meta1Tree (tm s));
  da_meta2 : dated_tree (meta2Tree (tm s)) }.

#[global] Instance stays_on_dst {A} (m : world_method A) : KeepsTreeDates m -> Stays dated_desk (on_dst m).
Proof.
  intros Hm d [Hd Hmeta]. unfold on_dst. specialize (Hm (dst d, files d) Hd). destruct (m _) as [r [t fs]]. by split.
Qed.
#[global] Instance stays_on_meta (m : tree_method unit) : KeepsDates m -> Stays dated_desk (on_meta m).
Proof.
  intros Hm d [Hd Hmeta]. unfold on_meta. destruct (meta d) as [t|] eqn:E; [|split; [done|]; intros u; cbn; by rewrite E].
  specialize (Hm t (Hmeta t eq_refl)). destruct (m t) as [r t']. split; [done|]. by intros u [= <-].
Qed.
#[global] Instance stays_ask : Stays dated_desk ask.
Proof. intros d Hd. unfold ask. by destruct (askYesNo _). Qed.
#[global] Instance stays_when b m : Stays dated_desk m -> Stays dated_desk (when b m).
Proof. intros Hm. destruct b; [done|apply stays_ret]. Qed.

#[global] Instance stays_in_dst {A} (m : world_method A) : KeepsTreeDates m -> Stays dated_session (in_dst m).
Proof.
  intros Hm s [? Hd ? ?]. unfold in_dst. specialize (Hm (dstTree (tm s), disk s) Hd). destruct (m _) as [r [t fs]]. by split.
Qed.
#[global] Instance stays_in_meta1 {A} (m : tree_method A) : KeepsDates m -> Stays dated_session (in_meta1 m).
Proof. intros Hm s [? ? Hd ?]. unfold in_meta1. specialize (Hm _ Hd). destruct (m _) as [r t]. by split. Qed.
#[global] Instance stays_in_meta2 {A} (m : tree_method A) : KeepsDates m -> Stays dated_session (in_meta2 m).
Proof. intros Hm s [? ? ? Hd]. unfold in_meta2. specialize (Hm _ Hd). destruct (m _) as [r t]. by split. Qed.
#[global] Instance stays_ask_user : Stays dated_session ask_user.
Proof. intros s Hs. unfold ask_user. destruct (askYesNo _). destruct Hs. by split. Qed.
#[global] Instance stays_check : Stays dated_session checkMeta2Tree.
Proof. by intros s. Qed.
#[global] Instance stays_save : Stays dated_session (change saveMetadataOnExit).
Proof. intros s []. by split. Qed.
#[global] Instance stays_save1 : Stays dated_session (change saveMeta1PreviousVersion).
Proof. intros s []. by split. Qed.
#[global] Instance stays_save2 : Stays dated_session (change saveMeta2PreviousVersion).
Proof. intros s []. by split. Qed.
#[global] Instance stays_discard : Stays dated_session (change discardMeta2Tree).
Proof. intros s []. split; [done..|]. apply all_dated_nil. Qed.

(** operations with an element or a tree that the instances know to be dated *)
#[export] Hint Extern 0 (KeepsDates (modifyMtimeInTree _ _)) => apply keeps_dates_mtime; assumption : typeclass_instances.
#[export] Hint Extern 0 (KeepsDates (copyFromTree _ _ _)) => apply keeps_dates_copyFromTree; assumption : typeclass_instances.
#[export] Hint Extern 0 (KeepsTreeDates (modifyMtimeInTreeAndFilesystem _ _)) => apply tree_dates_mtime; assumption : typeclass_instances.
#[export] Hint Extern 0 (KeepsTreeDates (copyFromTreeAndFilesystem _ _ _)) => apply tree_dates_copy; assumption : typeclass_instances.
#[export] Hint Extern 0 (KeepsTreeDates (addSymlinkToTreeAndFilesystem _)) => apply tree_dates_symlink; assumption : typeclass_instances.

(** ** Following both programs *)

Lemma tells_say_when {A} b t (k : unit -> session_talk A) m :
  tells dated_session (k tt) m -> tells dated_session (say_when b t ≫= k) m.
Proof. intros Hk. apply tells_before; [|done]. destruct b; [|apply tells_ret]. by intros s. Qed.

Lemma tells_other {A} e t (k : unit -> session_talk A) m :
  dated e -> tells dated_session (k tt) m -> tells dated_session (say_other_found e t ≫= k) m.
Proof. apply tells_element. Qed.

Lemma tells_question text : tells dated_session (question text) ask_user.
Proof. apply tells_say, tells_answered. apply _. Qed.

Lemma tells_bitrot b text : tells dated_session (bitrot_or_question b text) (bitrot_or_ask b).
Proof. destruct b; [apply tells_ret|apply tells_question]. Qed.

Lemma tells_unless {A} b (fail : A) p m :
  tells dated_session p m -> tells dated_session (unless_refused b fail p) (unless_ok b fail m).
Proof. destruct b; [done|]. intros _. apply tells_ret. Qed.

Lemma search_entry_dated t p x : dated_tree t -> search p t = Ok x -> dated_entry x.
Proof. intros Ht Hx e ->. by eapply search_dated. Qed.

#[export] Hint Resolve tells_say tells_line3 tells_line2 tells_other tells_say_when | 1 : console.
#[export] Hint Resolve tells_ret tells_question tells_bitrot tells_unless tells_handler | 1 : console.
#[export] Hint Extern 1 (tells _ (quiet _) _) => apply tells_quiet; apply _ : console.
#[export] Hint Extern 1 (tells _ (answered _) _) => apply tells_answered; apply _ : console.
#[export] Hint Resolve tells_bind | 3 : console.
#[export] Hint Extern 2 (tells _ (match ?x with _ => _ end) _) => destruct x : console.

Ltac follow := typeclasses eauto 100 with nocore console.

(** ** backupImpl *)

Section backup.
Context (src : DirectoryTree) (Hsrc : dated_tree src).

Instance stays_updateMetadata x y : dated x -> Stays dated_desk (updateMetadata x y).
Proof using Type. intros Hx. unfold updateMetadata. apply _. Qed.

Instance stays_replaceEntry p : Stays dated_desk (replaceEntry src p).
Proof using Hsrc. unfold replaceEntry. apply _. Qed.

Lemma backupLine_tells d : dated_line2 d -> tells dated_desk (backupLine_io src d) (backupLine src d).
Proof using Hsrc.
  intros Hd. destruct d as [[x|] [y|]]; cbn [backupLine_io backupLine]; try follow.
  assert (dated x) by exact (proj1 Hd x eq_refl).
  repeat (match goal with |- tells _ (if ?b then _ else _) _ => destruct b; [follow|] end).
  apply tells_bind; [destruct (_ <? _)%Z; [|follow]|intros []; follow].
  apply tells_line2; [done|]. apply tells_then_ret; [follow|]. intros []; follow.
Qed.

Lemma backupLines_tells diff b :
  Forall dated_line2 diff -> tells dated_desk (backupLines_io src diff b) (backupLines src diff b).
Proof using Hsrc.
  intros Hd. revert b. induction Hd as [|d diff Hd _ IH]; intros b; [follow|]. apply tells_bind; [by apply backupLine_tells|done].
Qed.

Lemma backupImpl_tells order : tells dated_desk (backupImpl_io order src) (backupImpl order src).
Proof using Hsrc.
  apply tells_say, tells_get_bind. intros d [Hd _]. apply tells_lift_bind. intros diff Hdiff%diff2_dated; [|done..].
  apply tells_say, tells_before; [destruct (is_nil diff); by intros s|].
  apply tells_bind; [by apply backupLines_tells|]. intros b. follow.
Qed.
End backup.

(** ** scrubImpl *)

Section scrub.

Instance stays_updateBackup p x y : dated x -> Stays dated_session (updateBackup p x y).
Proof. intros Hx. unfold updateBackup. apply _. Qed.

Instance stays_take_over src p : dated_tree src -> Stays dated_session (take_over_in_metadata src p).
Proof. intros Hs. unfold take_over_in_metadata. apply _. Qed.

Lemma fixMissing_tells src e :
  (forall t, src = Some t -> dated_tree t) -> dated e -> tells dated_session (fixMissing_io src e) (fixMissing src e).
Proof.
  intros Hsrc He. unfold fixMissing_io, fixMissing. destruct src as [t|]; [|follow]. specialize (Hsrc t eq_refl).
  apply tells_say. destruct (bool_decide _); [follow|]. apply tells_say, tells_lift_bind. intros [i|] Hi; [|follow].
  pose proof (search_dated _ _ _ Hsrc Hi). follow.
Qed.

Lemma fixExtra_tells e : tells dated_session (fixExtra_io e) (fixExtra e).
Proof. unfold fixExtra_io, fixExtra. follow. Qed.

Lemma fixFromSource_tells src x e b :
  dated_tree src -> tells dated_session (fixFromSource_io src x e b) (fixFromSource src x e b).
Proof.
  intros Hsrc. unfold fixFromSource_io, fixFromSource. apply tells_say, tells_lift_bind. intros [i|] Hi; [|follow].
  pose proof (search_dated _ _ _ Hsrc Hi). follow.
Qed.

Lemma fixContent_tells src x e :
  (forall t, src = Some t -> dated_tree t) -> dated e -> tells dated_session (fixContent_io src x e) (fixContent src x e).
Proof.
  intros Hsrc He. unfold fixContent_io, fixContent. destruct src as [t|]; [|follow].
  pose proof (fun b => fixFromSource_tells t x e b (Hsrc t eq_refl)). follow.
Qed.

Lemma tryToFix_tells src d :
  (forall t, src = Some t -> dated_tree t) -> dated_line3 d ->
  tells dated_session (tryToFixBackupEntry_io src d) (tryToFixBackupEntry src d).
Proof.
  intros Hsrc (_ & Hd1 & _). destruct d as [[d0 d1] d2]. cbn [tryToFixBackupEntry_io tryToFixBackupEntry] in *.
  apply tells_bind; [follow|]. intros _. destruct d0 as [x|], d1 as [e|].
  - specialize (Hd1 e eq_refl). pose proof (fixContent_tells src x e Hsrc Hd1). follow.
  - apply fixExtra_tells.
  - apply fixMissing_tells; [done|exact (Hd1 e eq_refl)].
  - follow.
Qed.

Lemma fixMetadata_dates t g b : dated_tree t -> KeepsDates (fixMetadataEntry t g b).
Proof. intros Ht. unfold fixMetadataEntry. apply _. Qed.

Lemma scrubLine_tells fixup d f : dated_line3 d -> tells dated_session (scrubLine_io fixup d f) (scrubLine fixup d f).
Proof.
  intros Hd. destruct d as [[d0 d1] d2]. cbn [scrubLine_io scrubLine].
  destruct (entry_eqb d0 d1 && negb (entry_eqb d0 d2)).
  { apply tells_line3; [done|]. apply tells_bind; [follow|]. intros _. apply tells_get_bind. intros s [_ Hs _ _].
    pose proof (fixMetadata_dates (dstTree (tm s)) d0 d2 Hs). follow. }
  destruct (entry_eqb d0 d2 && negb (entry_eqb d0 d1)).
  { apply tells_line3; [done|]. apply tells_get_bind. intros s [_ Hs _ _].
    pose proof (fixMetadata_dates (dstTree (tm s)) d0 d1 Hs). follow. }
  destruct (entry_eqb d1 d2 && negb (entry_eqb d0 d1)); [|follow]. apply tells_line3; [done|]. destruct fixup; [|follow].
  apply tells_say, tells_bind; [follow|]. intros _. apply tells_get_bind. intros s [Hs _ _ _].
  apply tells_bind; [|intros r; follow]. apply tryToFix_tells; [|done]. unfold sourceTree. destruct (srcTreePresent _); [|done].
  by intros t [= <-].
Qed.

Lemma scrubLines_tells fixup diff f :
  Forall dated_line3 diff -> tells dated_session (scrubLines_io fixup diff f) (scrubLines fixup diff f).
Proof.
  intros Hd. revert f. induction Hd as [|d diff Hd _ IH]; intros f; [follow|]. apply tells_bind; [by apply scrubLine_tells|].
  intros f'. cbn [scrubLines_io]. destruct (redo f'); [follow|]. apply tells_say, IH.
Qed.

Lemma compareTrees_tells {A} order (k : list DirectoryDiffLine3 -> session_talk A) h :
  (forall diff, Forall dated_line3 diff -> tells dated_session (k diff) (h diff)) ->
  tells dated_session (quiet (compareTrees order) ≫= k) (compareTrees order ≫= h).
Proof.
  intros Hk s Hs. unfold compareTrees, quiet, mbind, spoken_bind, method_bind, checkMeta2Tree, get_state, lift_outcome.
  destruct (cassert _ _); [|done]. destruct (diff3 order _ _ _ all_opts) as [diff|e] eqn:E; [|done].
  destruct Hs. apply diff3_dated in E; [|done..]. destruct (Hk diff E s) as [E' HI]; [by split|]. by destruct (k diff s).
Qed.

Lemma scrubRounds_tells order rounds fixup diff f :
  Forall dated_line3 diff -> tells dated_session (scrubRounds_io order rounds fixup diff f) (scrubRounds order rounds fixup diff f).
Proof.
  revert diff f. induction rounds as [|rounds IH]; intros diff f Hd; cbn [scrubRounds_io scrubRounds]; [follow|].
  apply tells_bind; [by apply scrubLines_tells|]. intros f'. destruct (redo f'); [|follow].
  apply tells_say, compareTrees_tells. intros diff' Hd'. apply tells_say. by apply IH.
Qed.

Lemma scrubImpl_tells order rounds fixup : tells dated_session (scrubImpl_io order rounds fixup) (scrubImpl order rounds fixup).
Proof.
  apply tells_say, compareTrees_tells. intros diff Hd. apply tells_say. destruct diff as [|d diff]; [follow|].
  apply tells_say, tells_bind; [by apply scrubRounds_tells|]. intros f. apply tells_say. unfold conclude_scrub.
  destruct (negb _ && negb _); [follow|]. destruct (unrecoverable f); apply tells_say, tells_get; intros s; follow.
Qed.
End scrub.
