(* ===== verification/TalkCommands.v ===== *)
(** * The commands and their messages

    The program with its messages is the program without them, where the times of
    all files can be printed: the same exit code, the same files and the same input
    left to read. *)

From S2P Require Import Prelude CxxPath CxxTime CxxStream Element Node Tree TreeIO Diff FileSystem MetaFiles TreeFs Dated DatedFiles Backup Scrub Commands Console BackupTalk ScrubTalk CommandsTalk TalkSpec.

(** ** The manager *)

(** messages that no state prevents *)
Definition anywhere {S} : S -> Prop := fun _ => True.

#[global] Instance stays_anywhere {S A} (m : method S A) : Stays anywhere m.
Proof. by intros s. Qed.

Lemma saveMetadata_tells absolute : tells anywhere (saveMetadata_io absolute) (saveMetadata absolute).
Proof. unfold saveMetadata_io, saveMetadata. follow. Qed.

Lemma leave_scope_tells {A} absolute (p : session_talk A) m s :
  (p s).1 = m s -> (leave_scope_io absolute p s).1 = leave_scope absolute m s.
Proof.
  intros E. unfold leave_scope_io, leave_scope. destruct (p s) as [[r s1] l]. cbn in E. rewrite <-E.
  destruct (saveMetadata_tells absolute s1) as [Es _]; [done|].
  destruct r as [a|[what| | | | |]]; try done; destruct (saveMetadata_io absolute s1) as [[[[]|e] s2] l2]; cbn in Es;
    rewrite <-Es; try done; by destruct e.
Qed.

(** a function of the filesystem as a method *)
Definition read_env {A} (f : FS -> outcome A) : method (FS * string) A := fun env => (f env.1, env).

Lemma tells_reading {A} (f : FS -> outcome A) : tells anywhere (reading f) (read_env f).
Proof. by intros s. Qed.
#[local] Hint Resolve tells_reading | 1 : console.

Section commands.
Context (sha1 : string -> string) (listing order : gset string -> list string) (absolute : path -> path).

Lemma tells_eq {S A} I (p : spoken S A) m m' : (forall s, m s = m' s) -> tells I p m -> tells I p m'.
Proof using Type. intros Hm Hp s. rewrite <-Hm. apply Hp. Qed.

Lemma load_tells m1 m2 : tells anywhere (loadMetadataFiles_io absolute m1 m2) (read_env (fun fs => loadMetadataFiles absolute fs m1 m2)).
Proof using Type. apply tells_handler, tells_say, tells_then_ret; [follow|]. intros t. follow. Qed.

Lemma scan_both_tells src dst threads opt :
  tells anywhere (scanSourceTargetDir_io sha1 listing absolute src dst threads opt)
    (read_env (fun fs => scanSourceTargetDir sha1 listing absolute fs src dst threads opt)).
Proof using Type. apply tells_say, tells_then_ret; [follow|]. intros t. follow. Qed.

Lemma read_env_bind {A B} (f : FS -> outcome A) (k : A -> FS -> outcome B) env :
  (read_env f ≫= fun a => read_env (k a)) env = read_env (fun fs => f fs ≫= fun a => k a fs) env.
Proof using Type. unfold read_env, mbind, method_bind. cbn. by destruct (f env.1). Qed.

Lemma newManager_tells src dst m1 m2 opt threads :
  tells anywhere (newManager_io sha1 listing absolute src dst m1 m2 opt threads)
    (read_env (fun fs => newManager sha1 listing absolute fs src dst m1 m2 opt threads)).
Proof using Type.
  eapply tells_eq; [intros env; apply (read_env_bind (fun fs => loadMetadataFiles absolute fs m1 m2))|].
  apply tells_bind; [apply load_tells|]. intros [t1 t2].
  eapply tells_eq; [intros env; apply (read_env_bind (fun fs => scanSourceTargetDir sha1 listing absolute fs src dst threads opt))|].
  apply tells_bind; [apply scan_both_tells|]. intros [s d]. apply tells_ret.
Qed.

Lemma newManagerNoSource_tells dst m1 m2 opt :
  tells anywhere (newManagerNoSource_io sha1 listing absolute dst m1 m2 opt)
    (read_env (fun fs => newManagerNoSource sha1 listing absolute fs dst m1 m2 opt)).
Proof using Type.
  eapply tells_eq; [intros env; apply (read_env_bind (fun fs => loadMetadataFiles absolute fs m1 m2))|].
  apply tells_bind; [apply load_tells|]. intros [t1 t2]. apply tells_say.
  apply (tells_eq _ _ (d ← read_env (fun fs => new_tree (scanDirectory sha1 listing absolute fs dst opt));
    mret (mkManager emptyTree d t1 t2 m1 m2 false true false false false))).
  { intros env. unfold read_env, mbind, method_bind, new_tree. cbn.
    by destruct (scanDirectory sha1 listing absolute env.1 dst opt emptyTree) as [[[]|e] t]. }
  apply tells_bind; [follow|]. intros d. follow.
Qed.

(** ** Trees at the start *)

Section at_start.
Context (fs : FS) (Hfs : dated_fs fs).

Lemma empty_dated : dated_tree emptyTree.
Proof using Type. apply all_dated_nil. Qed.

Lemma load_both_dated m1 m2 t1 t2 : loadMetadataFiles absolute fs m1 m2 = Ok (t1, t2) -> dated_tree t1 /\ dated_tree t2.
Proof using Type.
  unfold loadMetadataFiles. pose proof (load_dated (read_file absolute fs) m1 emptyTree empty_dated) as H1.
  pose proof (load_dated (read_file absolute fs) m2 emptyTree empty_dated) as H2.
  destruct (tree_readFrom_file _ m1 _) as [r1 u1], (tree_readFrom_file _ m2 _) as [r2 u2].
  intros (_ & _ & (_ & _ & [= <- <-])%bind_ok)%bind_ok. done.
Qed.

Lemma scan_both_dated src dst threads opt s d :
  scanSourceTargetDir sha1 listing absolute fs src dst threads opt = Ok (s, d) -> dated_tree s /\ dated_tree d.
Proof using Hfs.
  unfold scanSourceTargetDir. pose proof (scan_dated sha1 listing absolute fs Hfs src opt emptyTree empty_dated) as H1.
  pose proof (scan_dated sha1 listing absolute fs Hfs dst opt emptyTree empty_dated) as H2.
  destruct (scanDirectory _ _ _ _ src _ _) as [rs us_], (scanDirectory _ _ _ _ dst _ _) as [rd ud]. destruct threads.
  - unfold join_scans. intros (a & _ & (b & _ & H)%bind_ok)%bind_ok. destruct (negb (str_empty _)) in H; [done|].
    by injection H as <- <-.
  - intros (_ & _ & (_ & _ & [= <- <-])%bind_ok)%bind_ok. done.
Qed.

Lemma newManager_dated src dst m1 m2 opt threads m inp :
  newManager sha1 listing absolute fs src dst m1 m2 opt threads = Ok m -> dated_session (mkSession m fs inp).
Proof using Hfs.
  intros ([t1 t2] & Hl & ([s d] & Hs & [= <-])%bind_ok)%bind_ok. apply load_both_dated in Hl as [? ?].
  apply scan_both_dated in Hs as [? ?]. by split.
Qed.

Lemma newManagerNoSource_dated dst m1 m2 opt m inp :
  newManagerNoSource sha1 listing absolute fs dst m1 m2 opt = Ok m -> dated_session (mkSession m fs inp).
Proof using Hfs.
  intros ([t1 t2] & Hl & H)%bind_ok. apply load_both_dated in Hl as [? ?].
  pose proof (scan_dated sha1 listing absolute fs Hfs dst opt emptyTree empty_dated) as Hd.
  destruct (scanDirectory _ _ _ _ dst _ _) as [r d]. apply bind_ok in H as (_ & _ & [= <-]). split; try done. apply empty_dated.
Qed.
End at_start.

(** ** The commands *)

(** the same, on files whose times can be printed *)
Definition says {A} (p : spoken (FS * string) A) (m : method (FS * string) A) : Prop :=
  forall fs inp, dated_fs fs -> (p (fs, inp)).1 = m (fs, inp).

Lemma with_manager_says {A} new_io new (p : session_talk A) m text :
  tells anywhere new_io (read_env new) ->
  (forall fs inp t, dated_fs fs -> new fs = Ok t -> dated_session (mkSession t fs inp)) ->
  tells dated_session p m ->
  says (_ ← say text; tm ← new_io; in_session absolute tm p) (with_manager absolute new m).
Proof using Type.
  intros Hn Hd Hp fs inp Hfs. destruct (Hn (fs, inp)) as [E _]; [done|]. unfold mbind, spoken_bind, say, with_manager.
  unfold read_env in E. cbn in E. destruct (new_io (fs, inp)) as [[r env] l]; cbn in E. injection E as -> ->.
  destruct (new fs) as [t|e] eqn:En; [|done]. unfold in_session.
  destruct (Hp (mkSession t fs inp)) as [Ep _]; [exact (Hd fs inp t Hfs En)|]. apply (leave_scope_tells absolute) in Ep.
  destruct (leave_scope_io absolute p _) as [[r s] l1]. cbn in Ep. by rewrite <-Ep.
Qed.

Lemma backupManaged_tells : tells dated_session (backupManaged_io order) (backupManaged order).
Proof using Type.
  intros s [Hs Hd H1 H2]. unfold backupManaged_io, backupManaged.
  destruct (backupImpl_tells (srcTree (tm s)) Hs order (mkDesk (dstTree (tm s)) (Some (meta1Tree (tm s))) (disk s) (cin s)))
    as [E [Hd' Hm']].
  { split; [done|]. by intros t [= <-]. }
  destruct (backupImpl_io _ _ _) as [[r d] l]. cbn in E. rewrite <-E in *. split; [done|]. split; try done. cbn.
  destruct (meta d) as [t|] eqn:Em; [exact (Hm' t Em)|done].
Qed.

Lemma backupScrubbed_tells dst hashAllFiles result :
  tells dated_session (backupScrubbed_io sha1 order absolute dst hashAllFiles result)
    (backupScrubbed sha1 order absolute dst hashAllFiles result).
Proof using Type.
  do 2 (apply tells_bind; [follow|]; intros _). apply tells_bind; [apply backupManaged_tells|]. intros r.
  apply tells_bind; [|intros _; follow]. destruct hashAllFiles; [follow|].
  assert (KeepsDates (bindToTopPath absolute dst)) by (by intros t).
  apply tells_say, tells_bind; [follow|]. intros _. apply tells_bind; [follow|]. intros s.
  apply tells_then_ret; [follow|]. intros []. by intros s'.
Qed.

Lemma backupBody_tells rounds dst fixup hashAllFiles :
  tells dated_session (backupBody_io sha1 order absolute rounds dst fixup hashAllFiles)
    (backupBody sha1 order absolute rounds dst fixup hashAllFiles).
Proof using Type.
  apply tells_say, tells_bind; [apply scrubImpl_tells|]. intros r.
  destruct (bool_decide (r = 1%Z)); [apply tells_bind; [follow|]; intros []; [apply backupScrubbed_tells|follow]|].
  destruct (bool_decide (r = 2%Z)); [follow|apply backupScrubbed_tells].
Qed.

Lemma scrub_says rounds dst m1 m2 fixup :
  says (scrub_io sha1 listing order absolute rounds dst m1 m2 fixup) (scrub sha1 listing order absolute rounds dst m1 m2 fixup).
Proof using Type.
  apply with_manager_says; [apply newManagerNoSource_tells| |apply scrubImpl_tells].
  intros fs inp t Hfs. by apply newManagerNoSource_dated.
Qed.

Lemma scrub_source_says rounds src dst m1 m2 fixup threads :
  says (scrub_source_io sha1 listing order absolute rounds src dst m1 m2 fixup threads)
    (scrub_source sha1 listing order absolute rounds src dst m1 m2 fixup threads).
Proof using Type.
  apply with_manager_says; [apply newManager_tells| |apply scrubImpl_tells]. intros fs inp t Hfs. by apply newManager_dated.
Qed.

Lemma backup_says rounds src dst m1 m2 fixup hashAllFiles threads :
  says (backup_io sha1 listing order absolute rounds src dst m1 m2 fixup hashAllFiles threads)
    (backup sha1 listing order absolute rounds src dst m1 m2 fixup hashAllFiles threads).
Proof using Type.
  apply with_manager_says; [apply newManager_tells| |apply backupBody_tells]. intros fs inp t Hfs. by apply newManager_dated.
Qed.

Lemma backup_plain_says src dst threads :
  says (backup_plain_io sha1 listing absolute order src dst threads) (backup_plain sha1 listing absolute order src dst threads).
Proof using Type.
  intros fs inp Hfs. unfold backup_plain_io, backup_plain. unfold mbind at 1, spoken_bind at 1, say. unfold mbind, spoken_bind.
  destruct (scan_both_tells src dst threads OmitHash (fs, inp)) as [E _]; [done|]. unfold read_env in E. cbn in E.
  destruct (scanSourceTargetDir_io _ _ _ _ _ _ _ _) as [[r env] l]. cbn in E. injection E as -> ->.
  destruct (scanSourceTargetDir sha1 listing absolute fs src dst threads OmitHash) as [[s d]|e] eqn:Es; [|done].
  apply (scan_both_dated fs Hfs) in Es as [Hs Hd]. unfold at_desk.
  destruct (backupImpl_tells s Hs order (mkDesk d None fs inp)) as [E _]; [by split|].
  destruct (backupImpl_io _ _ _) as [[r k] l']. cbn in E. by rewrite <-E.
Qed.

Lemma no_output_says p m : says p m -> says (no_output p) (silent m).
Proof using Type.
  intros Hp fs inp Hfs. unfold no_output, silent, mbind, spoken_bind, method_bind. rewrite <-(Hp fs inp Hfs).
  by destruct (p (fs, inp)) as [[[a|e] env] l].
Qed.

Lemma quiet_says {A} (m : method (FS * string) A) : says (quiet m) m.
Proof using Type. by intros fs inp _. Qed.

Lemma operations_say rounds name :
  match operations_io sha1 listing order absolute rounds name, operations sha1 listing order absolute rounds name with
  | Some c, Some c' => forall v, says (c v) (c' v)
  | None, None => True
  | _, _ => False
  end.
Proof using Type.
  unfold operations_io, operations. destruct (str_eqb name "ls"); [intros v; apply quiet_says|].
  destruct (str_eqb name "diff"); [intros v; apply quiet_says|]. destruct (str_eqb name "scrub").
  { intros v. unfold scrubCmd_io, scrubCmd. destruct (_ || _); [apply quiet_says|].
    destruct (o_source v), (o_target v), (o_input v) as [|? [|? [|? []]]]; try apply quiet_says;
      apply no_output_says; [apply scrub_source_says|apply scrub_says]. }
  destruct (str_eqb name "backup"); [|done]. intros v. unfold backupCmd_io, backupCmd. destruct (_ || _); [apply quiet_says|].
  destruct (o_source v), (o_target v), (o_input v) as [|? [|? [|? []]]]; try apply quiet_says;
    apply no_output_says; [apply backup_plain_says|apply backup_says].
Qed.

(** the exit code of a command *)
Definition exit_code (m : method (FS * string) (Z * string)) : method (FS * string) Z :=
  '(code, _) ← m; mret code.

(** the output file has the present time *)
Lemma write_file_dated err p text fs :
  dated_fs fs -> printable (clock fs) -> dated_fs (write_file absolute err p text fs).2.
Proof using Type.
  intros Hfs Hc. unfold write_file. destruct (inodes fs !! _) as [i|] eqn:Hi.
  - case_bool_decide; [|done]. unfold fs_update. rewrite Hi. by apply map_Forall_insert_2.
  - destruct (is_dir_loc _ _); [|done]. apply map_Forall_insert_2; [exact Hc|].
    intros l j. rewrite lookup_alter. case_decide; [|apply Hfs]. intros (j' & _ & ->)%fmap_Some_1. exact Hc.
Qed.

Definition says_now {A} (p : spoken (FS * string) A) (m : method (FS * string) A) : Prop :=
  forall fs inp, dated_fs fs -> printable (clock fs) -> (p (fs, inp)).1 = m (fs, inp).

Lemma redirect_says o p m : says p m -> says_now (redirect_io absolute o p) (exit_code (redirect absolute o m)).
Proof using Type.
  intros Hp fs inp Hfs Hc. unfold redirect_io, exit_code, redirect, mbind, method_bind, spoken_bind. destruct o as [f|].
  - destruct (file_exists absolute (fs, inp).1 f); [done|].
    destruct (on_files (write_file absolute (Throw "") f "") (fs, inp)) as [r [fs' inp']] eqn:Ew.
    pose proof (write_file_dated (Throw "") f "" fs Hfs Hc) as Hfs'. unfold on_files in Ew.
    destruct (write_file absolute (Throw "") f "" fs) as [r0 fs0]. injection Ew as -> -> ->. destruct r as [[]|e]; [|done].
    rewrite <-(Hp fs' inp' Hfs'). destruct (p (fs', inp')) as [[[[code out]|e] env] l]; [|done]. unfold quiet. cbn [fst].
    destruct (str_empty out); [done|]. by destruct (on_files (write_file absolute (Throw "") f out) env) as [[[]|e] e3].
  - rewrite <-(Hp fs inp Hfs). destruct (p (fs, inp)) as [[[[code out]|e] env] l]; [|done]. by destruct (str_empty out).
Qed.

Context (parser : list (string * semantic) -> list (string * Z) -> list string -> outcome variables_map).

Lemma main_parsed_says rounds v :
  says_now (main_parsed_io sha1 listing order absolute rounds v) (exit_code (main_parsed sha1 listing order absolute rounds v)).
Proof using Type.
  unfold main_parsed_io, main_parsed. destruct (o_command v) as [name|]; [|by intros fs inp _ _].
  apply redirect_says. pose proof (operations_say rounds name) as H.
  destruct (operations_io sha1 listing order absolute rounds name), (operations sha1 listing order absolute rounds name); try done.
Qed.

Lemma main_says rounds argv :
  says_now (main_io sha1 listing order absolute parser rounds argv) (exit_code (main sha1 listing order absolute parser rounds argv)).
Proof using Type.
  intros fs inp Hfs Hc. unfold main_io, main, exit_code, catch_exceptions. unfold mbind, method_bind, spoken_bind. cbn.
  destruct (parse parser argv) as [v|[]]; try done. pose proof (main_parsed_says rounds v fs inp Hfs Hc) as H.
  unfold exit_code, mbind, method_bind in H.
  destruct (main_parsed_io sha1 listing order absolute rounds v (fs, inp)) as [[r env1] l]. cbn in H.
  destruct (main_parsed sha1 listing order absolute rounds v (fs, inp)) as [[[code out]|e] env2]; injection H as -> ->; [done|].
  by destruct e.
Qed.
End commands.
