(* ===== verification/Dialogue.v ===== *)
(** * Questions and answers

    In the log of every function a question is a text that ends with [[y/n]], an
    answer is read right after a question and only there, and nothing is written
    while a question is open ([Polite]). Texts are shown not to be questions by
    their last characters. *)

From S2P Require Import Prelude CxxPath CxxTime CxxStream Element Node Tree TreeIO Diff FileSystem MetaFiles TreeFs Backup Scrub Commands Console BackupTalk ScrubTalk CommandsTalk.

(** ** The end of a text *)

Fixpoint starts (p l : list ascii) : bool :=
  match p, l with
  | [], _ => true
  | c :: p', d :: l' => bool_decide (c = d) && starts p' l'
  | _, [] => false
  end.

Fixpoint clash (p l : list ascii) : bool :=
  match p, l with
  | c :: p', d :: l' => negb (bool_decide (c = d)) || clash p' l'
  | _, _ => false
  end.

Definition backwards (t : string) : list ascii := reverse (String.list_ascii_of_string t).

(** a question *)
Definition asks (t : string) : bool := starts (backwards (line "[y/n]")) (backwards t).

(** a text that is none, whatever is before it *)
Definition calm (t : string) : bool := clash (backwards (line "[y/n]")) (backwards t).

Lemma backwards_app s t : backwards (s +:+ t) = backwards t ++ backwards s.
Proof. unfold backwards. by rewrite list_ascii_app, reverse_app. Qed.

Lemma clash_app p l k : clash p l = true -> clash p (l ++ k) = true.
Proof. revert l. induction p as [|c p IH]; intros [|d l]; cbn; try done. destruct (bool_decide _); cbn; auto. Qed.

Lemma clash_starts p l : clash p l = true -> starts p l = false.
Proof. revert l. induction p as [|c p IH]; intros [|d l]; cbn; try done. destruct (bool_decide _); cbn; auto. Qed.

Lemma starts_app p l k : starts p l = true -> starts p (l ++ k) = true.
Proof. revert l. induction p as [|c p IH]; intros [|d l]; cbn; try done. destruct (bool_decide _); cbn; auto. Qed.

Lemma calm_app s t : calm t = true -> calm (s +:+ t) = true.
Proof. unfold calm. rewrite backwards_app. apply clash_app. Qed.

Lemma calm_asks t : calm t = true -> asks t = false.
Proof. apply clash_starts. Qed.

Lemma asks_app s t : asks t = true -> asks (s +:+ t) = true.
Proof. unfold asks. rewrite backwards_app. apply starts_app. Qed.

(** ** Logs *)

(** [open_] says if a question is open; [None] is an answer without question or a
    text in between *)
Fixpoint dialogue (open_ : bool) (log : list event) : option bool :=
  match log with
  | [] => Some open_
  | wrote t :: log' => if open_ then None else dialogue (asks t) log'
  | got _ :: log' => if open_ then dialogue false log' else None
  end.

Lemma dialogue_app o l k : dialogue o (l ++ k) = (o' ← dialogue o l; dialogue o' k).
Proof.
  revert o. induction l as [|e l IH]; intros o; [done|]. destruct e; cbn; destruct o; cbn; try done; apply IH.
Qed.

(** an answer follows a question *)
Lemma dialogue_got o log o' l b k :
  dialogue o log = Some o' -> log = l ++ got b :: k ->
  (l = [] /\ o = true) \/ exists l' t, l = l' ++ [wrote t] /\ asks t = true.
Proof.
  revert o log. induction l as [|e l IH]; intros o log H ->; cbn [app dialogue] in H.
  - left. by destruct o.
  - right. destruct e as [t|b']; destruct o; try done.
    + destruct (IH _ _ H eq_refl) as [[-> Ht]|(l' & u & -> & Hu)]; [by exists [], t|]. by exists (wrote t :: l'), u.
    + destruct (IH _ _ H eq_refl) as [[_ [=]]|(l' & u & -> & Hu)]. by exists (got b' :: l'), u.
Qed.

(** and a question is followed by an answer *)
Lemma dialogue_asked o log o' l t k :
  dialogue o log = Some o' -> log = l ++ wrote t :: k -> asks t = true ->
  (exists b k', k = got b :: k') \/ k = [] /\ o' = true.
Proof.
  intros H -> Ht. rewrite dialogue_app in H. destruct (dialogue o l) as [o1|]; [|done]. cbn in H.
  destruct o1; [done|]. rewrite Ht in H. destruct k as [|[u|b] k]; [|done|by eauto]. injection H as <-. auto.
Qed.

(** only a program that waits forever leaves a question open *)
Class Polite {S A} (p : spoken S A) :=
  polite s : exists o, dialogue false (p s).2 = Some o /\ (o = true -> (p s).1.1 = Err Hangs).

Section polite.
Context {S : Type}.

#[global] Instance polite_ret {A} (a : A) : Polite (mret a : spoken S A).
Proof. intros s. by exists false. Qed.

#[global] Instance polite_quiet {A} (m : method S A) : Polite (quiet m).
Proof. intros s. by exists false. Qed.

Lemma polite_say t : asks t = false -> Polite (say t : spoken S unit).
Proof. intros Ht s. exists false. cbn. by rewrite Ht. Qed.

Lemma polite_print r : (forall t, r = Ok t -> asks t = false) -> Polite (print r : spoken S unit).
Proof. intros Hr. destruct r as [t|e]; [by apply polite_say, Hr|]. intros s. by exists false. Qed.

#[global] Instance polite_bind {A B} (p : spoken S A) (k : A -> spoken S B) :
  Polite p -> (forall a, Polite (k a)) -> Polite (p ≫= k).
Proof.
  intros Hp Hk s. destruct (Hp s) as (o & Ho & Hh). unfold mbind, spoken_bind.
  destruct (p s) as [[[a|e] s'] l]; cbn in *.
  2:{ exists o. split; [done|]. intros Hw. by injection (Hh Hw) as ->. }
  destruct o; [by discriminate (Hh eq_refl)|]. destruct (Hk a s') as (o' & Ho' & Hh'). exists o'.
  destruct (k a s') as [[r s''] l']; cbn in *. by rewrite dialogue_app, Ho.
Qed.

(** a question that is answered *)
Lemma polite_question t (m : method S bool) :
  (forall s e, (m s).1 = Err e -> e = Hangs) -> asks t = true -> Polite (_ ← say t; answered m).
Proof.
  intros Hm Ht s. unfold mbind, spoken_bind, say, answered. cbn. rewrite Ht. destruct (m s) as [[b|e] s'] eqn:E; cbn.
  - by exists false.
  - exists true. split; [done|]. intros _. f_equal. apply (Hm s). by rewrite E.
Qed.

Lemma polite_print_question {A} r (m : method S bool) (k : bool -> spoken S A) :
  (forall s e, (m s).1 = Err e -> e = Hangs) -> (forall t, r = Ok t -> asks t = true) -> (forall b, Polite (k b)) ->
  Polite (_ ← print r; b ← answered m; k b).
Proof.
  intros Hm Hr Hk. destruct r as [t|e]; [|intros s; by exists false].
  assert (Hq : Polite (b ← (_ ← say t; answered m); k b)) by (apply polite_bind; [by apply polite_question; auto|done]).
  intros s. destruct (Hq s) as (o & Ho & Hh). exists o. revert Ho Hh. unfold mbind, spoken_bind, print, say, answered.
  destruct (m s) as [[b|e] s']; cbn; [|done]. by destruct (k b s').
Qed.

#[global] Instance polite_handler {A} h (p : spoken S A) :
  (forall what, asks (h what) = false) -> Polite p -> Polite (on_exception h p).
Proof.
  intros Hh Hp s. destruct (Hp s) as (o & Ho & Hw). unfold on_exception.
  destruct (p s) as [[[a|[what| | | | |]] s'] l]; cbn in *; try (by eauto). destruct o; [by discriminate (Hw eq_refl)|].
  exists false. cbn. rewrite dialogue_app, Ho. cbn. by rewrite Hh.
Qed.
End polite.

Lemma askYesNo_err s e : (askYesNo s).1 = Err e -> e = Hangs.
Proof. unfold askYesNo. destruct (read_answer s) as [[]|]; [done|]. by intros [= <-]. Qed.

Lemma ask_user_err s e : (ask_user s).1 = Err e -> e = Hangs.
Proof. unfold ask_user. pose proof (askYesNo_err (cin s) e). by destruct (askYesNo (cin s)). Qed.

Lemma ask_err s e : (ask s).1 = Err e -> e = Hangs.
Proof. unfold ask. pose proof (askYesNo_err (input s) e). by destruct (askYesNo (input s)). Qed.

(** instances are found by the name of the function *)
#[export] Hint Opaque question unless_refused bitrot_or_question say_when backupLine_io backupLines_io backupImpl_io
  tryToFixBackupEntry_io scrubLine_io scrubLines_io scrubRounds_io scrubImpl_io saveMetadata_io leave_scope_io in_session
  at_desk reading loadMetadataFiles_io scanSourceTargetDir_io newManager_io backupManaged_io backupScrubbed_io backupBody_io
  scrub_io scrub_source_io backup_io backup_plain_io quiet say print on_exception : typeclass_instances.

#[global] Instance polite_session_question t : Polite (question t).
Proof. apply polite_question; [apply ask_user_err|]. unfold line. rewrite app_assoc_str. by apply asks_app. Qed.

(** ** Texts that are no questions *)

Lemma polite_line3 {S} d t : calm t = true -> Polite (print_line3 d t : spoken S unit).
Proof.
  intros Ht. apply polite_print. intros u (x & _ & [= <-])%bind_ok. by apply calm_asks, calm_app.
Qed.

Lemma polite_element {S} b e a : calm a = true -> Polite (print_element b e a : spoken S unit).
Proof.
  intros Ha. apply polite_print. intros u (x & _ & [= <-])%bind_ok. by apply calm_asks, calm_app, calm_app.
Qed.

(** a path ends with a quote *)
Lemma calm_path s : calm (put_path s +:+ newline) = true.
Proof.
  unfold put_path. change (String dquote (escape s +:+ String dquote "")) with (String dquote (escape s) +:+ String dquote "").
  rewrite app_assoc_str. apply calm_app. vm_compute. reflexivity.
Qed.

(** drops what is before the last constant part of a text *)
Ltac calm_end :=
  rewrite ?app_assoc_str; repeat (match goal with |- calm (_ +:+ (_ +:+ _)) = true => apply calm_app end);
  first [apply calm_path | vm_compute; reflexivity].

Create HintDb texts.
#[export] Hint Unfold line named no_source looking_for not_found found_matching removed replacing cannot_load backing_up
  scrubbing : texts.

#[export] Hint Extern 1 (Polite (say _)) =>
  apply polite_say; first [apply calm_asks; autounfold with texts; calm_end | vm_compute; reflexivity] : typeclass_instances.
#[export] Hint Extern 1 (Polite (print_line3 _ _)) => apply polite_line3; vm_compute; reflexivity : typeclass_instances.
#[export] Hint Extern 1 (Polite (print_element _ _ _)) =>
  apply polite_element; autounfold with texts; calm_end : typeclass_instances.
#[export] Hint Extern 1 (Polite (match ?x with _ => _ end)) => destruct x : typeclass_instances.

#[global] Instance polite_say_when b t : Polite (say t : session_talk unit) -> Polite (say_when b t).
Proof. intros. destruct b; [done|apply polite_ret]. Qed.
#[global] Instance polite_unless {A} b (fail : A) p : Polite p -> Polite (unless_refused b fail p).
Proof. intros. destruct b; [done|apply polite_ret]. Qed.
#[global] Instance polite_bitrot b t : Polite (bitrot_or_question b t).
Proof. destruct b; [apply polite_ret|apply polite_session_question]. Qed.
#[global] Instance polite_reading {A} (f : FS -> outcome A) : Polite (reading f).
Proof. intros s. by exists false. Qed.

(** ** The functions *)

#[global] Instance polite_backupLine src d : Polite (backupLine_io src d).
Proof.
  destruct d as [[x|] [y|]]; cbn [backupLine_io]; try apply _.
  destruct (compare x y (content_opt x y)); [apply _|]. destruct (compare x y metadata_opt); [apply _|].
  apply polite_bind; [|apply _]. destruct (_ <? _)%Z; [|apply _].
  apply polite_print_question; [apply ask_err| |apply _].
  intros u (l & _ & [= <-])%bind_ok. do 2 apply asks_app. vm_compute. reflexivity.
Qed.

#[global] Instance polite_backupLines src diff b : Polite (backupLines_io src diff b).
Proof. revert b. induction diff as [|d diff IH]; intros b; cbn [backupLines_io]; apply _. Qed.

Lemma polite_verdict {S} b : Polite (say (backup_verdict b) : spoken S unit).
Proof. destruct b; apply _. Qed.
#[export] Hint Extern 0 (Polite (say (backup_verdict _))) => apply polite_verdict : typeclass_instances.

#[global] Instance polite_backupImpl order src : Polite (backupImpl_io order src).
Proof. unfold backupImpl_io. apply _. Qed.

#[global] Instance polite_tryToFix src d : Polite (tryToFixBackupEntry_io src d).
Proof.
  destruct d as [[d0 d1] d2].
  unfold tryToFixBackupEntry_io, fixMissing_io, fixExtra_io, fixContent_io, fixFromSource_io, say_other_found. apply _.
Qed.

#[global] Instance polite_scrubLine fixup d f : Polite (scrubLine_io fixup d f).
Proof. destruct d as [[d0 d1] d2]. unfold scrubLine_io. apply _. Qed.

#[global] Instance polite_scrubLines fixup diff f : Polite (scrubLines_io fixup diff f).
Proof. revert f. induction diff as [|d diff IH]; intros f; cbn [scrubLines_io]; apply _. Qed.

#[global] Instance polite_scrubRounds order rounds fixup diff f : Polite (scrubRounds_io order rounds fixup diff f).
Proof. revert diff f. induction rounds as [|rounds IH]; intros diff f; cbn [scrubRounds_io]; apply _. Qed.

#[global] Instance polite_scrubImpl order rounds fixup : Polite (scrubImpl_io order rounds fixup).
Proof. unfold scrubImpl_io, conclude_scrub. apply _. Qed.

#[global] Instance polite_saveMetadata absolute : Polite (saveMetadata_io absolute).
Proof. unfold saveMetadata_io. apply _. Qed.

#[global] Instance polite_leave_scope {A} absolute (p : session_talk A) : Polite p -> Polite (leave_scope_io absolute p).
Proof.
  intros Hp s. destruct (Hp s) as (o & Ho & Hh). unfold leave_scope_io. destruct (p s) as [[r s1] l]. cbn in Ho, Hh.
  destruct (polite (p := saveMetadata_io absolute) s1) as (o' & Ho' & Hh').
  destruct (saveMetadata_io absolute s1) as [[rs s2] l']. cbn in Ho', Hh'.
  assert (Hend : o = false -> dialogue false (l ++ l') = Some o') by (intros ->; by rewrite dialogue_app, Ho).
  destruct r as [a|[]]; cbn; try (by eauto); destruct o; try (by discriminate (Hh eq_refl));
    destruct rs as [[]|[]]; exists o'; (split; [by apply Hend|]); intros Hw; first [done|discriminate (Hh' Hw)].
Qed.

Section commands.
Context (sha1 : string -> string) (listing order : gset string -> list string) (absolute : path -> path).

#[global] Instance polite_in_session {A} m (p : session_talk A) : Polite p -> Polite (in_session absolute m p).
Proof using Type.
  intros Hp [fs inp]. unfold in_session. destruct (polite_leave_scope absolute p Hp (mkSession m fs inp)) as (o & Ho & Hh).
  destruct (leave_scope_io absolute p _) as [[r s] l]. by exists o.
Qed.

#[global] Instance polite_at_desk {A} t (p : desk_talk A) : Polite p -> Polite (at_desk t p).
Proof using Type.
  intros Hp [fs inp]. unfold at_desk. destruct (Hp (mkDesk t None fs inp)) as (o & Ho & Hh).
  destruct (p _) as [[r s] l]. by exists o.
Qed.

#[global] Instance polite_load m1 m2 : Polite (loadMetadataFiles_io absolute m1 m2).
Proof using Type.
  unfold loadMetadataFiles_io. apply polite_handler; [|apply _]. intros what. apply calm_asks. autounfold with texts. calm_end.
Qed.

#[global] Instance polite_scan src dst threads opt : Polite (scanSourceTargetDir_io sha1 listing absolute src dst threads opt).
Proof using Type. unfold scanSourceTargetDir_io. apply _. Qed.

#[global] Instance polite_manager src dst m1 m2 opt threads : Polite (newManager_io sha1 listing absolute src dst m1 m2 opt threads).
Proof using Type. unfold newManager_io. apply _. Qed.

#[global] Instance polite_managed : Polite (backupManaged_io order).
Proof using Type.
  intros s. unfold backupManaged_io.
  destruct (polite_backupImpl order (srcTree (tm s)) (mkDesk (dstTree (tm s)) (Some (meta1Tree (tm s))) (disk s) (cin s)))
    as (o & Ho & Hh). destruct (backupImpl_io _ _ _) as [[r d] l]. by exists o.
Qed.

Lemma polite_hashes {A} (p : session_talk A) : Polite p -> Polite (on_exception (fun _ => hashes_missing) p).
Proof using Type. apply polite_handler. intros _. vm_compute. reflexivity. Qed.
#[local] Hint Extern 0 (Polite (on_exception (fun _ => hashes_missing) _)) => apply polite_hashes : typeclass_instances.

#[global] Instance polite_scrubbed dst h r : Polite (backupScrubbed_io sha1 order absolute dst h r).
Proof using Type. unfold backupScrubbed_io. apply _. Qed.

#[global] Instance polite_body rounds dst fixup h : Polite (backupBody_io sha1 order absolute rounds dst fixup h).
Proof using Type. unfold backupBody_io. apply _. Qed.

#[global] Instance polite_scrub rounds dst m1 m2 fixup : Polite (scrub_io sha1 listing order absolute rounds dst m1 m2 fixup).
Proof using Type. unfold scrub_io, newManagerNoSource_io. apply _. Qed.

#[global] Instance polite_scrub_source rounds src dst m1 m2 fixup threads :
  Polite (scrub_source_io sha1 listing order absolute rounds src dst m1 m2 fixup threads).
Proof using Type. unfold scrub_source_io. apply _. Qed.

#[global] Instance polite_backup rounds src dst m1 m2 fixup h threads :
  Polite (backup_io sha1 listing order absolute rounds src dst m1 m2 fixup h threads).
Proof using Type. unfold backup_io. apply _. Qed.

#[global] Instance polite_backup_plain src dst threads :
  Polite (backup_plain_io sha1 listing absolute order src dst threads).
Proof using Type. unfold backup_plain_io. apply _. Qed.
End commands.
