(* ===== verification/Announce.v ===== *)
(** * Nothing disappears unannounced

    A file that exists keeps its content through every step of a scrub and a
    backup, unless it is at or below a path that was written to the terminal
    before ([Announces]). This holds for any trees and any files, as long as the
    backup tree is bound to its directory. *)

From S2P Require Import Prelude CxxPath CxxTime CxxStream Element Node Tree TreeIO Diff FileSystem MetaFiles TreeFs FsData Backup Scrub Commands Console BackupTalk ScrubTalk CommandsTalk.

(** a text with a path in it *)
Definition mentions (t : string) (q : path) : Prop := exists a b, t = a +:+ put_path q +:+ b.

(** the paths of a log *)
Definition announced (log : list event) (q : path) : Prop := exists t, wrote t ∈ log /\ mentions t q.

(** not at or below one of the paths [Q] in the directory [top] *)
Definition untold (top : path) (Q : path -> Prop) (l : location) : Prop :=
  forall q, Q q -> ~ locate (top // q) `prefix_of` l.

Lemma untold_weaken top (Q Q' : path -> Prop) l : (forall q, Q' q -> Q q) -> untold top Q l -> untold top Q' l.
Proof. intros H Hl q Hq. auto. Qed.

Lemma content_kept_weaken (D D' : location -> Prop) fs fs' :
  (forall l, D' l -> D l) -> content_kept D fs fs' -> content_kept D' fs fs'.
Proof. intros H Hk l i Hl. apply Hk. auto. Qed.

Lemma announced_app l k q : announced (l ++ k) q <-> announced l q \/ announced k q.
Proof. unfold announced. setoid_rewrite elem_of_app. naive_solver. Qed.

(** ** States with a backup tree and files *)

Class Bound (S : Type) := { tree_of : S -> DirectoryTree; files_of : S -> FS }.
#[global] Instance bound_desk : Bound Desk := {| tree_of := dst; files_of := files |}.
#[global] Instance bound_session : Bound Session := {| tree_of s := dstTree (tm s); files_of := disk |}.

Section announces.
Context {S : Type} `{!Bound S}.

(** content is kept, where [Q] are the paths announced before *)
Definition kept_through (Q : path -> Prop) (log : list event) (s s' : S) : Prop :=
  forall top, topPath (tree_of s) = Some top ->
    topPath (tree_of s') = Some top /\
    content_kept (untold top (fun q => Q q \/ announced log q)) (files_of s) (files_of s').

Class Announces {A} (Q : path -> Prop) (p : spoken S A) :=
  announces s : kept_through Q (p s).2 s (p s).1.2.

(** a step without a message *)
Class Cautious {A} (Q : path -> Prop) (m : method S A) :=
  cautious s : kept_through Q [] s (m s).2.

Lemma through_refl Q log s : kept_through Q log s s.
Proof using Type. intros top Ht. split; [done|reflexivity]. Qed.

Lemma through_trans Q Q' l k s1 s2 s3 :
  (forall q, Q' q -> Q q \/ announced l q) ->
  kept_through Q l s1 s2 -> kept_through Q' k s2 s3 -> kept_through Q (l ++ k) s1 s3.
Proof using Type.
  intros HQ H1 H2 top Ht. destruct (H1 top Ht) as [Ht2 K1]. destruct (H2 top Ht2) as [Ht3 K2]. split; [done|].
  etrans; (eapply content_kept_weaken; [|done]); intros i Hi; (eapply untold_weaken; [|exact Hi]); intros q Hq; cbn;
    rewrite announced_app; naive_solver.
Qed.

#[global] Instance announces_quiet {A} Q (m : method S A) : Cautious Q m -> Announces Q (quiet m).
Proof using Type. intros Hm s. exact (Hm s). Qed.

#[global] Instance announces_ret {A} Q (a : A) : Announces Q (mret a).
Proof using Type. intros s. apply through_refl. Qed.

#[global] Instance announces_say Q t : Announces Q (say t).
Proof using Type. intros s. apply through_refl. Qed.

#[global] Instance announces_print Q r : Announces Q (print r).
Proof using Type. intros s. destruct r; apply through_refl. Qed.

#[global] Instance announces_bind {A B} Q (p : spoken S A) (k : A -> spoken S B) :
  Announces Q p -> (forall a, Announces Q (k a)) -> Announces Q (p ≫= k).
Proof using Type.
  intros Hp Hk s. specialize (Hp s). unfold mbind, spoken_bind. destruct (p s) as [[[a|e] s'] l]; [|done].
  specialize (Hk a s'). destruct (k a s') as [[r s''] l']. eapply through_trans; [|exact Hp|exact Hk]. auto.
Qed.

(** what is said counts for all that follows *)
Lemma announces_after {B} Q t q (k : unit -> spoken S B) :
  mentions t q -> Announces (fun p => Q p \/ p = q) (k tt) -> Announces Q (say t ≫= k).
Proof using Type.
  intros Ht Hk s. specialize (Hk s). unfold mbind, spoken_bind, say. destruct (k tt s) as [[r s''] l'].
  eapply (through_trans Q _ [wrote t]); [|apply through_refl|exact Hk]. intros p [?| ->]; [by left|]. right.
  exists t. split; [apply list_elem_of_here|done].
Qed.

#[global] Instance announces_handler {A} Q h (p : spoken S A) : Announces Q p -> Announces Q (on_exception h p).
Proof using Type.
  intros Hp s. specialize (Hp s). unfold on_exception.
  destruct (p s) as [[[a|[what| | | | |]] s'] l]; cbn in *; try done.
  apply (through_trans Q Q l _ s s'); [auto|done|apply through_refl].
Qed.

#[global] Instance cautious_ret {A} Q (a : A) : Cautious Q (mret a).
Proof using Type. intros s. apply through_refl. Qed.

#[global] Instance cautious_lift {A} Q (r : outcome A) : Cautious Q (lift_outcome r).
Proof using Type. intros s. apply through_refl. Qed.

#[global] Instance cautious_get Q : Cautious Q get_state.
Proof using Type. intros s. apply through_refl. Qed.

#[global] Instance cautious_bind {A B} Q (m : method S A) (k : A -> method S B) :
  Cautious Q m -> (forall a, Cautious Q (k a)) -> Cautious Q (m ≫= k).
Proof using Type.
  intros Hm Hk s. specialize (Hm s). unfold mbind, method_bind. destruct (m s) as [[a|e] s']; [|done].
  specialize (Hk a s'). apply (through_trans Q Q [] [] s s'); [auto|done|done].
Qed.
End announces.

(** ** Steps on the backup directory *)

(** an operation that spares all files *)
Class Harmless {A} (m : world_method A) := {
  h_spares : forall D, Spares D m;
  h_bound : StaysBound m }.

(** a method of tree and files as a method of the whole state *)
Definition lifts {S} `{!Bound S} {A} (m : world_method A) (m' : method S A) : Prop :=
  forall s, (m (tree_of s, files_of s)).2 = (tree_of (m' s).2, files_of (m' s).2).

Section steps.
Context {S : Type} `{!Bound S}.

Lemma lifted_harmless {A} Q (m : world_method A) (m' : method S A) : lifts m m' -> Harmless m -> Cautious Q m'.
Proof using Type.
  intros E [Hs Hb] s top Ht. specialize (Hb (tree_of s, files_of s)).
  specialize (Hs (untold top (fun q => Q q \/ announced [] q)) (tree_of s, files_of s)).
  rewrite E in Hs, Hb. cbn in Hb, Hs. rewrite Hb. by split.
Qed.

Lemma lifted_remove (Q : path -> Prop) q (m' : method S Z) :
  lifts (removeFromTreeAndFilesystem q) m' -> Q q -> Cautious Q m'.
Proof using Type.
  intros E Hq s top Ht.
  assert (Hb : StaysBound (removeFromTreeAndFilesystem q)) by (unfold removeFromTreeAndFilesystem; apply _).
  specialize (Hb (tree_of s, files_of s)).
  pose proof (remove_kept (untold top (fun q => Q q \/ announced [] q)) q (tree_of s) (files_of s) top Ht) as Hk.
  rewrite E in Hk, Hb. cbn in Hb, Hk. rewrite Hb. split; [done|]. apply Hk. intros l Hl. by apply Hl; left.
Qed.

(** a method that leaves both alone *)
Lemma elsewhere {A} Q (m : method S A) :
  (forall s, tree_of (m s).2 = tree_of s /\ files_of (m s).2 = files_of s) -> Cautious Q m.
Proof using Type. intros H s top Ht. destruct (H s) as [-> ->]. split; [done|reflexivity]. Qed.

#[global] Instance announces_answered Q (m : method S bool) : Cautious Q m -> Announces Q (answered m).
Proof using Type.
  intros Hm s top Ht. destruct (Hm s top Ht) as [Ht' Hk]. split; [done|]. eapply content_kept_weaken; [|exact Hk].
  intros l Hl. eapply untold_weaken; [|exact Hl]. intros q [Hq|(t & H & _)]; [by left|]. by apply not_elem_of_nil in H.
Qed.
End steps.

#[global] Instance harmless_copy s sp dp : Harmless (copyFromTreeAndFilesystem s sp dp).
Proof. split; [apply _|]. exact (stays_bound_change (ch_copy s sp dp)). Qed.
#[global] Instance harmless_symlink e : Harmless (addSymlinkToTreeAndFilesystem e).
Proof. split; [apply _|]. exact (stays_bound_change (ch_symlink e)). Qed.
#[global] Instance harmless_permissions p perm : Harmless (modifyPermissionsInTreeAndFilesystem p perm).
Proof. split; [apply _|]. exact (stays_bound_change (ch_permissions p perm)). Qed.
#[global] Instance harmless_owner p u g : Harmless (modifyOwnerInTreeAndFilesystem p u g).
Proof. split; [apply _|]. exact (stays_bound_change (ch_owner p u g)). Qed.
#[global] Instance harmless_mtime p t : Harmless (modifyMtimeInTreeAndFilesystem p t).
Proof. split; [apply _|]. exact (stays_bound_change (ch_mtime p t)). Qed.

Lemma in_dst_lifts {A} (m : world_method A) : lifts m (in_dst m).
Proof. intros s. unfold in_dst. cbn. by destruct (m _) as [r [t fs]]. Qed.
Lemma on_dst_lifts {A} (m : world_method A) : lifts m (on_dst m).
Proof. intros s. unfold on_dst. cbn. by destruct (m _) as [r [t fs]]. Qed.

#[global] Instance cautious_in_dst {A} Q (m : world_method A) : Harmless m -> Cautious Q (in_dst m).
Proof. apply lifted_harmless, in_dst_lifts. Qed.
#[global] Instance cautious_on_dst {A} Q (m : world_method A) : Harmless m -> Cautious Q (on_dst m).
Proof. apply lifted_harmless, on_dst_lifts. Qed.

(** the metadata trees, the flags and the standard input *)
#[global] Instance cautious_in_meta1 {A} Q (m : tree_method A) : Cautious Q (in_meta1 m).
Proof. apply elsewhere. intros s. unfold in_meta1. by destruct (m _). Qed.
#[global] Instance cautious_in_meta2 {A} Q (m : tree_method A) : Cautious Q (in_meta2 m).
Proof. apply elsewhere. intros s. unfold in_meta2. by destruct (m _). Qed.
#[global] Instance cautious_on_meta Q (m : tree_method unit) : Cautious Q (on_meta m).
Proof. apply elsewhere. intros s. unfold on_meta. destruct (meta s) as [t|]; [|done]. by destruct (m t). Qed.
#[global] Instance cautious_ask_user Q : Cautious Q ask_user.
Proof. apply elsewhere. intros s. unfold ask_user. by destruct (askYesNo _). Qed.
#[global] Instance cautious_ask Q : Cautious Q ask.
Proof. apply elsewhere. intros s. unfold ask. by destruct (askYesNo _). Qed.
#[global] Instance cautious_check Q : Cautious Q checkMeta2Tree.
Proof. by apply elsewhere. Qed.

(** ** Paths in texts *)

Lemma mentions_path q : mentions (put_path q) q.
Proof. exists "", "". by rewrite app_nil_l_str, app_nil_r_str. Qed.

Lemma mentions_after s t q : mentions t q -> mentions (s +:+ t) q.
Proof. intros (a & b & ->). exists (s +:+ a), b. by rewrite app_assoc_str. Qed.

Lemma mentions_before s t q : mentions s q -> mentions (s +:+ t) q.
Proof. intros (a & b & ->). exists a, (b +:+ t). by rewrite !app_assoc_str. Qed.

Create HintDb mention.
#[export] Hint Resolve mentions_path | 0 : mention.
#[export] Hint Resolve mentions_before mentions_after | 1 : mention.
#[export] Hint Unfold line named : mention.

Ltac mention := autounfold with mention; typeclasses eauto 20 with nocore mention.

(** ** The functions *)

#[export] Hint Extern 0 (Cautious _ (in_dst (removeFromTreeAndFilesystem _))) =>
  eapply lifted_remove; [apply in_dst_lifts|cbv beta; tauto] : typeclass_instances.
#[export] Hint Extern 0 (Cautious _ (on_dst (removeFromTreeAndFilesystem _))) =>
  eapply lifted_remove; [apply on_dst_lifts|cbv beta; tauto] : typeclass_instances.
#[export] Hint Extern 1 (Cautious _ (match ?x with _ => _ end)) => destruct x : typeclass_instances.
#[export] Hint Extern 1 (Announces _ (match ?x with _ => _ end)) => destruct x : typeclass_instances.
#[export] Hint Opaque question unless_refused bitrot_or_question say_when backupLine_io backupLines_io backupImpl_io
  fixMissing_io fixExtra_io fixContent_io fixFromSource_io say_other_found print_line2 print_line3 print_element
  tryToFixBackupEntry_io scrubLine_io scrubLines_io scrubRounds_io scrubImpl_io backupManaged_io backupScrubbed_io backupBody_io
  quiet say print answered on_exception updateBackup updateMetadata take_over_in_metadata when : typeclass_instances.

#[global] Instance cautious_when Q b m : Cautious Q m -> Cautious Q (when b m).
Proof. intros. destruct b; [done|apply cautious_ret]. Qed.
#[global] Instance cautious_updateMetadata Q x y : Cautious Q (updateMetadata x y).
Proof. unfold updateMetadata. apply _. Qed.
#[global] Instance cautious_updateBackup Q p x y : Cautious Q (updateBackup p x y).
Proof. unfold updateBackup. apply _. Qed.
#[global] Instance cautious_take_over Q s p : Cautious Q (take_over_in_metadata s p).
Proof. unfold take_over_in_metadata. apply _. Qed.

#[global] Instance announces_line2 {S} `{!Bound S} Q d t : Announces Q (print_line2 d t : spoken S unit).
Proof. apply announces_print. Qed.
#[global] Instance announces_line3 {S} `{!Bound S} Q d t : Announces Q (print_line3 d t : spoken S unit).
Proof. apply announces_print. Qed.
#[global] Instance announces_other Q e t : Announces Q (say_other_found e t).
Proof. apply announces_print. Qed.
#[global] Instance announces_say_when Q b t : Announces Q (say_when b t).
Proof. destruct b; [apply announces_say|apply announces_ret]. Qed.
#[global] Instance announces_question Q t : Announces Q (question t).
Proof. unfold question. apply _. Qed.
#[global] Instance announces_bitrot Q b t : Announces Q (bitrot_or_question b t).
Proof. destruct b; [apply announces_ret|apply announces_question]. Qed.
#[global] Instance announces_unless {A} Q b (fail : A) p : Announces Q p -> Announces Q (unless_refused b fail p).
Proof. intros. destruct b; [done|apply announces_ret]. Qed.

#[global] Instance announces_backupLine Q src d : Announces Q (backupLine_io src d).
Proof.
  destruct d as [[x|] [y|]]; cbn [backupLine_io]; try apply _.
  - destruct (compare x y (content_opt x y)); [apply _|]. destruct (compare x y metadata_opt); [apply _|].
    apply announces_bind; [apply _|]. intros [|]; [|apply _]. apply announces_bind; [|apply _].
    apply (announces_after _ _ (rp x)); [mention|]. unfold replaceEntry. apply _.
  - apply (announces_after _ _ (rp y)); [mention|]. apply _.
Qed.

#[global] Instance announces_backupLines Q src diff b : Announces Q (backupLines_io src diff b).
Proof. revert b. induction diff as [|d diff IH]; intros b; cbn [backupLines_io]; apply _. Qed.

#[global] Instance announces_backupImpl Q order src : Announces Q (backupImpl_io order src).
Proof. unfold backupImpl_io. apply _. Qed.

#[global] Instance announces_fixMissing Q src e : Announces Q (fixMissing_io src e).
Proof. unfold fixMissing_io. apply _. Qed.

#[global] Instance announces_fixContent (Q : path -> Prop) src x e : Q (rp e) -> Announces Q (fixContent_io src x e).
Proof. intros Hq. unfold fixContent_io, fixFromSource_io. apply _. Qed.

Lemma announces_after_question {A} Q t q (k : bool -> session_talk A) :
  mentions t q -> (forall b, Announces (fun p => Q p \/ p = q) (k b)) -> Announces Q (question t ≫= k).
Proof.
  intros Ht Hk. assert (Ha : Announces Q (_ ← say (line (t +:+ " [y/n]")); b ← answered ask_user; k b)).
  { apply (announces_after _ _ q); [do 2 apply mentions_before; exact Ht|apply _]. }
  intros s. specialize (Ha s). revert Ha. unfold question, mbind, spoken_bind, say, answered.
  destruct (ask_user s) as [[b|e] s']; cbn; [|done]. by destruct (k b s').
Qed.

#[global] Instance announces_fixExtra Q e : Announces Q (fixExtra_io e).
Proof. apply (announces_after_question _ _ (rp e)); [mention|]. intros b. apply _. Qed.

#[global] Instance announces_tryToFix Q src d : Announces Q (tryToFixBackupEntry_io src d).
Proof.
  destruct d as [[[x|] [e|]] d2]; cbn [tryToFixBackupEntry_io]; try apply _.
  apply announces_bind; [apply _|]. intros _. apply (announces_after _ _ (rp e)); [mention|].
  destruct (compare x e content_only); [apply _|]. apply announces_fixContent. by right.
Qed.

#[global] Instance announces_scrubLine Q fixup d f : Announces Q (scrubLine_io fixup d f).
Proof. destruct d as [[d0 d1] d2]. unfold scrubLine_io. apply _. Qed.

#[global] Instance announces_scrubLines Q fixup diff f : Announces Q (scrubLines_io fixup diff f).
Proof. revert f. induction diff as [|d diff IH]; intros f; cbn [scrubLines_io]; apply _. Qed.

#[global] Instance cautious_compare Q order : Cautious Q (compareTrees order).
Proof. unfold compareTrees. apply _. Qed.

#[global] Instance announces_scrubRounds Q order rounds fixup diff f : Announces Q (scrubRounds_io order rounds fixup diff f).
Proof. revert diff f. induction rounds as [|rounds IH]; intros diff f; cbn [scrubRounds_io]; apply _. Qed.

(** flags of the manager, that leave the trees alone *)
Lemma cautious_flag Q (f : TreeManager -> TreeManager) : (forall m, dstTree (f m) = dstTree m) -> Cautious Q (change f).
Proof. intros Hf. apply elsewhere. intros s. split; [apply Hf|done]. Qed.
#[export] Hint Extern 0 (Cautious _ (change _)) => by apply cautious_flag : typeclass_instances.

#[global] Instance announces_scrubImpl Q order rounds fixup : Announces Q (scrubImpl_io order rounds fixup).
Proof. unfold scrubImpl_io, conclude_scrub. apply _. Qed.

#[global] Instance announces_managed Q order : Announces Q (backupManaged_io order).
Proof.
  intros s. unfold backupManaged_io.
  pose proof (announces_backupImpl Q order (srcTree (tm s)) (mkDesk (dstTree (tm s)) (Some (meta1Tree (tm s))) (disk s) (cin s))) as H.
  destruct (backupImpl_io _ _ _) as [[r d] l]. exact H.
Qed.

#[global] Instance announces_body Q sha1 order absolute rounds dst fixup h :
  Announces Q (backupBody_io sha1 order absolute rounds dst fixup h).
Proof. unfold backupBody_io, backupScrubbed_io. apply _. Qed.
