(* ===== verification/Verdict.v ===== *)
(** * The last message of a scrub and of a backup

    What a program yields when it ends normally ([Yields]), and the advice to run
    a scrub again with --fixup, which is only given where the option was not
    given. *)

From S2P Require Import Prelude CxxPath CxxTime CxxStream Element Node Tree TreeIO Diff FileSystem TreeFs Backup Scrub Console BackupTalk ScrubTalk.

Section yields.
Context {S : Type}.

Class Yields {A} (P : A -> Prop) (p : spoken S A) :=
  yields s a s' l : p s = ((Ok a, s'), l) -> P a.

#[global] Instance yields_bind {A B} (P : B -> Prop) (p : spoken S A) (k : A -> spoken S B) :
  (forall a, Yields P (k a)) -> Yields P (p ≫= k).
Proof using Type. intros Hk s b s' l E. destruct (spoken_bind_ok _ _ _ _ _ _ E) as (a & s1 & l1 & l2 & _ & E2 & _). by eapply Hk. Qed.

Lemma yields_step {A B} (P : A -> Prop) (Q : B -> Prop) (p : spoken S A) (k : A -> spoken S B) :
  Yields P p -> (forall a, P a -> Yields Q (k a)) -> Yields Q (p ≫= k).
Proof using Type.
  intros Hp Hk s b s' l E. destruct (spoken_bind_ok _ _ _ _ _ _ E) as (a & s1 & l1 & l2 & E1 & E2 & _).
  eapply Hk; [by eapply Hp|exact E2].
Qed.

Lemma yields_ret {A} (P : A -> Prop) (a : A) : P a -> Yields P (mret a).
Proof using Type. by intros Ha s b s' l [= <- _ _]. Qed.

#[global] Instance yields_throw {A} (P : A -> Prop) e : Yields P (quiet (lift_outcome (Err e))).
Proof using Type. by intros s b s' l [=]. Qed.
End yields.

#[export] Hint Extern 1 (Yields _ (match ?x with _ => _ end)) => destruct x : typeclass_instances.

(** ** Flags of a scrub with --fixup *)

(** nothing is left for another run with --fixup *)
Definition settled (f : ScrubFlags) : Prop := maybeRecoverable f = false.

Lemma settled_metadata r b f : settled f -> settled (flag_metadata r b f).
Proof. done. Qed.
Lemma settled_fixup r f : settled f -> settled (flag_fixup r f).
Proof. by destruct r. Qed.

#[export] Hint Extern 0 (Yields settled (mret _)) =>
  apply yields_ret; first [assumption | by apply settled_fixup | done] : typeclass_instances.
#[export] Hint Opaque quiet say print_line3 tryToFixBackupEntry_io scrubLine_io scrubLines_io scrubRounds_io : typeclass_instances.

Lemma scrubLine_settled d f : settled f -> Yields settled (scrubLine_io true d f).
Proof. intros Hf. destruct d as [[d0 d1] d2]. unfold scrubLine_io. apply _. Qed.

Lemma scrubLines_settled diff f : settled f -> Yields settled (scrubLines_io true diff f).
Proof.
  revert f. induction diff as [|d diff IH]; intros f Hf; cbn [scrubLines_io]; [apply _|].
  apply (yields_step settled); [by apply scrubLine_settled|]. intros f' Hf'. specialize (IH f' Hf'). apply _.
Qed.

Lemma scrubRounds_settled order rounds diff f : settled f -> Yields settled (scrubRounds_io order rounds true diff f).
Proof.
  revert diff f. induction rounds as [|rounds IH]; intros diff f Hf; cbn [scrubRounds_io]; [apply _|].
  apply (yields_step settled); [by apply scrubLines_settled|]. intros f' Hf'.
  assert (forall diff', Yields settled (scrubRounds_io order rounds true diff'
    (mkFlags (unrecoverable f') (maybeRecoverable f') false (updateMeta1 f') (updateMeta2 f')))) by (intros diff'; by apply IH).
  apply _.
Qed.

(** ** The end of a log *)

(** the last messages of a scrub, by its exit code: the advice to use --fixup where
    the option was not given, and the advice to give a source directory where there
    is none *)
Inductive scrub_verdict (fixup source : bool) : Z -> list string -> Prop :=
  | told_good : scrub_verdict fixup source 0 [good_verdict]
  | told_repaired : scrub_verdict fixup source 1 [repaired_verdict]
  | told_unrecoverable : scrub_verdict fixup source 2 [unrecoverable_verdict]
  | told_partly : fixup = false ->
      scrub_verdict fixup source 2 (unrecoverable_verdict :: more_recoverable :: if source then [] else [want_source])
  | told_unrecovered : fixup = false ->
      scrub_verdict fixup source 2 (unrecovered_verdict :: if source then [] else [want_source]).

Lemma say_bind_ok {S B} t (k : unit -> spoken S B) s r s' log :
  (say t ≫= k) s = ((r, s'), log) -> exists l, k tt s = ((r, s'), l) /\ log = wrote t :: l.
Proof. unfold mbind, spoken_bind, say. destruct (k tt s) as [r' l]. intros [= -> <-]. by exists l. Qed.

Section conclusion.
Context (order : gset string -> list string).

Lemma conclude_scrub_told fixup f s code s' log :
  (fixup = true -> settled f) -> conclude_scrub f s = ((Ok code, s'), log) ->
  (exists texts, scrub_verdict fixup (srcTreePresent (tm s')) code texts /\ log = wrote <$> texts) /\
  code <> 0%Z /\ (code = 1%Z -> save (tm s') = true).
Proof using Type.
  intros Hf E. destruct s as [m d c]. revert E. unfold conclude_scrub.
  assert (Hfix : maybeRecoverable f = true -> fixup = false) by (destruct fixup; [intros H; by rewrite Hf in H|done]).
  unfold mbind, spoken_bind, quiet, say, say_when, get_state, change, mret, spoken_ret.
  destruct (unrecoverable f), (maybeRecoverable f); cbn.
  - destruct (srcTreePresent m) eqn:Hs; intros [= <- <- <-]; (split; [|by split]); eexists; (split; [by apply told_partly, Hfix|]);
      cbn; by rewrite Hs.
  - intros [= <- <- <-]. split; [|by split]. eexists. by split; [apply told_unrecoverable|].
  - destruct (srcTreePresent m) eqn:Hs; intros [= <- <- <-]; (split; [|by split]); eexists; (split; [by apply told_unrecovered, Hfix|]);
      cbn; by rewrite Hs.
  - destruct (updateMeta1 f), (updateMeta2 f); intros [= <- <- <-]; (split; [|by split]); eexists;
      by split; [apply told_repaired|].
Qed.

Lemma scrubImpl_told rounds fixup s code s' log :
  scrubImpl_io order rounds fixup s = ((Ok code, s'), log) ->
  (exists texts, scrub_verdict fixup (srcTreePresent (tm s')) code texts /\ (wrote <$> texts) `suffix_of` log) /\
  (code = 0%Z -> s' = s /\ compareTrees order s = (Ok [], s)) /\ (code = 1%Z -> save (tm s') = true).
Proof using Type.
  unfold scrubImpl_io. intros E. apply say_bind_ok in E as (l & E & ->).
  apply spoken_bind_ok in E as (diff & s1 & l1 & l2 & E1 & E & ->). unfold quiet in E1. injection E1 as E1 <-.
  assert (s1 = s) as -> by (revert E1; unfold compareTrees, checkMeta2Tree, mbind, method_bind, get_state, lift_outcome; cbn;
    destruct (meta2TreePresent (tm s)); by intros [= _ <-]).
  apply say_bind_ok in E as (l & E & ->). destruct diff as [|d diff].
  - apply say_bind_ok in E as (k & E & ->). injection E as <- <- <-.
    split; [|by split]. exists [good_verdict]. split; [constructor|]. by eexists [_; _].
  - apply say_bind_ok in E as (k & E & ->).
    apply spoken_bind_ok in E as (f & s1 & l1 & l3 & Er & E & ->). apply say_bind_ok in E as (l4 & E & ->).
    destruct (conclude_scrub_told fixup f s1 code s' l4) as ((texts & Ht & ->) & H0 & H1); [|exact E|].
    + intros ->. by eapply (scrubRounds_settled order rounds (d :: diff) no_flags).
    + split; [|by split]. exists texts. split; [exact Ht|].
      cbn. by do 3 apply suffix_cons_r; apply suffix_app_r, suffix_cons_r.
Qed.

(** the last message of a backup is its verdict *)
Lemma backupImpl_told src d code d' log :
  backupImpl_io order src d = ((Ok code, d'), log) ->
  exists bitrot, [wrote (backup_verdict bitrot)] `suffix_of` log /\ code = (if bitrot then 2 else 0)%Z.
Proof using Type.
  unfold backupImpl_io. intros E.
  do 5 (apply spoken_bind_ok in E as (? & ? & ? & ? & _ & E & ->)).
  apply spoken_bind_ok in E as (bitrot & s1 & l1 & l2 & _ & E & ->).
  apply say_bind_ok in E as (l3 & E & ->). injection E as <- <- <-.
  exists bitrot. split; [|done]. by repeat apply suffix_app_r.
Qed.
End conclusion.
