(* ===== verification/Samples.v ===== *)
(** * Sample trees

    Small concrete trees on which the theorems are instantiated. *)

From S2P Require Import Prelude CxxPath CxxTime CxxStream Element Node Tree TreeInv TreeOps TreeCopy TreeIO TreeLoad FileSystem.

Local Open Scope Z_scope.

Definition hashA : string := "da39a3ee5e6b4b0d3255bfef95601890afd80709".
Definition hashB : string := "a9993e364706816aba3e25717850c26c9cd0d89d".

Definition sample_dir (p : path) : FilesystemElement :=
  mkElem directory 493 "root" "wheel" 1600000000 0 "" p "" 1.
Definition sample_file (p : path) (size : Z) (hash : string) : FilesystemElement :=
  mkElem regular 420 "root" "wheel" 1600000000 size hash p "" 1.
Definition sample_link (p target : path) : FilesystemElement :=
  mkElem symlink_ 511 "root" "wheel" 1600000000 0 "" p target 1.

(** a tree with the given groups of elements *)
Definition sample_tree (gs : list (list FilesystemElement)) : DirectoryTree :=
  (load_groups Throw gs emptyTree).2.

(** docs/readme, docs/img/logo, link *)
Definition treeA : DirectoryTree := sample_tree
  [ [sample_dir "docs"; sample_file "a.txt" 5 hashA; sample_link "link" "a.txt"];
    [sample_dir "docs/img"; sample_file "docs/readme" 12 hashB];
    [sample_file "docs/img/logo" 3 hashA] ].

(** docs/readme differs, docs/img is missing, music is new *)
Definition treeB : DirectoryTree := sample_tree
  [ [sample_dir "docs"; sample_dir "music"; sample_file "a.txt" 5 hashA];
    [sample_file "docs/readme" 12 hashA];
    [sample_file "music/song" 100 hashB] ].

(** docs is a file *)
Definition treeC : DirectoryTree := sample_tree
  [ [sample_dir "music"; sample_file "a.txt" 6 hashA; sample_file "docs" 1 hashB];
    [sample_file "music/song" 100 hashB] ].

Lemma treeA_inv : tree_inv treeA.
Proof. apply (bool_decide_eq_true_1 _). vm_compute. reflexivity. Qed.
Lemma treeB_inv : tree_inv treeB.
Proof. apply (bool_decide_eq_true_1 _). vm_compute. reflexivity. Qed.
Lemma treeC_inv : tree_inv treeC.
Proof. apply (bool_decide_eq_true_1 _). vm_compute. reflexivity. Qed.
Lemma treeA_sorted : tree_sorted treeA.
Proof. apply (bool_decide_eq_true_1 _). vm_compute. reflexivity. Qed.

(** an iteration order of the hash sets *)
Lemma elements_order (s : gset string) : elements s ≡ₚ elements s.
Proof. done. Qed.

(** the metadata file of [treeA] *)
Definition textA : string := match tree_writeTo treeA with Ok s => s | Err _ => "" end.

(** ** A sample filesystem *)

Definition sample_inode (t : file_type) (perm : Z) (data : string) (target : path) : Inode :=
  mkInode t perm "root" "wheel" 1600000000 data target 1.

(** a user database, for a user who may change owners *)
Definition sample_rights : Rights := mkRights true {["root"; "guest"]} {["wheel"; "guest"; "users"]}.

(** /home with docs/readme and a link, and an empty /backup *)
Definition sampleFs : FS := mkFS
  (list_to_map [
    ([], sample_inode directory 493 "" "");
    (["home"], sample_inode directory 493 "" "");
    (["home"; "docs"], sample_inode directory 493 "" "");
    (["home"; "docs"; "readme"], sample_inode regular 420 "hello" "");
    (["home"; "link"], sample_inode symlink_ 511 "" "docs/readme");
    (["backup"], sample_inode directory 493 "" "")])
  1700000000 "root" "wheel" 18 sample_rights.

Lemma sampleFs_wf : fs_wf sampleFs.
Proof. apply (bool_decide_eq_true_1 _). vm_compute. reflexivity. Qed.
