(* ===== verification/ThmFormat.v ===== *)
(** * Theorems on elements and metadata files *)

From S2P Require Import Prelude CxxPath CxxTime CxxStream Element Node Tree TreeInv TreeOps TreeCopy TreeIO TreeLoad Samples.

(** ** Elements *)

(** An element whose user and group are words, whose year has four digits and
    whose hash is absent or has 40 characters survives a metadata line:
    [readFrom] returns what [writeTo] wrote, but for the high permission bits
    and the hard link count, whatever quotes, blanks or backslashes its path has. *)
Theorem element_round_trip e :
  line_wf e = true ->
  exists l, writeTo e = Ok l /\ forall file n, readFrom l file n = Ok (as_read e).
Proof. apply write_read. Qed.

Lemma element_round_trip_witness :
  let e := sample_file "my docs/a 'b' \ c" 7 hashA in
  line_wf e = true /\
  exists l, writeTo e = Ok l /\ forall file n, readFrom l file n = Ok (as_read e).
Proof. split; [reflexivity|]. apply element_round_trip. vm_compute. reflexivity. Defined.

Lemma perm_string_twice pe : perm_string (Z.land pe 511) = perm_string pe.
Proof. symmetry. apply perm_string_low. Qed.

Lemma writeTo_as_read e : writeTo (as_read e) = writeTo e.
Proof.
  unfold writeTo, line_of, type_fields, as_read. cbn [mt ty per us gs sz fileHash rp symlink].
  destruct (gmtime_r (mt e)); [|done]. rewrite perm_string_twice. by destruct (ty e).
Qed.

(** What is read back from a line is written as that same line: nothing more
    is lost by a second trip. *)
Theorem element_rewrite e l file n e' :
  line_wf e = true -> writeTo e = Ok l -> readFrom l file n = Ok e' -> writeTo e' = Ok l.
Proof.
  intros Hwf Hw Hr. destruct (write_read e Hwf) as (l' & Hl & Hread).
  rewrite Hw in Hl. injection Hl as <-. rewrite Hread in Hr. injection Hr as <-.
  by rewrite writeTo_as_read.
Qed.

Lemma element_rewrite_witness :
  exists l, writeTo (sample_link "l" "a b") = Ok l /\ writeTo (as_read (sample_link "l" "a b")) = Ok l.
Proof.
  eexists. split; [reflexivity|].
  apply (element_rewrite (sample_link "l" "a b") _ "" 1%Z); [reflexivity|reflexivity|].
  vm_compute. reflexivity.
Defined.

(** C36: The set-uid, set-gid and sticky bits are not in the line. For every element
    that fits on a line, writeTo writes the line and readFrom reads an element from it
    that has the nine lower permission bits only; if the element had one of the other
    three, the two never compare equal, unless permissions are ignored. *)
Theorem special_bits_lost e file n o :
  line_wf e = true ->
  exists l e', writeTo e = Ok l /\ readFrom l file n = Ok e' /\ per e' = Z.land (per e) 511 /\
    (Z.land (per e) 3584 <> 0%Z -> o_perm o = true -> compare e e' o = false).
Proof.
  intros Hwf. destruct (write_read e Hwf) as (l & Hl & Hread). exists l, (as_read e).
  split; [done|]. split; [apply Hread|]. split; [done|]. intros Hp Ho. apply not_true_iff_false. rewrite compare_spec.
  intros (_ & _ & H & _). specialize (H Ho). cbn [per as_read] in H. apply Hp. rewrite H, <-Z.land_assoc. apply Z.land_0_r.
Qed.

Lemma special_bits_lost_witness :
  let e := mkElem directory 1023 "root" "wheel" 1600000000 0 "" "tmp" "" 1 in
  exists l e', writeTo e = Ok l /\ readFrom l "m" 1 = Ok e' /\ compare e e' all_opts = false.
Proof.
  cbn zeta. destruct (special_bits_lost (mkElem directory 1023 "root" "wheel" 1600000000 0 "" "tmp" "" 1) "m" 1 all_opts)
    as (l & e' & Hw & Hr & _ & Hc); [reflexivity|].
  exists l, e'. split; [exact Hw|]. split; [exact Hr|]. apply Hc; [discriminate|reflexivity].
Defined.

(** C31: [compare] is an equivalence on elements whose hashes are known: reflexive
    and symmetric always, transitive when the element in the middle has a hash
    or hashes are ignored; with no option set aside it is [operator==]. *)
Theorem compare_equivalence :
  (forall a o, compare a a o = true) /\
  (forall a b o, compare a b o = compare b a o) /\
  (forall a b c o, o_hash o = false \/ fileHash b <> "" ->
     compare a b o = true -> compare b c o = true -> compare a c o = true) /\
  (forall a b, compare a b all_opts = elem_eqb a b).
Proof.
  split_and!; [apply compare_refl|apply compare_sym| |apply compare_all_opts].
  intros a b c o H. apply compare_trans. naive_solver.
Qed.

(** An ignore list of known words, separated by commas or blanks, switches
    off exactly the comparisons it names, or all of them. *)
Theorem ignore_list_flags s :
  Forall (fun w => known_ignore w = true) (ignore_list s) ->
  CompareOpt_of_string s =
  Ok (mkOpt (keeps (ignore_list s) "perm") (keeps (ignore_list s) "owner")
        (keeps (ignore_list s) "mtime") (keeps (ignore_list s) "size")
        (keeps (ignore_list s) "hash") (keeps (ignore_list s) "symlink")).
Proof.
  intros H. rewrite CompareOpt_of_list. by rewrite (ignore_words_flags _ all_opts H).
Qed.

Lemma ignore_list_flags_witness :
  CompareOpt_of_string "mtime, hash,owner" = Ok (mkOpt true false false true false true).
Proof.
  rewrite ignore_list_flags.
  - vm_compute. reflexivity.
  - apply (bool_decide_eq_true_1 _). vm_compute. reflexivity.
Defined.

(** A word that is not an ignore option is an error that names a word of the
    list; no options are returned. *)
Theorem ignore_list_unknown s :
  Exists (fun w => known_ignore w = false) (ignore_list s) ->
  exists w, w ∈ ignore_list s /\
    CompareOpt_of_string s = Err (Throw ("Ignore option " +:+ w +:+ " not valid")).
Proof.
  intros H. rewrite CompareOpt_of_list. by apply ignore_words_bad.
Qed.

Lemma ignore_list_unknown_witness :
  exists w, w ∈ ignore_list "mtime,foo" /\
    CompareOpt_of_string "mtime,foo" = Err (Throw ("Ignore option " +:+ w +:+ " not valid")).
Proof.
  apply ignore_list_unknown. apply (bool_decide_eq_true_1 _). vm_compute. reflexivity.
Defined.

(** Sorting the content of a directory is a permutation in which directories
    precede everything else and the entries of either kind are in path order. *)
Theorem sorted_content n :
  content (sortContent n) ≡ₚ content n /\
  forall l1 x l2 y l3, content (sortContent n) = l1 ++ x :: l2 ++ y :: l3 ->
    (isDirectory (elem y) = true -> isDirectory (elem x) = true) /\
    (isDirectory (elem x) = isDirectory (elem y) -> path_ltb (rp (elem y)) (rp (elem x)) = false).
Proof.
  split; [apply list_sort_perm|]. cbn [content sortContent]. intros l1 x l2 y l3 E.
  pose proof (sort_sorted (content n)) as Hs. unfold sorted in Hs. rewrite E in Hs.
  apply StronglySorted_app_1_r in Hs. apply StronglySorted_inv in Hs as [_ Hx].
  apply Forall_app in Hx as [_ [Hxy _]%Forall_cons]. unfold in_order, node_ltb, elem_ltb in Hxy.
  destruct (isDirectory (elem x)), (isDirectory (elem y)); naive_solver.
Qed.

(** ** Metadata files *)

(** writing looks at the elements through their lines, and at which of them are
    directories *)
Lemma recursiveWrite_erase f l pb :
  (forall e, writeTo (f e) = writeTo e /\ isDirectory (f e) = isDirectory e) ->
  recursiveWrite (map (erase f) l) pb = recursiveWrite l pb.
Proof.
  intros Hf.
  assert (Hlines : forall k, write_lines (map (erase f) k) = write_lines k).
  { induction k as [|[i e c] k IH]; [done|]. cbn [map erase write_lines elem].
    by rewrite (proj1 (Hf e)), IH. }
  assert (Hlevel : forall k b, Forall (fun n => forall b, write_content (erase f n) b = write_content n b) k ->
    write_level write_content (map (erase f) k) b = write_level write_content k b).
  { intros k b H. unfold write_level. rewrite Hlines.
    assert (is_nil (map (erase f) k) = is_nil k) as -> by (by destruct k).
    assert (Hd : forall b, write_dirs write_content (map (erase f) k) b = write_dirs write_content k b).
    { clear b. induction H as [|[i e c] k Hn _ IH]; intros b; [done|].
      cbn [map write_dirs]. rewrite Hn. cbn [erase elem]. rewrite (proj2 (Hf e)).
      destruct (isDirectory e); [|done]. destruct (write_content _ b) as [[s b']|]; [|done].
      cbn [mbind outcome_bind]. by rewrite IH. }
    by rewrite Hd. }
  apply Hlevel, Forall_true. intros n. induction n as [i e c IH] using node_ind'. intros b.
  cbn [erase write_content]. by apply Hlevel.
Qed.

(** C14: A tree that satisfies its invariant, is in order and whose elements a
    metadata file can hold is written and read back: the new tree satisfies the
    invariant, is in order, has the same nodes in the same places and, as a map,
    the same paths with the elements as their lines keep them. What the reading
    tree held before is gone, and it is not bound to a directory. *)
Theorem tree_round_trip t :
  tree_inv t -> tree_sorted t -> Forall (fun e => file_wf e = true) (elements_of (topContent t)) ->
  exists text, tree_writeTo t = Ok text /\ forall file t0, exists t',
    tree_readFrom text file t0 = (Ok tt, t') /\ tree_inv t' /\ tree_sorted t' /\
    map (erase id) (topContent t') = map (erase as_read) (topContent t) /\
    model t' = as_read <$> model t /\ topPath t' = None.
Proof.
  intros Ht Hs Hwf. destruct (read_written t Ht Hs Hwf) as (text & Hw & Hr).
  exists text. split; [done|]. intros file t0. destruct (Hr file t0) as (t' & E & Her & Hinv & Htp & _).
  exists t'. destruct (erased_model _ _ Her) as [Hm Hso]. split_and!; [done| |by apply Hso|done|done|done].
  exact Hinv.
Qed.

Lemma treeA_file_wf : Forall (fun e => file_wf e = true) (elements_of (topContent treeA)).
Proof. apply (bool_decide_eq_true_1 _). vm_compute. reflexivity. Qed.

Lemma tree_round_trip_witness :
  exists text, tree_writeTo treeA = Ok text /\ forall file t0, exists t',
    tree_readFrom text file t0 = (Ok tt, t') /\ tree_inv t' /\ tree_sorted t' /\
    map (erase id) (topContent t') = map (erase as_read) (topContent treeA) /\
    model t' = as_read <$> model treeA /\ topPath t' = None.
Proof. apply (tree_round_trip treeA treeA_inv treeA_sorted treeA_file_wf). Defined.

(** The metadata file of a tree read from a metadata file is that same file,
    byte for byte. *)
Theorem metadata_fixpoint t text file t0 t' :
  tree_inv t -> tree_sorted t -> Forall (fun e => file_wf e = true) (elements_of (topContent t)) ->
  tree_writeTo t = Ok text -> tree_readFrom text file t0 = (Ok tt, t') ->
  tree_writeTo t' = Ok text.
Proof.
  intros Ht Hs Hwf Hw Hr. destruct (read_written t Ht Hs Hwf) as (text' & Hw' & Hread).
  rewrite Hw in Hw'. injection Hw' as <-. destruct (Hread file t0) as (t1 & E & Her & _).
  rewrite Hr in E. injection E as <-. rewrite <-Hw. unfold tree_writeTo.
  rewrite <-(recursiveWrite_erase id (topContent t')) by done. rewrite Her.
  rewrite recursiveWrite_erase; [done|]. intros e. split; [apply writeTo_as_read|apply isDirectory_as_read].
Qed.

Lemma metadata_fixpoint_witness :
  tree_writeTo (tree_readFrom textA "" emptyTree).2 = Ok textA.
Proof.
  apply (metadata_fixpoint treeA textA "" emptyTree _ treeA_inv treeA_sorted treeA_file_wf);
    vm_compute; reflexivity.
Defined.

(** nodes of a group that was read *)
Lemma alloc_find k es d : d ∈ es -> exists i, find_in i (alloc k es) = Some (mkNode i d []) /\ k <= i < k + length es.
Proof.
  revert k. induction es as [|e es IH]; intros k; [by intros ?%not_elem_of_nil|]. cbn [alloc length].
  intros [->|H]%elem_of_cons.
  - exists k. rewrite find_in_cons, bool_decide_true by done. split; [done|lia].
  - destruct (IH (S k) H) as (i & Hi & Hr). exists i. rewrite find_in_cons, bool_decide_false by lia. split; [done|lia].
Qed.

Lemma filled_elems k es i d c :
  find_in i (alloc k es) = Some (mkNode i d []) -> elem <$> update_in i (fun _ => mkNode i d c) (alloc k es) = es.
Proof.
  revert k. induction es as [|e es IH]; intros k; [done|]. cbn [alloc]. rewrite find_in_cons, update_in_cons.
  case_bool_decide as Hi.
  - intros [= <- <-]. rewrite update_in_id; [|rewrite ids_alloc, elem_of_seq; lia]. cbn [fmap list_fmap elem]. f_equal.
    generalize (S k). clear. induction es as [|e es IH]; intros k; [done|]. cbn [alloc fmap list_fmap elem]. by rewrite IH.
  - cbn [find_in]. intros Hf. cbn [fmap list_fmap elem]. f_equal. by apply IH.
Qed.

Lemma found_in_model t i n : tree_inv t -> find_in i (topContent t) = Some n -> model t !! rp (elem n) = Some (elem n).
Proof.
  intros Ht Hf. pose proof (node_in_index t i n Ht Hf) as Hi. destruct (model t !! rp (elem n)) as [e|] eqn:Hm.
  - destruct (inv_model t Ht _ _ Hm) as (j & c & Hj & Hfj & _). rewrite Hi in Hj. injection Hj as <-.
    rewrite Hf in Hfj. by injection Hfj as ->.
  - apply inv_lookup_None in Hm; [|done]. congruence.
Qed.

Lemma in_directory_as_read p es : in_directory p es -> in_directory p (map as_read es).
Proof.
  intros [H1 H2]. split; [by rewrite Forall_map|]. change (map as_read es) with (as_read <$> es).
  by rewrite <-list_fmap_compose.
Qed.

(** a text of two groups is read as their nodes *)
Lemma read_text evs file t0 t' :
  Forall (fun ev => match ev with Some e => file_wf e = true | None => True end) evs ->
  load_groups Throw (map (map as_read) (groups [] evs)) (mkTree [] ∅ None (opt t0) (next t0) (warnings t0)) = (Ok tt, t') ->
  tree_readFrom (text_of evs) file t0 = (Ok tt, t').
Proof.
  intros Hev Hl. unfold tree_readFrom, mbind, method_bind, clear. rewrite getlines_text.
  - rewrite <-(bump_0 (mkTree _ _ _ _ _ _)). by apply (read_lines_groups Throw file evs []).
  - eapply Forall_impl; [exact Hev|]. intros [e|] He; [by apply line_one_line|done].
Qed.

(** a level that begins with a file is written without what is below it *)
Lemma write_file_first t f l : elem <$> topContent t = f :: l -> isDirectory f = false ->
  tree_writeTo t = (ls ← write_lines (topContent t); Ok ls).
Proof.
  destruct (topContent t) as [|[i e c] ns] eqn:Et; [done|]. intros [= -> _] Hf. unfold tree_writeTo, recursiveWrite, write_level.
  rewrite Et. destruct (write_lines _) as [ls|]; [|done]. cbn [mbind outcome_bind write_dirs elem]. rewrite Hf.
  cbn [mbind outcome_bind]. by rewrite app_nil_r_str.
Qed.

Lemma write_read_lines g : Forall (fun e => file_wf e = true) g -> forall ns, elem <$> ns = map as_read g ->
  write_lines ns = Ok (text_of (Some <$> g)).
Proof.
  induction 1 as [|e g He _ IH]; intros [|n ns] E; try done. injection E as En E. cbn [write_lines]. rewrite En, writeTo_as_read.
  unfold file_wf in He. split_andb. unfold writeTo. rewrite gmtime_four_digits; [|unfold line_wf in *; by split_andb].
  cbn [mbind outcome_bind]. by rewrite (IH ns E).
Qed.

(** C37: The order of a metadata file is not checked when it is read, and the writer
    stops at the first entry that is not a directory. Take any file whose first group
    begins with an entry that is not a directory and lists a directory later, and
    whose second group is the content of that directory: it is read without an error,
    with the content, but the tree is written as the first group alone. What is read
    from the new file has nothing in the directory any more. *)
Theorem unordered_file_loses_content f g d es file t0 :
  Forall (fun e => file_wf e = true) ((f :: g) ++ es) ->
  in_directory "" (f :: g) -> isDirectory f = false -> d ∈ g -> isDirectory d = true ->
  in_directory (rp d) es -> es <> [] ->
  exists t t',
    tree_readFrom (text_of ((Some <$> (f :: g)) ++ None :: (Some <$> es))) file t0 = (Ok tt, t) /\
    (forall e, e ∈ es -> model t !! rp e = Some (as_read e)) /\
    tree_writeTo t = Ok (text_of (Some <$> (f :: g))) /\
    tree_readFrom (text_of (Some <$> (f :: g))) file t = (Ok tt, t') /\
    forall e, e ∈ es -> model t' !! rp e = None.
Proof.
  intros Hwf Hg Hf Hd Hdir Hes Hne. apply Forall_app in Hwf as [Hwg Hwe].
  assert (Hdin : d ∈ f :: g) by (by right).
  assert (Hgd : good_path (rp d) = true).
  { destruct Hg as [Hg _]. rewrite Forall_forall in Hg. destruct (Hg d Hdin) as [Hn ->]. by apply good_append. }
  assert (Hev : forall l, Forall (fun e => file_wf e = true) l ->
    Forall (fun ev => match ev with Some e => file_wf e = true | None => True end) (Some <$> l)) by (intros l H; by apply Forall_fmap).
  set (c0 := mkTree [] ∅ None (opt t0) (next t0) (warnings t0)).
  destruct (load_group_top Throw (map as_read (f :: g)) c0) as (t1 & E1 & (I1 & _) & T1 & N1);
    [apply cleared_inv|done|done|by apply in_directory_as_read|].
  destruct (alloc_find (next c0) (map as_read (f :: g)) (as_read d)) as (i & Hi & Hir);
    [by apply (list_elem_of_fmap_2 as_read)|]. rewrite <-T1 in Hi.
  destruct (load_group_dir Throw (map as_read es) t1 i (as_read d)) as (t & E2 & (I2 & _) & T2 & _);
    [done|done|by rewrite isDirectory_as_read|done|by destruct es|by apply in_directory_as_read|].
  assert (Hlines : elem <$> topContent t = map as_read (f :: g)).
  { rewrite T2. unfold filled. rewrite T1 in *. by apply filled_elems. }
  set (c1 := mkTree [] ∅ None (opt t) (next t) (warnings t)).
  destruct (load_group_top Throw (map as_read (f :: g)) c1) as (t' & E3 & _ & T3 & _);
    [apply cleared_inv|done|done|by apply in_directory_as_read|].
  exists t, t'. split_and!.
  - apply read_text; [apply Forall_app; split; [auto|constructor; auto]|]. rewrite groups_lines. cbn [groups app flush is_nil map].
    rewrite <-(app_nil_r (Some <$> es)), groups_lines. cbn [groups app]. unfold flush. destruct es; [done|]. cbn [is_nil map app].
    rewrite (load_groups_cons _ _ _ _ _ E1). by rewrite (load_groups_cons _ _ _ _ _ E2).
  - intros e He. destruct (alloc_find (next t1) (map as_read es) (as_read e)) as (j & Hj & Hjr);
      [by apply (list_elem_of_fmap_2 as_read)|]. apply (found_in_model t j (mkNode j (as_read e) [])); [done|].
    rewrite T2. unfold filled. pose proof I1 as (_ & Hids & _). erewrite find_in_fill; [exact Hj|lia| |done|exact Hi].
    rewrite T1, ids_alloc, elem_of_seq. lia.
  - rewrite (write_file_first t (as_read f) (map as_read g)); [|done|by rewrite isDirectory_as_read].
    by rewrite (write_read_lines (f :: g) Hwg).
  - apply read_text; [auto|]. rewrite <-(app_nil_r (Some <$> (f :: g))), groups_lines. cbn [groups app flush is_nil map].
    by rewrite (load_groups_cons _ _ _ _ _ E3).
  - intros e He. unfold model. rewrite T3. apply model_of_None. rewrite paths_alloc.
    change (map as_read (f :: g)) with (as_read <$> (f :: g)). rewrite <-list_fmap_compose.
    intros (e' & Ee & He')%list_elem_of_fmap. cbn in Ee. destruct Hes as [Hes _], Hg as [Hg _]. rewrite Forall_forall in Hes, Hg.
    destruct (Hes e He) as [Hn1 P1], (Hg e' He') as [Hn2 P2].
    assert (E : parent_path (rp e) = parent_path (rp e')) by (by rewrite Ee).
    rewrite P1, P2, !parent_append in E by auto. by apply good_path_nonempty in Hgd.
Qed.

Lemma unordered_file_loses_content_witness :
  exists t t',
    tree_readFrom (text_of [Some (sample_file "a.txt" 5 hashA); Some (sample_dir "docs"); None;
      Some (sample_file "docs/readme" 12 hashB)]) "" emptyTree = (Ok tt, t) /\
    is_Some (model t !! "docs/readme") /\
    tree_writeTo t = Ok (text_of [Some (sample_file "a.txt" 5 hashA); Some (sample_dir "docs")]) /\
    tree_readFrom (text_of [Some (sample_file "a.txt" 5 hashA); Some (sample_dir "docs")]) "" t = (Ok tt, t') /\
    model t' !! "docs/readme" = None.
Proof.
  destruct (unordered_file_loses_content (sample_file "a.txt" 5 hashA) [sample_dir "docs"] (sample_dir "docs")
    [sample_file "docs/readme" 12 hashB] "" emptyTree) as (t & t' & E & H & W & E' & H').
  - apply (bool_decide_eq_true_1 _). vm_compute. reflexivity.
  - split; apply (bool_decide_eq_true_1 _); vm_compute; reflexivity.
  - reflexivity.
  - left.
  - reflexivity.
  - split; apply (bool_decide_eq_true_1 _); vm_compute; reflexivity.
  - discriminate.
  - exists t, t'. split; [exact E|]. split; [|split; [exact W|split; [exact E'|]]].
    + exists (as_read (sample_file "docs/readme" 12 hashB)). exact (H (sample_file "docs/readme" 12 hashB) ltac:(left)).
    + exact (H' (sample_file "docs/readme" 12 hashB) ltac:(left)).
Defined.
