(* ===== verification/ThmTree.v ===== *)
(** * Theorems on the operations of DirectoryTree *)

From S2P Require Import Prelude CxxPath CxxTime CxxStream Element Node Tree TreeInv TreeOps TreeCopy TreeIO TreeLoad TreeHash TreeSymlink FileSystem FsSpec MetaSpec TreeFs ScanSpec TreeApi Samples.

(** [search] looks up the path in the tree seen as a map from paths to
    elements; under the invariant its pointer is never dangling. *)
Theorem search_spec t p : tree_inv t -> search p t = Ok (model t !! p).
Proof. intros Ht. by apply search_model. Qed.

Lemma search_spec_witness :
  search "docs/readme" treeA = Ok (Some (sample_file "docs/readme" 12 hashB)).
Proof. rewrite (search_spec treeA "docs/readme" treeA_inv). vm_compute. reflexivity. Defined.

(** C12: Removing a path that the tree has succeeds, removes the entry and all the
    entries below it, and nothing else; the index, the order of the content and
    the other fields stay right. A path that is not there is an error that
    leaves the tree as it was. *)
Theorem removeFromTree_removes t p :
  tree_inv t ->
  match model t !! p with
  | None => removeFromTree p t = (Err (searchNode_fail p "removeFromTree"), t)
  | Some _ => exists t', removeFromTree p t = (Ok tt, t') /\ tree_inv t' /\
      model t' = prune p (model t) /\ (tree_sorted t -> tree_sorted t') /\ same_fields t t'
  end.
Proof. apply removeFromTree_spec. Qed.

Lemma removeFromTree_removes_witness :
  exists t', removeFromTree "docs/img" treeA = (Ok tt, t') /\ tree_inv t' /\
    model t' = prune "docs/img" (model treeA) /\ (tree_sorted treeA -> tree_sorted t') /\
    same_fields treeA t'.
Proof. apply (removeFromTree_removes treeA "docs/img" treeA_inv). Defined.

(** C9: Copying an entry of another tree below a directory that has no entry of
    that name succeeds: the tree gains the entry and all entries below it, with
    their paths moved, and keeps its own; the index follows, and the content of
    every directory stays in order. *)
Theorem copyFromTree_copies s t sp dp :
  tree_inv s -> tree_inv t -> can_copy s t sp dp ->
  exists t', copyFromTree s sp dp t = (Ok tt, t') /\ tree_inv t' /\
    model t' = graft (parent_path sp) dp sp (model s) ∪ model t /\
    (tree_sorted t -> tree_sorted t') /\ same_fields t t'.
Proof. intros Hs Ht Hc. by apply copyFromTree_spec. Qed.

Lemma copyFromTree_copies_witness :
  exists t', copyFromTree treeA "docs/img" "music" treeB = (Ok tt, t') /\ tree_inv t' /\
    model t' = graft "docs" "music" "docs/img" (model treeA) ∪ model treeB /\
    (tree_sorted treeB -> tree_sorted t') /\ same_fields treeB t'.
Proof.
  apply (copyFromTree_copies treeA treeB "docs/img" "music" treeA_inv treeB_inv).
  split; [eexists; vm_compute; reflexivity|]. split; [|vm_compute; reflexivity].
  right. eexists. split; vm_compute; reflexivity.
Defined.

(** Copying an entry to the place it has in the source, as a backup does,
    makes the two trees agree at and below that path. *)
Theorem copy_to_same_place s t sp :
  tree_inv s -> tree_inv t -> can_copy s t sp (parent_path sp) ->
  exists t', copyFromTree s sp (parent_path sp) t = (Ok tt, t') /\ tree_inv t' /\
    forall q, model t' !! q = if decide (within sp q) then model s !! q else model t !! q.
Proof.
  intros Hs Ht Hc. destruct (copyFromTree_spec s t sp (parent_path sp) Hs Ht Hc) as (t' & E & Hcop).
  exists t'. split; [done|]. pose proof Hcop as (Hinv & _). split; [done|].
  pose proof Hc as (Hsp & _ & Hnone). pose proof (inv_good_path s Hs sp Hsp) as Hg.
  rewrite parent_filename in Hnone by done.
  intros q. rewrite (copied_same_place s t t' sp Hs Hg Hcop), lookup_union. unfold subtree.
  case_decide as Hw.
  - destruct (model t !! q) as [e|] eqn:Hq.
    + exfalso. destruct (model_ancestor t sp q Ht) as [? ?];
        [by eexists|done|by apply good_path_nonempty|congruence].
    + destruct (model s !! q) as [e|] eqn:Hsq.
      * by rewrite (proj2 (map_lookup_filter_Some _ _ _ _) (conj Hsq Hw)).
      * assert (filter (fun '(k, _) => within sp k) (model s) !! q = None) as ->; [|done].
        apply map_lookup_filter_None. by left.
  - assert (filter (fun '(k, _) => within sp k) (model s) !! q = None) as ->.
    { apply map_lookup_filter_None. right. by intros ? _. }
    by destruct (model t !! q).
Qed.

Lemma copy_to_same_place_witness :
  exists t', copyFromTree treeA "docs/img" "docs" treeB = (Ok tt, t') /\ tree_inv t' /\
    forall q, model t' !! q = if decide (within "docs/img" q) then model treeA !! q else model treeB !! q.
Proof.
  apply (copy_to_same_place treeA treeB "docs/img" treeA_inv treeB_inv).
  split; [eexists; vm_compute; reflexivity|]. split; [|vm_compute; reflexivity].
  right. eexists. split; vm_compute; reflexivity.
Defined.

(** C27: The errors of copyFromTree, each of which leaves the tree as it was. A source
    path that is not in the source tree, and a destination that is not in this tree,
    are the exceptions of searchNode with the caller's remark; a destination that is
    not a directory is an exception that names it; a name that the destination
    directory, or the top, already has is an assertion failure. *)
Theorem copyFromTree_errors s t sp dp :
  tree_inv s -> tree_inv t ->
  (model s !! sp = None ->
   copyFromTree s sp dp t = (Err (searchNode_fail sp "treeCopy: can't find src"), t)) /\
  (is_Some (model s !! sp) -> dp <> "" -> model t !! dp = None ->
   copyFromTree s sp dp t = (Err (searchNode_fail dp "treeCopy: can't find dst"), t)) /\
  (forall de, is_Some (model s !! sp) -> model t !! dp = Some de -> isDirectory de = false ->
   copyFromTree s sp dp t = (Err (Throw ("treeCopy: dst not a directory: " +:+ dp)), t)) /\
  (is_Some (model s !! sp) -> dp = "" \/ (exists de, model t !! dp = Some de /\ isDirectory de = true) ->
   is_Some (model t !! (dp // filename sp)) ->
   exists where_, copyFromTree s sp dp t = (Err (AssertFailed where_), t)).
Proof.
  intros Hs Ht. unfold copyFromTree, mbind, method_bind. split_and!.
  - intros H. by rewrite (treeCopy_no_source s t sp dp Hs H).
  - intros H1 H2 H3. by rewrite (treeCopy_no_destination s t sp dp Hs Ht H1 H2 H3).
  - intros de H1 H2 H3. by rewrite (treeCopy_not_directory s t sp dp de Hs Ht H1 H2 H3).
  - intros H1 H2 H3. destruct (treeCopy_occupied s t sp dp Hs Ht H1 H2 H3) as [w ->]. by exists w.
Qed.

Lemma copyFromTree_errors_witness :
  copyFromTree treeA "docs/readme" "a.txt" treeB = (Err (Throw "treeCopy: dst not a directory: a.txt"), treeB) /\
  exists where_, copyFromTree treeA "docs/readme" "docs" treeB = (Err (AssertFailed where_), treeB).
Proof.
  split.
  - eapply (copyFromTree_errors treeA treeB "docs/readme" "a.txt" treeA_inv treeB_inv).
    + eexists. vm_compute. reflexivity.
    + vm_compute. reflexivity.
    + reflexivity.
  - apply (copyFromTree_errors treeA treeB "docs/readme" "docs" treeA_inv treeB_inv).
    + eexists. vm_compute. reflexivity.
    + right. eexists. split; vm_compute; reflexivity.
    + eexists. vm_compute. reflexivity.
Defined.

(** The three metadata operations change the named fields of the element at
    the path and nothing else, keep the invariant and the order; on a path that
    is not there they throw, leaving the tree as it was. *)
Theorem modify_in_tree t p perm user group mtime :
  tree_inv t ->
  let updates (op : tree_method unit) (where_ : string) (f : FilesystemElement -> FilesystemElement) :=
    match model t !! p with
    | None => op t = (Err (searchNode_fail p where_), t)
    | Some _ => exists t', op t = (Ok tt, t') /\ tree_inv t' /\ model t' = alter f p (model t) /\
        (tree_sorted t -> tree_sorted t') /\ same_fields t t'
    end in
  updates (modifyPermissionsInTree p perm) "modifyPermissionsInTree" (setPermissions perm) /\
  updates (modifyOwnerInTree p user group) "modifyOwnerInTree" (fun e => setGroup group (setUser user e)) /\
  updates (modifyMtimeInTree p mtime) "modifyMtimeInTree" (setMtime mtime).
Proof.
  intros Ht updates. unfold updates. split_and!.
  - exact (attribute_spec (fun p => modifyPermissionsInTree p perm) _ _ t p Ht).
  - exact (attribute_spec (fun p => modifyOwnerInTree p user group) _ _ t p Ht).
  - exact (attribute_spec (fun p => modifyMtimeInTree p mtime) _ _ t p Ht).
Qed.

Lemma modify_in_tree_witness :
  exists t', modifyMtimeInTree "docs/readme" 7 treeA = (Ok tt, t') /\ tree_inv t' /\
    model t' = alter (setMtime 7) "docs/readme" (model treeA) /\
    (tree_sorted treeA -> tree_sorted t') /\ same_fields treeA t'.
Proof. apply (modify_in_tree treeA "docs/readme" 0 "" "" 7 treeA_inv). Defined.

(** C28: [computeMissingHashes] on a tree bound to a directory. When all files that
    miss a hash can be hashed it succeeds: every regular file that had no hash has
    that of the file at its path, everything else is as before, and the invariant is
    kept. A hash that fails is the result of the call: the elements before the file
    that failed, in the order of the tree, have been completed, that file and all
    after it are untouched, and the tree still satisfies its invariant. *)
Theorem computeMissingHashes_hashes hashFile t top :
  topPath t = Some top -> tree_inv t ->
  ((forall p e, model t !! p = Some e -> ty e = regular -> fileHash e = "" -> exists h, hashFile (top // p) = Ok h) ->
   exists t', computeMissingHashes hashFile t = (Ok tt, t') /\ tree_inv t' /\
     (tree_sorted t -> tree_sorted t') /\ same_fields t t' /\
     (forall p e, model t !! p = Some e ->
        (ty e = regular -> fileHash e = "" -> exists h, hashFile (top // p) = Ok h /\
           model t' !! p = Some (setHash h e)) /\
        (ty e <> regular \/ fileHash e <> "" -> model t' !! p = Some e)) /\
     dom (model t') = dom (model t)) /\
  (forall err t', computeMissingHashes hashFile t = (Err err, t') ->
   tree_inv t' /\
   exists done_ e rest, elements_of (topContent t) = done_ ++ e :: rest /\
     ty e = regular /\ fileHash e = "" /\ hashFile (top // rp e) = Err err /\
     elements_of (topContent t') = (with_hash hashFile top <$> done_) ++ e :: rest).
Proof.
  intros Htop Ht. split; [by apply computeMissingHashes_spec|]. intros err t'. by apply computeMissingHashes_failed.
Qed.

Lemma computeMissingHashes_hashes_witness :
  let t := mkTree (topContent (sample_tree [[sample_file "f" 3 ""]]))
             (index (sample_tree [[sample_file "f" 3 ""]])) (Some "/d") ComputeHash 1 [] in
  (exists t', computeMissingHashes (fun p => Ok hashA) t = (Ok tt, t') /\ tree_inv t') /\
  tree_inv (computeMissingHashes (fun p => Err (Throw "no such file")) t).2.
Proof.
  intros t. assert (Ht : tree_inv t) by (apply (bool_decide_eq_true_1 _); vm_compute; reflexivity). split.
  - destruct (computeMissingHashes_hashes (fun p => Ok hashA) t "/d" eq_refl Ht) as [(t' & E & Hinv & _) _].
    + intros p e _ _ _. exists hashA. reflexivity.
    + exists t'. split; [exact E|exact Hinv].
  - destruct (computeMissingHashes_hashes (fun p => Err (Throw "no such file")) t "/d" eq_refl Ht) as [_ H].
    eapply (H (Throw "no such file")). vm_compute. reflexivity.
Defined.

(** C32: [addSymlinkToTree] puts the link into the tree but not into the index:
    afterwards the tree has the link and [search] does not find it, so that the
    invariant of the index no longer holds. *)
Theorem addSymlinkToTree_breaks_index t link :
  tree_inv t -> ty link = symlink_ -> good_path (rp link) = true -> model t !! rp link = None ->
  has_parent_dir t (rp link) ->
  exists t', addSymlinkToTree link t = (Ok tt, t') /\ model t' = <[rp link := link]> (model t) /\
    search (rp link) t' = Ok None /\ ~ tree_inv t'.
Proof.
  intros Ht Hty Hg Hnew Hpar.
  destruct (addSymlinkToTree_unindexed t link Ht Hty Hg Hnew Hpar) as (t' & E & Hm & Hix).
  assert (Hs : search (rp link) t' = Ok None).
  { unfold search. rewrite Hix. apply inv_lookup_None in Hnew; [|done]. by rewrite Hnew. }
  exists t'. split_and!; [done..|]. intros Ht'. rewrite (search_model t' Ht' (rp link)), Hm in Hs.
  by rewrite lookup_insert_eq in Hs.
Qed.

Lemma addSymlinkToTree_breaks_index_witness :
  exists t', addSymlinkToTree (sample_link "docs/l" "readme") treeA = (Ok tt, t') /\
    model t' = <["docs/l" := sample_link "docs/l" "readme"]> (model treeA) /\
    search "docs/l" t' = Ok None /\ ~ tree_inv t'.
Proof.
  apply (addSymlinkToTree_breaks_index treeA (sample_link "docs/l" "readme") treeA_inv);
    [reflexivity|reflexivity|vm_compute; reflexivity|].
  right. eexists. split; vm_compute; reflexivity.
Defined.

(** ** Sequences of calls *)

(** C13: Whatever sequence of operations is called on a tree, whether they succeed or
    throw, out of clear, bindToTopPath, scanDirectory on well-formed filesystems,
    readFrom on files written from such trees, computeMissingHashes, copies from trees
    built in the same way, removals and changes of permissions, owner and time, each
    on the tree alone or on tree and filesystem, the tree has a right
    index and unique paths, is sorted as the metadata file needs it, and holds
    elements of four types only, of which only regular files have a size and a hash
    and only links a target; a search never follows a dangling pointer. Not among the
    operations are the two that add a symlink, which break the index, and the reading
    of a file of other origin, whose tree need not be sorted. *)
Theorem built_tree_typed sha1 order absolute t :
  (forall x : gset string, order x ≡ₚ elements x) -> built sha1 order absolute t ->
  tree_inv t /\ tree_sorted t /\ map_Forall (fun p e => well_typed e /\ rp e = p) (model t) /\
  forall p, search p t = Ok (model t !! p).
Proof.
  intros Ho Hb. destruct (built_proper sha1 order absolute Ho t Hb) as [Hi Hs Ht].
  split; [done|]. split; [done|]. split.
  - intros p e He. split; [exact (Ht p e He)|]. by destruct (inv_model t Hi p e He) as (_ & _ & _ & _ & ?).
  - intros p. by apply search_model.
Qed.

(** /home is scanned, a directory of it is copied to the tree and the directory of
    /backup, and a file of the copy is removed twice; the second call throws *)
Definition sample_calls : DirectoryTree :=
  let run c t := (perform (fun d => hashA) elements (fun p => p) c t).2 in
  let home := run (c_scanDirectory sampleFs "/home" ComputeHash) emptyTree in
  let backup := run (c_scanDirectory sampleFs "/backup" ComputeHash) emptyTree in
  let t := run (c_copyFromTreeAndFilesystem sampleFs home "docs" "") backup in
  run (c_removeFromTree "docs/readme") (run (c_removeFromTree "docs/readme") t).

Lemma built_tree_typed_witness :
  tree_inv sample_calls /\ tree_sorted sample_calls /\
  map_Forall (fun p e => well_typed e /\ rp e = p) (model sample_calls) /\
  forall p, search p sample_calls = Ok (model sample_calls !! p).
Proof.
  apply (built_tree_typed (fun d => hashA) elements (fun p => p)); [intros x; reflexivity|].
  apply b_call; [|exact I]. apply b_call; [|exact I]. apply b_copy_files.
  - apply b_call; [apply b_new|]. split; [exact sampleFs_wf|reflexivity].
  - apply b_call; [apply b_new|]. split; [exact sampleFs_wf|reflexivity].
Defined.
