(* ===== verification/ThmDiff.v ===== *)
(** * Theorems on the diffs *)

From S2P Require Import Prelude CxxPath CxxTime CxxStream Element Node Tree TreeInv TreeOps TreeCopy TreeIO TreeLoad Diff DiffSpec Diff3Spec Samples.

(** C5: On trees that satisfy their invariant [diff2] terminates without failing
    an assertion and reports exactly the lines of the reference definition, in
    the order of the hash sets: one line for each path, in a directory that both
    trees have, where one has no entry or the entries compare different. *)
Theorem diff2_is_reference order a b o :
  (forall s : gset string, order s ≡ₚ elements s) -> tree_inv a -> tree_inv b ->
  exists r, diff2 order a b o = Ok r /\ r ≡ₚ reference2 (model a) (model b) o.
Proof. intros Ho Ha Hb. by apply diff2_reference. Qed.

Lemma diff2_is_reference_witness :
  exists r, diff2 elements treeA treeB all_opts = Ok r /\
    r ≡ₚ reference2 (model treeA) (model treeB) all_opts.
Proof. apply (diff2_is_reference elements treeA treeB all_opts elements_order treeA_inv treeB_inv). Defined.

(** The diff of two trees is empty exactly if they have the same paths, and at
    every path entries that compare equal: nothing escapes because of the pruning. *)
Theorem diff2_empty order a b o :
  (forall s : gset string, order s ≡ₚ elements s) -> tree_inv a -> tree_inv b ->
  diff2 order a b o = Ok [] <-> agree o (model a) (model b).
Proof. apply diff2_nil. Qed.

Lemma diff2_empty_witness : diff2 elements treeA treeA all_opts = Ok [].
Proof.
  apply (diff2_empty elements treeA treeA all_opts elements_order treeA_inv treeA_inv).
  intros q. destruct (model treeA !! q) as [e|]; [|reflexivity]. cbn [differ].
  rewrite compare_refl. reflexivity.
Defined.

Lemma differ_sym o x y : differ o x y = differ o y x.
Proof. destruct x as [e|], y as [e'|]; try done. cbn [differ]. by rewrite compare_sym. Qed.

(** Exchanging the trees exchanges the sides of the lines. *)
Theorem diff2_swap order a b o r r' :
  (forall s : gset string, order s ≡ₚ elements s) -> tree_inv a -> tree_inv b ->
  diff2 order a b o = Ok r -> diff2 order b a o = Ok r' ->
  r' ≡ₚ (fun l => (l.2, l.1)) <$> r.
Proof.
  intros Ho Ha Hb E E'. destruct (diff2_reference order Ho a b Ha Hb o) as (x & Ex & Hx).
  destruct (diff2_reference order Ho b a Hb Ha o) as (y & Ey & Hy).
  rewrite E in Ex. injection Ex as <-. rewrite E' in Ey. injection Ey as <-.
  rewrite Hx, Hy. unfold reference2. rewrite <-list_fmap_compose.
  rewrite (union_comm_L (dom (model b))). apply Permutation_map.
  erewrite List.filter_ext; [done|]. intros q. cbn beta. unfold seen2.
  by rewrite (andb_comm (is_dir_at (model b) _)), (differ_sym o (model b !! q)).
Qed.

Lemma diff2_swap_witness :
  match diff2 elements treeA treeB all_opts, diff2 elements treeB treeA all_opts with
  | Ok r, Ok r' => r' ≡ₚ (fun l => (l.2, l.1)) <$> r
  | _, _ => False
  end.
Proof.
  destruct (diff2 elements treeA treeB all_opts) as [r|] eqn:E; [|vm_compute in E; discriminate E].
  destruct (diff2 elements treeB treeA all_opts) as [r'|] eqn:E'; [|vm_compute in E'; discriminate E'].
  exact (diff2_swap elements treeA treeB all_opts r r' elements_order treeA_inv treeB_inv E E').
Defined.

(** C15: When the regular files have hashes, or hashes are ignored, [diff3] fails
    no assertion and reports exactly the lines of the reference definition: the
    paths in directories that at least two trees have, on which the trees that
    have the directory do not all agree; a tree without the directory has no
    side in the line. *)
Theorem diff3_is_reference order a b c o :
  (forall s : gset string, order s ≡ₚ elements s) -> tree_inv a -> tree_inv b -> tree_inv c ->
  o_hash o = false \/ (hashed a /\ hashed b) ->
  exists r, diff3 order a b c o = Ok r /\ r ≡ₚ reference3 (model a) (model b) (model c) o.
Proof. intros Ho Ha Hb Hc Hh. apply diff3_reference; try done. by apply hashed_transitive. Qed.

Lemma treeA_hashed : hashed treeA.
Proof. apply (bool_decide_eq_true_1 _). vm_compute. reflexivity. Qed.
Lemma treeB_hashed : hashed treeB.
Proof. apply (bool_decide_eq_true_1 _). vm_compute. reflexivity. Qed.

Lemma diff3_is_reference_witness :
  exists r, diff3 elements treeA treeB treeC all_opts = Ok r /\
    r ≡ₚ reference3 (model treeA) (model treeB) (model treeC) all_opts.
Proof.
  apply (diff3_is_reference elements treeA treeB treeC all_opts elements_order
    treeA_inv treeB_inv treeC_inv).
  right. split; [exact treeA_hashed|exact treeB_hashed].
Defined.

(** The three way diff of such trees is empty exactly if all three have the
    same paths with entries that compare equal. *)
Theorem diff3_empty order a b c o :
  (forall s : gset string, order s ≡ₚ elements s) -> tree_inv a -> tree_inv b -> tree_inv c ->
  o_hash o = false \/ (hashed a /\ hashed b) ->
  diff3 order a b c o = Ok [] <-> agree o (model a) (model b) /\ agree o (model b) (model c).
Proof.
  intros Ho Ha Hb Hc Hh. rewrite <-(reference3_nil a b c o Ha Hb Hc).
  destruct (diff3_reference order Ho a b c Ha Hb Hc o (hashed_transitive a b c o Hh)) as (r & -> & Hr). split.
  - intros [= ->]. by apply Permutation_nil_l in Hr.
  - intros E. rewrite E in Hr. by apply Permutation_nil_r in Hr as ->.
Qed.

Lemma diff3_empty_witness : diff3 elements treeA treeA treeA all_opts = Ok [].
Proof.
  apply (diff3_empty elements treeA treeA treeA all_opts elements_order treeA_inv treeA_inv treeA_inv).
  - right. split; exact treeA_hashed.
  - assert (Hag : agree all_opts (model treeA) (model treeA)).
    { intros q. destruct (model treeA !! q) as [e|]; [|reflexivity]. cbn [differ].
      rewrite compare_refl. reflexivity. }
    split; exact Hag.
Defined.

(** Without that condition the assertion of [diff3] that comparison is
    transitive does fail: a tree whose file has no hash, between two trees that
    have different hashes for it, aborts the program. *)
Theorem diff3_transitivity_assertion :
  let t h := sample_tree [[sample_file "f" 3 h]] in
  tree_inv (t hashA) /\ tree_inv (t "") /\ tree_inv (t hashB) /\
  diff3 elements (t hashA) (t "") (t hashB) all_opts
    = Err (AssertFailed "Diff3Helper::recursiveCompare: compare(ae,ce,opt)").
Proof.
  split_and!; try (apply (bool_decide_eq_true_1 _)); vm_compute; reflexivity.
Qed.
