(* ===== verification/ThmFs.v ===== *)
(** * Theorems on owners, scanning and the filesystem *)

From S2P Require Import Prelude CxxPath CxxTime CxxStream Element ExtFs Node Tree TreeInv TreeOps TreeCopy TreeIO TreeLoad DiffSpec FileSystem FsSpec TreeFs Status ScanSpec Samples.

(** ** Owners *)

(** C34: With a consistent user database, and caches that agree with it, every
    numeric owner gets a name, and that name is translated back to the same
    number, also if the database does not know the number: restoring the owner
    of a scanned file restores its identifier. *)
Theorem owner_round_trip getId getName c id :
  db_bijective getId getName -> cache_ok getId c ->
  exists name c1 c2, ext_lookup_user_uid getId id c = (Ok name, c1) /\
    ext_lookup_user_name getName name c1 = (Ok id, c2) /\ cache_ok getId c1 /\ cache_ok getId c2.
Proof.
  intros Hdb Hc.
  destruct (lookup_by_id_ok getId getName Hdb "ext_lookup_user(uid_t uid): getpwuid_r failed" c id Hc)
    as (c1 & E1 & Hc1 & Hid & _).
  destruct (lookup_by_name_ok getId getName Hdb "ext_lookup_user(const string& user): getpwnam_r failed"
    (fun user => "ext_lookup_user(const string& user): user " +:+ user +:+ " not found in the system")
    c1 id Hc1 (or_introl Hid)) as (c2 & E2 & Hc2 & _).
  eauto 10.
Qed.

(** a database with one user *)
Definition one_user_id (id : N) : db_result string :=
  if bool_decide (id = 0%N) then DbFound "root" else DbNotFound.
Definition one_user_name (n : string) : db_result N :=
  if bool_decide (n = "root") then DbFound 0%N else DbNotFound.

Lemma one_user_bijective : db_bijective one_user_id one_user_name.
Proof.
  unfold one_user_id, one_user_name. split.
  - intros id n. repeat case_bool_decide; naive_solver.
  - intros id. by case_bool_decide.
  - intros n. by case_bool_decide.
  - intros id id' _. case_bool_decide as Hr; [|done]. intros _.
    destruct (N_to_string_spec id) as (_ & Hd & _). by rewrite Hr in Hd.
Qed.

Lemma owner_round_trip_witness :
  exists name c1 c2, ext_lookup_user_uid one_user_id 1234 empty_cache = (Ok name, c1) /\
    ext_lookup_user_name one_user_name name c1 = (Ok 1234%N, c2) /\
    cache_ok one_user_id c1 /\ cache_ok one_user_id c2.
Proof.
  apply (owner_round_trip one_user_id one_user_name empty_cache 1234 one_user_bijective).
  apply cache_ok_empty.
Defined.

(** A name found once is the answer to every later lookup of that number,
    whatever the database says by then. *)
Theorem owner_lookup_stable getId getId' id c name c' :
  ext_lookup_group_gid getId id c = (Ok name, c') ->
  ext_lookup_group_gid getId' id c' = (Ok name, c').
Proof.
  unfold ext_lookup_group_gid, lookup_by_id. destruct (byId c !! id) as [n|] eqn:E.
  - intros [= <- <-]. by rewrite E.
  - destruct (getId id) as [| |n]; [done|..]; intros [= <- <-]; cbn [byId]; by rewrite lookup_insert_eq.
Qed.

Lemma owner_lookup_stable_witness :
  ext_lookup_group_gid (fun _ => DbFailed) 0 (ext_lookup_group_gid one_user_id 0 empty_cache).2
    = (Ok "root", (ext_lookup_group_gid one_user_id 0 empty_cache).2).
Proof.
  apply (owner_lookup_stable one_user_id (fun _ => DbFailed) 0 empty_cache "root").
  vm_compute. reflexivity.
Defined.

(** Where two names share a number, looking up the second name makes it the
    name of the number: a file of root is then listed as owned by the alias,
    although the database says root. *)
Theorem owner_alias_shadows :
  let getId (id : N) := if bool_decide (id = 0%N) then DbFound "root" else DbNotFound in
  let getName n := if bool_decide (n = "root") || bool_decide (n = "toor") then DbFound 0%N else DbNotFound in
  (ext_lookup_user_uid getId 0 empty_cache).1 = Ok "root" /\
  (ext_lookup_user_uid getId 0 (ext_lookup_user_name getName "toor" empty_cache).2).1 = Ok "toor".
Proof. split; vm_compute; reflexivity. Qed.

(** C35: The mode word of a file is decoded as [sys/stat.h] composes it: for each of
    the seven types with its code ([S_IFREG] and so on) and all twelve permission
    bits, the type and the permissions come back; and any mode is decoded to one of
    these types only if its type bits are the code of that type. *)
Theorem mode_decoded t code perm :
  type_code t = Some code -> (0 <= perm < 4096)%Z ->
  mode_type (Z.lor code perm) = t /\ mode_permissions (Z.lor code perm) = perm /\
  forall mode, mode_type mode = t <-> Z.land mode S_IFMT = code.
Proof.
  intros Ht Hp. destruct (mode_parts t code perm Ht Hp) as [Hc Hpe].
  split; [by apply (mode_type_code _ t code)|]. split; [done|]. intros mode. by apply mode_type_code.
Qed.

Lemma mode_decoded_witness : mode_type 33261 = regular /\ mode_permissions 33261 = 493%Z.
Proof. destruct (mode_decoded regular 32768 493) as (Ht & Hp & _); [reflexivity|lia|]. split; [exact Ht|exact Hp]. Defined.

(** ** Scanning *)

(** C22: Scanning a directory of a well-formed filesystem succeeds, whatever the
    order of the directory entries, and the tree is a picture of the directory:
    at every path below it the tree has the element of the file that is there,
    with its type, permissions, owner, time, size, hash and link target, and no
    other element; the invariant of the index holds and the content is sorted. *)
Theorem scan_is_picture sha1 order absolute fs p o t :
  (forall s : gset string, order s ≡ₚ elements s) -> fs_wf fs -> good_top (absolute p) = true ->
  is_directory fs (absolute p) = true ->
  exists t', scanDirectory sha1 order absolute fs p o t = (Ok tt, t') /\
    tree_inv t' /\ tree_sorted t' /\ topPath t' = Some (absolute p) /\ opt t' = o /\
    forall q, model t' !! q = if decide (q = "") then None else scan_at sha1 fs (absolute p) o q.
Proof. intros Ho Hfs Ht Hd. by apply scanDirectory_spec. Qed.

Lemma scan_is_picture_witness :
  exists t', scanDirectory (fun d => hashA) elements (fun p => p) sampleFs "/home" ComputeHash emptyTree
      = (Ok tt, t') /\
    tree_inv t' /\ tree_sorted t' /\ topPath t' = Some "/home" /\ opt t' = ComputeHash /\
    forall q, model t' !! q =
      if decide (q = "") then None else scan_at (fun d => hashA) sampleFs "/home" ComputeHash q.
Proof.
  apply (scan_is_picture (fun d => hashA) elements (fun p => p) sampleFs "/home" ComputeHash emptyTree
    elements_order sampleFs_wf); vm_compute; reflexivity.
Defined.

(** Scanning what is not a directory throws; the tree is left empty, bound to
    that path. *)
Theorem scan_not_directory sha1 order absolute fs p o t :
  is_directory fs (absolute p) = false ->
  exists t', scanDirectory sha1 order absolute fs p o t
      = (Err (Throw (p +:+ " is not a directory")), t') /\
    topContent t' = [] /\ index t' = ∅ /\ topPath t' = Some (absolute p).
Proof.
  intros Hd. unfold scanDirectory, mbind, method_bind, clear, set_opt, set_topPath. rewrite Hd.
  cbn [negb]. eexists. split; [done|]. done.
Qed.

Lemma scan_not_directory_witness :
  exists t', scanDirectory (fun d => hashA) elements (fun p => p) sampleFs "/none" ComputeHash treeA
      = (Err (Throw "/none is not a directory"), t') /\
    topContent t' = [] /\ index t' = ∅ /\ topPath t' = Some "/none".
Proof.
  apply (scan_not_directory (fun d => hashA) elements (fun p => p) sampleFs "/none" ComputeHash treeA).
  vm_compute. reflexivity.
Defined.

(** ** File status *)

(** C33: The constructor of [FilesystemElement] sees the filesystem of the model.
    With consistent databases of users and groups, caches that agree with them, and
    an [lstat] that returns the mode word that [sys/stat.h] prescribes for the type
    and the permissions of the file, its numeric owners, size, time and link count,
    the element that the constructor decodes from [struct stat] (or its exception) is
    that of the model with names for owners; the caches stay in agreement. *)
Theorem constructor_sees_model sha1 lstat read_symlink getpwuid getgrgid getpwnam getgrnam c fs p top o :
  db_bijective getpwuid getpwnam -> db_bijective getgrgid getgrnam ->
  owners_ok getpwuid getgrgid c -> system_shows lstat read_symlink getpwuid getgrgid fs ->
  exists c', element_from_status lstat read_symlink (hashFile sha1 fs) getpwuid getgrgid p top o c
      = (element_at sha1 fs p top o, c') /\ owners_ok getpwuid getgrgid c'.
Proof. intros Hu Hg. apply (element_refines sha1 lstat read_symlink getpwuid getgrgid getpwnam getgrnam Hu Hg). Qed.

(** a database with one entry *)
Definition one_id (name : string) (id : N) : db_result string := if bool_decide (id = 0%N) then DbFound name else DbNotFound.
Definition one_name (name n : string) : db_result N := if bool_decide (n = name) then DbFound 0%N else DbNotFound.

Lemma one_bijective name : (forall id, N_to_string id <> name) -> db_bijective (one_id name) (one_name name).
Proof.
  intros Hn. unfold one_id, one_name. split.
  - intros id n. repeat case_bool_decide; naive_solver.
  - intros id. by case_bool_decide.
  - intros n. by case_bool_decide.
  - intros id id' _. by rewrite bool_decide_false.
Qed.

(** the status of a file *)
Definition stat_of (i : Inode) : Stat :=
  mkStat (Z.lor (default 0%Z (type_code (i_type i))) (i_perm i)) 0 0 (Z.of_nat (String.length (i_data i)))
    (i_mtime i) (i_links i).

Definition sample_lstat (p : path) : option Stat := stat_of <$> inodes sampleFs !! locate p.
Definition sample_read_symlink (p : path) : outcome string :=
  match inodes sampleFs !! locate p with Some i => Ok (i_target i) | None => Err (Throw "read_symlink") end.

Lemma sample_system : system_shows sample_lstat sample_read_symlink (one_id "root") (one_id "wheel") sampleFs.
Proof.
  assert (H : map_Forall (fun _ i => type_code (i_type i) <> None /\ (0 <= i_perm i < 4096)%Z /\
    i_user i = "root" /\ i_group i = "wheel") (inodes sampleFs)).
  { apply (bool_decide_eq_true_1 _). vm_compute. reflexivity. }
  unfold sample_lstat, sample_read_symlink. split.
  - intros p ->. done.
  - intros p i Hi. exists (stat_of i). rewrite Hi. split; [done|]. destruct (H _ i Hi) as (Ht & Hp & Hu & Hg).
    unfold status_of, stat_of. cbn. rewrite Hu, Hg. destruct (type_code (i_type i)) as [code|]; [|done].
    split; [by exists code|]. done.
  - by intros p i ->.
Qed.

Lemma constructor_sees_model_witness :
  exists c', element_from_status sample_lstat sample_read_symlink (hashFile (fun d => d) sampleFs)
      (one_id "root") (one_id "wheel") "/home/docs/readme" "/home" ComputeHash (mkOwners empty_cache empty_cache)
    = (element_at (fun d => d) sampleFs "/home/docs/readme" "/home" ComputeHash, c') /\
    owners_ok (one_id "root") (one_id "wheel") c'.
Proof.
  apply (constructor_sees_model (fun d => d) sample_lstat sample_read_symlink (one_id "root") (one_id "wheel")
    (one_name "root") (one_name "wheel")).
  - apply one_bijective. intros id Hr. destruct (N_to_string_spec id) as (_ & Hd & _). rewrite Hr in Hd. discriminate Hd.
  - apply one_bijective. intros id Hr. destruct (N_to_string_spec id) as (_ & Hd & _). rewrite Hr in Hd. discriminate Hd.
  - split; apply cache_ok_empty.
  - exact sample_system.
Defined.

(** [ext_symlink_change_ownership] acts on the filesystem of the model. With
    consistent databases, caches that agree with them, and an [lchown] that takes
    numbers and clears set-ID bits, translating both names through the caches and
    calling [lchown] does, for every path and any two names, what the model does to
    its files with names: it throws the same exception where a name is in neither the
    cache nor the database, and where the change is not allowed. The caches stay in
    agreement and know the same names. *)
Theorem chown_acts_on_model getpwuid getgrgid getpwnam getgrnam lchown c fs p u g :
  db_bijective getpwuid getpwnam -> db_bijective getgrgid getgrnam -> lchown_shows getpwuid getgrgid lchown ->
  owners_ok getpwuid getgrgid c -> rights_shown getpwnam getgrnam c (rights fs) ->
  exists c', change_ownership_by_name getpwnam getgrnam lchown p u g (c, fs)
      = (let '(r, fs') := ext_symlink_change_ownership p u g fs in (r, (c', fs'))) /\
    owners_ok getpwuid getgrgid c' /\ rights_shown getpwnam getgrnam c' (rights fs).
Proof. intros Hu Hg. apply (change_refines getpwuid getgrgid getpwnam getgrnam Hu Hg). Qed.

(** the sample files, where only root and wheel are known *)
Definition rootFs : FS := mkFS (inodes sampleFs) 1700000000 "root" "wheel" 18 (mkRights true {["root"]} {["wheel"]}).

Definition sample_lchown (p : path) (uid gid : N) (fs : FS) : bool * FS :=
  match inodes fs !! locate p with
  | Some i =>
      if may_chown (rights fs)
      then (true, set_inodes (<[locate p := with_owner (owner_name (one_id "root") uid) (owner_name (one_id "wheel") gid) i]>
                    (inodes fs)) fs)
      else (false, fs)
  | None => (false, fs)
  end.

Lemma one_known name n : n ∈ ({[name]} : gset string) <-> name_known (one_name name) empty_cache n.
Proof.
  unfold name_known, one_name. rewrite elem_of_singleton. split.
  - intros ->. exists 0%N. right. by rewrite bool_decide_true.
  - intros (id & [H|H]); [cbn in H; by rewrite lookup_empty in H|]. by case_bool_decide.
Qed.

Lemma chown_acts_on_model_witness :
  (change_ownership_by_name (one_name "root") (one_name "wheel") sample_lchown "/home/docs" "nobody" "wheel"
    (mkOwners empty_cache empty_cache, rootFs)).1
  = Err (Throw "ext_lookup_user(const string& user): user nobody not found in the system").
Proof.
  destruct (chown_acts_on_model (one_id "root") (one_id "wheel") (one_name "root") (one_name "wheel") sample_lchown
    (mkOwners empty_cache empty_cache) rootFs "/home/docs" "nobody" "wheel") as (c' & E & _).
  - apply one_bijective. intros id Hr. destruct (N_to_string_spec id) as (_ & Hd & _). rewrite Hr in Hd. discriminate Hd.
  - apply one_bijective. intros id Hr. destruct (N_to_string_spec id) as (_ & Hd & _). rewrite Hr in Hd. discriminate Hd.
  - intros p uid gid fs. reflexivity.
  - split; apply cache_ok_empty.
  - split; intros n; apply one_known.
  - rewrite E. vm_compute. reflexivity.
Defined.
