(* ===== verification/ThmThreads.v ===== *)
(** * Theorems on the two scanning threads *)

From S2P Require Import Prelude CxxPath CxxTime CxxStream Element ExtFs Node Tree FileSystem TreeFs Status Threads Backup ThreadsSpec Samples ThmFs.

(** C18: In every interleaving of the two scanning threads the mutex does its work: a
    thread is inside of a lookup exactly while it holds the lock, so never both of
    them; and whenever the lock is free, the caches of users and groups hold exactly
    the names of the user database, in both directions. *)
Theorem lock_protects_caches sha1 lstat read_symlink getpwuid getgrgid getpwnam getgrnam listing absolute fs c buf src dst o S :
  db_bijective getpwuid getpwnam -> db_bijective getgrgid getgrnam ->
  system_shows lstat read_symlink getpwuid getgrgid fs -> owners_ok getpwuid getgrgid c ->
  rtc (step getpwuid getgrgid) (scans sha1 lstat read_symlink listing absolute fs c buf src dst o) S ->
  ((background S).1 <> Outside <-> mutex (shared S) = Some true) /\
  ((foreground S).1 <> Outside <-> mutex (shared S) = Some false) /\
  (mutex (shared S) = None -> owners_ok getpwuid getgrgid (owners (shared S))).
Proof.
  intros Hu Hg Hsys Hc Hr.
  destruct (reachable_ok _ _ _ _ Hu Hg _ _ _ _ Hr (scans_ok sha1 lstat read_symlink getpwuid getgrgid listing absolute fs Hsys c buf src dst o Hc))
    as [[_ H1] [_ H2] H3].
  split; [|split; [|exact H3]].
  - destruct (background S).1; (split; [|try done]); try (intros; by apply H1); done.
  - destruct (foreground S).1; (split; [|try done]); try (intros; by apply H2); done.
Qed.

(** the two scans of /home and /backup *)
Definition sample_scans : System :=
  scans (fun d => d) sample_lstat sample_read_symlink elements (fun p => p) sampleFs
    (mkOwners empty_cache empty_cache) "" "/home" "/backup" ComputeHash.

Lemma one_root_bijective : db_bijective (one_id "root") (one_name "root").
Proof. apply one_bijective. intros id Hr. destruct (N_to_string_spec id) as (_ & Hd & _). by rewrite Hr in Hd. Qed.
Lemma one_wheel_bijective : db_bijective (one_id "wheel") (one_name "wheel").
Proof. apply one_bijective. intros id Hr. destruct (N_to_string_spec id) as (_ & Hd & _). by rewrite Hr in Hd. Qed.
Lemma no_owners_ok : owners_ok (one_id "root") (one_id "wheel") (mkOwners empty_cache empty_cache).
Proof. split; apply cache_ok_empty. Qed.

(** the threads start *)
Lemma sample_scans_step : exists S, step (one_id "root") (one_id "wheel") sample_scans S.
Proof.
  destruct (system_steps _ _ _ _ _ (scans_ok (fun d => d) sample_lstat sample_read_symlink (one_id "root") (one_id "wheel")
    elements (fun p => p) sampleFs sample_system _ "" "/home" "/backup" ComputeHash no_owners_ok)) as [(_ & Hb & _)|]; [|done].
  exfalso. assert (Hask : match (background sample_scans).2 with Ask _ _ => true | Done _ => false end = true)
    by (vm_compute; reflexivity).
  unfold sample_scans in Hask. by rewrite Hb in Hask.
Qed.

Lemma lock_protects_caches_witness :
  exists S, step (one_id "root") (one_id "wheel") sample_scans S /\
    ((background S).1 <> Outside <-> mutex (shared S) = Some true) /\
    ((foreground S).1 <> Outside <-> mutex (shared S) = Some false) /\
    (mutex (shared S) = None -> owners_ok (one_id "root") (one_id "wheel") (owners (shared S))).
Proof.
  destruct sample_scans_step as [S Hst]. exists S. split; [exact Hst|].
  apply (lock_protects_caches (fun d => d) sample_lstat sample_read_symlink (one_id "root") (one_id "wheel")
    (one_name "root") (one_name "wheel") elements (fun p => p) sampleFs (mkOwners empty_cache empty_cache) ""
    "/home" "/backup" ComputeHash S).
  - exact one_root_bijective.
  - exact one_wheel_bijective.
  - exact sample_system.
  - exact no_owners_ok.
  - apply rtc_once. exact Hst.
Defined.

(** C17: Scanning in two threads is scanning one directory after the other. However the
    steps of the two threads are interleaved, there are at most six per lookup of an
    owner; a state in which no thread can make a step is one in which both have ended;
    and then the trees and exceptions are those of the two scans done alone, joined
    as [scanSourceTargetDir] joins them, and the caches agree with the user database.
    Such a state is reached. *)
Theorem scan_threads_end sha1 lstat read_symlink getpwuid getgrgid getpwnam getgrnam listing absolute fs c buf src dst o :
  db_bijective getpwuid getpwnam -> db_bijective getgrgid getgrnam ->
  system_shows lstat read_symlink getpwuid getgrgid fs -> owners_ok getpwuid getgrgid c ->
  let start := scans sha1 lstat read_symlink listing absolute fs c buf src dst o in
  let scan dir := scanning sha1 lstat read_symlink listing absolute fs dir o in
  (forall n S, nsteps (step getpwuid getgrgid) n start S ->
     n <= 6 * (lookups getpwuid getgrgid (scan src) + lookups getpwuid getgrgid (scan dst))) /\
  (forall S, rtc (step getpwuid getgrgid) start S ->
     (exists S', step getpwuid getgrgid S S') \/
     exists v1 v2, finished S v1 v2 /\ owners_ok getpwuid getgrgid (owners (shared S)) /\
       v1 = scanDirectory sha1 listing absolute fs src o emptyTree /\
       v2 = scanDirectory sha1 listing absolute fs dst o emptyTree /\
       join_scans v1 v2 = scanSourceTargetDir sha1 listing absolute fs src dst true o) /\
  exists S v1 v2, rtc (step getpwuid getgrgid) start S /\ finished S v1 v2.
Proof.
  intros Hu Hg Hsys Hc start scan.
  assert (Hbound : forall n S, nsteps (step getpwuid getgrgid) n start S ->
    n <= 6 * (lookups getpwuid getgrgid (scan src) + lookups getpwuid getgrgid (scan dst)))
    by (intros n S; exact (scans_bounded sha1 lstat read_symlink getpwuid getgrgid getpwnam getgrnam Hu Hg listing absolute fs Hsys c buf src dst o n S Hc)).
  split; [exact Hbound|]. split.
  { intros S. exact (scans_proceed sha1 lstat read_symlink getpwuid getgrgid getpwnam getgrnam Hu Hg listing absolute fs Hsys c buf src dst o S Hc). }
  destruct (bounded_run_ends (step getpwuid getgrgid) (fun S => exists v1 v2, finished S v1 v2) start _ Hbound)
    as (S & Hr & v1 & v2 & Hf); [|by exists S, v1, v2].
  intros S Hr. destruct (scans_proceed sha1 lstat read_symlink getpwuid getgrgid getpwnam getgrnam Hu Hg listing absolute fs Hsys c buf src dst o S Hc Hr)
    as [?|(v1 & v2 & Hf & _)]; [by left|right; eauto].
Qed.

Lemma scan_threads_end_witness :
  exists S, rtc (step (one_id "root") (one_id "wheel")) sample_scans S /\
    finished S (scanDirectory (fun d => d) elements (fun p => p) sampleFs "/home" ComputeHash emptyTree)
      (scanDirectory (fun d => d) elements (fun p => p) sampleFs "/backup" ComputeHash emptyTree).
Proof.
  destruct (scan_threads_end (fun d => d) sample_lstat sample_read_symlink (one_id "root") (one_id "wheel")
    (one_name "root") (one_name "wheel") elements (fun p => p) sampleFs (mkOwners empty_cache empty_cache) ""
    "/home" "/backup" ComputeHash one_root_bijective one_wheel_bijective sample_system no_owners_ok)
    as (_ & Hgo & S & v1 & v2 & Hr & Hf).
  exists S. split; [exact Hr|]. destruct (Hgo S Hr) as [[S' Hst]|(w1 & w2 & Hf' & _ & -> & -> & _)]; [|exact Hf'].
  exfalso. destruct Hf as (_ & Hb & Hg). inversion Hst as [? ? ? ? ? H|? ? ? ? ? H]; subst; cbn in *;
    [rewrite Hb in H|rewrite Hg in H]; inversion H.
Defined.
