(* ===== verification/ThmSync.v ===== *)
(** * Theorems on the operations that change a tree and its directory

    [bound top t fs] says that the tree [t] satisfies its invariant, is bound to
    the directory [top] of a well-formed filesystem, and depicts it: at every
    path both have an entry of the same type, permissions, owner, modification
    time, content and link target, or none. [fs_step top fs fs'] says that no
    file outside of [top] changed. *)

From S2P Require Import Prelude CxxPath CxxTime CxxStream Element Node Tree TreeInv TreeOps TreeCopy TreeIO TreeLoad DiffSpec FileSystem FsSpec TreeFs FsData ScanSpec SyncSpec SyncOps SyncCopy Samples.

(** ** Samples *)

(** the tree of a directory, with the content in place of its hash *)
Definition scanned (fs : FS) (p : path) : DirectoryTree :=
  (scanDirectory (fun d => d) elements (fun p => p) fs p ComputeHash emptyTree).2.

Lemma scanned_bound fs p :
  fs_wf fs -> good_top p = true -> is_dir_loc fs (locate p) = true -> bound (fun d => d) p (scanned fs p) fs.
Proof.
  intros Hwf Hg Hd. unfold scanned.
  destruct (scan_bound (fun d => d) elements (fun p => p) fs p ComputeHash emptyTree (fun _ => reflexivity _) Hwf Hg Hd)
    as (t' & -> & Hb). exact Hb.
Qed.

Lemma home_bound : bound (fun d => d) "/home" (scanned sampleFs "/home") sampleFs.
Proof. apply scanned_bound; [exact sampleFs_wf|reflexivity|vm_compute; reflexivity]. Qed.

(** ** Theorems *)



(** C23: Removing an entry of a tree that depicts its directory succeeds and removes
    the entry with everything below it, from both: the tree depicts the directory
    again, the modification time of the parent directory included, and nothing
    outside of the directory changed. The result is the number of entries that went,
    converted to an [int]: right if there are less than 2^31 of them. *)
Theorem remove_keeps_in_step sha1 top t fs p :
  bound sha1 top t fs -> is_Some (model t !! p) ->
  exists n t' fs', removeFromTreeAndFilesystem p (t, fs) = (Ok n, (t', fs')) /\
    n = to_int (Z.of_nat (size (subtree p (model t)))) /\
    ((Z.of_nat (size (subtree p (model t))) < 2 ^ 31)%Z -> n = Z.of_nat (size (subtree p (model t)))) /\
    bound sha1 top t' fs' /\ fs_step top fs fs' /\ model t' = prune p (model t).
Proof.
  intros Hb [e He]. destruct (removeFromTree_sync sha1 top t fs p e Hb He) as (t' & fs' & E & H).
  eexists _, t', fs'. split; [exact E|]. split; [done|]. split; [|exact H].
  intros Hn. apply to_int_small. lia.
Qed.

Lemma remove_keeps_in_step_witness :
  exists n t' fs', removeFromTreeAndFilesystem "docs" (scanned sampleFs "/home", sampleFs) = (Ok n, (t', fs')) /\ n = 2%Z /\
    bound (fun d => d) "/home" t' fs' /\ fs_step "/home" sampleFs fs' /\
    model t' = prune "docs" (model (scanned sampleFs "/home")).
Proof.
  destruct (remove_keeps_in_step (fun d => d) "/home" (scanned sampleFs "/home") sampleFs "docs" home_bound)
    as (n & t' & fs' & E & -> & _ & H); [eexists; vm_compute; reflexivity|].
  eexists _, t', fs'. split; [exact E|]. split; [vm_compute; reflexivity|exact H].
Defined.

(** C24: Changing the permissions of a file or directory, the owner, or the
    modification time of an entry changes the same field of the element and of the
    file: the tree still depicts its directory, and nothing outside of the directory
    changed. For the owner this needs that the program may change owners, that both
    names are known, and that the entry has no set-ID bit, which would be cleared. *)
Theorem metadata_keeps_in_step sha1 top t fs p e perm user group mtime :
  bound sha1 top t fs -> model t !! p = Some e ->
  let in_step (op : world_method unit) (f : FilesystemElement -> FilesystemElement) :=
    exists t' fs', op (t, fs) = (Ok tt, (t', fs')) /\ bound sha1 top t' fs' /\ fs_step top fs fs' /\
      model t' = alter f p (model t) in
  (ty e <> symlink_ -> in_step (modifyPermissionsInTreeAndFilesystem p perm) (setPermissions perm)) /\
  (may_own (rights fs) user group = true -> chown_mode (ty e) (per e) = per e ->
     in_step (modifyOwnerInTreeAndFilesystem p user group) (fun e => setGroup group (setUser user e))) /\
  in_step (modifyMtimeInTreeAndFilesystem p mtime) (setMtime mtime).
Proof.
  intros Hb He in_step. unfold in_step. split_and!.
  - intros Hl. exact (modifyPermissions_sync sha1 top t fs p e perm Hb He Hl).
  - intros Hc Hk. exact (modifyOwner_sync sha1 top t fs p e user group Hb Hc Hk He).
  - exact (modifyMtime_sync sha1 top t fs p e mtime Hb He).
Qed.

Lemma metadata_keeps_in_step_witness :
  exists t' fs', modifyPermissionsInTreeAndFilesystem "docs/readme" 384 (scanned sampleFs "/home", sampleFs)
      = (Ok tt, (t', fs')) /\ bound (fun d => d) "/home" t' fs' /\ fs_step "/home" sampleFs fs' /\
    model t' = alter (setPermissions 384) "docs/readme" (model (scanned sampleFs "/home")).
Proof.
  refine (proj1 (metadata_keeps_in_step (fun d => d) "/home" (scanned sampleFs "/home") sampleFs "docs/readme"
    (mkElem regular 420 "root" "wheel" 1600000000 5 "hello" "docs/readme" "" 1) 384 "" "" 0 home_bound _) _).
  - vm_compute. reflexivity.
  - discriminate.
Defined.





(** ** Content *)

(** C26: Whatever operations are called on a tree bound to a directory, in whatever
    order, whether they succeed or throw, and even if the tree has nothing to do with
    the files any more: a file, directory or link that existed before is still there
    with its type, data and target, unless it is at or below a path that one of the
    operations was asked to remove. Nothing is ever overwritten, neither by a copy
    nor through a change of metadata. *)
Theorem changes_spare_content cs t fs top l i :
  topPath t = Some top -> inodes fs !! l = Some i -> Forall (fun c => ~ removes top c l) cs ->
  exists i', inodes (run_changes cs (t, fs)).2 !! l = Some i' /\
    i_type i' = i_type i /\ i_data i' = i_data i /\ i_target i' = i_target i.
Proof.
  intros Htop Hi Hcs. destruct (changes_kept (fun l' => l' = l) cs t fs top Htop) as [Hk _].
  - intros c l' Hc -> Hr. rewrite Forall_forall in Hcs. by apply (Hcs c).
  - by apply Hk.
Qed.

(** a link is removed, then again, and the file is copied onto itself *)
Definition sample_changes : list change :=
  [ch_remove "link"; ch_remove "link"; ch_permissions "docs" 448;
   ch_copy (scanned sampleFs "/home") "docs/readme" "docs"].

Lemma changes_spare_content_witness :
  exists i', inodes (run_changes sample_changes (scanned sampleFs "/home", sampleFs)).2 !! ["home"; "docs"; "readme"] = Some i' /\
    i_type i' = regular /\ i_data i' = "hello" /\ i_target i' = "".
Proof.
  apply (changes_spare_content sample_changes (scanned sampleFs "/home") sampleFs "/home" ["home"; "docs"; "readme"]
    (sample_inode regular 420 "hello" "")).
  - vm_compute. reflexivity.
  - vm_compute. reflexivity.
  - apply (bool_decide_eq_true_1 _). vm_compute. reflexivity.
Defined.
