(* ===== verification/ThmBackup.v ===== *)
(** * Theorems on backups *)

From S2P Require Import Prelude CxxPath CxxTime CxxStream Element Node Tree TreeInv TreeOps TreeCopy TreeIO TreeLoad Diff DiffSpec FileSystem FsSpec TreeFs ScanSpec SyncSpec SyncOps SyncCopy Backup BackupSpec BackupRun Samples ThmSync.








