(* ===== verification/ThmScrub.v ===== *)
(** * Theorems on scrubbing *)

From S2P Require Import Prelude CxxPath CxxTime CxxStream Element Node Tree TreeInv TreeOps TreeCopy TreeIO TreeLoad Diff DiffSpec Diff3Spec FileSystem FsSpec TreeFs ScanSpec SyncSpec SyncOps SyncCopy Backup BackupSpec BackupRun Scrub ScrubSpec Commands Samples ThmSync.

(** C11: A scrub without --fixup of three trees that all have a hash for every regular
    file always ends, in at most as many rounds as there
    are paths on which a metadata tree disagrees with the backup directory. It
    leaves the directory, its tree and the standard input as they are, and changes
    the metadata trees only towards the directory. It returns 0 and changes
    nothing if both metadata trees agree with the directory; 1 if it made both
    agree, and then they are saved; 2 only if both disagreed at some path, and
    then it does not ask for the metadata to be saved. *)
Theorem scrub_reconciles order rounds s :
  (forall x : gset string, order x ≡ₚ elements x) ->
  tree_inv (dstTree (tm s)) -> hashed (dstTree (tm s)) -> watched (dstTree (tm s)) s ->
  size (bad (dstTree (tm s)) (meta1Tree (tm s)) (meta2Tree (tm s))) < rounds ->
  exists code s', scrubImpl order rounds false s = (Ok code, s') /\
    spared (dstTree (tm s)) s s' /\ verdict (dstTree (tm s)) s s' code.
Proof. intros Ho Hi Hh Hw Hn. by apply scrubImpl_ok. Qed.

(** a scrub of the directory [a] with the metadata trees [b] and [c] *)
Definition sampleSession (a b c : DirectoryTree) : Session :=
  mkSession (mkManager emptyTree a b c "/m1" "/m2" false true false false false) sampleFs "".

Definition sound_tree : DirectoryTree := sample_tree [[sample_dir "d"; sample_link "l" "d"]; [sample_file "d/f" 3 hashA]].
(** another modification time of d *)
Definition touched_tree : DirectoryTree :=
  sample_tree [[setMtime 5%Z (sample_dir "d"); sample_link "l" "d"]; [sample_file "d/f" 3 hashA]].

Lemma sound_tree_inv : tree_inv sound_tree.
Proof. apply (bool_decide_eq_true_1 _). vm_compute. reflexivity. Qed.
Lemma touched_tree_inv : tree_inv touched_tree.
Proof. apply (bool_decide_eq_true_1 _). vm_compute. reflexivity. Qed.

Lemma scrub_reconciles_witness :
  exists code s', scrubImpl elements 10 false (sampleSession sound_tree sound_tree touched_tree) = (Ok code, s') /\
    spared sound_tree (sampleSession sound_tree sound_tree touched_tree) s' /\
    verdict sound_tree (sampleSession sound_tree sound_tree touched_tree) s' code.
Proof.
  apply (scrub_reconciles elements 10 (sampleSession sound_tree sound_tree touched_tree)).
  - intros x. reflexivity.
  - exact sound_tree_inv.
  - apply (bool_decide_eq_true_1 _). vm_compute. reflexivity.
  - split; [reflexivity|reflexivity|exact sound_tree_inv|exact touched_tree_inv| |];
      apply (bool_decide_eq_true_1 _); vm_compute; reflexivity.
  - vm_compute. repeat constructor.
Defined.

(** After a scrub without --fixup that returned 0 or 1, another scrub finds
    no differences, returns 0 and changes nothing. *)
Theorem scrub_twice order rounds rounds' s code s' :
  (forall x : gset string, order x ≡ₚ elements x) ->
  tree_inv (dstTree (tm s)) -> hashed (dstTree (tm s)) -> watched (dstTree (tm s)) s ->
  size (bad (dstTree (tm s)) (meta1Tree (tm s)) (meta2Tree (tm s))) < rounds ->
  scrubImpl order rounds false s = (Ok code, s') -> code <> 2%Z ->
  scrubImpl order rounds' false s' = (Ok 0%Z, s').
Proof.
  intros Ho Hi Hh Hw Hn E Hc.
  destruct (scrubImpl_ok (dstTree (tm s)) Hi Hh order Ho rounds s Hw Hn) as (code' & s1 & E' & Hsp & Hv).
  rewrite E in E'. injection E' as <- <-. apply (scrubImpl_clean (dstTree (tm s)) Hi Hh order Ho); [apply Hsp|..];
    by destruct Hv as [-> ? ?|? ?|].
Qed.

Lemma scrub_twice_witness :
  let s := sampleSession sound_tree sound_tree touched_tree in
  let s' := (scrubImpl elements 10 false s).2 in
  scrubImpl elements 10 false s = (Ok 1%Z, s') /\ scrubImpl elements 1 false s' = (Ok 0%Z, s').
Proof.
  assert (E : scrubImpl elements 10 false (sampleSession sound_tree sound_tree touched_tree) =
    (Ok 1%Z, (scrubImpl elements 10 false (sampleSession sound_tree sound_tree touched_tree)).2))
    by (vm_compute; reflexivity).
  split; [exact E|].
  refine (scrub_twice elements 10 1 (sampleSession sound_tree sound_tree touched_tree) 1%Z _ _ _ _ _ _ E _).
  - intros x. reflexivity.
  - exact sound_tree_inv.
  - apply (bool_decide_eq_true_1 _). vm_compute. reflexivity.
  - split; [reflexivity|reflexivity|exact sound_tree_inv|exact touched_tree_inv| |];
      apply (bool_decide_eq_true_1 _); vm_compute; reflexivity.
  - vm_compute. repeat constructor.
  - discriminate.
Defined.

(** ** Behaviours of the code that its comments do not mean *)



(** C39: The case that [scrubImpl] asserts to be impossible happens whenever the tree of
    the backup directory has no hashes, as in a backup with --nohash, and agrees
    with each of the metadata trees, but these do not agree with each other, as they have
    different hashes: with or without --fixup the scrub fails the assertion. *)
Theorem scrub_unhashed_aborts order rounds fixup s q :
  (forall y : gset string, order y ≡ₚ elements y) -> meta2TreePresent (tm s) = true ->
  tree_inv (dstTree (tm s)) -> tree_inv (meta1Tree (tm s)) -> tree_inv (meta2Tree (tm s)) ->
  every (fun e => fileHash e = "") (model (dstTree (tm s))) ->
  agree all_opts (model (dstTree (tm s))) (model (meta1Tree (tm s))) ->
  agree all_opts (model (dstTree (tm s))) (model (meta2Tree (tm s))) ->
  differ all_opts (model (meta1Tree (tm s)) !! q) (model (meta2Tree (tm s)) !! q) = true ->
  scrubImpl order (S rounds) fixup s = (Err (AssertFailed "scrubImpl: false"), s).
Proof. intros Ho Hp Hi I1 I2 Hh A1 A2 Hq. by apply (scrubImpl_aborts (dstTree (tm s)) Hi order Ho rounds fixup s q). Qed.

(** f without a hash in the backup directory *)
Definition unhashed_tree : DirectoryTree := sample_tree [[sample_file "f" 3 ""]].
Definition treeF (hash : string) : DirectoryTree := sample_tree [[sample_file "f" 3 hash]].

Lemma scrub_unhashed_aborts_witness :
  scrubImpl elements 1 false (sampleSession unhashed_tree (treeF hashA) (treeF hashB)) =
  (Err (AssertFailed "scrubImpl: false"), sampleSession unhashed_tree (treeF hashA) (treeF hashB)).
Proof.
  assert (Hi : tree_inv unhashed_tree /\ tree_inv (treeF hashA) /\ tree_inv (treeF hashB))
    by (split_and!; apply (bool_decide_eq_true_1 _); vm_compute; reflexivity).
  destruct Hi as (I0 & I1 & I2).
  apply (scrub_unhashed_aborts elements 0 false (sampleSession unhashed_tree (treeF hashA) (treeF hashB)) "f").
  - intros y. reflexivity.
  - reflexivity.
  - exact I0.
  - exact I1.
  - exact I2.
  - apply (bool_decide_eq_true_1 (map_Forall _ _)). vm_compute. reflexivity.
  - eapply (diff2_nil elements); [intros y; reflexivity|exact I0|exact I1|vm_compute; reflexivity].
  - eapply (diff2_nil elements); [intros y; reflexivity|exact I0|exact I2|vm_compute; reflexivity].
  - vm_compute. reflexivity.
Defined.

(** ** With --fixup *)

Definition plain_file (t : Z) (text : string) : Inode := mkInode regular 420 "root" "wheel" t text "" 1.

(** f has the same content in /home and in /backup, and is newer in /backup *)
Definition newerFs : FS := mkFS
  (list_to_map [
    ([], sample_inode directory 493 "" "");
    (["home"], sample_inode directory 493 "" ""); (["home"; "f"], plain_file 1600000000 "new");
    (["backup"], sample_inode directory 493 "" ""); (["backup"; "f"], plain_file 1600000500 "new")])
  1700000000 "root" "wheel" 18 sample_rights.

(** the metadata files know the content that f had before *)
Definition older_tree : DirectoryTree :=
  sample_tree [[mkElem regular 420 "root" "wheel" 1600000000 3 "old" "f" "" 1]].

Definition newerSession : Session :=
  mkSession (mkManager (scanned newerFs "/home") (scanned newerFs "/backup") older_tree older_tree
    "/m1" "/m2" true true false false false) newerFs "".

(** C40: A scrub with --fixup that returns 1, "Backup directory is now good", can
    leave the backup directory and both metadata trees different. Let the only
    difference be a file whose content in the backup directory ([x]) is not that of the
    metadata files ([e]) but that of the source directory ([item]), and let the source
    have the attributes of the metadata, but not those of the backup. The code
    decides which attributes of the backup to change by comparing the source with the
    metadata, so it changes none, and then copies the source into the metadata: the
    scrub asks for it to be saved, the files and the tree of the backup directory are as
    before, and both metadata trees have another entry than the backup directory. *)
Theorem scrub_leaves_difference order rounds s p x e item :
  diff3 order (dstTree (tm s)) (meta1Tree (tm s)) (meta2Tree (tm s)) all_opts = Ok [(Some x, Some e, Some e)] ->
  tree_inv (srcTree (tm s)) -> tree_inv (meta1Tree (tm s)) -> tree_inv (meta2Tree (tm s)) ->
  srcTreePresent (tm s) = true -> meta2TreePresent (tm s) = true ->
  model (srcTree (tm s)) !! p = Some item -> model (dstTree (tm s)) !! p = Some x ->
  model (meta1Tree (tm s)) !! p = Some e -> model (meta2Tree (tm s)) !! p = Some e ->
  ty e = regular -> isDirectory x = false ->
  compare x e content_only = false -> elem_eqb item e = false -> elem_eqb item x = false ->
  compare item x content_only = true -> per item = per e -> us item = us e -> gs item = gs e -> mt item = mt e ->
  exists s', scrubImpl order (S rounds) true s = (Ok 1%Z, s') /\ save (tm s') = true /\
    disk s' = disk s /\ dstTree (tm s') = dstTree (tm s) /\
    differ all_opts (model (dstTree (tm s')) !! p) (model (meta1Tree (tm s')) !! p) = true /\
    differ all_opts (model (dstTree (tm s')) !! p) (model (meta2Tree (tm s')) !! p) = true.
Proof.
  intros Hd Is I1 I2 Ps P2 Hi Hx H1 H2 Hty Hdir Hcx Hie Hix Hc Hp Hu Hg Hm.
  destruct (scrubLine_leaves (srcTree (tm s)) p x e item no_flags s) as (b & c & El & Mb & Mc); try done.
  { unfold sourceTree. by rewrite Ps. }
  { by rewrite Hty. }
  { by rewrite Hty. }
  eexists. split.
  - unfold scrubImpl. unfold mbind at 1, method_bind at 1, compareTrees at 1.
    unfold mbind, method_bind, checkMeta2Tree, get_state, lift_outcome at 1, cassert. rewrite P2, Hd.
    cbn [scrubRounds scrubLines]. unfold mbind, method_bind. rewrite El. reflexivity.
  - cbn. rewrite Mb, Mc, Hx. cbn. by rewrite compare_sym, compare_all_opts, Hix.
Qed.

(** the file is newer in the backup directory than in the source *)
Lemma scrub_leaves_difference_witness :
  exists s', scrubImpl elements 10 true newerSession = (Ok 1%Z, s') /\ save (tm s') = true /\ disk s' = newerFs /\
    differ all_opts (model (dstTree (tm s')) !! "f") (model (meta1Tree (tm s')) !! "f") = true.
Proof.
  destruct (scrub_leaves_difference elements 9 newerSession "f"
    (mkElem regular 420 "root" "wheel" 1600000500 3 "new" "f" "" 1)
    (mkElem regular 420 "root" "wheel" 1600000000 3 "old" "f" "" 1)
    (mkElem regular 420 "root" "wheel" 1600000000 3 "new" "f" "" 1)) as (s' & E & Hs & Hd & _ & Hdiff & _);
    try (vm_compute; reflexivity); try (apply (bool_decide_eq_true_1 _); vm_compute; reflexivity).
  exists s'. split; [exact E|]. split; [exact Hs|]. split; [exact Hd|exact Hdiff].
Defined.

(** /backup lost the link l and has a directory d that the metadata does not know *)
Definition lostLinkFs : FS := mkFS
  (list_to_map [
    ([], sample_inode directory 493 "" "");
    (["backup"], sample_inode directory 493 "" ""); (["backup"; "d"], sample_inode directory 493 "" "")])
  1700000000 "root" "wheel" 18 sample_rights.

Definition lostLinkSession : Session :=
  let t := sample_tree [[sample_link "l" "f"]] in
  mkSession (mkManager emptyTree (scanned lostLinkFs "/backup") t t "/m1" "/m2" false true false false false)
    lostLinkFs "y".

(** A scrub with --fixup that recreates a missing link and then has to compare
    the trees again, here as it removed a directory, fails with an exception on
    a link that it has just created: [addSymlinkToTreeAndFilesystem] does not
    enter the link into the index of the tree, so that the comparison misses it. *)
Theorem scrub_link_repeated :
  let '(r, s) := scrubImpl elements 10 true lostLinkSession in
  r = Err (Throw "filesystem error: cannot create symlink [/backup/l]") /\
  (i_target <$> inodes (disk s) !! ["backup"; "l"]) = Some "f" /\ inodes (disk s) !! ["backup"; "d"] = None.
Proof. vm_compute. auto. Qed.

(** ** Questions *)

Definition is_answer (c : ascii) : bool := bool_decide (tolower c = "y"%char) || bool_decide (tolower c = "n"%char).

Definition no_answer (s : string) : Prop := Forall (fun c => is_answer c = false) (String.list_ascii_of_string s).

Lemma askYesNo_found sk c rest :
  no_answer sk -> is_answer c = true ->
  askYesNo (sk +:+ String c rest) = (Ok (bool_decide (tolower c = "y"%char)), rest).
Proof.
  unfold askYesNo. intros Hn Hc. induction sk as [|c' sk IH].
  - change ("" +:+ String c rest) with (String c rest). cbn [read_answer].
    apply orb_true_iff in Hc as [Hc|Hc]; rewrite ?Hc; repeat case_bool_decide; done.
  - apply Forall_cons in Hn as [Hc' Hn]. apply orb_false_iff in Hc' as [Hy Hno].
    specialize (IH Hn).
    change (String c' sk +:+ String c rest) with (String c' (sk +:+ String c rest)). cbn [read_answer].
    rewrite Hy, Hno. by destruct (read_answer _) as [[]|].
Qed.

Lemma askYesNo_cases s :
  no_answer s /\ askYesNo s = (Err Hangs, s) \/
  exists sk c rest, s = sk +:+ String c rest /\ no_answer sk /\ is_answer c = true.
Proof.
  induction s as [|c s IH]; [left; split; [constructor|done]|].
  destruct (is_answer c) eqn:Hc; [right; exists "", c, s; split_and!; [done|constructor|done]|].
  destruct IH as [[Hn E]|(sk & c' & rest & -> & Hn & Hc')].
  - left. split; [by constructor|]. apply orb_false_iff in Hc as [Hy Hno].
    revert E. unfold askYesNo. cbn. rewrite Hy, Hno. by destruct (read_answer s) as [[]|].
  - right. exists (String c sk), c', rest. split_and!; [done|by constructor|done].
Qed.

(** C30: [askYesNo] returns on an input exactly if there is a y or n in it, in
    either case of letters; it then returns whether the first of these is a y and
    leaves the characters after it. On any other input, the end of the input
    included, it never returns. *)
Theorem askYesNo_first inp :
  (forall b rest, askYesNo inp = (Ok b, rest) <->
     exists skipped c, inp = skipped +:+ String c rest /\ no_answer skipped /\
       is_answer c = true /\ b = bool_decide (tolower c = "y"%char)) /\
  (askYesNo inp = (Err Hangs, inp) <-> no_answer inp).
Proof.
  split; [intros b rest; split|].
  - intros E. destruct (askYesNo_cases inp) as [[_ ?]|(sk & c & rest' & -> & Hn & Hc)]; [congruence|].
    rewrite (askYesNo_found sk c rest') in E by done. injection E as <- <-. eauto 10.
  - intros (sk & c & -> & Hn & Hc & ->). by apply askYesNo_found.
  - split; intros H; destruct (askYesNo_cases inp) as [[? ?]|(sk & c & rest & -> & Hn & Hc)]; try done.
    + by rewrite (askYesNo_found sk c rest) in H.
    + unfold no_answer in H. rewrite list_ascii_app in H. cbn in H. apply Forall_app in H as [_ H].
      apply Forall_cons in H as [? _]. congruence.
Qed.
