(* ===== verification/ThmCommands.v ===== *)
(** * Theorems on the commands *)

From S2P Require Import Prelude CxxPath CxxTime CxxStream Element Node Tree TreeInv TreeOps TreeCopy TreeIO TreeLoad Diff DiffSpec Diff3Spec FileSystem FsSpec MetaFiles MetaSpec TreeFs ScanSpec FsData SyncSpec SyncOps SyncCopy Backup BackupSpec BackupRun Scrub ScrubSpec QuickSpec RepairSpec Commands CommandsSpec CommandsRun BackupCommand QuickBackup RepairCommand TouchUp Samples.

(** ** Sample files *)

Definition const_sha1 (d : string) : string := hashA.

Lemma const_sha1_text : sha1_text const_sha1.
Proof. intros d. by split. Qed.

Definition scan_backup (fs : FS) : DirectoryTree :=
  (scanDirectory const_sha1 elements (fun p => p) fs "/backup" ComputeHash emptyTree).2.

(** /backup with a directory and a file *)
Definition backupFs : FS := mkFS
  (list_to_map [
    ([], sample_inode directory 493 "" "");
    (["backup"], sample_inode directory 493 "" "");
    (["backup"; "d"], sample_inode directory 493 "" "");
    (["backup"; "d"; "f"], sample_inode regular 420 "hello" "")])
  1700000000 "root" "wheel" 18 sample_rights.

(** the metadata file of [t] *)
Definition meta_inode (t : DirectoryTree) : Inode :=
  sample_inode regular 420 (match tree_writeTo t with Ok text => text | Err _ => "" end) "".

(** with two metadata files, of which the second is not up to date *)
Definition watchedFs : FS := Eval vm_compute in mkFS
  (<[["m1"] := meta_inode (scan_backup backupFs)]>
    (<[["m2"] := meta_inode (sample_tree [[sample_dir "d"]])]> (inodes backupFs)))
  1700000000 "root" "wheel" 18 sample_rights.

(** /home has a file more than /backup *)
Definition preparedFs : FS := Eval vm_compute in mkFS
  (<[["home"] := sample_inode directory 493 "" ""]>
    (<[["home"; "d"] := sample_inode directory 493 "" ""]>
      (<[["home"; "d"; "g"] := sample_inode regular 420 "new" ""]> (inodes watchedFs))))
  1700000000 "root" "wheel" 18 sample_rights.

(** the same with two metadata files that are up to date *)
Definition agreedFs : FS := Eval vm_compute in mkFS
  (<[["m2"] := meta_inode (scan_backup backupFs)]> (inodes preparedFs)) 1700000000 "root" "wheel" 18 sample_rights.

(** the same after a chmod, a chown and a touch of /backup/d/f *)
Definition touchedFs : FS := Eval vm_compute in mkFS
  (alter (fun i => mkInode regular 511 "mallory" "wheel" 1650000000 (i_data i) "" 1) ["backup"; "d"; "f"]
    (inodes agreedFs)) 1700000000 "root" "wheel" 18 sample_rights.

Definition two_sha1 (d : string) : string := if bool_decide (d = "hello") then hashA else hashB.

Lemma two_sha1_text : sha1_text two_sha1.
Proof. intros d. unfold two_sha1. by case_bool_decide. Qed.

(** the files below /home, and what is left of them in /backup: the content of a
    rotted, the directory d is missing, x was added, the link l has another owner *)
Definition damagedFiles : gmap location Inode := list_to_map [
  ([], sample_inode directory 493 "" "");
  (["home"], sample_inode directory 493 "" "");
  (["home"; "a"], sample_inode regular 420 "hello" "");
  (["home"; "d"], sample_inode directory 493 "" "");
  (["home"; "d"; "b"], sample_inode regular 384 "other" "");
  (["home"; "l"], sample_inode symlink_ 511 "" "d/b");
  (["backup"], sample_inode directory 493 "" "");
  (["backup"; "a"], sample_inode regular 420 "hallo" "");
  (["backup"; "l"], mkInode symlink_ 511 "guest" "guest" 1600000000 "" "d/b" 1);
  (["backup"; "x"], sample_inode regular 420 "junk" "")].

Definition scan_two (fs : FS) (p : path) : DirectoryTree :=
  (scanDirectory two_sha1 elements (fun p => p) fs p ComputeHash emptyTree).2.

Definition damagedFs : FS := Eval vm_compute in
  let fs := mkFS damagedFiles 1700000000 "root" "wheel" 18 sample_rights in
  let m := meta_inode (scan_two fs "/home") in
  mkFS (<[["m1"] := m]> (<[["m2"] := m]> damagedFiles)) 1700000000 "root" "wheel" 18 sample_rights.

Ltac by_evaluation := apply (bool_decide_eq_true_1 _); vm_compute; reflexivity.

Lemma arranged_sample fs :
  fs = preparedFs \/ fs = agreedFs \/ fs = damagedFs \/ fs = touchedFs -> arranged (fun p => p) "/home" "/backup" "/m1" "/m2" fs.
Proof.
  intros Hfs.
  assert (Hfit : map_Forall (fun l i => storable l i = true) (inodes fs)) by (destruct Hfs as [-> | [-> | [-> | ->]]]; by_evaluation).
  assert (Htypes : map_Forall (fun (_ : location) i => kind (i_type i) <> unknown) (inodes fs))
    by (destruct Hfs as [-> | [-> | [-> | ->]]]; by_evaluation).
  assert (Hwf : fs_wf fs) by (destruct Hfs as [-> | [-> | [-> | ->]]]; by_evaluation).
  assert (Hscan : forall p, p = "/home" \/ p = "/backup" -> scannable (fun p => p) fs p).
  { intros p Hp. split; [exact Hwf|destruct Hp as [-> | ->]; reflexivity| |].
    - destruct Hfs as [-> | [-> | [-> | ->]]], Hp as [-> | ->]; vm_compute; reflexivity.
    - intros l i _ Hl. exact (Hfit l i Hl). }
  assert (Hslot : forall p, (p = "/m1" \/ p = "/m2") -> slot (fun p => p) fs p).
  { intros p Hp. destruct Hfs as [-> | [-> | [-> | ->]]], Hp as [-> | ->]; split; try (vm_compute; reflexivity);
      try (vm_compute; discriminate); eexists _, _; (split; [vm_compute; reflexivity|split; reflexivity]). }
  split; [apply Hscan; auto|apply Hscan; auto| | | | |].
  - split; by_evaluation.
  - assert (Hown : map_Forall (fun l i => ["home"] `prefix_of` l -> may_own (rights fs) (i_user i) (i_group i) = true) (inodes fs))
      by (destruct Hfs as [-> | [-> | [-> | ->]]]; by_evaluation).
    intros q i _ Hi. apply (Hown _ i Hi). by eexists.
  - intros q i _ Hi. exact (Htypes _ i Hi).
  - split; [apply Hslot; auto|apply Hslot; auto|..]; by_evaluation.
  - by_evaluation.
Qed.

Lemma watched_scannable : scannable (fun p => p) watchedFs "/backup".
Proof.
  split; [apply (bool_decide_eq_true_1 _); vm_compute; reflexivity|reflexivity|vm_compute; reflexivity|].
  assert (H : map_Forall (fun l i => storable l i = true) (inodes watchedFs)).
  { apply (bool_decide_eq_true_1 _). vm_compute. reflexivity. }
  intros l i _ Hl. exact (H l i Hl).
Qed.

Lemma watched_slots : slots (fun p => p) watchedFs "/backup" "/m1" "/m2".
Proof.
  assert (Hslot : forall p, (p = "/m1" \/ p = "/m2") -> slot (fun p => p) watchedFs p).
  { intros p [-> | ->]; split; try (vm_compute; reflexivity); try (vm_compute; discriminate);
      eexists _, _; (split; [vm_compute; reflexivity|split; reflexivity]). }
  split; [apply Hslot; auto|apply Hslot; auto|..]; apply (bool_decide_eq_true_1 _); vm_compute; reflexivity.
Qed.

Definition loaded (fs : FS) (p : path) : DirectoryTree :=
  (tree_readFrom_file (read_file (fun p => p) fs) p emptyTree).2.

Lemma sample_file_loads fs p :
  fs = watchedFs \/ fs = preparedFs \/ fs = agreedFs \/ fs = touchedFs -> p = "/m1" \/ p = "/m2" ->
  metadata_file (fun p => p) fs p (loaded fs p).
Proof. intros [-> | [-> | [-> | ->]]] [-> | ->]; (split; [vm_compute; reflexivity|..]; by_evaluation). Qed.




(** ** Scrub *)

(** C6: The command ddm scrub, without --fixup, on a backup directory whose files
    are storable (their metadata fits on a line, and none has the set-uid, set-gid
    or sticky bit, which a line does not keep), and with two metadata files that load
    as sorted trees with a hash for every regular file and that are outside of the
    directory, always ends and touches no
    file but the metadata files and their .bak versions. It returns 2 and changes
    nothing at all, or it returns 0 or 1 and leaves files with which every later
    scrub loads both metadata files, finds no difference, returns 0 and changes
    nothing: what it saved is what it had in memory. *)
Theorem scrub_settles sha1 listing order absolute rounds dir p1 p2 d t1 t2 fs inp :
  (forall x : gset string, listing x ≡ₚ elements x) -> (forall x : gset string, order x ≡ₚ elements x) ->
  sha1_text sha1 -> scannable absolute fs dir -> slots absolute fs dir p1 p2 ->
  metadata_file absolute fs p1 t1 -> metadata_file absolute fs p2 t2 ->
  scanDirectory sha1 listing absolute fs dir ComputeHash emptyTree = (Ok tt, d) -> size (bad d t1 t2) < rounds ->
  exists code fs', scrub sha1 listing order absolute rounds dir p1 p2 false (fs, inp) = (Ok code, (fs', inp)) /\
    keeps (places absolute p1 ++ places absolute p2) fs fs' /\
    ((code = 2%Z /\ fs' = fs) \/
     (code = 0%Z \/ code = 1%Z) /\
     forall rounds' inp', scrub sha1 listing order absolute rounds' dir p1 p2 false (fs', inp') = (Ok 0%Z, (fs', inp'))).
Proof.
  intros Hl Ho Hsha Hsc Hsl F1 F2 Hd Hn.
  destruct (scan_ok sha1 listing absolute Hl Hsha fs dir ComputeHash Hsc) as (d' & Hd').
  pose proof Hd' as [E _]. rewrite Hd in E. injection E as <-. by apply (scrub_ok sha1 listing order absolute Hl Ho Hsha _ _ _ _ d t1 t2).
Qed.

Lemma scrub_settles_witness :
  exists code fs', scrub const_sha1 elements elements (fun p => p) 10 "/backup" "/m1" "/m2" false (watchedFs, "") = (Ok code, (fs', "")) /\
    keeps (places (fun p => p) "/m1" ++ places (fun p => p) "/m2") watchedFs fs' /\
    ((code = 2%Z /\ fs' = watchedFs) \/
     (code = 0%Z \/ code = 1%Z) /\
     forall rounds' inp', scrub const_sha1 elements elements (fun p => p) rounds' "/backup" "/m1" "/m2" false (fs', inp')
       = (Ok 0%Z, (fs', inp'))).
Proof.
  apply (scrub_settles const_sha1 elements elements (fun p => p) 10 "/backup" "/m1" "/m2" (scan_backup watchedFs)
    (loaded watchedFs "/m1") (loaded watchedFs "/m2") watchedFs "").
  - intros x. reflexivity.
  - intros x. reflexivity.
  - exact const_sha1_text.
  - exact watched_scannable.
  - exact watched_slots.
  - apply sample_file_loads; auto.
  - apply sample_file_loads; auto.
  - vm_compute. reflexivity.
  - vm_compute. repeat constructor.
Defined.

(** ** Backup with metadata files *)





(** ** Scrub with --fixup *)




(** C7: The command ddm scrub --fixup without a source directory restores the
    attributes that the metadata files know. Let the two metadata files agree with
    each other and, in everything but permissions, owner and modification time, with
    the backup directory, let its files be storable (no set-uid, set-gid or sticky
    bits among others), the links of the metadata have permissions 0777, and its owners
    be known to the system and open to the user: an unknown one gives only a
    warning. Then the command ends in one round and asks nothing; it
    returns 0 if it found nothing to do, and 1 otherwise. All files below the backup
    directory are still there with the same content, and have the permissions, owner
    and time of the metadata. Nothing outside of it and of the metadata files was
    touched, and every later scrub returns 0. *)
Theorem scrub_restores_attributes sha1 listing order absolute rounds dir p1 p2 d t1 t2 fs inp :
  (forall x : gset string, listing x ≡ₚ elements x) -> (forall x : gset string, order x ≡ₚ elements x) ->
  sha1_text sha1 -> scannable absolute fs dir -> slots absolute fs dir p1 p2 ->
  metadata_file absolute fs p1 t1 -> metadata_file absolute fs p2 t2 -> agree all_opts (model t1) (model t2) ->
  every (fun e => ty e = symlink_ -> per e = 511%Z) (model t1) ->
  every (fun e => may_own (rights fs) (us e) (gs e) = true) (model t1) ->
  scanDirectory sha1 listing absolute fs dir ComputeHash emptyTree = (Ok tt, d) ->
  agree content_only (model d) (model t1) -> 0 < rounds ->
  exists code fs',
    scrub sha1 listing order absolute rounds dir p1 p2 true (fs, inp) = (Ok code, (fs', inp)) /\
    (code = 0%Z /\ fs' = fs \/ code = 1%Z) /\
    content_kept (inside_dst absolute dir) fs fs' /\
    (forall q e, q <> "" -> model t1 !! q = Some e ->
       exists i, inodes fs' !! (locate (absolute dir) ++ comps q) = Some i /\
         i_perm i = per e /\ i_user i = us e /\ i_group i = gs e /\ i_mtime i = mt e) /\
    (forall l, ~ locate (absolute dir) `prefix_of` l -> l ∉ places absolute p1 ++ places absolute p2 ->
       l ∉ dir_loc <$> places absolute p1 ++ places absolute p2 -> inodes fs' !! l = inodes fs !! l) /\
    (forall rounds' inp'', scrub sha1 listing order absolute rounds' dir p1 p2 false (fs', inp'') = (Ok 0%Z, (fs', inp''))).
Proof.
  intros Hl Ho Hsha Hsc Hsl F1 F2 H12 Hlk Hown Ed Hc Hn.
  destruct (scan_ok sha1 listing absolute Hl Hsha fs dir ComputeHash Hsc) as (d' & Hd).
  pose proof Hd as [E _]. rewrite Ed in E. injection E as <-.
  destruct (touch_ok sha1 listing order absolute Hl Ho Hsha dir p1 p2 rounds d t1 t2 fs inp)
    as (code & fs' & E & Hcode & [Hlater Hout] & Hck & Hat); try done.
  by exists code, fs'.
Qed.

Lemma scrub_restores_attributes_witness :
  exists fs', scrub two_sha1 elements elements (fun p => p) 1 "/backup" "/m1" "/m2" true (touchedFs, "") = (Ok 1%Z, (fs', "")) /\
    content_kept (inside_dst (fun p => p) "/backup") touchedFs fs' /\
    exists i, inodes fs' !! ["backup"; "d"; "f"] = Some i /\ i_perm i = 420%Z /\ i_user i = "root".
Proof.
  destruct (scrub_restores_attributes two_sha1 elements elements (fun p => p) 1 "/backup" "/m1" "/m2"
    (scan_two touchedFs "/backup") (loaded touchedFs "/m1") (loaded touchedFs "/m2") touchedFs "") as (code & fs' & E & _ & Hk & Hat & _).
  - intros x. reflexivity.
  - intros x. reflexivity.
  - exact two_sha1_text.
  - apply (pr_dst _ "/home" _ "/m1" "/m2"), arranged_sample; auto.
  - apply (pr_slots _ "/home"), arranged_sample; auto.
  - apply sample_file_loads; auto.
  - apply sample_file_loads; auto.
  - intros q. assert (model (loaded touchedFs "/m1") = model (loaded touchedFs "/m2")) as -> by (vm_compute; reflexivity).
    apply differ_refl.
  - apply (bool_decide_eq_true_1 (map_Forall _ _)). vm_compute. reflexivity.
  - apply (bool_decide_eq_true_1 (map_Forall _ _)). vm_compute. reflexivity.
  - vm_compute. reflexivity.
  - eapply (diff2_nil elements); [intros x; reflexivity|by_evaluation|by_evaluation|vm_compute; reflexivity].
  - lia.
  - assert (Hc : (scrub two_sha1 elements elements (fun p => p) 1 "/backup" "/m1" "/m2" true (touchedFs, "")).1 = Ok 1%Z)
      by (vm_compute; reflexivity).
    rewrite E in Hc. injection Hc as ->. exists fs'. split; [exact E|]. split; [exact Hk|].
    destruct (model (loaded touchedFs "/m1") !! "d/f") as [e|] eqn:He; [|vm_compute in He; discriminate He].
    destruct (Hat "d/f" e) as (i & Hi & Hp & Hu & _); [discriminate|exact He|].
    exists i. split; [exact Hi|]. vm_compute in He. injection He as <-. split; [exact Hp|exact Hu].
Defined.

(** ** Listing and comparing *)

(** C16: ddm ls <dir> -o <met> followed by ddm diff <dir> <met>, both with or both
    without hashes, ends with exit code 0: the list that a directory was written to
    agrees with the directory, if the list is a new file outside of it and the files
    are storable (metadata that fits on a line, no set-uid, set-gid or sticky bit).
    Only the new file is touched. *)
Theorem ls_then_diff sha1 listing order absolute rounds nohash dir met fs inp :
  (forall x : gset string, listing x ≡ₚ elements x) -> (forall x : gset string, order x ≡ₚ elements x) ->
  sha1_text sha1 -> scannable absolute fs dir -> vacant fs (locate (absolute met)) ->
  away (locate (absolute dir)) [locate (absolute met)] ->
  exists fs', main_parsed sha1 listing order absolute rounds (ls_options nohash dir met) (fs, inp) = (Ok (0%Z, ""), (fs', inp)) /\
    keeps [locate (absolute met)] fs fs' /\
    main_parsed sha1 listing order absolute rounds (diff_options nohash dir met) (fs', inp) = (Ok (0%Z, ""), (fs', inp)).
Proof.
  intros Hl Ho Hsha Hsc Hv Ha.
  destruct (ls_ok sha1 listing order absolute Hl Hsha rounds nohash dir met fs inp Hsc Hv Ha) as (fs' & d & text & E & Hk & Hr & Hd & Hload).
  exists fs'. split; [done|]. split; [done|].
  pose proof (scannable_keeps absolute _ _ _ _ Hk Ha Hsc) as Hsc'.
  by apply (diff_ok sha1 listing order absolute Ho Hsha rounds nohash dir met fs' text d inp).
Qed.

Lemma ls_then_diff_witness :
  exists fs', main_parsed const_sha1 elements elements (fun p => p) 0 (ls_options false "/backup" "/list") (watchedFs, "") = (Ok (0%Z, ""), (fs', "")) /\
    keeps [locate "/list"] watchedFs fs' /\
    main_parsed const_sha1 elements elements (fun p => p) 0 (diff_options false "/backup" "/list") (fs', "") = (Ok (0%Z, ""), (fs', "")).
Proof.
  apply (ls_then_diff const_sha1 elements elements (fun p => p) 0 false "/backup" "/list" watchedFs "").
  - intros x. reflexivity.
  - intros x. reflexivity.
  - exact const_sha1_text.
  - exact watched_scannable.
  - split; [vm_compute; reflexivity|]. split; vm_compute; reflexivity.
  - apply (bool_decide_eq_true_1 _). vm_compute. reflexivity.
Defined.

(** ** Exit codes *)




