(* ===== verification/ThmConsole.v ===== *)
(** * Theorems on the messages of the program *)

From S2P Require Import Prelude CxxPath CxxTime CxxStream Element Node Tree TreeIO Diff FileSystem MetaFiles TreeFs FsData Dated DatedFiles Backup Scrub Commands CommandsSpec Console BackupTalk ScrubTalk CommandsTalk TalkSpec TalkCommands Dialogue Announce Verdict Samples.

(** ** Sample files *)

Definition one_sha1 (d : string) : string := hashA.

(** /backup has a file that the metadata files do not know *)
Definition extraFiles : gmap location Inode := list_to_map [
  ([], sample_inode directory 493 "" "");
  (["backup"], sample_inode directory 493 "" "");
  (["backup"; "f"], sample_inode regular 420 "hello" "");
  (["backup"; "x"], sample_inode regular 420 "new" "")].

Definition extra_meta : Inode := Eval vm_compute in
  sample_inode regular 420
    (match tree_writeTo (scanDirectory one_sha1 elements (fun p => p)
             (mkFS (delete ["backup"; "x"] extraFiles) 0 "root" "wheel" 18 sample_rights) "/backup" ComputeHash emptyTree).2 with
     | Ok text => text | Err _ => "" end) "".

Definition extraFs : FS := Eval vm_compute in
  mkFS (<[["m1"] := extra_meta]> (<[["m2"] := extra_meta]> extraFiles)) 1700000000 "root" "wheel" 18 sample_rights.

Definition extra_session (answers : string) : Session := Eval vm_compute in
  match newManagerNoSource one_sha1 elements (fun p => p) extraFs "/backup" "/m1" "/m2" ComputeHash with
  | Ok m => mkSession m extraFs answers
  | Err _ => mkSession (mkManager emptyTree emptyTree emptyTree emptyTree "" "" false false false false false) extraFs answers
  end.

Example extra_scrub : (scrub_io one_sha1 elements elements (fun p => p) 3 "/backup" "/m1" "/m2" true (extraFs, "y")).1.1 = Ok 1%Z.
Proof. vm_compute. reflexivity. Qed.

(** ** Messages and effects *)

(** The messages of the program are nothing but messages. For every command line
    the program with its messages ends with the exit code, the files and the rest of
    the input of the program without them, provided that the times of all files, and
    the present time, have a year that can be printed. The assertion on the printed
    time is then never reached, whatever is in the metadata files. *)
Theorem messages_change_nothing sha1 listing order absolute parser rounds argv fs inp :
  dated_fs fs -> printable (clock fs) ->
  (main_io sha1 listing order absolute parser rounds argv (fs, inp)).1 =
  let '(r, env) := main sha1 listing order absolute parser rounds argv (fs, inp) in
  (match r with Ok (code, _) => Ok code | Err e => Err e end, env).
Proof.
  intros Hfs Hc. rewrite (main_says sha1 listing order absolute parser rounds argv fs inp Hfs Hc).
  unfold exit_code, mbind, method_bind.
  by destruct (main sha1 listing order absolute parser rounds argv (fs, inp)) as [[[code out]|e] env].
Qed.

(** a parser that knows one command line *)
Definition scrub_parser (ds : list (string * semantic)) (ps : list (string * Z)) (argv : list string)
    : outcome variables_map :=
  if bool_decide (argv = ["scrub"; "--fixup"; "/backup"; "/m1"; "/m2"])
  then Ok (<["command" := a_string "scrub"]> (<["fixup" := a_flag]> {["input" := a_strings ["/backup"; "/m1"; "/m2"]]}))
  else Err (Throw "unrecognised option").

Lemma extra_dated : dated_fs extraFs.
Proof. refine (@bool_decide_eq_true_1 _ (dated_fs_dec extraFs) _). vm_compute. reflexivity. Qed.

Lemma extra_clock : printable (clock extraFs).
Proof. refine (@bool_decide_eq_true_1 _ (printable_dec (clock extraFs)) _). vm_compute. reflexivity. Qed.

Lemma messages_change_nothing_witness :
  (main_io one_sha1 elements elements (fun p => p) scrub_parser 3 ["scrub"; "--fixup"; "/backup"; "/m1"; "/m2"] (extraFs, "y")).1 =
    (let '(r, env) := main one_sha1 elements elements (fun p => p) scrub_parser 3 ["scrub"; "--fixup"; "/backup"; "/m1"; "/m2"] (extraFs, "y") in
    (match r with Ok (code, _) => Ok code | Err e => Err e end, env)) /\
  (main_io one_sha1 elements elements (fun p => p) scrub_parser 3 ["scrub"; "--fixup"; "/backup"; "/m1"; "/m2"] (extraFs, "y")).1.1 = Ok 1%Z.
Proof.
  split; [|vm_compute; reflexivity].
  apply (messages_change_nothing one_sha1 elements elements (fun p => p) scrub_parser 3
    ["scrub"; "--fixup"; "/backup"; "/m1"; "/m2"] extraFs "y").
  - exact extra_dated.
  - exact extra_clock.
Defined.

(** ** Questions *)

(** the functions behind the commands that ask *)
Definition asking_commands sha1 listing order absolute rounds src dst m1 m2 (fixup hashAllFiles threads : bool)
    : list (spoken (FS * string) Z) :=
  [scrub_io sha1 listing order absolute rounds dst m1 m2 fixup;
   scrub_source_io sha1 listing order absolute rounds src dst m1 m2 fixup threads;
   backup_io sha1 listing order absolute rounds src dst m1 m2 fixup hashAllFiles threads;
   backup_plain_io sha1 listing absolute order src dst threads].

(** C20: In every run of scrub and backup, on any files and however it ends, an answer
    is read only right after a question, a text that ends with [y/n], was written; and
    every question is directly followed by its answer, unless it is the last thing that
    was written and the program waits forever for an answer that the input does not
    have. *)
Theorem questions_answered sha1 listing order absolute rounds src dst m1 m2 fixup hashAllFiles threads p env r env' log :
  p ∈ asking_commands sha1 listing order absolute rounds src dst m1 m2 fixup hashAllFiles threads ->
  p env = ((r, env'), log) ->
  (forall l b k, log = l ++ got b :: k -> exists l' t, l = l' ++ [wrote t] /\ asks t = true) /\
  (forall l t k, log = l ++ wrote t :: k -> asks t = true ->
     (exists b k', k = got b :: k') \/ k = [] /\ r = Err Hangs).
Proof.
  intros Hp E. assert (Hpol : Polite p).
  { revert Hp. unfold asking_commands. rewrite !elem_of_cons, elem_of_nil. intros [->|[->|[->|[->|[]]]]]; apply _. }
  destruct (Hpol env) as (o & Ho & Hh). rewrite E in Ho, Hh. cbn in Ho, Hh. split.
  - intros l b k Hl. destruct (dialogue_got _ _ _ _ _ _ Ho Hl) as [[_ [=]]|H]. exact H.
  - intros l t k Hl Ht. destruct (dialogue_asked _ _ _ _ _ _ Ho Hl Ht) as [H|[-> ->]]; auto.
Qed.

Lemma questions_answered_witness :
  exists r env' l t, scrub_io one_sha1 elements elements (fun p => p) 3 "/backup" "/m1" "/m2" true (extraFs, "q") = ((r, env'), l ++ [wrote t]) /\
    asks t = true /\ r = Err Hangs.
Proof.
  destruct (scrub_io one_sha1 elements elements (fun p => p) 3 "/backup" "/m1" "/m2" true (extraFs, "q")) as [[r env'] log] eqn:E.
  pose proof E as E'. vm_compute in E'. injection E' as Er Ee El.
  destruct (questions_answered one_sha1 elements elements (fun p => p) 3 "" "/backup" "/m1" "/m2" true true true
    (scrub_io one_sha1 elements elements (fun p => p) 3 "/backup" "/m1" "/m2" true) (extraFs, "q") r env' log) as [_ H].
  - left.
  - exact E.
  - exists r, env', (take 10 log), (default "" (text_of <$> last log)).
    assert (Hlog : log = take 10 log ++ [wrote (default "" (text_of <$> last log))]) by (rewrite <-El; reflexivity).
    split; [rewrite <-Hlog; reflexivity|].
    assert (Ht : asks (default "" (text_of <$> last log)) = true) by (rewrite <-El; vm_compute; reflexivity).
    split; [exact Ht|]. destruct (H _ _ _ Hlog Ht) as [(b & k' & [=])|[_ Hr]]. exact Hr.
Defined.

(** ** Announcements *)

(** the paths in quotes in a text *)
Fixpoint quoted_in (t : string) : list path :=
  match t with
  | "" => []
  | String c t' =>
      (if bool_decide (c = dquote) then match unquote t' with Some (q, _) => [q] | None => [] end else []) ++ quoted_in t'
  end.

Lemma mentions_quoted t q : mentions t q -> q ∈ quoted_in t.
Proof.
  intros (a & b & ->). induction a as [|c a IH].
  - rewrite app_nil_l_str. unfold put_path. rewrite app_cons_str. cbn [quoted_in].
    rewrite bool_decide_true, app_assoc_str, app_cons_str, app_nil_l_str, unquote_escape by done. left.
  - rewrite app_cons_str. cbn [quoted_in]. apply elem_of_app. by right.
Qed.

(** C19: Nothing is lost without a word. Whatever is in the trees and on the disk, and
    whatever the answers are, a scrub, and a backup with its scrub, leave a file with
    its type, its data and its link target, if no text that was written has the path
    of the file, or of a directory above it, in the backup directory. *)
Theorem nothing_lost_unannounced sha1 order absolute rounds dst fixup hashAllFiles p s r s' log top l i :
  p ∈ [scrubImpl_io order rounds fixup; backupBody_io sha1 order absolute rounds dst fixup hashAllFiles] ->
  p s = ((r, s'), log) -> topPath (dstTree (tm s)) = Some top -> inodes (disk s) !! l = Some i ->
  (forall t q, wrote t ∈ log -> mentions t q -> ~ locate (top // q) `prefix_of` l) ->
  exists i', inodes (disk s') !! l = Some i' /\ i_type i' = i_type i /\ i_data i' = i_data i /\ i_target i' = i_target i.
Proof.
  intros Hp E Ht Hi Hl. assert (Ha : Announces (fun _ => False) p).
  { revert Hp. rewrite !elem_of_cons, elem_of_nil. intros [->|[->|[]]]; apply _. }
  specialize (Ha s). rewrite E in Ha. destruct (Ha top Ht) as [_ Hk]. apply (Hk l i); [|exact Hi].
  intros q [[]|(t & H1 & H2)]. by eapply Hl.
Qed.

(** the same for the paths in quotes, by computation *)
Definition unmentioned (top : path) (l : location) (log : list event) : bool :=
  forallb (fun e => forallb (fun q => negb (bool_decide (locate (top // q) `prefix_of` l))) (quoted_in (text_of e))) log.

Lemma unmentioned_spec top l log t q :
  unmentioned top l log = true -> wrote t ∈ log -> mentions t q -> ~ locate (top // q) `prefix_of` l.
Proof.
  unfold unmentioned. rewrite forallb_forall. intros H Ht Hq. apply list_elem_of_In in Ht.
  specialize (H _ Ht). rewrite forallb_forall in H. apply mentions_quoted, list_elem_of_In in Hq.
  specialize (H _ Hq). by apply negb_true_iff, bool_decide_eq_false in H.
Qed.

Lemma nothing_lost_unannounced_witness :
  (exists i', inodes (disk (scrubImpl_io elements 3 true (extra_session "y")).1.2) !! ["backup"; "f"] = Some i' /\
     i_type i' = regular /\ i_data i' = "hello" /\ i_target i' = "") /\
  inodes (disk (scrubImpl_io elements 3 true (extra_session "y")).1.2) !! ["backup"; "x"] = None.
Proof.
  split; [|vm_compute; reflexivity].
  destruct (scrubImpl_io elements 3 true (extra_session "y")) as [[r s'] log] eqn:E.
  apply (nothing_lost_unannounced one_sha1 elements (fun p => p) 3 "/backup" true true
    (scrubImpl_io elements 3 true) (extra_session "y") r s' log "/backup" ["backup"; "f"] (sample_inode regular 420 "hello" "")).
  - left.
  - exact E.
  - vm_compute. reflexivity.
  - vm_compute. reflexivity.
  - intros t q. apply unmentioned_spec.
    change (unmentioned "/backup" ["backup"; "f"] (r, s', log).2 = true). rewrite <-E. vm_compute. reflexivity.
Defined.

(** ** Verdicts *)

(** C21: The last messages of a scrub and of a backup say what their exit code says. A
    scrub with 0 found no difference between the three trees and changed nothing; one
    with 1 says that all is repaired and has the metadata saved; one with 2 says
    that inconsistencies are left. It advises to use --fixup only if the option was
    not given, and to give a source directory only if there is none. A backup says that
    it is complete with 0, and that it found bit rot with 2. *)
Theorem verdict_told order rounds fixup src s code s' log d code' d' log' :
  scrubImpl_io order rounds fixup s = ((Ok code, s'), log) -> backupImpl_io order src d = ((Ok code', d'), log') ->
  ((exists texts, scrub_verdict fixup (srcTreePresent (tm s')) code texts /\ (wrote <$> texts) `suffix_of` log) /\
   (code = 0%Z -> s' = s /\ diff3 order (dstTree (tm s)) (meta1Tree (tm s)) (meta2Tree (tm s)) all_opts = Ok []) /\
   (code = 1%Z -> save (tm s') = true)) /\
  (exists bitrot, [wrote (backup_verdict bitrot)] `suffix_of` log' /\ code' = (if bitrot then 2 else 0)%Z).
Proof.
  intros Es Eb. split; [|by eapply backupImpl_told].
  destruct (scrubImpl_told order rounds fixup s code s' log Es) as (H & H0 & H1). split; [exact H|]. split; [|exact H1].
  intros Hc. destruct (H0 Hc) as [-> Hd]. split; [done|]. revert Hd. unfold compareTrees, checkMeta2Tree, mbind, method_bind.
  destruct (meta2TreePresent (tm s)); [|done]. by intros [= Hd].
Qed.

Lemma verdict_told_witness :
  exists code s' log code' d' log' texts,
    scrubImpl_io elements 3 false (extra_session "") = ((Ok code, s'), log) /\
    backupImpl_io elements emptyTree (mkDesk emptyTree None extraFs "") = ((Ok code', d'), log') /\
    scrub_verdict false (srcTreePresent (tm s')) code texts /\ (wrote <$> texts) `suffix_of` log /\ code = 2%Z /\ code' = 0%Z.
Proof.
  destruct (scrubImpl_io elements 3 false (extra_session "")) as [[[code|e] s'] log] eqn:E; [|vm_compute in E; discriminate E].
  destruct (backupImpl_io elements emptyTree (mkDesk emptyTree None extraFs "")) as [[[code'|e] d'] log'] eqn:E';
    [|vm_compute in E'; discriminate E'].
  destruct (verdict_told elements 3 false emptyTree (extra_session "") code s' log
    (mkDesk emptyTree None extraFs "") code' d' log' E E') as [((texts & Ht & Hl) & _ & _) _].
  exists code, s', log, code', d', log', texts. split; [reflexivity|]. split; [reflexivity|].
  split; [exact Ht|]. split; [exact Hl|].
  split; [clear -E; vm_compute in E; injection E as <- _ _; reflexivity|].
  clear -E'. vm_compute in E'. injection E' as <- _ _. reflexivity.
Defined.
